(** * YAJBE codec (C implementation): a shallow embedding and its properties

    The development follows the C sources: [bytes-writer.c], [bytes-reader.c],
    [fields-encoder.c], [fields-decoder.c], [yajbe-encoder.c],
    [yajbe-decoder.c] and the test drivers of [tests/test-field.c].

    Conventions of the embedding.
    - C integers are [Z]; a narrowing or wrapping conversion is written out
      ([uint32], [uint64], [int64]).
    - A byte array is a [list Z] of values in [0, 256); a position in it is a
      [Z], turned into a list position by [Z.to_nat].
    - An [int *] / [int64_t *] out-parameter is an [option Z] cell: [None] is
      an indeterminate (never written) value.
    - Behaviour that C leaves undefined (a read outside an object, the use of
      an indeterminate value) is the explicit result [Fault].
    - Objects are smaller than 2^31 bytes, so a length keeps its value when
      the code passes it between [size_t] and [int].
    - Struct members keep their C names behind a prefix for the struct
      ([w_], [r_], [fe_], [enc_], [dec_], [f_]), since several structs have
      members of the same name. *)

From Stdlib Require Import ZArith Lia List Bool String Ascii.
From stdpp Require Import base tactics option list.

Open Scope Z_scope.

(** * The model *)

(** ** C integer conversions *)

Definition uint32 (x : Z) : Z := x mod 2 ^ 32.
Definition uint64 (x : Z) : Z := x mod 2 ^ 64.
Definition int64 (x : Z) : Z := (x + 2 ^ 63) mod 2 ^ 64 - 2 ^ 63.

(** [<errno.h>] values (Linux). *)
Definition ENOSPC : Z := 28.
Definition EINVAL : Z := 22.

(** ** Results of code that may leave defined behaviour *)

Inductive outcome (A : Type) : Type :=
| Done (a : A)   (* the call returns *)
| Fault          (* undefined behaviour *)
| Loops.         (* the call does not return *)
Arguments Done {A} a.
Arguments Fault {A}.
Arguments Loops {A}.

#[global] Instance outcome_ret : MRet outcome := fun _ a => Done a.
#[global] Instance outcome_bind : MBind outcome :=
  fun _ _ f m => match m with Done a => f a | Fault => Fault | Loops => Loops end.
#[global] Instance outcome_fmap : FMap outcome :=
  fun _ _ f m => match m with Done a => Done (f a) | Fault => Fault | Loops => Loops end.

(** The value of an out-parameter that the callee must have written. *)
Definition written {A} (c : option A) : outcome A :=
  match c with Some a => Done a | None => Fault end.

(** ** Byte arrays *)

(** [buf[i]] for an [i] inside the array. *)
Definition byte_at (buf : list Z) (i : Z) : Z := default 0 (buf !! Z.to_nat i).

(** [buf[i] = v]. *)
Definition byte_set (buf : list Z) (i : Z) (v : Z) : list Z := <[Z.to_nat i := v]> buf.

(** The [len] bytes at [obj + off], when that range lies inside [obj]. *)
Definition mem_range (obj : list Z) (off len : Z) : option (list Z) :=
  if decide (0 <= off /\ 0 <= len /\ off + len <= Z.of_nat (length obj))
  then Some (take (Z.to_nat len) (drop (Z.to_nat off) obj))
  else None.

(** [memcpy (dst + off, src, length src)] for a destination range inside [dst]. *)
Definition mem_store (dst : list Z) (off : Z) (src : list Z) : list Z :=
  take (Z.to_nat off) dst ++ src ++ drop (Z.to_nat off + length src) dst.

(** [(value >> 8 * k) & 0xff]. *)
Definition byte_of (value k : Z) : Z := Z.land (Z.shiftr value (8 * k)) 255.
Arguments byte_of : simpl never.

(** The bytes of [value], least significant first. *)
Definition le_bytes (value : Z) (width : nat) : list Z :=
  map (fun k => byte_of value (Z.of_nat k)) (seq 0 width).

(** ** bytes-writer.c: the in-memory writer *)

Record z_mem_bytes_writer_t : Type := mk_writer {
  w_buffer : list Z;
  w_bufsize : Z;
  w_offset : Z
}.

Definition z_mem_bytes_writer_init_fixed (buffer : list Z) (bufsize : Z) : z_mem_bytes_writer_t :=
  {| w_buffer := buffer; w_bufsize := bufsize; w_offset := 0 |}.

(** [z_mem_bytes_writer_length]. *)
Definition z_mem_bytes_writer_length (self : z_mem_bytes_writer_t) : Z := w_offset self.

Definition __mem_bytes_writer_write_byte (self : z_mem_bytes_writer_t) (v : Z)
  : Z * z_mem_bytes_writer_t :=
  if w_bufsize self <? w_offset self + 1 then (- ENOSPC, self)
  else (0, {| w_buffer := byte_set (w_buffer self) (w_offset self) (Z.land v 255);
              w_bufsize := w_bufsize self;
              w_offset := w_offset self + 1 |}).

(** One rung of the fall-through [switch (width)]: [case k] runs when the
    switch entered at a label [width] with [k <= width <= 8]. *)
Definition stamp (off value width : Z) (k : Z) (buf : list Z) : list Z :=
  if (k <=? width) && (width <=? 8)
  then byte_set buf (off + (k - 1)) (byte_of value (k - 1))
  else buf.

Definition __mem_bytes_writer_write_uint (self : z_mem_bytes_writer_t) (value width : Z)
  : Z * z_mem_bytes_writer_t :=
  let off := w_offset self in
  if w_bufsize self <? w_offset self + width then (- ENOSPC, self)
  else
    let buf := w_buffer self in
    let buf := stamp off value width 8 buf in
    let buf := stamp off value width 7 buf in
    let buf := stamp off value width 6 buf in
    let buf := stamp off value width 5 buf in
    let buf := stamp off value width 4 buf in
    let buf := stamp off value width 3 buf in
    let buf := stamp off value width 2 buf in
    let buf := stamp off value width 1 buf in
    (0, {| w_buffer := buf; w_bufsize := w_bufsize self; w_offset := w_offset self + width |}).

(** [write_bytes (self, buf + base, length)]: the space check comes first, so
    a full writer reads nothing; otherwise [memcpy] reads [length] bytes at
    [buf + base], which must lie inside the object [buf]. *)
Definition __mem_bytes_writer_write_bytes (self : z_mem_bytes_writer_t)
    (buf : list Z) (base length : Z) : outcome (Z * z_mem_bytes_writer_t) :=
  if w_bufsize self <? w_offset self + length then Done (- ENOSPC, self)
  else
    src ← written (mem_range buf base length);
    Done (0, {| w_buffer := mem_store (w_buffer self) (w_offset self) src;
                w_bufsize := w_bufsize self;
                w_offset := w_offset self + length |}).

(** The vtable of the in-memory writer is the only one of the repository. *)
Definition z_bytes_writer_write_u8 := __mem_bytes_writer_write_byte.
Definition z_bytes_writer_write_uint := __mem_bytes_writer_write_uint.
Definition z_bytes_writer_write := __mem_bytes_writer_write_bytes.

(** The bytes written so far: [buffer[0 .. offset)]. *)
Definition writer_bytes (self : z_mem_bytes_writer_t) : list Z :=
  take (Z.to_nat (w_offset self)) (w_buffer self).

(** ** bytes-reader.c: the in-memory reader *)

Record z_mem_bytes_reader_t : Type := mk_reader {
  r_buffer : list Z;
  r_bufsize : Z;
  r_offset : Z
}.

Definition z_mem_bytes_reader_init (buffer : list Z) (bufsize : Z) : z_mem_bytes_reader_t :=
  {| r_buffer := buffer; r_bufsize := bufsize; r_offset := 0 |}.

Definition reader_advance (self : z_mem_bytes_reader_t) (n : Z) : z_mem_bytes_reader_t :=
  {| r_buffer := r_buffer self; r_bufsize := r_bufsize self; r_offset := r_offset self + n |}.

(** Each read returns the code, the reader and what it stored through the
    out-pointer ([None]: nothing was stored).  The space checks of
    [read_byte], [read_uint] and [read_bytes] add in [Z]: that is the
    [size_t] sum of the C code as long as it stays below 2^64. *)
Definition __mem_bytes_reader_read_byte (self : z_mem_bytes_reader_t)
  : Z * z_mem_bytes_reader_t * option Z :=
  if r_bufsize self <? r_offset self + 1 then (- ENOSPC, self, None)
  else (0, reader_advance self 1, Some (Z.land (byte_at (r_buffer self) (r_offset self)) 255)).

(** One rung of the reader's fall-through ladder:
    [result |= (buf[off + k - 1] & 0xFFL) << 8 * (k - 1)] in [int64_t]. *)
Definition gather (buf : list Z) (off width : Z) (k : Z) (result : Z) : Z :=
  if (k <=? width) && (width <=? 8)
  then int64 (Z.lor result (Z.shiftl (Z.land (byte_at buf (off + (k - 1))) 255) (8 * (k - 1))))
  else result.

Definition __mem_bytes_reader_read_uint (self : z_mem_bytes_reader_t) (width : Z)
  : Z * z_mem_bytes_reader_t * option Z :=
  let off := r_offset self in
  if r_bufsize self <? r_offset self + width then (- ENOSPC, self, None)
  else
    let buf := r_buffer self in
    let result := 0 in
    let result := gather buf off width 8 result in
    let result := gather buf off width 7 result in
    let result := gather buf off width 6 result in
    let result := gather buf off width 5 result in
    let result := gather buf off width 4 result in
    let result := gather buf off width 3 result in
    let result := gather buf off width 2 result in
    let result := gather buf off width 1 result in
    (0, reader_advance self width, Some result).

(** [read_bytes]: the bytes copied into the caller's buffer ([None]: no copy). *)
Definition __mem_bytes_reader_read_bytes (self : z_mem_bytes_reader_t) (length : Z)
  : Z * z_mem_bytes_reader_t * option (list Z) :=
  if r_bufsize self <? r_offset self + length then (- ENOSPC, self, None)
  else (0, reader_advance self length,
        Some (take (Z.to_nat length) (drop (Z.to_nat (r_offset self)) (r_buffer self)))).

Definition z_bytes_reader_read_u8 := __mem_bytes_reader_read_byte.
Definition z_bytes_reader_read_uint := __mem_bytes_reader_read_uint.
Definition z_bytes_reader_read := __mem_bytes_reader_read_bytes.

(** A [z_bytes_slice_t].  Its [buffer] is a pointer into an object: the
    object and the offset of the pointer in it. *)
Record z_bytes_slice_t : Type := mk_slice {
  sl_buffer : list Z * Z;
  sl_length : Z
}.

(** [read_slice]: the slice stored through the out-pointer ([None]: nothing
    was stored); it points into the reader's own buffer.  The sum of the
    space check and the new offset are computed in [size_t]: they wrap at
    2^64. *)
Definition __mem_bytes_reader_read_slice (self : z_mem_bytes_reader_t) (length : Z)
  : Z * z_mem_bytes_reader_t * option z_bytes_slice_t :=
  if r_bufsize self <? uint64 (r_offset self + length) then (- ENOSPC, self, None)
  else (0, {| r_buffer := r_buffer self; r_bufsize := r_bufsize self;
              r_offset := uint64 (r_offset self + length) |},
        Some {| sl_buffer := (r_buffer self, r_offset self); sl_length := length |}).

Definition z_bytes_reader_read_slice := __mem_bytes_reader_read_slice.

(** ** fields-encoder.c *)

(** Modelled from the spec: [util.h] is not among the sources; [Z_MIN] is the
    minimum that clamps a prefix or suffix length to 255. *)
Definition Z_MIN (a b : Z) : Z := if a <? b then a else b.

Record yajbe_field_encoder_entry_t : Type := mk_entry {
  fe_name : option (list Z);   (* const char *name: NULL or the key's bytes *)
  fe_length : Z;
  fe_hash : Z;
  fe_index : Z
}.

Record yajbe_field_encoder_t : Type := mk_field_encoder {
  enc_entries : list yajbe_field_encoder_entry_t;
  enc_entries_size : Z;
  enc_entries_count : Z;
  last_key : option (list Z);
  last_keylen : Z
}.

Definition __field_name_entry_set (index hash : Z) (key : list Z) (keylen : Z)
  : yajbe_field_encoder_entry_t :=
  {| fe_name := Some key; fe_length := keylen; fe_hash := hash; fe_index := index |}.

(** [memcmp (a, b, n) == 0]. *)
Definition memcmp_eq (a b : list Z) (n : Z) : bool :=
  bool_decide (take (Z.to_nat n) a = take (Z.to_nat n) b).

Definition __field_name_entry_equals (self : yajbe_field_encoder_entry_t)
    (hash : Z) (key : list Z) (keylen : Z) : bool :=
  (fe_hash self =? hash) && (fe_length self =? keylen)
  && match fe_name self with
     | Some name => memcmp_eq name key keylen
     | None => false
     end.

(** The value of a [char] holding byte [b] ([char] is signed on the hosts the
    tests run on). *)
Definition char_value (b : Z) : Z := if b <? 128 then b else b - 256.

Definition __hash_fnv_1a (key : list Z) (length : Z) : Z :=
  fold_left (fun hash c => uint32 (Z.lxor hash (uint32 (char_value c)) * 0x811C9DC5))
            (take (Z.to_nat length) key) 0x811c9dc5.

(** The all-zero entry left by [memset]. *)
Definition zero_entry : yajbe_field_encoder_entry_t :=
  {| fe_name := None; fe_length := 0; fe_hash := 0; fe_index := 0 |}.

(** The caller's array of [entries_size] entries is zeroed as a whole. *)
Definition yajbe_field_encoder_init_fixed (entries_size : Z) : yajbe_field_encoder_t :=
  {| enc_entries := replicate (Z.to_nat entries_size) zero_entry;
     enc_entries_size := entries_size;
     enc_entries_count := 0;
     last_key := None;
     last_keylen := 0 |}.

(** The [while] loop of [yajbe_field_encoder_hadd]: [inl] is the index of an
    equal entry, [inr] the empty slot the probe stopped at.  There are at most
    [entries_size] slots [hindex & mask], so a probe that has looked at
    [entries_size] of them without stopping looks at one again and never
    stops: the fuel [entries_size] is exact. *)
Fixpoint hadd_probe (fuel : nat) (entries : list yajbe_field_encoder_entry_t)
    (mask hindex khash : Z) (key : list Z) (keylen : Z) : outcome (Z + Z) :=
  match fuel with
  | O => Loops
  | S fuel' =>
      entry ← written (entries !! Z.to_nat hindex);
      match fe_name entry with
      | None => Done (inr hindex)
      | Some _ =>
          if __field_name_entry_equals entry khash key keylen
          then Done (inl (fe_index entry))
          else hadd_probe fuel' entries mask (Z.land (hindex + 1) mask) khash key keylen
      end
  end.

Definition yajbe_field_encoder_hadd (self : yajbe_field_encoder_t)
    (khash : Z) (key : list Z) (keylen : Z) : outcome (Z * yajbe_field_encoder_t) :=
  if enc_entries_count self =? enc_entries_size self then Done (- ENOSPC, self)
  else
    let mask := uint64 (enc_entries_size self - 1) in
    let hindex := Z.land khash mask in
    slot ← hadd_probe (Z.to_nat (enc_entries_size self)) (enc_entries self)
                      mask hindex khash key keylen;
    match slot with
    | inl index => Done (index, self)
    | inr hindex =>
        let index := enc_entries_count self in
        Done (index,
              {| enc_entries := <[Z.to_nat hindex :=
                                    __field_name_entry_set index khash key keylen]>
                                  (enc_entries self);
                 enc_entries_size := enc_entries_size self;
                 enc_entries_count := enc_entries_count self + 1;
                 last_key := last_key self;
                 last_keylen := last_keylen self |})
    end.

(** The [for] loop of [yajbe_field_encoder_hget], [n] iterations left. *)
Fixpoint hget_probe (n : nat) (entries : list yajbe_field_encoder_entry_t)
    (mask hindex khash : Z) (key : list Z) (keylen : Z) : outcome Z :=
  match n with
  | O => Done (-1)
  | S n' =>
      entry ← written (entries !! Z.to_nat hindex);
      match fe_name entry with
      | None => Done (-1)
      | Some _ =>
          if __field_name_entry_equals entry khash key keylen
          then Done (fe_index entry)
          else hget_probe n' entries mask (Z.land (hindex + 1) mask) khash key keylen
      end
  end.

Definition yajbe_field_encoder_hget (self : yajbe_field_encoder_t)
    (khash : Z) (key : list Z) (keylen : Z) : outcome Z :=
  let mask := uint64 (enc_entries_size self - 1) in
  let hindex := Z.land khash mask in
  hget_probe (Z.to_nat (enc_entries_size self)) (enc_entries self)
             mask hindex khash key keylen.

Definition yajbe_field_encoder_add (self : yajbe_field_encoder_t) (key : list Z) (keylen : Z)
  : outcome (Z * yajbe_field_encoder_t) :=
  let khash := __hash_fnv_1a key keylen in
  yajbe_field_encoder_hadd self khash key keylen.

Definition yajbe_field_encoder_get (self : yajbe_field_encoder_t) (key : list Z) (keylen : Z)
  : outcome Z :=
  let khash := __hash_fnv_1a key keylen in
  yajbe_field_encoder_hget self khash key keylen.

(** The loop of [__prefix], from [i] with [n] iterations left. *)
Fixpoint __prefix_loop (last_key key : list Z) (len : Z) (n : nat) (i : Z) : Z :=
  match n with
  | O => len
  | S n' =>
      if negb (byte_at last_key i =? byte_at key i) then i
      else __prefix_loop last_key key len n' (i + 1)
  end.

Definition __prefix (self : yajbe_field_encoder_t) (key : list Z) (keylen : Z) : Z :=
  let last_key := default [] (last_key self) in
  let len := Z_MIN (last_keylen self) keylen in
  __prefix_loop last_key key len (Z.to_nat len) 0.

(** The loop of [__suffix], which starts at [i = 1] and runs while [i < len]. *)
Fixpoint __suffix_loop (last_key key : list Z) (last_keylen keylen len : Z)
    (n : nat) (i : Z) : Z :=
  match n with
  | O => len
  | S n' =>
      if negb (byte_at last_key (last_keylen - i) =? byte_at key (keylen - i)) then i - 1
      else __suffix_loop last_key key last_keylen keylen len n' (i + 1)
  end.

(** [keylen] is what the caller passes, the key length less the prefix; [key]
    is the unshifted key pointer and [prefix] is not used by the body. *)
Definition __suffix (self : yajbe_field_encoder_t) (key : list Z) (prefix keylen : Z) : Z :=
  let last_key := default [] (last_key self) in
  let last_keylen := last_keylen self in
  let len := Z_MIN last_keylen keylen in
  __suffix_loop last_key key last_keylen keylen len (Z.to_nat (len - 1)) 1.

(** The results of the writes are dropped, as in the source. *)
Definition __write_length (writer : z_mem_bytes_writer_t) (head length : Z)
  : Z * z_mem_bytes_writer_t :=
  if length <? 30 then
    (0, (z_bytes_writer_write_u8 writer (Z.lor head length)).2)
  else if length <=? 284 then
    let writer := (z_bytes_writer_write_u8 writer (Z.lor head 0x1e)).2 in
    (0, (z_bytes_writer_write_u8 writer (Z.land (length - 29) 0xff)).2)
  else if length <=? 65819 then
    let writer := (z_bytes_writer_write_u8 writer (Z.lor head 0x1f)).2 in
    let writer := (z_bytes_writer_write_u8 writer ((length - 284) / 256)).2 in
    (0, (z_bytes_writer_write_u8 writer (Z.land (length - 284) 255)).2)
  else (-1, writer).

Definition __encode_indexed_field (writer : z_mem_bytes_writer_t) (field_index : Z)
  : Z * z_mem_bytes_writer_t :=
  __write_length writer 0xa0 field_index.

Definition __encode_prefix (writer : z_mem_bytes_writer_t) (key : list Z) (keylen prefix : Z)
  : outcome (Z * z_mem_bytes_writer_t) :=
  let length := uint64 (keylen - prefix) in
  let writer := (__write_length writer 0xc0 length).2 in
  let writer := (z_bytes_writer_write_u8 writer prefix).2 in
  '(_, writer) ← z_bytes_writer_write writer key prefix length;
  Done (0, writer).

Definition __encode_prefix_suffix (writer : z_mem_bytes_writer_t) (key : list Z)
    (keylen prefix suffix : Z) : outcome (Z * z_mem_bytes_writer_t) :=
  let length := uint64 (keylen - prefix - suffix) in
  let writer := (__write_length writer 0xe0 length).2 in
  let writer := (z_bytes_writer_write_u8 writer prefix).2 in
  let writer := (z_bytes_writer_write_u8 writer suffix).2 in
  '(_, writer) ← z_bytes_writer_write writer key prefix (uint64 (keylen - suffix));
  Done (0, writer).

Definition __encode_full_field_name (writer : z_mem_bytes_writer_t) (key : list Z) (keylen : Z)
  : outcome (Z * z_mem_bytes_writer_t) :=
  let writer := (__write_length writer 0x80 keylen).2 in
  '(_, writer) ← z_bytes_writer_write writer key 0 keylen;
  Done (0, writer).

Definition set_last_key (self : yajbe_field_encoder_t) (key : list Z) (keylen : Z)
  : yajbe_field_encoder_t :=
  {| enc_entries := enc_entries self;
     enc_entries_size := enc_entries_size self;
     enc_entries_count := enc_entries_count self;
     last_key := Some key;
     last_keylen := keylen |}.

Definition yajbe_field_hencode (self : yajbe_field_encoder_t) (writer : z_mem_bytes_writer_t)
    (khash : Z) (key : list Z) (keylen : Z)
  : outcome (Z * yajbe_field_encoder_t * z_mem_bytes_writer_t) :=
  index ← yajbe_field_encoder_hget self khash key keylen;
  if 0 <=? index then
    let self := set_last_key self key keylen in
    let '(r, writer) := __encode_indexed_field writer index in
    Done (r, self, writer)
  else
    '(_, writer) ←
      (if bool_decide (last_key self <> None) && (4 <? last_keylen self) then
         let prefix := Z_MIN 0xff (__prefix self key keylen) in
         let suffix := __suffix self key prefix (uint64 (keylen - prefix)) in
         if 2 <? suffix then
           __encode_prefix_suffix writer key keylen prefix (Z_MIN 0xff suffix)
         else if 2 <? prefix then
           __encode_prefix writer key keylen prefix
         else
           __encode_full_field_name writer key keylen
       else
         __encode_full_field_name writer key keylen);
    '(_, self) ← yajbe_field_encoder_hadd self khash key keylen;
    Done (0, set_last_key self key keylen, writer).

Definition yajbe_field_encode (self : yajbe_field_encoder_t) (writer : z_mem_bytes_writer_t)
    (key : list Z) (keylen : Z)
  : outcome (Z * yajbe_field_encoder_t * z_mem_bytes_writer_t) :=
  let khash := __hash_fnv_1a key keylen in
  yajbe_field_hencode self writer khash key keylen.

(** ** fields-decoder.c *)

(** [name] points into the name arena of the decoder: [Some o] is
    [buffer + o], [None] is [NULL]. *)
Record yajbe_field_t : Type := mk_field {
  f_name : option Z;
  f_length : Z
}.

(** A [yajbe_field_t *]: [NULL] or the address of [entries[i]]. *)
Inductive field_ptr : Type :=
| NullField
| EntryPtr (i : Z).

(** [entries] is the caller's array, [None] marking a slot never written. *)
Record yajbe_field_decoder_t : Type := mk_field_decoder {
  dec_entries : list (option yajbe_field_t);
  dec_entries_size : Z;
  dec_entries_count : Z;
  dec_buffer : list Z;
  dec_buf_size : Z;
  dec_buf_off : Z;
  last_field : yajbe_field_t
}.

Definition __field_decoder_set_last_key (self : yajbe_field_decoder_t) (field : yajbe_field_t)
  : yajbe_field_decoder_t :=
  {| dec_entries := dec_entries self;
     dec_entries_size := dec_entries_size self;
     dec_entries_count := dec_entries_count self;
     dec_buffer := dec_buffer self;
     dec_buf_size := dec_buf_size self;
     dec_buf_off := dec_buf_off self;
     last_field := {| f_name := f_name field; f_length := f_length field |} |}.

(** The decoder with another arena content. *)
Definition set_arena (self : yajbe_field_decoder_t) (buffer : list Z) : yajbe_field_decoder_t :=
  {| dec_entries := dec_entries self;
     dec_entries_size := dec_entries_size self;
     dec_entries_count := dec_entries_count self;
     dec_buffer := buffer;
     dec_buf_size := dec_buf_size self;
     dec_buf_off := dec_buf_off self;
     last_field := last_field self |}.

(** [entries[i]] as an lvalue inside the array. *)
Definition slot_in_array (entries : list (option yajbe_field_t)) (i : Z) : bool :=
  (0 <=? i) && (i <? Z.of_nat (length entries)).

(** Returns the new entry's address (or [NULL]) and the entry itself. *)
Definition __field_next_entry (self : yajbe_field_decoder_t) (length : Z)
  : outcome (field_ptr * yajbe_field_decoder_t) :=
  if dec_buf_size self <? dec_buf_off self + length then Done (NullField, self)
  else
    let i := dec_entries_count self in
    if slot_in_array (dec_entries self) i then
      let field := {| f_name := Some (dec_buf_off self); f_length := length |} in
      Done (EntryPtr i,
            {| dec_entries := <[Z.to_nat i := Some field]> (dec_entries self);
               dec_entries_size := dec_entries_size self;
               dec_entries_count := dec_entries_count self + 1;
               dec_buffer := dec_buffer self;
               dec_buf_size := dec_buf_size self;
               dec_buf_off := dec_buf_off self + length;
               last_field := last_field self |})
    else Fault.

(** The arena and the entry array hold whatever the caller's storage held. *)
Definition yajbe_field_decoder_init_fixed (entries_size : Z) (buffer : list Z) (bufsize : Z)
  : yajbe_field_decoder_t :=
  {| dec_entries := replicate (Z.to_nat entries_size) None;
     dec_entries_size := entries_size;
     dec_entries_count := 0;
     dec_buffer := buffer;
     dec_buf_size := bufsize;
     dec_buf_off := 0;
     last_field := {| f_name := None; f_length := 0 |} |}.

(** The read results are not checked: the locals [v] and [buf] are used
    whether or not the reader stored anything in them. *)
Definition __read_length (reader : z_mem_bytes_reader_t) (head : Z)
  : outcome (Z * z_mem_bytes_reader_t) :=
  let length := Z.land head 0x1f in
  if length <? 30 then Done (length, reader)
  else if length =? 30 then
    let '(_, reader, v) := z_bytes_reader_read_u8 reader in
    v ← written v;
    Done (29 + v, reader)
  else
    let '(_, reader, buf) := z_bytes_reader_read reader 2 in
    buf ← written buf;
    Done (284 + 256 * Z.land (byte_at buf 0) 0xff + Z.land (byte_at buf 1) 0xff, reader).

(** [z_bytes_reader_read (reader, buffer + at, length)] into the arena, the
    result dropped: a failed read leaves the arena as it is. *)
Definition read_into_arena (self : yajbe_field_decoder_t) (reader : z_mem_bytes_reader_t)
    (at_ length : Z) : yajbe_field_decoder_t * z_mem_bytes_reader_t :=
  let '(_, reader, data) := z_bytes_reader_read reader length in
  match data with
  | Some data => (set_arena self (mem_store (dec_buffer self) at_ data), reader)
  | None => (self, reader)
  end.

(** [memcpy (buffer + dst, src, n)] with [src] a pointer into the arena: the
    source must not be [NULL], must lie inside the arena and must not overlap
    the destination. *)
Definition arena_memcpy (self : yajbe_field_decoder_t) (dst : Z) (src : option Z) (n : Z)
  : outcome yajbe_field_decoder_t :=
  src ← written src;
  data ← written (mem_range (dec_buffer self) src n);
  if (src + n <=? dst) || (dst + n <=? src)
  then Done (set_arena self (mem_store (dec_buffer self) dst data))
  else Fault.

Definition __read_full_field_name (self : yajbe_field_decoder_t)
    (reader : z_mem_bytes_reader_t) (head : Z)
  : outcome (Z * yajbe_field_decoder_t * z_mem_bytes_reader_t * option field_ptr) :=
  if dec_entries_count self =? dec_entries_size self then Done (- ENOSPC, self, reader, None)
  else
    '(length, reader) ← __read_length reader head;
    '(field, self) ← __field_next_entry self length;
    match field with
    | NullField => Done (- ENOSPC, self, reader, Some NullField)
    | EntryPtr i =>
        entry ← written (mjoin (dec_entries self !! Z.to_nat i));
        name ← written (f_name entry);
        let '(self, reader) := read_into_arena self reader name length in
        Done (0, __field_decoder_set_last_key self entry, reader, Some field)
    end.

Definition __read_indexed_field_name (self : yajbe_field_decoder_t)
    (reader : z_mem_bytes_reader_t) (head : Z)
  : outcome (Z * yajbe_field_decoder_t * z_mem_bytes_reader_t * option field_ptr) :=
  '(index, reader) ← __read_length reader head;
  (* *field = &(self->entries[index]), then read through it *)
  entry ← written (mjoin (dec_entries self !! Z.to_nat index));
  Done (0, __field_decoder_set_last_key self entry, reader, Some (EntryPtr index)).

Definition __read_prefix (self : yajbe_field_decoder_t)
    (reader : z_mem_bytes_reader_t) (head : Z)
  : outcome (Z * yajbe_field_decoder_t * z_mem_bytes_reader_t * option field_ptr) :=
  if dec_entries_count self =? dec_entries_size self then Done (- ENOSPC, self, reader, None)
  else
    '(length, reader) ← __read_length reader head;
    let '(_, reader, prefix) := z_bytes_reader_read_u8 reader in
    prefix ← written prefix;
    '(field, self) ← __field_next_entry self (prefix + length);
    match field with
    | NullField => Done (- ENOSPC, self, reader, Some NullField)
    | EntryPtr i =>
        entry ← written (mjoin (dec_entries self !! Z.to_nat i));
        name ← written (f_name entry);
        self ← arena_memcpy self name (f_name (last_field self)) prefix;
        let name := name + prefix in
        let '(self, reader) := read_into_arena self reader name length in
        Done (0, __field_decoder_set_last_key self entry, reader, Some field)
    end.

Definition __read_prefix_suffix (self : yajbe_field_decoder_t)
    (reader : z_mem_bytes_reader_t) (head : Z)
  : outcome (Z * yajbe_field_decoder_t * z_mem_bytes_reader_t * option field_ptr) :=
  if dec_entries_count self =? dec_entries_size self then Done (- ENOSPC, self, reader, None)
  else
    '(length, reader) ← __read_length reader head;
    let '(_, reader, delta) := z_bytes_reader_read reader 2 in
    delta ← written delta;
    let delta0 := byte_at delta 0 in
    let delta1 := byte_at delta 1 in
    '(field, self) ← __field_next_entry self (delta0 + delta1 + length);
    match field with
    | NullField => Done (- ENOSPC, self, reader, Some NullField)
    | EntryPtr i =>
        entry ← written (mjoin (dec_entries self !! Z.to_nat i));
        name ← written (f_name entry);
        self ← arena_memcpy self name (f_name (last_field self)) delta0;
        let name := name + delta0 in
        let '(self, reader) := read_into_arena self reader name length in
        let name := name + length in
        self ← arena_memcpy self name
                 ((fun p => p + f_length (last_field self) - delta1) <$> f_name (last_field self))
                 delta1;
        Done (0, __field_decoder_set_last_key self entry, reader, Some field)
    end.

Definition yajbe_field_decode (self : yajbe_field_decoder_t) (reader : z_mem_bytes_reader_t)
  : outcome (Z * yajbe_field_decoder_t * z_mem_bytes_reader_t * option field_ptr) :=
  let '(_, reader, head) := z_bytes_reader_read_u8 reader in
  head ← written head;
  let family := Z.land (Z.shiftr head 5) 0x7 in
  if family =? 4 (* 0b100 *) then __read_full_field_name self reader head
  else if family =? 5 (* 0b101 *) then __read_indexed_field_name self reader head
  else if family =? 6 (* 0b110 *) then __read_prefix self reader head
  else if family =? 7 (* 0b111 *) then __read_prefix_suffix self reader head
  else Done (-1, self, reader, None).

(** [field->name[0 .. field->length)] for a field pointer the decoder returned. *)
Definition field_bytes (self : yajbe_field_decoder_t) (field : option field_ptr)
  : option (list Z) :=
  match field with
  | Some (EntryPtr i) =>
      entry ← mjoin (dec_entries self !! Z.to_nat i);
      name ← f_name entry;
      mem_range (dec_buffer self) name (f_length entry)
  | _ => None
  end.

(** ** tests/test-field.c: the drivers *)

(** The bytes of a string literal. *)
Definition str (s : string) : list Z :=
  map (fun a => Z.of_N (N_of_ascii a)) (list_ascii_of_string s).

Definition strlen (key : list Z) : Z := Z.of_nat (List.length key).

(** The loop of [encode_fields]: each key goes through [yajbe_field_encode];
    the results of the calls are collected. *)
Fixpoint encode_loop (fields : list (list Z)) (field_encoder : yajbe_field_encoder_t)
    (writer : z_mem_bytes_writer_t)
  : outcome (list Z * yajbe_field_encoder_t * z_mem_bytes_writer_t) :=
  match fields with
  | [] => Done ([], field_encoder, writer)
  | key :: rest =>
      '(r, field_encoder, writer) ← yajbe_field_encode field_encoder writer key (strlen key);
      '(rs, field_encoder, writer) ← encode_loop rest field_encoder writer;
      Done (r :: rs, field_encoder, writer)
  end.

(** [encode_fields]: the encoded bytes [buffer[0 .. writer.offset)]. *)
Definition encode_fields (fields : list (list Z)) (entries_size : Z) (buffer : list Z)
  : outcome (list Z) :=
  let writer := z_mem_bytes_writer_init_fixed buffer (Z.of_nat (List.length buffer)) in
  let field_encoder := yajbe_field_encoder_init_fixed entries_size in
  '(_, _, writer) ← encode_loop fields field_encoder writer;
  Done (writer_bytes writer).

(** The loop of [decode_fields]: [n] calls of [yajbe_field_decode], the keys
    read through the returned field pointers collected. *)
Fixpoint decode_loop (n : nat) (field_decoder : yajbe_field_decoder_t)
    (reader : z_mem_bytes_reader_t) : outcome (list (option (list Z))) :=
  match n with
  | O => Done []
  | S n' =>
      '(_, field_decoder, reader, field) ← yajbe_field_decode field_decoder reader;
      let key := field_bytes field_decoder field in
      keys ← decode_loop n' field_decoder reader;
      Done (key :: keys)
  end.

Definition decode_fields (n : nat) (entries_size : Z) (buf_fields : list Z) (buffer : list Z)
  : outcome (list (option (list Z))) :=
  let reader := z_mem_bytes_reader_init buffer (Z.of_nat (List.length buffer)) in
  let field_decoder :=
    yajbe_field_decoder_init_fixed entries_size buf_fields (Z.of_nat (List.length buf_fields)) in
  decode_loop n field_decoder reader.

Definition TEST_FIELDS : list (list Z) :=
  map str ["foo"; "bar"; "test_foo"; "test_bar"; "foo"; "prefix_foo_suffix";
           "prefix_bar_suffix"; "bar"; "test_foo"]%string.

(** ** yajbe-encoder.c *)

(** [__builtin_clzll] of a non-zero 64-bit value. *)
Definition __builtin_clzll (x : Z) : Z := 63 - Z.log2 (uint64 x).

Definition __int_bytes_width (value : Z) : Z :=
  if negb (value =? 0) then Z.shiftr ((64 - __builtin_clzll value) + 7) 3 else 1.

Record yajbe_encoder_t : Type := mk_encoder {
  writer : z_mem_bytes_writer_t;
  field_writer : option yajbe_field_encoder_t
}.

Definition yajbe_encoder_init (field_writer : option yajbe_field_encoder_t)
    (writer : z_mem_bytes_writer_t) : yajbe_encoder_t :=
  {| writer := writer; field_writer := field_writer |}.

(** The encoder after a call on its writer. *)
Definition with_writer (self : yajbe_encoder_t) (rw : Z * z_mem_bytes_writer_t)
  : Z * yajbe_encoder_t :=
  (rw.1, {| writer := rw.2; field_writer := field_writer self |}).

Definition yajbe_encode_null (self : yajbe_encoder_t) : Z * yajbe_encoder_t :=
  with_writer self (z_bytes_writer_write_u8 (writer self) 0).

Definition yajbe_encode_true (self : yajbe_encoder_t) : Z * yajbe_encoder_t :=
  with_writer self (z_bytes_writer_write_u8 (writer self) 3 (* 0b11 *)).

Definition yajbe_encode_false (self : yajbe_encoder_t) : Z * yajbe_encoder_t :=
  with_writer self (z_bytes_writer_write_u8 (writer self) 2 (* 0b10 *)).

Definition yajbe_encode_bool (self : yajbe_encoder_t) (value : Z) : Z * yajbe_encoder_t :=
  with_writer self (z_bytes_writer_write_u8 (writer self) (if negb (value =? 0) then 3 else 2)).

Definition __yajbe_encode_length (self : yajbe_encoder_t) (head inline_max length : Z)
  : Z * yajbe_encoder_t :=
  if length <=? inline_max then
    with_writer self (z_bytes_writer_write_u8 (writer self) (Z.lor head length))
  else
    let delta_length := uint64 (length - inline_max) in
    let bytes := __int_bytes_width delta_length in
    let '(r, self) :=
      with_writer self (z_bytes_writer_write_u8 (writer self) (Z.lor head (inline_max + bytes))) in
    if r <? 0 then (r, self)
    else with_writer self (z_bytes_writer_write_uint (writer self) delta_length bytes).

Definition yajbe_encode_array_fixed_length (self : yajbe_encoder_t) (length : Z) :=
  __yajbe_encode_length self 0x20 (* 0b00100000 *) 10 length.

Definition yajbe_encode_array_start (self : yajbe_encoder_t) : Z * yajbe_encoder_t :=
  with_writer self (z_bytes_writer_write_u8 (writer self) 0x2f (* 0b00101111 *)).

Definition yajbe_encode_array_end (self : yajbe_encoder_t) : Z * yajbe_encoder_t :=
  with_writer self (z_bytes_writer_write_u8 (writer self) 1).

Definition yajbe_encode_object_fixed_length (self : yajbe_encoder_t) (length : Z) :=
  __yajbe_encode_length self 0x30 (* 0b00110000 *) 10 length.

Definition yajbe_encode_object_start (self : yajbe_encoder_t) : Z * yajbe_encoder_t :=
  with_writer self (z_bytes_writer_write_u8 (writer self) 0x3f (* 0b00111111 *)).

Definition yajbe_encode_object_end (self : yajbe_encoder_t) : Z * yajbe_encoder_t :=
  with_writer self (z_bytes_writer_write_u8 (writer self) 1).

(** The encoder's field writer must have been set. *)
Definition yajbe_encode_object_field (self : yajbe_encoder_t) (key : list Z) (keylen : Z)
  : outcome (Z * yajbe_encoder_t) :=
  fw ← written (field_writer self);
  '(r, fw, w) ← yajbe_field_encode fw (writer self) key keylen;
  Done (r, {| writer := w; field_writer := Some fw |}).

Definition __yajbe_encode_positive_int (self : yajbe_encoder_t) (value : Z)
  : Z * yajbe_encoder_t :=
  if value <=? 24 then
    with_writer self (z_bytes_writer_write_u8 (writer self) (Z.lor 0x40 (value - 1)))
  else
    let value := int64 (value - 25) in
    let bytes := __int_bytes_width value in
    let '(r, self) :=
      with_writer self (z_bytes_writer_write_u8 (writer self) (Z.lor 0x40 (23 + bytes))) in
    if r <? 0 then (r, self)
    else with_writer self (z_bytes_writer_write_uint (writer self) value bytes).

Definition __yajbe_encode_negative_int (self : yajbe_encoder_t) (value : Z)
  : Z * yajbe_encoder_t :=
  let value := int64 (- value) in
  if value <=? 23 then
    with_writer self (z_bytes_writer_write_u8 (writer self) (Z.lor 0x60 value))
  else
    let value := int64 (value - 24) in
    let bytes := __int_bytes_width value in
    let '(r, self) :=
      with_writer self (z_bytes_writer_write_u8 (writer self) (Z.lor 0x60 (23 + bytes))) in
    if r <? 0 then (r, self)
    else with_writer self (z_bytes_writer_write_uint (writer self) value bytes).

Definition yajbe_encode_int (self : yajbe_encoder_t) (value : Z) : Z * yajbe_encoder_t :=
  if 0 <? value then __yajbe_encode_positive_int self value
  else __yajbe_encode_negative_int self value.

(** A [float] is its IEEE-754 bit pattern, a [Z] in [0, 2^32); the object
    that [&value] points to holds its bytes least significant first (the
    hosts of the tests are little-endian: see tests/test-float.c). *)
Definition yajbe_encode_float (self : yajbe_encoder_t) (value : Z)
  : outcome (Z * yajbe_encoder_t) :=
  let '(r, self) := with_writer self (z_bytes_writer_write_u8 (writer self) 5) in
  if r <? 0 then Done (r, self)
  else with_writer self <$> z_bytes_writer_write (writer self) (le_bytes value 4) 0 4.

(** A [double] is its bit pattern, a [Z] in [0, 2^64). *)
Definition yajbe_encode_double (self : yajbe_encoder_t) (value : Z)
  : outcome (Z * yajbe_encoder_t) :=
  let '(r, self) := with_writer self (z_bytes_writer_write_u8 (writer self) 6) in
  if r <? 0 then Done (r, self)
  else with_writer self <$> z_bytes_writer_write (writer self) (le_bytes value 8) 0 8.

Definition yajbe_encode_string (self : yajbe_encoder_t) (utf8 : list Z) (length : Z)
  : outcome (Z * yajbe_encoder_t) :=
  let '(r, self) := __yajbe_encode_length self 0xc0 (* 0b11000000 *) 59 length in
  if r <? 0 then Done (r, self)
  else with_writer self <$> z_bytes_writer_write (writer self) utf8 0 length.

Definition yajbe_encode_bytes (self : yajbe_encoder_t) (buf : list Z) (length : Z)
  : outcome (Z * yajbe_encoder_t) :=
  let '(r, self) := __yajbe_encode_length self 0x80 (* 0b10000000 *) 59 length in
  if r <? 0 then Done (r, self)
  else with_writer self <$> z_bytes_writer_write (writer self) buf 0 length.

(** ** yajbe-decoder.c *)

Definition YAJBE_NULL : Z := 0.
Definition YAJBE_FALSE : Z := 1.
Definition YAJBE_TRUE : Z := 2.
Definition YAJBE_INT_SMALL : Z := 3.
Definition YAJBE_INT_POSITIVE : Z := 4.
Definition YAJBE_INT_NEGATIVE : Z := 5.
Definition YAJBE_SMALL_STRING : Z := 6.
Definition YAJBE_STRING : Z := 7.
Definition YAJBE_ENUM_CONFIG : Z := 8.
Definition YAJBE_ENUM_STRING : Z := 9.
Definition YAJBE_SMALL_BYTES : Z := 10.
Definition YAJBE_BYTES : Z := 11.
Definition YAJBE_FLOAT_VLE : Z := 12.
Definition YAJBE_FLOAT_32 : Z := 13.
Definition YAJBE_FLOAT_64 : Z := 14.
Definition YAJBE_BIG_DECIMAL : Z := 15.
Definition YAJBE_ARRAY : Z := 16.
Definition YAJBE_ARRAY_EOF : Z := 17.
Definition YAJBE_OBJECT : Z := 18.
Definition YAJBE_OBJECT_EOF : Z := 19.
Definition YAJBE_EOF : Z := 20.

Definition TOKEN_MAP : list Z :=
  [
    0; 20; 1; 2;
    12; 13; 14; 15;
    8; 9; 9;
    (-1); (-1); (-1); (-1); (-1); (-1); (-1); (-1); (-1); (-1); (-1); (-1); (-1); (-1); (-1);
    (-1); (-1); (-1); (-1); (-1); (-1);
    16; 16; 16; 16; 16; 16; 16; 16; 16; 16; 16; 16; 16; 16; 16; 17;
    18; 18; 18; 18; 18; 18; 18; 18; 18; 18; 18; 18; 18; 18; 18; 19;
    3; 3; 3; 3; 3; 3; 3; 3; 3; 3; 3; 3; 3; 3; 3; 3; 3; 3; 3; 3; 3; 3; 3; 3; 4; 4; 4; 4; 4; 4; 4;
    4;
    3; 3; 3; 3; 3; 3; 3; 3; 3; 3; 3; 3; 3; 3; 3; 3; 3; 3; 3; 3; 3; 3; 3; 3; 5; 5; 5; 5; 5; 5; 5;
    5;
    10; 10; 10; 10; 10; 10; 10; 10; 10; 10; 10; 10; 10; 10; 10; 10; 10; 10; 10; 10; 10; 10; 10;
    10; 10; 10; 10; 10; 10; 10; 10; 10; 10; 10; 10; 10; 10; 10; 10; 10; 10; 10; 10; 10; 10; 10;
    10; 10; 10; 10; 10; 10; 10; 10; 10; 10; 10; 10; 10; 10; 11; 11; 11; 11;
    6; 6; 6; 6; 6; 6; 6; 6; 6; 6; 6; 6; 6; 6; 6; 6; 6; 6; 6; 6; 6; 6; 6; 6; 6; 6; 6; 6; 6; 6; 6;
    6; 6; 6; 6; 6; 6; 6; 6; 6; 6; 6; 6; 6; 6; 6; 6; 6; 6; 6; 6; 6; 6; 6; 6; 6; 6; 6; 6; 6; 7; 7;
    7; 7
  ].

(** [TOKEN_MAP[head]] for a head byte, which the reader masks with [0xff]. *)
Definition token_of (head : Z) : Z := default (-1) (TOKEN_MAP !! Z.to_nat head).

(** [item_length] is [None] when it holds an indeterminate value (see
    [__read_item_count]). *)
Record yajbe_decoder_t : Type := mk_decoder {
  reader : z_mem_bytes_reader_t;
  field_reader : option yajbe_field_decoder_t;
  item_head : Z;
  item_type : Z;
  item_length : option Z
}.

Definition yajbe_decoder_init (field_reader : option yajbe_field_decoder_t)
    (reader : z_mem_bytes_reader_t) : yajbe_decoder_t :=
  {| reader := reader; field_reader := field_reader;
     item_head := -1; item_type := -1; item_length := Some 0 |}.

Definition with_reader (self : yajbe_decoder_t) (reader : z_mem_bytes_reader_t)
  : yajbe_decoder_t :=
  {| reader := reader; field_reader := field_reader self;
     item_head := item_head self; item_type := item_type self;
     item_length := item_length self |}.

Definition with_item_length (self : yajbe_decoder_t) (item_length : option Z)
  : yajbe_decoder_t :=
  {| reader := reader self; field_reader := field_reader self;
     item_head := item_head self; item_type := item_type self;
     item_length := item_length |}.

(** Stores [*count]: after a failed read the local [value] was never
    written, and [10 + value] is indeterminate. *)
Definition __read_item_count (self : yajbe_decoder_t) : Z * yajbe_decoder_t :=
  let w := Z.land (item_head self) 0xf in
  if w <=? 10 then (0, with_item_length self (Some w))
  else
    let '(r, reader, value) := z_bytes_reader_read_uint (reader self) (w - 10) in
    (r, with_item_length (with_reader self reader) ((fun value => int64 (10 + value)) <$> value)).

Definition __read_item_length (self : yajbe_decoder_t) : Z * yajbe_decoder_t :=
  let '(r, reader, value) :=
    z_bytes_reader_read_uint (reader self) (Z.land (item_head self) 0x3f - 59) in
  (r, with_item_length (with_reader self reader) ((fun value => int64 (59 + value)) <$> value)).

(** The [switch (self->item_type)] of [yajbe_decode_next] and its [return]. *)
Definition decode_next_switch (self : yajbe_decoder_t) : Z * yajbe_decoder_t :=
  let item_head := item_head self in
  let item_type := item_type self in
  if (item_type =? YAJBE_ARRAY) || (item_type =? YAJBE_OBJECT) then
    let '(r, self) := __read_item_count self in
    if r <? 0 then (r, self) else (item_type, self)
  else if (item_type =? YAJBE_ARRAY_EOF) || (item_type =? YAJBE_OBJECT_EOF) then
    (item_type, with_item_length self (Some (int64 (Z.shiftl 1 63))))
  else if (item_type =? YAJBE_SMALL_BYTES) || (item_type =? YAJBE_SMALL_STRING) then
    (item_type, with_item_length self (Some (Z.land item_head 0x3f)))
  else if (item_type =? YAJBE_BYTES) || (item_type =? YAJBE_STRING) then
    let '(r, self) := __read_item_length self in
    if r <? 0 then (r, self) else (item_type, self)
  else if item_type =? YAJBE_INT_SMALL then
    (item_type, with_item_length self (Some 0))
  else if (item_type =? YAJBE_INT_POSITIVE) || (item_type =? YAJBE_INT_NEGATIVE) then
    (item_type, with_item_length self (Some (Z.land item_head 0x1f - 23)))
  else if item_type =? YAJBE_FLOAT_32 then
    (item_type, with_item_length self (Some 4))
  else if item_type =? YAJBE_FLOAT_64 then
    (item_type, with_item_length self (Some 8))
  else (item_type, self).

Definition yajbe_decode_next (self : yajbe_decoder_t) : Z * yajbe_decoder_t :=
  let '(r, reader, head) := z_bytes_reader_read_u8 (reader self) in
  if r <? 0 then (r, with_reader self reader)
  else
    let item_head := default (item_head self) head in
    decode_next_switch
      {| reader := reader; field_reader := field_reader self;
         item_head := item_head; item_type := token_of item_head;
         item_length := item_length self |}.

Definition yajbe_decode_null (self : yajbe_decoder_t) : Z :=
  if negb (item_type self =? YAJBE_NULL) then 1 else 0.

Definition yajbe_decode_next_null (self : yajbe_decoder_t) : Z * yajbe_decoder_t :=
  let '(r, self) := yajbe_decode_next self in
  if r =? YAJBE_NULL then (0, self)
  else (if r <? 0 then r else - EINVAL, self).

Definition yajbe_decode_true (self : yajbe_decoder_t) : Z :=
  if negb (item_type self =? YAJBE_TRUE) then 1 else 0.

Definition yajbe_decode_next_true (self : yajbe_decoder_t) : Z * yajbe_decoder_t :=
  let '(r, self) := yajbe_decode_next self in
  if r =? YAJBE_TRUE then (0, self)
  else (if r <? 0 then r else - EINVAL, self).

Definition yajbe_decode_false (self : yajbe_decoder_t) : Z :=
  if negb (item_type self =? YAJBE_FALSE) then 1 else 0.

Definition yajbe_decode_next_false (self : yajbe_decoder_t) : Z * yajbe_decoder_t :=
  let '(r, self) := yajbe_decode_next self in
  if r =? YAJBE_FALSE then (0, self)
  else (if r <? 0 then r else - EINVAL, self).

(** The typed reads take the content of the caller's variable and return what
    it holds after the call. *)
Definition yajbe_decode_bool (self : yajbe_decoder_t) (value : option Z) : Z * option Z :=
  if item_type self =? YAJBE_TRUE then (0, Some 1)
  else if item_type self =? YAJBE_FALSE then (0, Some 0)
  else (- EINVAL, value).

Definition yajbe_decode_next_bool (self : yajbe_decoder_t) (value : option Z)
  : Z * yajbe_decoder_t * option Z :=
  let '(r, self) := yajbe_decode_next self in
  if r <? 0 then (0, self, value)
  else let '(r, value) := yajbe_decode_bool self value in (r, self, value).

Definition __decode_small_int (self : yajbe_decoder_t) : Z * option Z :=
  let head := item_head self in
  let signed_value := Z.land head 0x60 =? 0x60 in
  let w := Z.land head 0x1f in
  (0, Some (if signed_value then - w else 1 + w)).

(** The width handed to the reader is [item_length]. *)
Definition __decode_int_positive (self : yajbe_decoder_t) (value : option Z)
  : outcome (Z * yajbe_decoder_t * option Z) :=
  width ← written (item_length self);
  let '(r, reader, v) := z_bytes_reader_read_uint (reader self) width in
  let value := from_option Some value v in
  Done (r, with_reader self reader, (fun value => int64 (value + 25)) <$> value).

Definition __decode_int_negative (self : yajbe_decoder_t) (value : option Z)
  : outcome (Z * yajbe_decoder_t * option Z) :=
  width ← written (item_length self);
  let '(r, reader, v) := z_bytes_reader_read_uint (reader self) width in
  let value := from_option Some value v in
  Done (r, with_reader self reader, (fun value => int64 (- int64 (value + 24))) <$> value).

Definition yajbe_decode_int (self : yajbe_decoder_t) (value : option Z)
  : outcome (Z * yajbe_decoder_t * option Z) :=
  if item_type self =? YAJBE_INT_SMALL then
    let '(r, value) := __decode_small_int self in Done (r, self, value)
  else if item_type self =? YAJBE_INT_POSITIVE then __decode_int_positive self value
  else if item_type self =? YAJBE_INT_NEGATIVE then __decode_int_negative self value
  else Done (- EINVAL, self, value).

Definition yajbe_decode_next_int (self : yajbe_decoder_t) (value : option Z)
  : outcome (Z * yajbe_decoder_t * option Z) :=
  let '(r, self) := yajbe_decode_next self in
  if r <? 0 then Done (0, self, value)
  else yajbe_decode_int self value.

(** [memcpy (value, &iValue, 4)] takes the low four bytes of [iValue]. *)
Definition yajbe_decode_float (self : yajbe_decoder_t) (value : option Z)
  : Z * yajbe_decoder_t * option Z :=
  if negb (item_type self =? YAJBE_FLOAT_32) then (- EINVAL, self, value)
  else
    let '(r, reader, iValue) := z_bytes_reader_read_uint (reader self) 4 in
    (r, with_reader self reader, uint32 <$> iValue).

Definition yajbe_decode_next_float (self : yajbe_decoder_t) (value : option Z)
  : Z * yajbe_decoder_t * option Z :=
  let '(r, self) := yajbe_decode_next self in
  if r <? 0 then (0, self, value)
  else yajbe_decode_float self value.

Definition yajbe_decode_double (self : yajbe_decoder_t) (value : option Z)
  : Z * yajbe_decoder_t * option Z :=
  if negb (item_type self =? YAJBE_FLOAT_64) then (- EINVAL, self, value)
  else
    let '(r, reader, iValue) := z_bytes_reader_read_uint (reader self) 8 in
    (r, with_reader self reader, uint64 <$> iValue).

Definition yajbe_decode_next_double (self : yajbe_decoder_t) (value : option Z)
  : Z * yajbe_decoder_t * option Z :=
  let '(r, self) := yajbe_decode_next self in
  if r <? 0 then (0, self, value)
  else yajbe_decode_double self value.

(** The bytes stored at the start of the caller's [buf] ([None]: [buf] is
    left as it was).  [buflen < item_length] compares as [size_t]. *)
Definition yajbe_decode_bytes (self : yajbe_decoder_t) (buflen : Z)
  : outcome (Z * yajbe_decoder_t * option (list Z)) :=
  if negb (item_type self =? YAJBE_SMALL_BYTES) && negb (item_type self =? YAJBE_BYTES)
  then Done (- EINVAL, self, None)
  else
    item_length ← written (item_length self);
    if buflen <? uint64 item_length then Done (- EINVAL, self, None)
    else
      let '(r, reader, data) := z_bytes_reader_read (reader self) (uint64 item_length) in
      Done (r, with_reader self reader, data).

Definition yajbe_decode_next_bytes (self : yajbe_decoder_t) (buflen : Z)
  : outcome (Z * yajbe_decoder_t * option (list Z)) :=
  let '(r, self) := yajbe_decode_next self in
  if r <? 0 then Done (0, self, None)
  else yajbe_decode_bytes self buflen.

Definition yajbe_decode_string (self : yajbe_decoder_t) (buflen : Z)
  : outcome (Z * yajbe_decoder_t * option (list Z)) :=
  if negb (item_type self =? YAJBE_SMALL_STRING) && negb (item_type self =? YAJBE_STRING)
  then Done (- EINVAL, self, None)
  else
    item_length ← written (item_length self);
    if buflen <? uint64 item_length then Done (- EINVAL, self, None)
    else
      let '(r, reader, data) := z_bytes_reader_read (reader self) (uint64 item_length) in
      Done (r, with_reader self reader, data).

Definition yajbe_decode_next_string (self : yajbe_decoder_t) (buflen : Z)
  : outcome (Z * yajbe_decoder_t * option (list Z)) :=
  let '(r, self) := yajbe_decode_next self in
  if r <? 0 then Done (0, self, None)
  else yajbe_decode_string self buflen.

(** The decoder's field reader must have been set. *)
Definition yajbe_decode_object_field (self : yajbe_decoder_t)
  : outcome (Z * yajbe_decoder_t * option field_ptr) :=
  fr ← written (field_reader self);
  '(r, fr, reader, field) ← yajbe_field_decode fr (reader self);
  Done (r,
        {| reader := reader; field_reader := Some fr;
           item_head := item_head self; item_type := item_type self;
           item_length := item_length self |},
        field).

(** * Vocabulary of the statements *)

(** ** Writers and readers *)

(** The writer's [bufsize] is the size of its buffer and its offset lies
    inside. *)
Definition wf_writer (w : z_mem_bytes_writer_t) : Prop :=
  w_bufsize w = Z.of_nat (length (w_buffer w)) /\ 0 <= w_offset w <= w_bufsize w.

(** [n] more bytes fit. *)
Definition has_room (w : z_mem_bytes_writer_t) (n : Z) : Prop :=
  w_offset w + n <= w_bufsize w.

(** [w'] is [w] after [bytes] have been appended. *)
Definition appended (w w' : z_mem_bytes_writer_t) (bytes : list Z) : Prop :=
  wf_writer w' /\ w_bufsize w' = w_bufsize w
  /\ w_offset w' = w_offset w + Z.of_nat (length bytes)
  /\ writer_bytes w' = writer_bytes w ++ bytes.

(** The bytes the reader has not consumed yet. *)
Definition reader_rest (r : z_mem_bytes_reader_t) : list Z :=
  drop (Z.to_nat (r_offset r)) (take (Z.to_nat (r_bufsize r)) (r_buffer r)).

(** The reader's offset lies inside the [bufsize] bytes of its buffer. *)
Definition wf_reader (r : z_mem_bytes_reader_t) : Prop :=
  0 <= r_offset r <= r_bufsize r /\ r_bufsize r <= Z.of_nat (length (r_buffer r)).

(** What the decoder looks at in the head byte [(fam | x) & 0xff]: its entry
    in the table and its value under the masks [m1] and [m2]. *)
Definition is_head (fam x typ m1 v1 m2 v2 : Z) : bool :=
  let h := Z.land (Z.lor fam x) 255 in
  (token_of h =? typ) && (Z.land h m1 =? v1) && (Z.land h m2 =? v2).

(** ** Tokens of the value codec *)

(** The call [res] on [self] returned 0 and appended [bytes]. *)
Definition emits (self : yajbe_encoder_t) (res : Z * yajbe_encoder_t) (bytes : list Z) : Prop :=
  res.1 = 0 /\ field_writer res.2 = field_writer self
  /\ appended (writer self) (writer res.2) bytes.

(** The token of an integer. *)
Definition int_token (v : Z) : list Z :=
  if 0 <? v then
    if v <=? 24 then [Z.land (Z.lor 0x40 (v - 1)) 255]
    else Z.land (Z.lor 0x40 (23 + __int_bytes_width (v - 25))) 255
         :: le_bytes (v - 25) (Z.to_nat (__int_bytes_width (v - 25)))
  else
    if - v <=? 23 then [Z.land (Z.lor 0x60 (- v)) 255]
    else Z.land (Z.lor 0x60 (23 + __int_bytes_width (- v - 24))) 255
         :: le_bytes (- v - 24) (Z.to_nat (__int_bytes_width (- v - 24))).

(** The decoder after the head byte [h] has been read. *)
Definition at_head (d : yajbe_decoder_t) (h : Z) : yajbe_decoder_t :=
  {| reader := reader_advance (reader d) 1; field_reader := field_reader d;
     item_head := h; item_type := token_of h; item_length := item_length d |}.

(** The head and length bytes written by [__yajbe_encode_length]. *)
Definition length_token (head inline_max length : Z) : list Z :=
  if length <=? inline_max then [Z.land (Z.lor head length) 255]
  else Z.land (Z.lor head (inline_max + __int_bytes_width (length - inline_max))) 255
       :: le_bytes (length - inline_max)
                   (Z.to_nat (__int_bytes_width (length - inline_max))).

(** ** Primitive values *)

(** A primitive value, as the encoder's arguments carry it: a boolean and an
    integer as C integers, a float and a double as their bit patterns, bytes
    and strings as byte arrays. *)
Inductive primitive : Type :=
| PNull
| PBool (b : bool)
| PInt (v : Z)
| PFloat (bits : Z)
| PDouble (bits : Z)
| PBytes (data : list Z)
| PString (utf8 : list Z).

(** The values the encoder can take: [-value] must not overflow [int64_t],
    a float has 32 bits and a double 64, and the length of bytes and strings
    must leave the width of its continuation in [1, 4], the widths that the
    six low bits of the head byte can carry. *)
Definition encodable (v : primitive) : Prop :=
  match v with
  | PNull | PBool _ => True
  | PInt v => - 2 ^ 63 < v < 2 ^ 63
  | PFloat bits => 0 <= bits < 2 ^ 32
  | PDouble bits => 0 <= bits < 2 ^ 64
  | PBytes data | PString data => Z.of_nat (List.length data) < 59 + 2 ^ 32
  end.

(** The size of what a typed read stores in the caller's buffer. *)
Definition payload_length (v : primitive) : Z :=
  match v with
  | PBytes data | PString data => Z.of_nat (List.length data)
  | _ => 0
  end.

(** An upper bound of the size of the token of [v]. *)
Definition token_room (v : primitive) : Z := 9 + payload_length v.

Definition encode_primitive (self : yajbe_encoder_t) (v : primitive)
  : outcome (Z * yajbe_encoder_t) :=
  match v with
  | PNull => Done (yajbe_encode_null self)
  | PBool b => Done (yajbe_encode_bool self (if b then 1 else 0))
  | PInt v => Done (yajbe_encode_int self v)
  | PFloat bits => yajbe_encode_float self bits
  | PDouble bits => yajbe_encode_double self bits
  | PBytes data => yajbe_encode_bytes self data (Z.of_nat (List.length data))
  | PString utf8 => yajbe_encode_string self utf8 (Z.of_nat (List.length utf8))
  end.

(** [yajbe_decode_next], then the typed read of the kind of [like]; the
    result is the value read when both calls succeed.  [value0] is what the
    caller's variable holds before the read, [buflen] the size of the
    caller's buffer. *)
Definition decode_primitive (like : primitive) (self : yajbe_decoder_t)
    (value0 : option Z) (buflen : Z) : outcome (option primitive) :=
  let '(t, self) := yajbe_decode_next self in
  if t <? 0 then Done None
  else
    match like with
    | PNull => Done (if yajbe_decode_null self =? 0 then Some PNull else None)
    | PBool _ =>
        let '(r, x) := yajbe_decode_bool self value0 in
        Done (if r =? 0 then (fun x => PBool (negb (x =? 0))) <$> x else None)
    | PInt _ =>
        '(r, _, x) ← yajbe_decode_int self value0;
        Done (if r =? 0 then PInt <$> x else None)
    | PFloat _ =>
        let '(r, _, x) := yajbe_decode_float self value0 in
        Done (if r =? 0 then PFloat <$> x else None)
    | PDouble _ =>
        let '(r, _, x) := yajbe_decode_double self value0 in
        Done (if r =? 0 then PDouble <$> x else None)
    | PBytes _ =>
        '(r, _, x) ← yajbe_decode_bytes self buflen;
        Done (if r =? 0 then PBytes <$> x else None)
    | PString _ =>
        '(r, _, x) ← yajbe_decode_string self buflen;
        Done (if r =? 0 then PString <$> x else None)
    end.

(** The set-up of the tests: an encoder on a writer over [buffer], and a
    decoder on a reader over the bytes written. *)
Definition fresh_encoder (buffer : list Z) : yajbe_encoder_t :=
  yajbe_encoder_init None (z_mem_bytes_writer_init_fixed buffer (Z.of_nat (List.length buffer))).

Definition decoder_over (e : yajbe_encoder_t) : yajbe_decoder_t :=
  yajbe_decoder_init None
    (z_mem_bytes_reader_init (w_buffer (writer e)) (z_mem_bytes_writer_length (writer e))).

(** ** The end-of-container byte *)

(** The claim C7 as it is stated: every decoder whose next byte is 0x01
    classifies it as TRUE, with [item_length] 0. *)
Definition end_marker_is_true : Prop :=
  forall (self : yajbe_decoder_t) (rest : list Z),
    wf_reader (reader self) -> reader_rest (reader self) = 1 :: rest ->
    item_type (yajbe_decode_next self).2 = YAJBE_TRUE
    /\ item_length (yajbe_decode_next self).2 = Some 0.

(** The streamed array of the one integer 25, as the encoder writes it into
    a buffer of four bytes: 2f 58 00 01. *)
Definition streamed_array_25 : list Z :=
  let '(_, e) := yajbe_encode_array_start (fresh_encoder (replicate 4 0)) in
  let '(_, e) := yajbe_encode_int e 25 in
  let '(_, e) := yajbe_encode_array_end e in
  writer_bytes (writer e).

(** A decoder over that stream after it has read the start marker and the
    integer: it stands before the end marker. *)
Definition before_end_marker : outcome yajbe_decoder_t :=
  let self := yajbe_decoder_init None (z_mem_bytes_reader_init streamed_array_25 4) in
  let '(_, self) := yajbe_decode_next self in
  '(_, self, _) ← yajbe_decode_next_int self None;
  Done self.

(** ** Runs of the field codec *)

(** The bytes a call appended: [buffer[offset before .. offset after)]. *)
Definition bytes_between (before after : z_mem_bytes_writer_t) : list Z :=
  drop (Z.to_nat (w_offset before)) (writer_bytes after).

(** The loop of [encode_fields] again, keeping apart the bytes that each
    call of [yajbe_field_encode] writes. *)
Fixpoint encode_tokens (fields : list (list Z)) (field_encoder : yajbe_field_encoder_t)
    (writer : z_mem_bytes_writer_t) : outcome (list (list Z)) :=
  match fields with
  | [] => Done []
  | key :: rest =>
      '(_, field_encoder', writer') ← yajbe_field_encode field_encoder writer key (strlen key);
      tokens ← encode_tokens rest field_encoder' writer';
      Done (bytes_between writer writer' :: tokens)
  end.

(** The top three bits of the head byte of a token. *)
Definition token_family (token : option (list Z)) : option Z :=
  match token with
  | Some (head :: _) => Some (Z.land (Z.shiftr head 5) 7)
  | _ => None
  end.

(** The set-up of tests/test-field.c: 16 entries, a buffer of 64 bytes for
    the stream and one of 256 bytes for the decoded names. *)
Definition test_tokens (fields : list (list Z)) : outcome (list (list Z)) :=
  encode_tokens fields (yajbe_field_encoder_init_fixed 16)
    (z_mem_bytes_writer_init_fixed (replicate 64 0) 64).

Definition test_roundtrip (fields : list (list Z)) : outcome (list (option (list Z))) :=
  stream ← encode_fields fields 16 (replicate 64 0);
  decode_fields (List.length fields) 16 (replicate 256 0) stream.

(** The claim C3 as it is stated, on the set-up of tests/test-field.c. *)
Definition test_fields_claim : Prop :=
  exists tokens,
    test_tokens TEST_FIELDS = Done tokens
    /\ tokens !! 4%nat = Some [0xa0]
    /\ token_family (tokens !! 3%nat) = Some 7
    /\ token_family (tokens !! 6%nat) = Some 7
    /\ test_roundtrip TEST_FIELDS = Done (map Some TEST_FIELDS).

(** ** States of the field decoder *)

(** The entries appended so far are the slots [0 .. entries_count) of the
    array, and no other slot has been written. *)
Definition appended_entries (self : yajbe_field_decoder_t) : Prop :=
  0 <= dec_entries_count self <= Z.of_nat (List.length (dec_entries self))
  /\ forall i : nat,
       (Z.of_nat i < dec_entries_count self -> is_Some (mjoin (dec_entries self !! i)))
       /\ (dec_entries_count self <= Z.of_nat i -> mjoin (dec_entries self !! i) = None).

(** A decoder that holds the single entry "foo", and the one-byte streams a0
    (index 0) and a1 (index 1). *)
Definition one_entry_decoder : yajbe_field_decoder_t :=
  {| dec_entries := [Some {| f_name := Some 0; f_length := 3 |}; None];
     dec_entries_size := 2;
     dec_entries_count := 1;
     dec_buffer := str "foo" ++ [0; 0];
     dec_buf_size := 5;
     dec_buf_off := 3;
     last_field := {| f_name := Some 0; f_length := 3 |} |}.

(** The keys "a_½z", "aQ½zW" and "k3" in UTF-8 (½ is c2 bd). *)
Definition leftover_keys : list (list Z) :=
  [[97; 95; 0xc2; 0xbd; 122]; [97; 81; 0xc2; 0xbd; 122; 87]; [107; 51]].

(** The decoder and the reader of [decode_fields] after the first [n] calls
    of [yajbe_field_decode]. *)
Fixpoint decode_state (n : nat) (field_decoder : yajbe_field_decoder_t)
    (reader : z_mem_bytes_reader_t)
  : outcome (yajbe_field_decoder_t * z_mem_bytes_reader_t) :=
  match n with
  | O => Done (field_decoder, reader)
  | S n' =>
      '(_, field_decoder, reader, _) ← yajbe_field_decode field_decoder reader;
      decode_state n' field_decoder reader
  end.

(** The same in the set-up of tests/test-field.c, over the stream that
    [encode_fields] writes for [fields]. *)
Definition test_decode_state (n : nat) (fields : list (list Z))
  : outcome (yajbe_field_decoder_t * z_mem_bytes_reader_t) :=
  stream ← encode_fields fields 16 (replicate 64 0);
  decode_state n (yajbe_field_decoder_init_fixed 16 (replicate 256 0) 256)
    (z_mem_bytes_reader_init stream (Z.of_nat (List.length stream))).

(** ** The table of the field encoder *)

(** The hash that [yajbe_field_encode] computes for a key. *)
Definition hash_of (key : list Z) : Z := __hash_fnv_1a key (strlen key).

(** The keys in the order in which a sequence shows them first. *)
Fixpoint first_seen_from (seen : list (list Z)) (keys : list (list Z)) : list (list Z) :=
  match keys with
  | [] => seen
  | key :: keys =>
      if decide (key ∈ seen) then first_seen_from seen keys
      else first_seen_from (seen ++ [key]) keys
  end.

Definition first_seen (keys : list (list Z)) : list (list Z) := first_seen_from [] keys.

(** The slot that the probe for hash [h] looks at after [d] steps. *)
Definition probe_slot (size h : Z) (d : nat) : Z := (h + Z.of_nat d) mod size.

(** [entries[hindex].name != NULL]. *)
Definition occupied (e : yajbe_field_encoder_entry_t) : Prop := fe_name e <> None.

#[global] Instance occupied_dec e : Decision (occupied e) := decide (fe_name e <> None).

(** The table holds the keys [seen], each under its position in [seen], at a
    slot that the probe for the key reaches through occupied slots only. *)
Definition table_of (seen : list (list Z)) (self : yajbe_field_encoder_t) : Prop :=
  let size := enc_entries_size self in
  let entries := enc_entries self in
  (exists k, 0 <= k < 64 /\ size = 2 ^ k)
  /\ List.length entries = Z.to_nat size
  /\ enc_entries_count self = Z.of_nat (List.length seen)
  /\ NoDup seen
  /\ List.length (filter occupied entries) = List.length seen
  /\ (forall (p : nat) e key,
        entries !! p = Some e -> fe_name e = Some key ->
        fe_hash e = hash_of key /\ fe_length e = strlen key
        /\ 0 <= fe_index e /\ seen !! Z.to_nat (fe_index e) = Some key
        /\ exists d : nat,
             (d < Z.to_nat size)%nat
             /\ probe_slot size (hash_of key) d = Z.of_nat p
             /\ forall d' : nat, (d' < d)%nat ->
                  exists e', entries !! Z.to_nat (probe_slot size (hash_of key) d') = Some e'
                             /\ occupied e')
  /\ (forall key, key ∈ seen ->
        exists (p : nat) e, entries !! p = Some e /\ fe_name e = Some key).

(** What the field decoder reads back from the bytes of an index. *)
Definition reads_index (token : list Z) (index : Z) : Prop :=
  forall (r : z_mem_bytes_reader_t) (rest : list Z),
    wf_reader r -> reader_rest r = token ++ rest ->
    exists r0 r1 head,
      z_bytes_reader_read_u8 r = (0, r0, Some head)
      /\ Z.land (Z.shiftr head 5) 7 = 5
      /\ __read_length r0 head = Done (index, r1)
      /\ wf_reader r1 /\ reader_rest r1 = rest.

(** The field encoder of tests/test-field.c after its nine keys. *)
Definition test_field_encoder : yajbe_field_encoder_t :=
  match encode_loop TEST_FIELDS (yajbe_field_encoder_init_fixed 16)
          (z_mem_bytes_writer_init_fixed (replicate 64 0) 64) with
  | Done (_, field_encoder, _) => field_encoder
  | _ => yajbe_field_encoder_init_fixed 16
  end.

(** ** Frames of the byte streams *)

(** [w'] differs from [w] inside the cells [offset .. offset + n) of the
    buffer at most. *)
Definition writes_within (w w' : z_mem_bytes_writer_t) (n : Z) : Prop :=
  List.length (w_buffer w') = List.length (w_buffer w)
  /\ forall i : nat,
       Z.of_nat i < w_offset w \/ w_offset w + n <= Z.of_nat i ->
       w_buffer w' !! i = w_buffer w !! i.

(** A reader over what the writer [w'] holds, placed where the writer [w]
    stood: it reads the bytes written between [w] and [w']. *)
Definition reader_between (w w' : z_mem_bytes_writer_t) : z_mem_bytes_reader_t :=
  reader_advance (z_mem_bytes_reader_init (w_buffer w') (z_mem_bytes_writer_length w'))
                 (z_mem_bytes_writer_length w).

(** The bytes [buffer[0 .. length)] that a slice designates. *)
Definition slice_bytes (s : z_bytes_slice_t) : option (list Z) :=
  mem_range (sl_buffer s).1 (sl_buffer s).2 (sl_length s).

(** ** Values read by the combined calls *)

(** The item types that a token of the kind of [v] can carry. *)
Definition kind_types (v : primitive) : list Z :=
  match v with
  | PNull => [YAJBE_NULL]
  | PBool _ => [YAJBE_FALSE; YAJBE_TRUE]
  | PInt _ => [YAJBE_INT_SMALL; YAJBE_INT_POSITIVE; YAJBE_INT_NEGATIVE]
  | PFloat _ => [YAJBE_FLOAT_32]
  | PDouble _ => [YAJBE_FLOAT_64]
  | PBytes _ => [YAJBE_SMALL_BYTES; YAJBE_BYTES]
  | PString _ => [YAJBE_SMALL_STRING; YAJBE_STRING]
  end.

Definition same_kind (a b : primitive) : bool :=
  match a, b with
  | PNull, PNull | PBool _, PBool _ | PInt _, PInt _ | PFloat _, PFloat _
  | PDouble _, PDouble _ | PBytes _, PBytes _ | PString _, PString _ => true
  | _, _ => false
  end.

(** The combined call [yajbe_decode_next_<kind>] for the kind of [like]: its
    code, the decoder, and the value that the caller's variable or buffer
    holds after it ([None]: nothing was stored and nothing was there). *)
Definition decode_next_value (like : primitive) (self : yajbe_decoder_t)
    (value0 : option Z) (buflen : Z) : outcome (Z * yajbe_decoder_t * option primitive) :=
  match like with
  | PNull =>
      let '(r, self) := yajbe_decode_next_null self in
      Done (r, self, if r =? 0 then Some PNull else None)
  | PBool _ =>
      let '(r, self, x) := yajbe_decode_next_bool self value0 in
      Done (r, self, option_map (fun x => PBool (negb (x =? 0))) x)
  | PInt _ =>
      '(r, self, x) ← yajbe_decode_next_int self value0;
      Done (r, self, option_map PInt x)
  | PFloat _ =>
      let '(r, self, x) := yajbe_decode_next_float self value0 in
      Done (r, self, option_map PFloat x)
  | PDouble _ =>
      let '(r, self, x) := yajbe_decode_next_double self value0 in
      Done (r, self, option_map PDouble x)
  | PBytes _ =>
      '(r, self, x) ← yajbe_decode_next_bytes self buflen;
      Done (r, self, option_map PBytes x)
  | PString _ =>
      '(r, self, x) ← yajbe_decode_next_string self buflen;
      Done (r, self, option_map PString x)
  end.




(** ** Keys and their indices *)

(** The position of [key] in [seen], as the C code reports it: -1 when the
    key is not there. *)
Fixpoint index_of (key : list Z) (seen : list (list Z)) : Z :=
  match seen with
  | [] => -1
  | k :: seen =>
      if decide (k = key) then 0
      else if index_of key seen <? 0 then -1 else 1 + index_of key seen
  end.

(** A caller that adds the keys one after the other; the codes are
    collected. *)
Fixpoint add_loop (keys : list (list Z)) (self : yajbe_field_encoder_t)
  : outcome (list Z * yajbe_field_encoder_t) :=
  match keys with
  | [] => Done ([], self)
  | key :: keys =>
      '(r, self) ← yajbe_field_encoder_add self key (strlen key);
      '(rs, self) ← add_loop keys self;
      Done (r :: rs, self)
  end.

(** What the field decoder reads back from the bytes of a length header of
    the family [fam] (the top three bits of the head byte). *)
Definition reads_length (token : list Z) (fam length : Z) : Prop :=
  forall (r : z_mem_bytes_reader_t) (rest : list Z),
    wf_reader r -> reader_rest r = token ++ rest ->
    exists r0 r1 head,
      z_bytes_reader_read_u8 r = (0, r0, Some head)
      /\ Z.land (Z.shiftr head 5) 7 = fam
      /\ __read_length r0 head = Done (length, r1)
      /\ wf_reader r1 /\ reader_rest r1 = rest.

(** The bytes that [__write_length] writes for a head of one of the four
    families 80, a0, c0, e0 and a length up to 65819. *)
Definition length_header (head length : Z) : list Z :=
  if length <? 30 then [Z.lor head length]
  else if length <=? 284 then [Z.lor head 0x1e; length - 29]
  else [Z.lor head 0x1f; (length - 284) / 256; (length - 284) mod 256].

(** The heads of the four families of field tokens. *)
Definition field_head (head : Z) : Prop :=
  head = 0x80 \/ head = 0xa0 \/ head = 0xc0 \/ head = 0xe0.

(** ** Runs of the field codec that stay in the first three token forms *)

(** The state of the encoder as far as [__prefix] and [__suffix] look at it,
    after the key [last]. *)
Definition after_key (last : list Z) : yajbe_field_encoder_t :=
  set_last_key (yajbe_field_encoder_init_fixed 0) last (strlen last).

(** The prefix and the suffix that [yajbe_field_hencode] computes for [key]
    after the key [last]. *)
Definition key_prefix (last key : list Z) : Z :=
  Z_MIN 0xff (__prefix (after_key last) key (strlen key)).

Definition key_suffix (last key : list Z) : Z :=
  __suffix (after_key last) key (key_prefix last key)
           (uint64 (strlen key - key_prefix last key)).

(** The forms that [yajbe_field_hencode] takes for a key that is not in the
    table, after the key [last] ([None]: at the first key). *)
Definition takes_suffix_form (last : option (list Z)) (key : list Z) : bool :=
  match last with
  | Some last => (4 <? strlen last) && (2 <? key_suffix last key)
  | None => false
  end.

Definition takes_prefix_form (last : option (list Z)) (key : list Z) : bool :=
  match last with
  | Some last =>
      (4 <? strlen last) && negb (2 <? key_suffix last key) && (2 <? key_prefix last key)
  | None => false
  end.

(** No key of the sequence is written in the prefix+suffix form: each key is
    in the table already or its suffix stays at two bytes or less. *)
Fixpoint avoids_suffix_form (last : option (list Z)) (seen keys : list (list Z)) : bool :=
  match keys with
  | [] => true
  | key :: keys =>
      if decide (key ∈ seen) then avoids_suffix_form (Some key) seen keys
      else negb (takes_suffix_form last key)
           && avoids_suffix_form (Some key) (seen ++ [key]) keys
  end.

(** The token of a key in one of the first three forms, and the stream of a
    sequence of keys. *)
Definition field_token (last : option (list Z)) (seen : list (list Z)) (key : list Z)
  : list Z :=
  if decide (key ∈ seen) then length_header 0xa0 (index_of key seen)
  else if takes_prefix_form last key then
    let prefix := key_prefix (default [] last) key in
    length_header 0xc0 (strlen key - prefix) ++ prefix :: drop (Z.to_nat prefix) key
  else length_header 0x80 (strlen key) ++ key.

Fixpoint field_stream (last : option (list Z)) (seen keys : list (list Z)) : list Z :=
  match keys with
  | [] => []
  | key :: keys =>
      field_token last seen key
      ++ field_stream (Some key) (if decide (key ∈ seen) then seen else seen ++ [key]) keys
  end.

(** The room that the tokens of the keys take at most in the stream, and the
    room that their names take at most in the arena of the decoder. *)
Definition keys_room (keys : list (list Z)) : Z :=
  fold_right (fun key room => strlen key + 4 + room) 0 keys.

Definition names_room (keys : list (list Z)) : Z :=
  fold_right (fun key room => strlen key + room) 0 keys.

(** The field [field] of the decoder [self] designates the name [key], inside
    the used part of the arena. *)
Definition entry_holds (self : yajbe_field_decoder_t) (field : yajbe_field_t)
    (key : list Z) : Prop :=
  exists o, f_name field = Some o /\ f_length field = strlen key
            /\ 0 <= o /\ o + strlen key <= dec_buf_off self
            /\ mem_range (dec_buffer self) o (strlen key) = Some key.

(** The decoder holds the names [seen], in this order, and its last field is
    the name [last]. *)
Definition decoder_holds (seen : list (list Z)) (last : option (list Z))
    (self : yajbe_field_decoder_t) : Prop :=
  dec_entries_count self = Z.of_nat (List.length seen)
  /\ dec_entries_size self = Z.of_nat (List.length (dec_entries self))
  /\ dec_buf_size self = Z.of_nat (List.length (dec_buffer self))
  /\ 0 <= dec_buf_off self <= dec_buf_size self
  /\ (forall (i : nat) key, seen !! i = Some key ->
        exists field, dec_entries self !! i = Some (Some field)
                      /\ entry_holds self field key)
  /\ from_option (entry_holds self (last_field self)) True last.

(** ** The arena of the field decoder *)

(** The entries of the decoder are the first [entries_count] slots, and each
    designates bytes of the used part [0 .. buf_off) of the arena. *)
Definition decoder_wf (self : yajbe_field_decoder_t) : Prop :=
  appended_entries self
  /\ dec_buf_size self = Z.of_nat (List.length (dec_buffer self))
  /\ 0 <= dec_buf_off self <= dec_buf_size self
  /\ forall (i : nat) field,
       dec_entries self !! i = Some (Some field) ->
       exists o, f_name field = Some o /\ 0 <= o /\ 0 <= f_length field
                 /\ o + f_length field <= dec_buf_off self.

(** [b] is [a] but for the bytes [lo .. hi) of the arena and the last field. *)
Definition arena_edit (a b : yajbe_field_decoder_t) (lo hi : Z) : Prop :=
  dec_entries b = dec_entries a /\ dec_entries_size b = dec_entries_size a
  /\ dec_entries_count b = dec_entries_count a
  /\ dec_buf_size b = dec_buf_size a /\ dec_buf_off b = dec_buf_off a
  /\ List.length (dec_buffer b) = List.length (dec_buffer a)
  /\ forall i : nat, Z.of_nat i < lo \/ hi <= Z.of_nat i ->
       dec_buffer b !! i = dec_buffer a !! i.

(** [self'] holds what [self] holds, and at most one entry more: the entries
    of [self] and the used part of its arena are unchanged; an entry that
    [self] did not hold is the next one of the array, and its bytes are
    those that the used part of the arena has grown by. *)
Definition extends_decoder (self self' : yajbe_field_decoder_t) : Prop :=
  decoder_wf self'
  /\ dec_entries_count self <= dec_entries_count self' <= dec_entries_count self + 1
  /\ dec_buf_off self <= dec_buf_off self'
  /\ (forall i : nat, Z.of_nat i < dec_buf_off self ->
        dec_buffer self' !! i = dec_buffer self !! i)
  /\ (forall (i : nat) field,
        dec_entries self !! i = Some (Some field) ->
        dec_entries self' !! i = Some (Some field))
  /\ (forall (i : nat) field,
        dec_entries_count self <= Z.of_nat i ->
        dec_entries self' !! i = Some (Some field) ->
        Z.of_nat i = dec_entries_count self
        /\ f_name field = Some (dec_buf_off self)
        /\ dec_buf_off self' = dec_buf_off self + f_length field).

(** ** Objects in the streaming form *)

(** The members of an object, written as examples/demo-yajbe.c writes them:
    for each one [yajbe_encode_object_field], then the encoder of the value.
    The codes of the calls are collected. *)
Fixpoint encode_members (self : yajbe_encoder_t) (members : list (list Z * primitive))
  : outcome (list Z * yajbe_encoder_t) :=
  match members with
  | [] => Done ([], self)
  | (key, v) :: members =>
      '(r1, self) ← yajbe_encode_object_field self key (strlen key);
      '(r2, self) ← encode_primitive self v;
      '(rs, self) ← encode_members self members;
      Done (r1 :: r2 :: rs, self)
  end.

(** The macro [yajbe_encode_object] of examples/demo-yajbe.c around the
    members: it returns at once when the start marker cannot be written. *)
Definition encode_object (self : yajbe_encoder_t) (members : list (list Z * primitive))
  : outcome (list Z * yajbe_encoder_t) :=
  let '(r, self) := yajbe_encode_object_start self in
  if r <? 0 then Done ([r], self)
  else
    '(rs, self) ← encode_members self members;
    let '(r', self) := yajbe_encode_object_end self in
    Done (r :: rs ++ [r'], self).

(** The name that a field pointer returned by [yajbe_decode_object_field]
    designates. *)
Definition decoded_name (self : yajbe_decoder_t) (field : option field_ptr)
  : option (list Z) :=
  fr ← field_reader self; field_bytes fr field.

(** The members read back as [demo_decode] reads them: for each one
    [yajbe_decode_object_field], then the combined read of the value. *)
Fixpoint decode_members (likes : list primitive) (self : yajbe_decoder_t)
    (value0 : option Z) (buflen : Z)
  : outcome (list (option (list Z) * option primitive) * yajbe_decoder_t) :=
  match likes with
  | [] => Done ([], self)
  | like :: likes =>
      '(_, self, field) ← yajbe_decode_object_field self;
      let key := decoded_name self field in
      '(_, self, x) ← decode_next_value like self value0 buflen;
      '(rest, self) ← decode_members likes self value0 buflen;
      Done ((key, x) :: rest, self)
  end.

(** [yajbe_decode_next] for the start marker, the members, and
    [yajbe_decode_next] for the end marker. *)
Definition decode_object (likes : list primitive) (self : yajbe_decoder_t)
    (value0 : option Z) (buflen : Z)
  : outcome (Z * list (option (list Z) * option primitive) * Z * yajbe_decoder_t) :=
  let '(t0, self) := yajbe_decode_next self in
  '(members, self) ← decode_members likes self value0 buflen;
  let '(t1, self) := yajbe_decode_next self in
  Done (t0, members, t1, self).

(** The room that the members take at most in the stream. *)
Definition members_room (members : list (list Z * primitive)) : Z :=
  fold_right (fun m room => strlen m.1 + 4 + token_room m.2 + room) 0 members.

(** The set-up of [demo_encode]: an encoder with a table of [size] slots
    over the buffer; and of [demo_decode]: a decoder with [entries_size]
    entries and the arena [buf_fields] over the bytes that [e] has written. *)
Definition demo_encoder (size : Z) (buffer : list Z) : yajbe_encoder_t :=
  yajbe_encoder_init (Some (yajbe_field_encoder_init_fixed size))
    (z_mem_bytes_writer_init_fixed buffer (Z.of_nat (List.length buffer))).

Definition demo_decoder (entries_size : Z) (buf_fields : list Z) (e : yajbe_encoder_t)
  : yajbe_decoder_t :=
  yajbe_decoder_init
    (Some (yajbe_field_decoder_init_fixed entries_size buf_fields
             (Z.of_nat (List.length buf_fields))))
    (z_mem_bytes_reader_init (w_buffer (writer e)) (z_mem_bytes_writer_length (writer e))).

(** The members of the object that [demo_encode] writes. *)
Definition demo_members : list (list Z * primitive) :=
  [ (str "field_null", PNull);
    (str "bool_true", PBool true);
    (str "bool_false", PBool false);
    (str "field_int_0", PInt 3);
    (str "field_int_1", PInt 1234);
    (str "field_int_2", PInt (-543210));
    (str "field_sm_str", PString (str "foo")) ].

(** * Proofs *)

(** ** Integer conversions *)

Lemma int64_small x : - 2 ^ 63 <= x < 2 ^ 63 -> int64 x = x.
Proof. intros H. unfold int64. rewrite Z.mod_small; lia. Qed.

Lemma uint64_small x : 0 <= x < 2 ^ 64 -> uint64 x = x.
Proof. intros H. unfold uint64. apply Z.mod_small; lia. Qed.

Lemma int64_mod x y : x mod 2 ^ 64 = y mod 2 ^ 64 -> int64 x = int64 y.
Proof.
  intros H. unfold int64. f_equal.
  rewrite <- (Zplus_mod_idemp_l x), <- (Zplus_mod_idemp_l y). now rewrite H.
Qed.

Lemma int64_mod_2_64 x : int64 x mod 2 ^ 64 = x mod 2 ^ 64.
Proof.
  unfold int64. rewrite Zminus_mod_idemp_l.
  replace (x + 2 ^ 63 - 2 ^ 63) with x by lia. reflexivity.
Qed.

Lemma uint64_int64 x : 0 <= x < 2 ^ 64 -> uint64 (int64 x) = x.
Proof. intros H. unfold uint64. rewrite int64_mod_2_64. apply Z.mod_small; lia. Qed.

Lemma lor_mod_2_64 a b : Z.lor a b mod 2 ^ 64 = Z.lor (a mod 2 ^ 64) (b mod 2 ^ 64).
Proof. rewrite <- !Z.land_ones by lia. apply Z.land_lor_distr_l. Qed.

Lemma testbit_255 i : 0 <= i -> Z.testbit 255 i = (i <? 8).
Proof.
  intros Hi. change 255 with (Z.ones 8).
  destruct (Z.ltb_spec i 8).
  - apply Z.ones_spec_low; lia.
  - apply Z.ones_spec_high; lia.
Qed.

Lemma land_255_byte b : 0 <= b < 256 -> Z.land b 255 = b.
Proof. intros H. change 255 with (Z.ones 8). rewrite Z.land_ones by lia. apply Z.mod_small; lia. Qed.

Lemma land_255_range x : 0 <= Z.land x 255 < 256.
Proof. change 255 with (Z.ones 8). rewrite Z.land_ones by lia. apply Z.mod_pos_bound; lia. Qed.

(** ** Byte arrays *)

Lemma byte_set_app (pre rest : list Z) (j v : Z) :
  0 <= j ->
  byte_set (pre ++ rest) (Z.of_nat (length pre) + j) v = pre ++ <[Z.to_nat j := v]> rest.
Proof.
  intros Hj. unfold byte_set.
  replace (Z.to_nat (Z.of_nat (length pre) + j)) with (length pre + Z.to_nat j)%nat by lia.
  apply insert_app_r.
Qed.

Lemma byte_set_app0 (pre rest : list Z) (v : Z) :
  byte_set (pre ++ rest) (Z.of_nat (length pre)) v = pre ++ <[0%nat := v]> rest.
Proof.
  rewrite <- (Z.add_0_r (Z.of_nat (length pre))). now rewrite byte_set_app by lia.
Qed.

Lemma take_app_exact {A} (pre mid post : list A) (n : nat) :
  n = (length pre + length mid)%nat -> take n (pre ++ mid ++ post) = pre ++ mid.
Proof. intros ->. now rewrite app_assoc, <- length_app, take_app_length. Qed.

Lemma byte_at_app (pre rest : list Z) (j : Z) :
  0 <= j ->
  byte_at (pre ++ rest) (Z.of_nat (length pre) + j) = default 0 (rest !! Z.to_nat j).
Proof.
  intros Hj. unfold byte_at.
  replace (Z.to_nat (Z.of_nat (length pre) + j)) with (length pre + Z.to_nat j)%nat by lia.
  now rewrite lookup_app_r, Nat.add_comm, Nat.add_sub by lia.
Qed.

Lemma byte_at_app0 (pre post : list Z) (b : Z) :
  byte_at (pre ++ b :: post) (Z.of_nat (length pre)) = b.
Proof.
  rewrite <- (Z.add_0_r (Z.of_nat (length pre))). now rewrite byte_at_app by lia.
Qed.

Lemma le_bytes_length v n : length (le_bytes v n) = n.
Proof. unfold le_bytes. now rewrite length_map, length_seq. Qed.

(** ** The writer *)

Ltac split_cells mid H :=
  repeat (let m := fresh "m" in destruct mid as [|m mid]; simpl in H; try lia);
  try (exfalso; lia).

Lemma appended_trans w1 w2 w3 a b :
  appended w1 w2 a -> appended w2 w3 b -> appended w1 w3 (a ++ b).
Proof.
  intros (Hwf2 & Hs2 & Ho2 & Hb2) (Hwf3 & Hs3 & Ho3 & Hb3).
  unfold appended. repeat split; try apply Hwf3; try congruence.
  - rewrite length_app. lia.
  - rewrite Hb3, Hb2. now rewrite app_assoc.
Qed.

Lemma has_room_appended w w' bytes n :
  appended w w' bytes -> has_room w (Z.of_nat (length bytes) + n) -> has_room w' n.
Proof. intros (_ & Hs & Ho & _). unfold has_room. lia. Qed.

(** A well-formed writer splits its buffer at the offset. *)
Lemma writer_split w n :
  wf_writer w -> 0 <= n -> has_room w n ->
  exists pre mid post,
    w_buffer w = pre ++ mid ++ post /\ Z.of_nat (length pre) = w_offset w
    /\ Z.of_nat (length mid) = n /\ writer_bytes w = pre.
Proof.
  intros [Hsz Hoff] Hn Hroom. unfold has_room in Hroom.
  exists (take (Z.to_nat (w_offset w)) (w_buffer w)),
         (take (Z.to_nat n) (drop (Z.to_nat (w_offset w)) (w_buffer w))),
         (drop (Z.to_nat n) (drop (Z.to_nat (w_offset w)) (w_buffer w))).
  rewrite !take_drop. repeat split.
  - rewrite length_take. lia.
  - rewrite length_take, length_drop. lia.
Qed.

Lemma write_byte_appended w v :
  wf_writer w -> has_room w 1 ->
  exists w', __mem_bytes_writer_write_byte w v = (0, w') /\ appended w w' [Z.land v 255].
Proof.
  intros Hwf Hroom.
  destruct (writer_split w 1 Hwf ltac:(lia) Hroom) as (pre & mid & post & Hbuf & Hpre & Hmid & Hbytes).
  destruct mid as [|m [|? ?]]; simpl in Hmid; try lia.
  destruct Hwf as [Hsz Hoff]. unfold has_room in Hroom.
  unfold __mem_bytes_writer_write_byte.
  destruct (Z.ltb_spec (w_bufsize w) (w_offset w + 1)); [lia|].
  eexists; split; [reflexivity|].
  unfold appended, wf_writer, writer_bytes; simpl.
  rewrite Hbuf, <- Hpre, byte_set_app0. simpl.
  rewrite Hbuf in Hsz. rewrite !length_app in *. simpl in *.
  repeat split; try lia.
  rewrite Nat2Z.id, take_app_length.
  now apply (take_app_exact pre [_] post); simpl; lia.
Qed.

Lemma write_uint_appended w value (n : nat) :
  (1 <= n <= 8)%nat ->
  wf_writer w -> has_room w (Z.of_nat n) ->
  exists w', __mem_bytes_writer_write_uint w value (Z.of_nat n) = (0, w')
             /\ appended w w' (le_bytes value n).
Proof.
  intros Hn Hwf Hroom.
  destruct (writer_split w (Z.of_nat n) Hwf ltac:(lia) Hroom)
    as (pre & mid & post & Hbuf & Hpre & Hmid & Hbytes).
  destruct Hwf as [Hsz Hoff]. unfold has_room in Hroom.
  unfold __mem_bytes_writer_write_uint.
  destruct (Z.ltb_spec (w_bufsize w) (w_offset w + Z.of_nat n)); [lia|].
  eexists; split; [reflexivity|].
  unfold appended, wf_writer, writer_bytes; simpl.
  rewrite le_bytes_length, Hbuf, <- Hpre.
  rewrite Hbuf in Hsz. rewrite !length_app in Hsz.
  assert (Hlen : forall l : list Z, length l = length mid ->
            length (pre ++ l ++ post) = length (pre ++ mid ++ post)).
  { intros l Hl. rewrite !length_app. lia. }
  assert (Hn' : n = length mid) by lia. clear Hmid.
  destruct n as [|[|[|[|[|[|[|[|[|n]]]]]]]]]; try lia; clear Hn;
    split_cells mid Hn'; unfold stamp; simpl;
    repeat (rewrite byte_set_app by lia; simpl);
    (repeat split; [rewrite !length_app in *; simpl in *; lia | lia | lia | ]);
    rewrite Nat2Z.id, take_app_length;
    match goal with |- take ?N _ = _ ++ le_bytes _ ?k =>
      replace N with (length pre + k)%nat by lia;
      apply (take_app_exact pre (le_bytes value k) post); reflexivity
    end.
Qed.

Lemma mem_range_all (buf : list Z) :
  mem_range buf 0 (Z.of_nat (length buf)) = Some buf.
Proof.
  unfold mem_range. rewrite decide_True by lia.
  simpl. now rewrite Nat2Z.id, firstn_all.
Qed.

Lemma mem_range_length (obj : list Z) (off len : Z) (data : list Z) :
  mem_range obj off len = Some data -> Z.of_nat (length data) = len.
Proof.
  unfold mem_range. destruct (decide _) as [(Hoff & Hlen & Hin)|]; [|discriminate].
  intros [= <-]. rewrite length_take, length_drop. lia.
Qed.

(** Copying the bytes at [buf + base] appends them. *)
Lemma write_range_appended w (buf : list Z) (base len : Z) (data : list Z) :
  mem_range buf base len = Some data ->
  wf_writer w -> has_room w len ->
  exists w', __mem_bytes_writer_write_bytes w buf base len = Done (0, w')
             /\ appended w w' data.
Proof.
  intros Hrange Hwf Hroom. pose proof (mem_range_length _ _ _ _ Hrange) as Hlen.
  destruct (writer_split w len Hwf ltac:(lia) Hroom)
    as (pre & mid & post & Hbuf & Hpre & Hmid & Hbytes).
  destruct Hwf as [Hsz Hoff]. unfold has_room in Hroom.
  unfold __mem_bytes_writer_write_bytes.
  destruct (Z.ltb_spec (w_bufsize w) (w_offset w + len)); [lia|].
  rewrite Hrange. simpl.
  eexists; split; [reflexivity|].
  unfold appended, wf_writer, writer_bytes, mem_store; simpl.
  rewrite Hbuf, <- Hpre, !Nat2Z.id, take_app_length.
  replace (length pre + length data)%nat with (length pre + length mid)%nat by lia.
  assert (Hdrop : drop (length pre + length mid) (pre ++ mid ++ post) = post).
  { now rewrite app_assoc, <- length_app, drop_app_length. }
  rewrite Hdrop.
  rewrite Hbuf in Hsz. rewrite !length_app in *.
  repeat split; try lia.
  replace (Z.to_nat (Z.of_nat (length pre) + len))
    with (length pre + length data)%nat by lia.
  now apply take_app_exact.
Qed.

Lemma write_bytes_appended w (buf : list Z) :
  wf_writer w -> has_room w (Z.of_nat (length buf)) ->
  exists w', __mem_bytes_writer_write_bytes w buf 0 (Z.of_nat (length buf)) = Done (0, w')
             /\ appended w w' buf.
Proof. apply write_range_appended, mem_range_all. Qed.

(** ** The reader *)

Lemma reader_rest_split r (data rest : list Z) :
  wf_reader r -> reader_rest r = data ++ rest ->
  exists pre post,
    r_buffer r = pre ++ data ++ post /\ Z.of_nat (length pre) = r_offset r
    /\ r_offset r + Z.of_nat (length data) <= r_bufsize r
    /\ wf_reader (reader_advance r (Z.of_nat (length data)))
    /\ reader_rest (reader_advance r (Z.of_nat (length data))) = rest.
Proof.
  intros [Hoff Hsz] Hrest. unfold reader_rest in *.
  assert (Hlen := f_equal length Hrest).
  rewrite length_drop, length_take, length_app in Hlen.
  set (o := Z.to_nat (r_offset r)) in *. set (s := Z.to_nat (r_bufsize r)) in *.
  set (buf := r_buffer r) in *.
  assert (Hos : r_offset r + Z.of_nat (length data) <= r_bufsize r) by (subst o s; lia).
  exists (take o buf), (drop (o + length data) buf).
  assert (Hd : data = take (length data) (drop o buf)).
  { transitivity (take (length data) (drop o (take s buf))).
    - rewrite Hrest. now rewrite take_app_length.
    - rewrite !take_drop_commute, take_take. do 2 f_equal. subst o s. lia. }
  repeat split; simpl; try (subst o s buf; lia).
  - rewrite Hd at 1. rewrite app_assoc, take_take_drop. now rewrite take_drop.
  - rewrite length_take. subst o s buf. lia.
  - replace (Z.to_nat (r_offset r + Z.of_nat (length data))) with (o + length data)%nat
      by (subst o; lia).
    rewrite <- drop_drop. change (drop (length data) (drop o (take s buf)) = rest).
    rewrite Hrest. now rewrite drop_app_length.
Qed.

Lemma read_byte_next r (b : Z) (rest : list Z) :
  wf_reader r -> 0 <= b < 256 -> reader_rest r = b :: rest ->
  __mem_bytes_reader_read_byte r = (0, reader_advance r 1, Some b)
  /\ wf_reader (reader_advance r 1) /\ reader_rest (reader_advance r 1) = rest.
Proof.
  intros Hwf Hb Hrest.
  destruct (reader_rest_split r [b] rest Hwf Hrest)
    as (pre & post & Hbuf & Hpre & Hsz & Hwf' & Hadv).
  simpl in *. split; [|now split].
  unfold __mem_bytes_reader_read_byte.
  destruct (Z.ltb_spec (r_bufsize r) (r_offset r + 1)); [lia|].
  rewrite Hbuf, <- Hpre, byte_at_app0. now rewrite land_255_byte.
Qed.

Lemma read_byte_empty r :
  r_bufsize r < r_offset r + 1 -> __mem_bytes_reader_read_byte r = (- ENOSPC, r, None).
Proof.
  intros H. unfold __mem_bytes_reader_read_byte.
  now destruct (Z.ltb_spec (r_bufsize r) (r_offset r + 1)); [|lia].
Qed.

Lemma read_bytes_next r (data rest : list Z) :
  wf_reader r -> reader_rest r = data ++ rest ->
  __mem_bytes_reader_read_bytes r (Z.of_nat (length data))
  = (0, reader_advance r (Z.of_nat (length data)), Some data)
  /\ wf_reader (reader_advance r (Z.of_nat (length data)))
  /\ reader_rest (reader_advance r (Z.of_nat (length data))) = rest.
Proof.
  intros Hwf Hrest.
  destruct (reader_rest_split r data rest Hwf Hrest)
    as (pre & post & Hbuf & Hpre & Hsz & Hwf' & Hadv).
  split; [|now split].
  unfold __mem_bytes_reader_read_bytes.
  destruct (Z.ltb_spec (r_bufsize r) (r_offset r + Z.of_nat (length data))); [lia|].
  rewrite Hbuf, <- Hpre, !Nat2Z.id, drop_app_length, take_app_length. reflexivity.
Qed.

Lemma byte_of_range v j : 0 <= byte_of v j < 256.
Proof. apply land_255_range. Qed.

(** The bits of one term [(v >> 8j & 0xff) << 8j] of the reader's ladder. *)
Lemma testbit_byte_term v j i :
  0 <= j -> 0 <= i ->
  Z.testbit (Z.shiftl (byte_of v j) (8 * j)) i
  = Z.testbit v i && (8 * j <=? i) && (i <? 8 * j + 8).
Proof.
  intros Hj Hi. rewrite Z.shiftl_spec by lia.
  destruct (Z.leb_spec (8 * j) i).
  - unfold byte_of. rewrite Z.land_spec, Z.shiftr_spec, testbit_255 by lia.
    replace (i - 8 * j + 8 * j) with i by lia.
    rewrite andb_true_r. f_equal.
    destruct (Z.ltb_spec (i - 8 * j) 8), (Z.ltb_spec i (8 * j + 8)); lia || reflexivity.
  - rewrite Z.testbit_neg_r by lia. now rewrite andb_false_r.
Qed.

Lemma testbit_above v n i :
  0 <= v < 2 ^ n -> n <= i -> Z.testbit v i = false.
Proof.
  intros Hv Hi. destruct (Z.eq_dec v 0) as [->|Hne]; [apply Z.bits_0|].
  apply Z.bits_above_log2; [lia|].
  assert (0 <= n) by (destruct (Z.le_gt_cases 0 n); [lia|]; rewrite Z.pow_neg_r in Hv; lia).
  assert (Z.log2 v < n) by (apply Z.log2_lt_pow2; lia). lia.
Qed.

Lemma testbit_mod64 a i :
  0 <= i -> Z.testbit (a mod 2 ^ 64) i = Z.testbit a i && (i <? 64).
Proof.
  intros Hi. destruct (Z.ltb_spec i 64).
  - rewrite Z.mod_pow2_bits_low by lia. now rewrite andb_true_r.
  - rewrite Z.mod_pow2_bits_high by lia. now rewrite andb_false_r.
Qed.

(** The [|=] chain over the bytes of [v] rebuilds [v], bit by bit. *)
Ltac ladder_bits v n :=
  apply Z.bits_inj'; intros i Hi;
  rewrite ?Z.lor_spec, ?testbit_mod64, ?testbit_byte_term, ?Z.bits_0 by lia;
  destruct (Z.testbit v i) eqn:Hbit; simpl; [|reflexivity];
  assert (i < 8 * n)
    by (destruct (Z.lt_ge_cases i (8 * n)) as [|Hge]; [assumption|];
        rewrite (testbit_above v (8 * n) i) in Hbit by (assumption || lia); discriminate);
  replace (i <? 64) with true by (symmetry; apply Z.ltb_lt; lia);
  rewrite ?andb_true_r;
  rewrite ?orb_true_iff, ?andb_true_iff, ?Z.leb_le, ?Z.ltb_lt; lia.

Lemma read_uint_next r (v : Z) (n : nat) (rest : list Z) :
  (1 <= n <= 8)%nat -> wf_reader r -> 0 <= v < 2 ^ (8 * Z.of_nat n) ->
  reader_rest r = le_bytes v n ++ rest ->
  __mem_bytes_reader_read_uint r (Z.of_nat n)
  = (0, reader_advance r (Z.of_nat n), Some (int64 v))
  /\ wf_reader (reader_advance r (Z.of_nat n))
  /\ reader_rest (reader_advance r (Z.of_nat n)) = rest.
Proof.
  intros Hn Hwf Hv Hrest.
  destruct (reader_rest_split r _ rest Hwf Hrest)
    as (pre & post & Hbuf & Hpre & Hsz & Hwf' & Hadv).
  rewrite le_bytes_length in *. split; [|now split].
  unfold __mem_bytes_reader_read_uint.
  destruct (Z.ltb_spec (r_bufsize r) (r_offset r + Z.of_nat n)); [lia|].
  rewrite Hbuf, <- Hpre.
  apply (f_equal (fun x => (0, reader_advance r (Z.of_nat n), Some x))).
  destruct n as [|[|[|[|[|[|[|[|[|n]]]]]]]]]; try lia; clear Hn;
    unfold gather; simpl;
    rewrite !byte_at_app by lia; simpl;
    rewrite !(land_255_byte (byte_of _ _)) by apply byte_of_range;
    apply int64_mod; repeat (rewrite lor_mod_2_64 || rewrite int64_mod_2_64).
  - ladder_bits v 1.
  - ladder_bits v 2.
  - ladder_bits v 3.
  - ladder_bits v 4.
  - ladder_bits v 5.
  - ladder_bits v 6.
  - ladder_bits v 7.
  - ladder_bits v 8.
Qed.

(** ** Byte widths *)

Lemma int_bytes_width_spec v (m : nat) :
  (1 <= m <= 8)%nat -> 0 <= v < 2 ^ (8 * Z.of_nat m) ->
  exists n : nat,
    __int_bytes_width v = Z.of_nat n /\ (1 <= n <= m)%nat /\ v < 2 ^ (8 * Z.of_nat n).
Proof.
  intros Hm Hv. unfold __int_bytes_width.
  destruct (Z.eqb_spec v 0) as [->|Hne]; simpl.
  - exists 1%nat. repeat split; try lia.
  - assert (Hv64 : 0 <= v < 2 ^ 64).
    { split; [lia|]. eapply Z.lt_le_trans; [apply Hv|]. apply Z.pow_le_mono_r; lia. }
    unfold __builtin_clzll. rewrite uint64_small by assumption.
    assert (Hl : 0 <= Z.log2 v < 8 * Z.of_nat m).
    { split; [apply Z.log2_nonneg|]. apply Z.log2_lt_pow2; lia. }
    rewrite Z.shiftr_div_pow2 by lia. change (2 ^ 3) with 8.
    replace (64 - (63 - Z.log2 v) + 7) with (Z.log2 v + 8) by lia.
    set (l := Z.log2 v) in *.
    assert (Hq : 1 <= (l + 8) / 8 <= Z.of_nat m).
    { split.
      - apply Z.div_le_lower_bound; lia.
      - apply Z.lt_succ_r. apply Z.div_lt_upper_bound; lia. }
    exists (Z.to_nat ((l + 8) / 8)). rewrite Z2Nat.id by lia.
    repeat split; try lia.
    apply Z.lt_le_trans with (2 ^ (l + 1)).
    + apply Z.log2_spec. lia.
    + apply Z.pow_le_mono_r; [lia|].
      pose proof (Z.mod_pos_bound (l + 8) 8 ltac:(lia)).
      pose proof (Z.div_mod (l + 8) 8 ltac:(lia)). lia.
Qed.

(** ** Finite checks of the head-byte table *)

Lemma range_forall (f : Z -> bool) (n : nat) :
  forallb (fun k => f (Z.of_nat k)) (seq 0 n) = true ->
  forall x, 0 <= x < Z.of_nat n -> f x = true.
Proof.
  intros H x Hx. rewrite forallb_forall in H.
  rewrite <- (Z2Nat.id x) by lia. apply H. apply in_seq. lia.
Qed.

Lemma is_head_elim fam x typ m1 v1 m2 v2 :
  is_head fam x typ m1 v1 m2 v2 = true ->
  let h := Z.land (Z.lor fam x) 255 in
  token_of h = typ /\ Z.land h m1 = v1 /\ Z.land h m2 = v2.
Proof.
  unfold is_head. rewrite !andb_true_iff, !Z.eqb_eq. tauto.
Qed.

Lemma small_positive_head x :
  0 <= x < 24 -> is_head 0x40 x YAJBE_INT_SMALL 0x60 0x40 0x1f x = true.
Proof.
  apply (range_forall (fun x => is_head 0x40 x YAJBE_INT_SMALL 0x60 0x40 0x1f x) 24).
  now vm_compute.
Qed.

Lemma small_negative_head x :
  0 <= x < 24 -> is_head 0x60 x YAJBE_INT_SMALL 0x60 0x60 0x1f x = true.
Proof.
  apply (range_forall (fun x => is_head 0x60 x YAJBE_INT_SMALL 0x60 0x60 0x1f x) 24).
  now vm_compute.
Qed.

Lemma wide_positive_head x :
  0 <= x < 9 -> is_head 0x40 (23 + x) (if x =? 0 then YAJBE_INT_SMALL else YAJBE_INT_POSITIVE)
                        0x60 0x40 0x1f (23 + x) = true.
Proof.
  apply (range_forall (fun x => is_head 0x40 (23 + x)
           (if x =? 0 then YAJBE_INT_SMALL else YAJBE_INT_POSITIVE) 0x60 0x40 0x1f (23 + x)) 9).
  now vm_compute.
Qed.

Lemma wide_negative_head x :
  0 <= x < 9 -> is_head 0x60 (23 + x) (if x =? 0 then YAJBE_INT_SMALL else YAJBE_INT_NEGATIVE)
                        0x60 0x60 0x1f (23 + x) = true.
Proof.
  apply (range_forall (fun x => is_head 0x60 (23 + x)
           (if x =? 0 then YAJBE_INT_SMALL else YAJBE_INT_NEGATIVE) 0x60 0x60 0x1f (23 + x)) 9).
  now vm_compute.
Qed.

Lemma string_head x :
  0 <= x < 64 -> is_head 0xc0 x (if x <? 60 then YAJBE_SMALL_STRING else YAJBE_STRING)
                         0x3f x 0x3f x = true.
Proof.
  apply (range_forall (fun x => is_head 0xc0 x
           (if x <? 60 then YAJBE_SMALL_STRING else YAJBE_STRING) 0x3f x 0x3f x) 64).
  now vm_compute.
Qed.

Lemma bytes_head x :
  0 <= x < 64 -> is_head 0x80 x (if x <? 60 then YAJBE_SMALL_BYTES else YAJBE_BYTES)
                         0x3f x 0x3f x = true.
Proof.
  apply (range_forall (fun x => is_head 0x80 x
           (if x <? 60 then YAJBE_SMALL_BYTES else YAJBE_BYTES) 0x3f x 0x3f x) 64).
  now vm_compute.
Qed.

(** ** The value encoder writes tokens, the value decoder reads them *)

Lemma emits_u8 self x :
  wf_writer (writer self) -> has_room (writer self) 1 ->
  emits self (with_writer self (z_bytes_writer_write_u8 (writer self) x)) [Z.land x 255].
Proof.
  intros Hwf Hroom. unfold z_bytes_writer_write_u8.
  destruct (write_byte_appended (writer self) x Hwf Hroom) as (w' & -> & Happ).
  unfold emits, with_writer. simpl. tauto.
Qed.

Lemma emits_uint self value (n : nat) :
  (1 <= n <= 8)%nat ->
  wf_writer (writer self) -> has_room (writer self) (Z.of_nat n) ->
  emits self (with_writer self (z_bytes_writer_write_uint (writer self) value (Z.of_nat n)))
        (le_bytes value n).
Proof.
  intros Hn Hwf Hroom. unfold z_bytes_writer_write_uint.
  destruct (write_uint_appended (writer self) value n Hn Hwf Hroom) as (w' & -> & Happ).
  unfold emits, with_writer. simpl. tauto.
Qed.

(** A head byte followed by the least significant bytes of [value]. *)
Lemma emits_head_uint self head value (n : nat) :
  (1 <= n <= 8)%nat ->
  wf_writer (writer self) -> has_room (writer self) (1 + Z.of_nat n) ->
  emits self
    (let '(r, self1) := with_writer self (z_bytes_writer_write_u8 (writer self) head) in
     if r <? 0 then (r, self1)
     else with_writer self1 (z_bytes_writer_write_uint (writer self1) value (Z.of_nat n)))
    (Z.land head 255 :: le_bytes value n).
Proof.
  intros Hn Hwf Hroom.
  pose proof (emits_u8 self head Hwf) as H1.
  destruct (with_writer self (z_bytes_writer_write_u8 (writer self) head)) as [r self1].
  destruct H1 as (Hr & Hfw & Happ); [unfold has_room in *; lia|].
  cbn [fst snd] in *. subst r. simpl.
  pose proof (emits_uint self1 value n Hn) as H2.
  destruct (with_writer self1 _) as [r2 self2].
  destruct H2 as (Hr2 & Hfw2 & Happ2); [apply Happ| |].
  { eapply has_room_appended; [exact Happ|]. simpl. unfold has_room in *. lia. }
  unfold emits. cbn [fst snd] in *. split; [assumption|]. split; [congruence|].
  apply (appended_trans _ _ _ [_] _ Happ Happ2).
Qed.

Lemma encode_int_emits self v :
  - 2 ^ 63 < v < 2 ^ 63 ->
  wf_writer (writer self) -> has_room (writer self) 9 ->
  emits self (yajbe_encode_int self v) (int_token v).
Proof.
  intros Hv Hwf Hroom. unfold yajbe_encode_int, int_token.
  destruct (Z.ltb_spec 0 v).
  - unfold __yajbe_encode_positive_int. destruct (Z.leb_spec v 24).
    + apply emits_u8; [assumption|unfold has_room in *; lia].
    + rewrite int64_small by lia.
      destruct (int_bytes_width_spec (v - 25) 8) as (n & -> & Hn & _); [lia|simpl; lia|].
      rewrite Nat2Z.id. apply emits_head_uint; [lia|assumption|unfold has_room in *; lia].
  - unfold __yajbe_encode_negative_int. rewrite int64_small by lia.
    destruct (Z.leb_spec (- v) 23).
    + apply emits_u8; [assumption|unfold has_room in *; lia].
    + rewrite int64_small by lia.
      destruct (int_bytes_width_spec (- v - 24) 8) as (n & -> & Hn & _); [lia|simpl; lia|].
      rewrite Nat2Z.id. apply emits_head_uint; [lia|assumption|unfold has_room in *; lia].
Qed.

Lemma decode_next_head d (h : Z) (rest : list Z) :
  wf_reader (reader d) -> 0 <= h < 256 -> reader_rest (reader d) = h :: rest ->
  yajbe_decode_next d = decode_next_switch (at_head d h)
  /\ wf_reader (reader (at_head d h)) /\ reader_rest (reader (at_head d h)) = rest.
Proof.
  intros Hwf Hh Hrest.
  destruct (read_byte_next _ _ _ Hwf Hh Hrest) as (Hread & Hwf' & Hrest').
  unfold yajbe_decode_next, z_bytes_reader_read_u8. rewrite Hread. simpl. tauto.
Qed.

Lemma decode_int_token d v (rest : list Z) :
  - 2 ^ 63 < v < 2 ^ 63 ->
  wf_reader (reader d) -> reader_rest (reader d) = int_token v ++ rest ->
  exists t d1,
    yajbe_decode_next d = (t, d1) /\ 0 <= t
    /\ forall v0, exists d2,
         yajbe_decode_int d1 v0 = Done (0, d2, Some v)
         /\ wf_reader (reader d2) /\ reader_rest (reader d2) = rest.
Proof.
  intros Hv Hwf Hrest. unfold int_token in Hrest.
  destruct (Z.ltb_spec 0 v).
  - destruct (Z.leb_spec v 24).
    + destruct (is_head_elim _ _ _ _ _ _ _ (small_positive_head (v - 1) ltac:(lia)))
        as (Htok & Hsign & Hlow).
      destruct (decode_next_head d _ rest Hwf (land_255_range _) Hrest) as (-> & Hwf1 & Hrest1).
      set (h := Z.land (Z.lor 64 (v - 1)) 255) in *.
      unfold decode_next_switch. simpl. rewrite Htok. simpl.
      eexists _, _. split; [reflexivity|]. split; [unfold YAJBE_INT_SMALL; lia|].
      intros v0. unfold yajbe_decode_int. simpl. rewrite Htok. simpl.
      unfold __decode_small_int. simpl. rewrite Hsign, Hlow. simpl.
      replace (1 + (v - 1)) with v by lia.
      eexists. split; [reflexivity|split; eassumption].
    + destruct (int_bytes_width_spec (v - 25) 8) as (n & Hw & Hn & Hlt); [lia|simpl; lia|].
      rewrite Hw, Nat2Z.id in Hrest.
      pose proof (is_head_elim _ _ _ _ _ _ _ (wide_positive_head (Z.of_nat n) ltac:(lia)))
        as (Htok & Hsign & Hlow).
      destruct (Z.eqb_spec (Z.of_nat n) 0); [lia|].
      destruct (decode_next_head d _ _ Hwf (land_255_range _) Hrest) as (-> & Hwf1 & Hrest1).
      set (h := Z.land (Z.lor 64 (23 + Z.of_nat n)) 255) in *.
      unfold decode_next_switch. simpl. rewrite Htok, Hlow. simpl.
      replace (23 + Z.of_nat n - 23) with (Z.of_nat n) by lia.
      eexists _, _. split; [reflexivity|]. split; [unfold YAJBE_INT_POSITIVE; lia|].
      intros v0. unfold yajbe_decode_int. simpl. rewrite Htok. simpl.
      unfold __decode_int_positive, z_bytes_reader_read_uint. simpl.
      destruct (read_uint_next _ (v - 25) n rest Hn Hwf1 ltac:(lia) Hrest1)
        as (Hread & Hwf2 & Hrest2).
      simpl in Hread. rewrite Hread. simpl.
      rewrite (int64_small (v - 25)) by lia.
      replace (v - 25 + 25) with v by lia. rewrite int64_small by lia.
      eexists. split; [reflexivity|split; eassumption].
  - destruct (Z.leb_spec (- v) 23).
    + destruct (is_head_elim _ _ _ _ _ _ _ (small_negative_head (- v) ltac:(lia)))
        as (Htok & Hsign & Hlow).
      destruct (decode_next_head d _ rest Hwf (land_255_range _) Hrest) as (-> & Hwf1 & Hrest1).
      set (h := Z.land (Z.lor 96 (- v)) 255) in *.
      unfold decode_next_switch. simpl. rewrite Htok. simpl.
      eexists _, _. split; [reflexivity|]. split; [unfold YAJBE_INT_SMALL; lia|].
      intros v0. unfold yajbe_decode_int. simpl. rewrite Htok. simpl.
      unfold __decode_small_int. simpl. rewrite Hsign, Hlow. simpl.
      rewrite Z.opp_involutive.
      eexists. split; [reflexivity|split; eassumption].
    + destruct (int_bytes_width_spec (- v - 24) 8) as (n & Hw & Hn & Hlt); [lia|simpl; lia|].
      rewrite Hw, Nat2Z.id in Hrest.
      pose proof (is_head_elim _ _ _ _ _ _ _ (wide_negative_head (Z.of_nat n) ltac:(lia)))
        as (Htok & Hsign & Hlow).
      destruct (Z.eqb_spec (Z.of_nat n) 0); [lia|].
      destruct (decode_next_head d _ _ Hwf (land_255_range _) Hrest) as (-> & Hwf1 & Hrest1).
      set (h := Z.land (Z.lor 96 (23 + Z.of_nat n)) 255) in *.
      unfold decode_next_switch. simpl. rewrite Htok, Hlow. simpl.
      replace (23 + Z.of_nat n - 23) with (Z.of_nat n) by lia.
      eexists _, _. split; [reflexivity|]. split; [unfold YAJBE_INT_NEGATIVE; lia|].
      intros v0. unfold yajbe_decode_int. simpl. rewrite Htok. simpl.
      unfold __decode_int_negative, z_bytes_reader_read_uint. simpl.
      destruct (read_uint_next _ (- v - 24) n rest Hn Hwf1 ltac:(lia) Hrest1)
        as (Hread & Hwf2 & Hrest2).
      simpl in Hread. rewrite Hread. simpl.
      rewrite (int64_small (- v - 24)) by lia.
      replace (- v - 24 + 24) with (- v) by lia. rewrite (int64_small (- v)) by lia.
      rewrite Z.opp_involutive, int64_small by lia.
      eexists. split; [reflexivity|split; eassumption].
Qed.

Lemma encode_length_emits self head inline_max length :
  0 <= inline_max -> 0 <= length < 2 ^ 63 ->
  wf_writer (writer self) -> has_room (writer self) 9 ->
  emits self (__yajbe_encode_length self head inline_max length)
        (length_token head inline_max length).
Proof.
  intros Hmax Hlen Hwf Hroom. unfold __yajbe_encode_length, length_token.
  destruct (Z.leb_spec length inline_max).
  - apply emits_u8; [assumption|unfold has_room in *; lia].
  - rewrite uint64_small by lia.
    destruct (int_bytes_width_spec (length - inline_max) 8) as (n & -> & Hn & _);
      [lia|simpl; lia|].
    rewrite Nat2Z.id. apply emits_head_uint; [lia|assumption|unfold has_room in *; lia].
Qed.

Lemma length_token_length head inline_max length :
  0 <= length < 2 ^ 63 -> 0 <= inline_max ->
  (List.length (length_token head inline_max length) <= 9)%nat.
Proof.
  intros Hlen Hmax. unfold length_token. destruct (Z.leb_spec length inline_max); simpl; [lia|].
  destruct (int_bytes_width_spec (length - inline_max) 8) as (n & -> & Hn & _);
    [lia|simpl; lia|].
  rewrite le_bytes_length. lia.
Qed.

(** A length header followed by the payload. *)
Lemma emits_length_payload self head (data : list Z) :
  Z.of_nat (List.length data) < 2 ^ 63 ->
  wf_writer (writer self) -> has_room (writer self) (9 + Z.of_nat (List.length data)) ->
  exists res,
    (let '(r, self1) := __yajbe_encode_length self head 59 (Z.of_nat (List.length data)) in
     if r <? 0 then Done (r, self1)
     else with_writer self1
            <$> z_bytes_writer_write (writer self1) data 0 (Z.of_nat (List.length data)))
    = Done res
    /\ emits self res (length_token head 59 (Z.of_nat (List.length data)) ++ data).
Proof.
  intros Hlen Hwf Hroom.
  pose proof (encode_length_emits self head 59 (Z.of_nat (List.length data))) as H1.
  pose proof (length_token_length head 59 (Z.of_nat (List.length data))) as Hl.
  destruct (__yajbe_encode_length self head 59 _) as [r self1].
  destruct H1 as (Hr & Hfw & Happ); [lia|lia|assumption|unfold has_room in *; lia|].
  cbn [fst snd] in *. subst r. simpl.
  destruct (write_bytes_appended (writer self1) data) as (w' & Hw & Happ2); [apply Happ| |].
  { eapply has_room_appended; [exact Happ|]. unfold has_room in *. lia. }
  unfold z_bytes_writer_write. rewrite Hw. simpl.
  eexists. split; [reflexivity|].
  unfold emits, with_writer. cbn [fst snd writer field_writer].
  split; [reflexivity|]. split; [assumption|].
  exact (appended_trans _ _ _ _ _ Happ Happ2).
Qed.

Lemma decode_next_length_token d (fam small wide L : Z) (rest : list Z) :
  (fam = 0x80 /\ small = YAJBE_SMALL_BYTES /\ wide = YAJBE_BYTES)
  \/ (fam = 0xc0 /\ small = YAJBE_SMALL_STRING /\ wide = YAJBE_STRING) ->
  0 <= L < 59 + 2 ^ 32 ->
  wf_reader (reader d) -> reader_rest (reader d) = length_token fam 59 L ++ rest ->
  exists t d1,
    yajbe_decode_next d = (t, d1) /\ 0 <= t
    /\ (item_type d1 = small \/ item_type d1 = wide)
    /\ item_length d1 = Some L
    /\ wf_reader (reader d1) /\ reader_rest (reader d1) = rest.
Proof.
  intros Hfam HL Hwf Hrest. unfold length_token in Hrest.
  assert (Hhead : forall x, 0 <= x < 64 ->
            is_head fam x (if x <? 60 then small else wide) 0x3f x 0x3f x = true).
  { destruct Hfam as [(-> & -> & ->)|(-> & -> & ->)]; [apply bytes_head|apply string_head]. }
  destruct (Z.leb_spec L 59).
  - pose proof (is_head_elim _ _ _ _ _ _ _ (Hhead L ltac:(lia))) as (Htok & Hlow & _).
    destruct (Z.ltb_spec L 60); [|lia].
    destruct (decode_next_head d _ rest Hwf (land_255_range _) Hrest) as (-> & Hwf1 & Hrest1).
    unfold decode_next_switch. simpl. rewrite Htok, Hlow.
    destruct Hfam as [(-> & -> & ->)|(-> & -> & ->)]; simpl;
      (eexists _, _; split; [reflexivity|]; simpl; rewrite Htok;
       split; [now vm_compute|]; split; [now left|]; split; [reflexivity|];
       split; assumption).
  - destruct (int_bytes_width_spec (L - 59) 4) as (n & Hw & Hn & Hlt); [lia|simpl; lia|].
    rewrite Hw, Nat2Z.id in Hrest.
    pose proof (is_head_elim _ _ _ _ _ _ _ (Hhead (59 + Z.of_nat n) ltac:(lia)))
      as (Htok & Hlow & _).
    destruct (Z.ltb_spec (59 + Z.of_nat n) 60); [lia|].
    destruct (decode_next_head d _ _ Hwf (land_255_range _) Hrest) as (-> & Hwf1 & Hrest1).
    destruct (read_uint_next _ (L - 59) n rest ltac:(lia) Hwf1 ltac:(lia) Hrest1)
      as (Hread & Hwf2 & Hrest2).
    assert (Hlen : int64 (59 + int64 (L - 59)) = L).
    { rewrite (int64_small (L - 59)) by lia. rewrite int64_small by lia. lia. }
    unfold decode_next_switch. simpl. rewrite Htok.
    destruct Hfam as [(-> & -> & ->)|(-> & -> & ->)]; simpl;
      unfold __read_item_length, z_bytes_reader_read_uint; simpl; rewrite Hlow;
      replace (59 + Z.of_nat n - 59) with (Z.of_nat n) by lia;
      simpl in Hread; rewrite Hread; simpl; rewrite Hlen;
      (eexists _, _; split; [reflexivity|]; simpl; rewrite Htok;
       split; [now vm_compute|]; split; [now right|]; split; [reflexivity|];
       split; assumption).
Qed.

(** ** Round trip of the primitive values *)

Lemma fresh_encoder_wf buffer : wf_writer (writer (fresh_encoder buffer)).
Proof. unfold wf_writer. simpl. lia. Qed.

Lemma decoder_over_rest buffer res (token : list Z) :
  emits (fresh_encoder buffer) res token ->
  res.1 = 0 /\ wf_reader (reader (decoder_over res.2))
  /\ reader_rest (reader (decoder_over res.2)) = token.
Proof.
  intros (Hr & _ & (Hsz & Hoff) & _ & _ & Hbytes). split; [assumption|].
  unfold wf_reader, reader_rest, decoder_over, z_mem_bytes_writer_length. simpl.
  unfold writer_bytes in Hbytes. simpl in Hbytes. rewrite Hbytes. split; [lia|reflexivity].
Qed.

Lemma float_roundtrip buffer (bits : Z) value0 buflen :
  0 <= bits < 2 ^ 32 -> 9 <= Z.of_nat (List.length buffer) ->
  exists e1, yajbe_encode_float (fresh_encoder buffer) bits = Done (0, e1)
    /\ decode_primitive (PFloat bits) (decoder_over e1) value0 buflen = Done (Some (PFloat bits)).
Proof.
  intros Hbits Hroom. unfold yajbe_encode_float.
  pose proof (emits_u8 (fresh_encoder buffer) 5 (fresh_encoder_wf buffer)) as H1.
  destruct (with_writer _ _) as [r self1].
  destruct H1 as (Hr & Hfw & Happ); [unfold has_room; simpl; lia|].
  cbn [fst snd] in *. subst r. simpl.
  destruct (write_bytes_appended (writer self1) (le_bytes bits 4)) as (w' & Hw & Happ2);
    [apply Happ| |].
  { eapply has_room_appended; [exact Happ|]. unfold has_room. simpl. lia. }
  unfold z_bytes_writer_write.
  change (Z.of_nat (List.length (le_bytes bits 4))) with 4 in Hw. rewrite Hw. simpl.
  eexists. split; [reflexivity|].
  destruct (decoder_over_rest buffer (0, {| writer := w'; field_writer := field_writer self1 |})
              ([5] ++ le_bytes bits 4)) as (_ & Hwf & Hrest).
  { split; [reflexivity|]. split; [assumption|]. exact (appended_trans _ _ _ _ _ Happ Happ2). }
  cbn [fst snd] in *. unfold decode_primitive.
  destruct (decode_next_head _ 5 _ Hwf ltac:(lia) Hrest) as (-> & Hwf1 & Hrest1).
  rewrite <- (app_nil_r (le_bytes bits 4)) in Hrest1.
  destruct (read_uint_next _ bits 4 [] ltac:(lia) Hwf1 ltac:(simpl; lia) Hrest1)
    as (Hread & _ & _).
  unfold decode_next_switch. simpl. unfold yajbe_decode_float, z_bytes_reader_read_uint. simpl.
  simpl in Hread. change (Z.of_nat 4) with 4 in Hread. rewrite Hread. simpl.
  rewrite int64_small by lia. unfold uint32. rewrite Z.mod_small by lia. reflexivity.
Qed.

Lemma double_roundtrip buffer (bits : Z) value0 buflen :
  0 <= bits < 2 ^ 64 -> 9 <= Z.of_nat (List.length buffer) ->
  exists e1, yajbe_encode_double (fresh_encoder buffer) bits = Done (0, e1)
    /\ decode_primitive (PDouble bits) (decoder_over e1) value0 buflen
       = Done (Some (PDouble bits)).
Proof.
  intros Hbits Hroom. unfold yajbe_encode_double.
  pose proof (emits_u8 (fresh_encoder buffer) 6 (fresh_encoder_wf buffer)) as H1.
  destruct (with_writer _ _) as [r self1].
  destruct H1 as (Hr & Hfw & Happ); [unfold has_room; simpl; lia|].
  cbn [fst snd] in *. subst r. simpl.
  destruct (write_bytes_appended (writer self1) (le_bytes bits 8)) as (w' & Hw & Happ2);
    [apply Happ| |].
  { eapply has_room_appended; [exact Happ|]. unfold has_room. simpl. lia. }
  unfold z_bytes_writer_write.
  change (Z.of_nat (List.length (le_bytes bits 8))) with 8 in Hw. rewrite Hw. simpl.
  eexists. split; [reflexivity|].
  destruct (decoder_over_rest buffer (0, {| writer := w'; field_writer := field_writer self1 |})
              ([6] ++ le_bytes bits 8)) as (_ & Hwf & Hrest).
  { split; [reflexivity|]. split; [assumption|]. exact (appended_trans _ _ _ _ _ Happ Happ2). }
  cbn [fst snd] in *. unfold decode_primitive.
  destruct (decode_next_head _ 6 _ Hwf ltac:(lia) Hrest) as (-> & Hwf1 & Hrest1).
  rewrite <- (app_nil_r (le_bytes bits 8)) in Hrest1.
  destruct (read_uint_next _ bits 8 [] ltac:(lia) Hwf1 ltac:(simpl; lia) Hrest1)
    as (Hread & _ & _).
  unfold decode_next_switch. simpl. unfold yajbe_decode_double, z_bytes_reader_read_uint. simpl.
  simpl in Hread. change (Z.of_nat 8) with 8 in Hread. rewrite Hread. simpl.
  rewrite uint64_int64 by lia. reflexivity.
Qed.

Lemma bytes_roundtrip buffer (data : list Z) value0 buflen :
  Z.of_nat (List.length data) < 59 + 2 ^ 32 -> Z.of_nat (List.length data) <= buflen ->
  9 + Z.of_nat (List.length data) <= Z.of_nat (List.length buffer) ->
  exists e1,
    yajbe_encode_bytes (fresh_encoder buffer) data (Z.of_nat (List.length data)) = Done (0, e1)
    /\ decode_primitive (PBytes data) (decoder_over e1) value0 buflen = Done (Some (PBytes data)).
Proof.
  intros Hlen Hbuf Hroom.
  destruct (emits_length_payload (fresh_encoder buffer) 0x80 data ltac:(lia)
              (fresh_encoder_wf buffer) ltac:(unfold has_room; simpl; lia))
    as ([r e1] & Henc & Hemits).
  destruct (decoder_over_rest _ _ _ Hemits) as (Hr & Hwf & Hrest).
  cbn [fst snd] in *. subst r.
  exists e1. split; [exact Henc|].
  rewrite <- (app_nil_r data) in Hrest at 2.
  destruct (decode_next_length_token _ 0x80 YAJBE_SMALL_BYTES YAJBE_BYTES
              (Z.of_nat (List.length data)) (data ++ [])
              ltac:(left; tauto) ltac:(lia) Hwf Hrest)
    as (t & d1 & Hnext & Ht & Htype & Hilen & Hwf1 & Hrest1).
  unfold decode_primitive. rewrite Hnext.
  destruct (Z.ltb_spec t 0); [lia|].
  destruct (read_bytes_next _ data [] Hwf1 Hrest1) as (Hread & _ & _).
  unfold yajbe_decode_bytes. rewrite Hilen.
  destruct Htype as [-> | ->]; simpl;
    rewrite uint64_small by lia;
    (destruct (Z.ltb_spec buflen (Z.of_nat (List.length data))); [lia|]);
    unfold z_bytes_reader_read; rewrite Hread; reflexivity.
Qed.

Lemma string_roundtrip buffer (data : list Z) value0 buflen :
  Z.of_nat (List.length data) < 59 + 2 ^ 32 -> Z.of_nat (List.length data) <= buflen ->
  9 + Z.of_nat (List.length data) <= Z.of_nat (List.length buffer) ->
  exists e1,
    yajbe_encode_string (fresh_encoder buffer) data (Z.of_nat (List.length data)) = Done (0, e1)
    /\ decode_primitive (PString data) (decoder_over e1) value0 buflen
       = Done (Some (PString data)).
Proof.
  intros Hlen Hbuf Hroom.
  destruct (emits_length_payload (fresh_encoder buffer) 0xc0 data ltac:(lia)
              (fresh_encoder_wf buffer) ltac:(unfold has_room; simpl; lia))
    as ([r e1] & Henc & Hemits).
  destruct (decoder_over_rest _ _ _ Hemits) as (Hr & Hwf & Hrest).
  cbn [fst snd] in *. subst r.
  exists e1. split; [exact Henc|].
  rewrite <- (app_nil_r data) in Hrest at 2.
  destruct (decode_next_length_token _ 0xc0 YAJBE_SMALL_STRING YAJBE_STRING
              (Z.of_nat (List.length data)) (data ++ [])
              ltac:(right; tauto) ltac:(lia) Hwf Hrest)
    as (t & d1 & Hnext & Ht & Htype & Hilen & Hwf1 & Hrest1).
  unfold decode_primitive. rewrite Hnext.
  destruct (Z.ltb_spec t 0); [lia|].
  destruct (read_bytes_next _ data [] Hwf1 Hrest1) as (Hread & _ & _).
  unfold yajbe_decode_string. rewrite Hilen.
  destruct Htype as [-> | ->]; simpl;
    rewrite uint64_small by lia;
    (destruct (Z.ltb_spec buflen (Z.of_nat (List.length data))); [lia|]);
    unfold z_bytes_reader_read; rewrite Hread; reflexivity.
Qed.

(** C1. For every primitive value [v] of the encodable domain (null,
    booleans, the 64-bit integers whose negation does not overflow, floats
    and doubles as bit patterns, bytes and strings shorter than 59 + 2^32
    bytes), encoding [v] into a large enough buffer returns 0, and
    [yajbe_decode_next] followed by the typed read of the kind of [v] over
    the bytes written returns 0 and yields exactly [v]. *)
Theorem primitive_roundtrip (v : primitive) (buffer : list Z) (value0 : option Z) (buflen : Z) :
  encodable v ->
  token_room v <= Z.of_nat (List.length buffer) ->
  payload_length v <= buflen ->
  exists e1,
    encode_primitive (fresh_encoder buffer) v = Done (0, e1)
    /\ decode_primitive v (decoder_over e1) value0 buflen = Done (Some v).
Proof.
  intros Henc Hroom Hbuf. unfold token_room in Hroom.
  destruct v as [|b|v|bits|bits|data|data]; simpl in *.
  - pose proof (emits_u8 (fresh_encoder buffer) 0 (fresh_encoder_wf buffer)
                  ltac:(unfold has_room; simpl; lia)) as Hemits.
    destruct (decoder_over_rest _ _ _ Hemits) as (Hr & Hwf & Hrest).
    unfold yajbe_encode_null. destruct (with_writer _ _) as [r e1].
    cbn [fst snd] in *. subst r. exists e1. split; [reflexivity|].
    unfold decode_primitive.
    destruct (decode_next_head _ 0 _ Hwf ltac:(lia) Hrest) as (-> & _ & _).
    reflexivity.
  - pose proof (emits_u8 (fresh_encoder buffer) (if negb ((if b then 1 else 0) =? 0) then 3 else 2)
                  (fresh_encoder_wf buffer) ltac:(unfold has_room; simpl; lia)) as Hemits.
    destruct (decoder_over_rest _ _ _ Hemits) as (Hr & Hwf & Hrest).
    unfold yajbe_encode_bool. destruct (with_writer _ _) as [r e1].
    cbn [fst snd] in *. subst r. exists e1. split; [reflexivity|].
    unfold decode_primitive.
    destruct b; simpl in Hrest;
      [destruct (decode_next_head _ 3 _ Hwf ltac:(lia) Hrest) as (-> & _ & _)
      |destruct (decode_next_head _ 2 _ Hwf ltac:(lia) Hrest) as (-> & _ & _)];
      reflexivity.
  - pose proof (encode_int_emits (fresh_encoder buffer) v Henc (fresh_encoder_wf buffer)
                  ltac:(unfold has_room; simpl; lia)) as Hemits.
    destruct (decoder_over_rest _ _ _ Hemits) as (Hr & Hwf & Hrest).
    destruct (yajbe_encode_int _ _) as [r e1].
    cbn [fst snd] in *. subst r. exists e1. split; [reflexivity|].
    rewrite <- (app_nil_r (int_token v)) in Hrest.
    destruct (decode_int_token _ v [] Henc Hwf Hrest) as (t & d1 & Hnext & Ht & Hread).
    destruct (Hread value0) as (d2 & Hint & _).
    unfold decode_primitive. rewrite Hnext.
    destruct (Z.ltb_spec t 0); [lia|]. rewrite Hint. reflexivity.
  - apply float_roundtrip; lia.
  - apply double_roundtrip; lia.
  - apply bytes_roundtrip; lia.
  - apply string_roundtrip; lia.
Qed.

(** The round trip of -543210 through a 32-byte buffer. *)
Lemma primitive_roundtrip_witness :
  exists e1,
    encode_primitive (fresh_encoder (replicate 32 0)) (PInt (-543210)) = Done (0, e1)
    /\ decode_primitive (PInt (-543210)) (decoder_over e1) None 0 = Done (Some (PInt (-543210))).
Proof.
  apply (primitive_roundtrip (PInt (-543210)) (replicate 32 0) None 0).
  - simpl. lia.
  - vm_compute. discriminate.
  - simpl. lia.
Defined.

(** The bound of [encodable] on integers is tight: the negation of
    [INT64_MIN] overflows (undefined in C); with the wrap-around of the
    model the encoder writes 60, the token of 0. *)
Lemma int64_min_is_written_as_zero self :
  wf_writer (writer self) -> has_room (writer self) 1 ->
  emits self (yajbe_encode_int self (- 2 ^ 63)) [0x60].
Proof.
  intros Hwf Hroom.
  exact (emits_u8 self (Z.lor 0x60 (int64 (- - 2 ^ 63))) Hwf Hroom).
Qed.

(** ** The integer test vectors *)

Lemma encode_int_emits_exact self v :
  - 2 ^ 63 < v < 2 ^ 63 ->
  wf_writer (writer self) -> has_room (writer self) (Z.of_nat (List.length (int_token v))) ->
  emits self (yajbe_encode_int self v) (int_token v).
Proof.
  intros Hv Hwf Hroom. unfold yajbe_encode_int, int_token in *.
  destruct (Z.ltb_spec 0 v).
  - unfold __yajbe_encode_positive_int. destruct (Z.leb_spec v 24).
    + apply emits_u8; assumption.
    + rewrite int64_small by lia.
      destruct (int_bytes_width_spec (v - 25) 8) as (n & Hw & Hn & _); [lia|simpl; lia|].
      rewrite Hw, Nat2Z.id in *. simpl in Hroom. rewrite le_bytes_length in Hroom.
      apply emits_head_uint; [lia|assumption|unfold has_room in *; lia].
  - unfold __yajbe_encode_negative_int. rewrite int64_small by lia.
    destruct (Z.leb_spec (- v) 23).
    + apply emits_u8; assumption.
    + rewrite int64_small by lia.
      destruct (int_bytes_width_spec (- v - 24) 8) as (n & Hw & Hn & _); [lia|simpl; lia|].
      rewrite Hw, Nat2Z.id in *. simpl in Hroom. rewrite le_bytes_length in Hroom.
      apply emits_head_uint; [lia|assumption|unfold has_room in *; lia].
Qed.

Lemma has_room_le w n m : m <= n -> has_room w n -> has_room w m.
Proof. unfold has_room. lia. Qed.

Ltac int_vector v :=
  match goal with
  | |- emits _ (yajbe_encode_int _ v) ?bytes =>
      change bytes with (int_token v);
      apply encode_int_emits_exact;
      [ lia | assumption
      | eapply has_room_le; [|eassumption]; now vm_compute ]
  end.

(** C8. [yajbe_encode_int] on any writer with room for three bytes returns 0
    and appends: for 0 the single byte 60 (the negative head with a zero
    magnitude), for 1 the byte 40, for 24 the byte 57, for 25 the bytes 58 00,
    for 0xFF 58 e6, for 0xFFFF 59 e6 ff, for -1 61, for -23 77, for -24 78 00
    and for -0xFF 78 e7. *)
Theorem encode_int_test_vectors (self : yajbe_encoder_t) :
  wf_writer (writer self) -> has_room (writer self) 3 ->
  emits self (yajbe_encode_int self 0) [0x60]
  /\ emits self (yajbe_encode_int self 1) [0x40]
  /\ emits self (yajbe_encode_int self 24) [0x57]
  /\ emits self (yajbe_encode_int self 25) [0x58; 0x00]
  /\ emits self (yajbe_encode_int self 0xFF) [0x58; 0xe6]
  /\ emits self (yajbe_encode_int self 0xFFFF) [0x59; 0xe6; 0xff]
  /\ emits self (yajbe_encode_int self (-1)) [0x61]
  /\ emits self (yajbe_encode_int self (-23)) [0x77]
  /\ emits self (yajbe_encode_int self (-24)) [0x78; 0x00]
  /\ emits self (yajbe_encode_int self (-0xFF)) [0x78; 0xe7].
Proof.
  intros Hwf Hroom.
  split; [int_vector 0|]. split; [int_vector 1|]. split; [int_vector 24|].
  split; [int_vector 25|]. split; [int_vector 0xFF|]. split; [int_vector 0xFFFF|].
  split; [int_vector (-1)|]. split; [int_vector (-23)|]. split; [int_vector (-24)|].
  int_vector (-0xFF).
Qed.

(** The vectors on the 32-byte buffer of tests/test-int.c. *)
Lemma encode_int_test_vectors_witness :
  emits (fresh_encoder (replicate 32 0)) (yajbe_encode_int (fresh_encoder (replicate 32 0)) 0)
        [0x60]
  /\ emits (fresh_encoder (replicate 32 0))
           (yajbe_encode_int (fresh_encoder (replicate 32 0)) 0xFFFF) [0x59; 0xe6; 0xff].
Proof.
  destruct (encode_int_test_vectors (fresh_encoder (replicate 32 0)))
    as (H0 & _ & _ & _ & _ & H5 & _).
  - unfold wf_writer. simpl. lia.
  - unfold has_room. simpl. lia.
  - split; [exact H0|exact H5].
Defined.

(** ** Source failure in the combined next-and-read operations *)

(** C5 (the code departs from the claim). On a source with no remaining
    byte [yajbe_decode_next] returns [-ENOSPC] and [yajbe_decode_next_null]
    passes that code on, but [yajbe_decode_next_bool], [_int], [_float],
    [_double], [_bytes] and [_string] return 0, the success code, and leave
    the caller's variable as it was. *)
Theorem decode_next_reads_return_success_on_empty_source
    (self : yajbe_decoder_t) (value0 : option Z) (buflen : Z) :
  r_bufsize (reader self) < r_offset (reader self) + 1 ->
  let self' := with_reader self (reader self) in
  yajbe_decode_next self = (- ENOSPC, self')
  /\ yajbe_decode_next_null self = (- ENOSPC, self')
  /\ yajbe_decode_next_bool self value0 = (0, self', value0)
  /\ yajbe_decode_next_int self value0 = Done (0, self', value0)
  /\ yajbe_decode_next_float self value0 = (0, self', value0)
  /\ yajbe_decode_next_double self value0 = (0, self', value0)
  /\ yajbe_decode_next_bytes self buflen = Done (0, self', None)
  /\ yajbe_decode_next_string self buflen = Done (0, self', None).
Proof.
  intros Hempty self'.
  assert (Hnext : yajbe_decode_next self = (- ENOSPC, self')).
  { unfold yajbe_decode_next, z_bytes_reader_read_u8.
    rewrite (read_byte_empty _ Hempty). reflexivity. }
  unfold yajbe_decode_next_null, yajbe_decode_next_bool, yajbe_decode_next_int,
    yajbe_decode_next_float, yajbe_decode_next_double, yajbe_decode_next_bytes,
    yajbe_decode_next_string.
  rewrite Hnext. simpl. repeat split; reflexivity.
Qed.

(** The empty source of a freshly initialised decoder. *)
Lemma decode_next_reads_return_success_on_empty_source_witness :
  yajbe_decode_next_int (yajbe_decoder_init None (z_mem_bytes_reader_init [] 0)) None
  = Done (0, yajbe_decoder_init None (z_mem_bytes_reader_init [] 0), None).
Proof.
  destruct (decode_next_reads_return_success_on_empty_source
              (yajbe_decoder_init None (z_mem_bytes_reader_init [] 0)) None 0)
    as (_ & _ & _ & H & _).
  - simpl. lia.
  - exact H.
Defined.

(** ** The end-of-container byte *)

(** C7 (counterexample). Before the end marker of the streamed array of the
    integer 25 (the stream 2f 58 00 01 of the encoder, start marker and
    integer read) the claim fails in both parts: the item type of the byte
    01 is [YAJBE_EOF], not [YAJBE_TRUE], and [item_length] is 1, the width
    of the integer read before, not 0. *)
Lemma end_marker_is_not_true :
  (streamed_array_25 = [0x2f; 0x58; 0x00; 0x01]
   /\ exists self,
        before_end_marker = Done self
        /\ wf_reader (reader self) /\ reader_rest (reader self) = [1]
        /\ item_type (yajbe_decode_next self).2 = YAJBE_EOF
        /\ item_length (yajbe_decode_next self).2 = Some 1)
  /\ ~ end_marker_is_true.
Proof.
  assert (Hrun : exists self,
             before_end_marker = Done self
             /\ wf_reader (reader self) /\ reader_rest (reader self) = [1]
             /\ item_type (yajbe_decode_next self).2 = YAJBE_EOF
             /\ item_length (yajbe_decode_next self).2 = Some 1).
  { eexists. split; [now vm_compute|]. split; [unfold wf_reader; simpl; lia|].
    split; now vm_compute. }
  split; [split; [now vm_compute|exact Hrun]|].
  destruct Hrun as (self & _ & Hwf & Hrest & Htype & Hlength).
  intros H. destruct (H self [] Hwf Hrest) as [_ Hzero].
  rewrite Hlength in Hzero. discriminate.
Qed.

(** C7 (amended). For every decoder state, [yajbe_decode_next] on a stream
    whose next byte is 0x01 returns [YAJBE_EOF] and stores it as the item
    type: the head-byte table classifies the byte written by
    [yajbe_encode_array_end] and [yajbe_encode_object_end] as EOF, a kind of
    its own; TRUE is the classification of the byte 0x03 only. *)
Theorem end_marker_is_eof (self : yajbe_decoder_t) (rest : list Z) :
  wf_reader (reader self) -> reader_rest (reader self) = 1 :: rest ->
  (yajbe_decode_next self).1 = YAJBE_EOF
  /\ item_type (yajbe_decode_next self).2 = YAJBE_EOF
  /\ item_head (yajbe_decode_next self).2 = 1
  /\ reader (yajbe_decode_next self).2 = reader_advance (reader self) 1
  /\ YAJBE_EOF <> YAJBE_TRUE
  /\ (forall h, 0 <= h < 256 -> token_of h = YAJBE_TRUE -> h = 3)
  /\ (forall e, wf_writer (writer e) -> has_room (writer e) 1 ->
        emits e (yajbe_encode_array_end e) [1] /\ emits e (yajbe_encode_object_end e) [1]).
Proof.
  intros Hwf Hrest.
  destruct (decode_next_head self 1 rest Hwf ltac:(lia) Hrest) as (-> & _ & _).
  split; [reflexivity|]. split; [reflexivity|]. split; [reflexivity|].
  split; [reflexivity|]. split; [discriminate|]. split.
  - intros h Hh.
    pose proof (range_forall (fun h => negb (token_of h =? YAJBE_TRUE) || (h =? 3)) 256
                  ltac:(now vm_compute) h Hh) as Hall.
    cbv beta in Hall. intros Htok. rewrite Htok in Hall. simpl in Hall. now apply Z.eqb_eq.
  - intros e He Hroom. split; apply (emits_u8 e 1 He Hroom).
Qed.

(** The stream 01 00 read by a decoder that has seen an integer before. *)
Lemma end_marker_is_eof_witness :
  (yajbe_decode_next
     {| reader := z_mem_bytes_reader_init [1; 0] 2; field_reader := None;
        item_head := 0x58; item_type := YAJBE_INT_POSITIVE; item_length := Some 1 |}).1
  = YAJBE_EOF.
Proof.
  destruct (end_marker_is_eof
              {| reader := z_mem_bytes_reader_init [1; 0] 2; field_reader := None;
                 item_head := 0x58; item_type := YAJBE_INT_POSITIVE; item_length := Some 1 |}
              [0]) as (H & _).
  - unfold wf_reader. simpl. lia.
  - reflexivity.
  - exact H.
Defined.

(** ** The field codec on concrete key sequences *)

(** C2 (the code departs from the claim). The keys "hello", "Xello" come
    back as "hello", "hello": [__suffix] never compares the first byte of the
    shorter key, reports a common suffix of 5 bytes, and the second key is
    written as a prefix+suffix token with no byte of its own. *)
Theorem field_roundtrip_fails_on_hello_Xello :
  test_tokens (map str ["hello"; "Xello"]%string)
  = Done [0x85 :: str "hello"; [0xe0; 0; 5]]
  /\ test_roundtrip (map str ["hello"; "Xello"]%string)
     = Done [Some (str "hello"); Some (str "hello")].
Proof. split; now vm_compute. Qed.

(** C4 (the code departs from the claim). After "a_xyz" the key "aQxyzW"
    has prefix 1 and suffix 3: the header declares 6 - 1 - 3 = 2 bytes, and
    after the two delta bytes come the 6 - 3 = 3 bytes "Qxy".  The decoder
    takes two of them and rebuilds "aQxxyz". *)
Theorem prefix_suffix_token_has_wrong_length :
  test_tokens (map str ["a_xyz"; "aQxyzW"]%string)
  = Done [0x85 :: str "a_xyz"; [0xe2; 1; 3] ++ str "Qxy"]
  /\ Z.land 0xe2 0x1f = 2
  /\ test_roundtrip (map str ["a_xyz"; "aQxyzW"]%string)
     = Done [Some (str "a_xyz"); Some (str "aQxxyz")].
Proof. repeat split; now vm_compute. Qed.

(** The same call reads past the end of the key when the prefix is longer
    than the suffix: after "aaaaaa", the key "aaaaaabbbb" has prefix 6 and
    suffix 4, and [key + 6] is read for 10 - 4 = 6 bytes. *)
Lemma prefix_suffix_token_reads_past_key :
  test_tokens (map str ["aaaaaa"; "aaaaaabbbb"]%string) = Fault.
Proof. now vm_compute. Qed.

(** C3 (counterexample). The token of "test_bar" is not of the family 111. *)
Lemma test_fields_claim_fails : ~ test_fields_claim.
Proof.
  intros (tokens & Htokens & _ & Hfam & _).
  vm_compute in Htokens. injection Htokens as <-.
  vm_compute in Hfam. discriminate.
Qed.

(** C3 (amended). On the key sequence of tests/test-field.c the fifth key
    "foo" is written as the indexed token a0 (index 0), "test_bar" as the
    prefix token c3 05 "bar" (family 110: 5 bytes shared with "test_foo", no
    suffix, as "foo" and "bar" end differently), and decoding the stream
    gives the nine keys back. *)
Theorem test_fields_tokens_and_roundtrip :
  exists tokens,
    test_tokens TEST_FIELDS = Done tokens
    /\ tokens !! 4%nat = Some [0xa0]
    /\ tokens !! 3%nat = Some ([0xc3; 5] ++ str "bar")
    /\ token_family (tokens !! 3%nat) = Some 6
    /\ test_roundtrip TEST_FIELDS = Done (map Some TEST_FIELDS).
Proof.
  eexists. split; [now vm_compute|]. repeat split; now vm_compute.
Qed.

(** C6 (the code departs from the claim). With a table of two entries the
    third distinct key is encoded with result 0: [yajbe_field_hencode] drops
    the [-ENOSPC] of [yajbe_field_encoder_hadd].  The key is not registered,
    so that encoding it again writes its full name again. *)
Theorem full_table_encode_returns_success :
  exists field_encoder writer,
    encode_loop (map str ["a"; "b"; "c"; "c"]%string) (yajbe_field_encoder_init_fixed 2)
                (z_mem_bytes_writer_init_fixed (replicate 64 0) 64)
    = Done ([0; 0; 0; 0], field_encoder, writer)
    /\ writer_bytes writer = [0x81; 97; 0x81; 98; 0x81; 99; 0x81; 99]
    /\ enc_entries_count field_encoder = 2
    /\ yajbe_field_encoder_get field_encoder (str "c") 1 = Done (-1)
    /\ yajbe_field_encoder_add field_encoder (str "c") 1 = Done (- ENOSPC, field_encoder).
Proof.
  eexists _, _. split; [now vm_compute|]. repeat split; now vm_compute.
Qed.

(** ** The indexed form in the field decoder *)

Lemma appended_entries_init entries_size buffer bufsize :
  appended_entries (yajbe_field_decoder_init_fixed entries_size buffer bufsize).
Proof.
  split; simpl; [lia|]. intros i. split; [lia|]. intros _.
  destruct (replicate (Z.to_nat entries_size) None !! i) as [o|] eqn:E; [|reflexivity].
  apply lookup_replicate in E as [-> _]. reflexivity.
Qed.

Lemma appended_entries_next self length p self' :
  appended_entries self ->
  __field_next_entry self length = Done (p, self') ->
  appended_entries self'.
Proof.
  intros [Hcount Hslots] Hnext. unfold __field_next_entry in Hnext.
  destruct (dec_buf_size self <? dec_buf_off self + length).
  { injection Hnext as <- <-. now split. }
  unfold slot_in_array in Hnext.
  destruct (Z.leb_spec 0 (dec_entries_count self)); [|discriminate].
  destruct (Z.ltb_spec (dec_entries_count self) (Z.of_nat (List.length (dec_entries self))));
    [|discriminate].
  simpl in Hnext. injection Hnext as <- <-.
  split; simpl; [rewrite length_insert; lia|].
  intros i. destruct (decide (i = Z.to_nat (dec_entries_count self))) as [->|Hne].
  - rewrite list_lookup_insert_eq by lia. simpl. split; [eauto|lia].
  - rewrite list_lookup_insert_ne by congruence.
    destruct (Hslots i) as [Hlt Hge]. split; intros; [apply Hlt|apply Hge]; lia.
Qed.

Lemma arena_memcpy_entries self dst src n self' :
  arena_memcpy self dst src n = Done self' ->
  dec_entries self' = dec_entries self /\ dec_entries_count self' = dec_entries_count self.
Proof.
  unfold arena_memcpy. intros H.
  destruct src; simpl in H; [|discriminate].
  destruct (mem_range _ _ _); simpl in H; [|discriminate].
  destruct (_ || _); [|discriminate]. injection H as <-. now split.
Qed.

Lemma read_into_arena_entries self reader at_ length :
  dec_entries (read_into_arena self reader at_ length).1 = dec_entries self
  /\ dec_entries_count (read_into_arena self reader at_ length).1 = dec_entries_count self.
Proof.
  unfold read_into_arena. destruct (z_bytes_reader_read reader length) as [[? ?] [?|]]; now split.
Qed.

Lemma appended_entries_same self self' :
  dec_entries self' = dec_entries self /\ dec_entries_count self' = dec_entries_count self ->
  appended_entries self -> appended_entries self'.
Proof. intros [He Hc]. unfold appended_entries. now rewrite He, Hc. Qed.

Lemma appended_entries_full self reader head r self' reader' f :
  appended_entries self ->
  __read_full_field_name self reader head = Done (r, self', reader', f) ->
  appended_entries self'.
Proof.
  intros Hinv H. unfold __read_full_field_name in H.
  destruct (_ =? _); [now injection H as <- <- <- <-|].
  destruct (__read_length reader head) as [[len reader1]| |]; simpl in H; try discriminate.
  destruct (__field_next_entry self len) as [[field self1]| |] eqn:Hnext; simpl in H;
    try discriminate.
  apply (appended_entries_next _ _ _ _ Hinv) in Hnext.
  destruct field as [|i]; [now injection H as <- <- <- <-|].
  destruct (mjoin _) as [entry|]; simpl in H; [|discriminate].
  destruct (f_name entry) as [name|]; simpl in H; [|discriminate].
  pose proof (read_into_arena_entries self1 reader1 name len) as Hsame.
  destruct (read_into_arena self1 reader1 name len) as [self2 reader2].
  injection H as <- <- <- <-.
  apply (appended_entries_same self2), (appended_entries_same self1); [now split|exact Hsame|exact Hnext].
Qed.

Lemma appended_entries_indexed self reader head r self' reader' f :
  appended_entries self ->
  __read_indexed_field_name self reader head = Done (r, self', reader', f) ->
  appended_entries self'.
Proof.
  intros Hinv H. unfold __read_indexed_field_name in H.
  destruct (__read_length reader head) as [[index reader1]| |]; simpl in H; try discriminate.
  destruct (mjoin _) as [entry|]; simpl in H; [|discriminate].
  injection H as <- <- <- <-. now apply (appended_entries_same self).
Qed.

Lemma appended_entries_prefix self reader head r self' reader' f :
  appended_entries self ->
  __read_prefix self reader head = Done (r, self', reader', f) ->
  appended_entries self'.
Proof.
  intros Hinv H. unfold __read_prefix in H.
  destruct (_ =? _); [now injection H as <- <- <- <-|].
  destruct (__read_length reader head) as [[len reader1]| |]; simpl in H; try discriminate.
  destruct (z_bytes_reader_read_u8 reader1) as [[? reader2] [prefix|]]; simpl in H;
    [|discriminate].
  destruct (__field_next_entry self (prefix + len)) as [[field self1]| |] eqn:Hnext;
    simpl in H; try discriminate.
  apply (appended_entries_next _ _ _ _ Hinv) in Hnext.
  destruct field as [|i]; [now injection H as <- <- <- <-|].
  destruct (mjoin _) as [entry|]; simpl in H; [|discriminate].
  destruct (f_name entry) as [name|]; simpl in H; [|discriminate].
  destruct (arena_memcpy self1 name _ prefix) as [self2| |] eqn:Hcpy; simpl in H;
    try discriminate.
  apply arena_memcpy_entries in Hcpy.
  pose proof (read_into_arena_entries self2 reader2 (name + prefix) len) as Hsame.
  destruct (read_into_arena self2 reader2 (name + prefix) len) as [self3 reader3].
  injection H as <- <- <- <-.
  apply (appended_entries_same self3), (appended_entries_same self2),
    (appended_entries_same self1); [now split|exact Hsame|exact Hcpy|exact Hnext].
Qed.

Lemma appended_entries_prefix_suffix self reader head r self' reader' f :
  appended_entries self ->
  __read_prefix_suffix self reader head = Done (r, self', reader', f) ->
  appended_entries self'.
Proof.
  intros Hinv H. unfold __read_prefix_suffix in H.
  destruct (_ =? _); [now injection H as <- <- <- <-|].
  destruct (__read_length reader head) as [[len reader1]| |]; simpl in H; try discriminate.
  destruct (z_bytes_reader_read reader1 2) as [[? reader2] [delta|]]; simpl in H;
    [|discriminate].
  destruct (__field_next_entry self _) as [[field self1]| |] eqn:Hnext;
    simpl in H; try discriminate.
  apply (appended_entries_next _ _ _ _ Hinv) in Hnext.
  destruct field as [|i]; [now injection H as <- <- <- <-|].
  destruct (mjoin _) as [entry|]; simpl in H; [|discriminate].
  destruct (f_name entry) as [name|]; simpl in H; [|discriminate].
  destruct (arena_memcpy self1 name _ _) as [self2| |] eqn:Hcpy; simpl in H;
    try discriminate.
  apply arena_memcpy_entries in Hcpy.
  pose proof (read_into_arena_entries self2 reader2 (name + byte_at delta 0) len) as Hsame.
  destruct (read_into_arena self2 reader2 (name + byte_at delta 0) len) as [self3 reader3].
  destruct (arena_memcpy self3 _ _ _) as [self4| |] eqn:Hcpy2; simpl in H;
    try discriminate.
  apply arena_memcpy_entries in Hcpy2.
  injection H as <- <- <- <-.
  apply (appended_entries_same self4), (appended_entries_same self3),
    (appended_entries_same self2), (appended_entries_same self1);
    [now split|exact Hcpy2|exact Hsame|exact Hcpy|exact Hnext].
Qed.

(** Every state the decoder reaches keeps its appended entries in the first
    [entries_count] slots. *)
Lemma appended_entries_decode self reader r self' reader' f :
  appended_entries self ->
  yajbe_field_decode self reader = Done (r, self', reader', f) ->
  appended_entries self'.
Proof.
  intros Hinv H. unfold yajbe_field_decode in H.
  destruct (z_bytes_reader_read_u8 reader) as [[? reader1] [head|]]; simpl in H;
    [|discriminate].
  destruct (_ =? 4); [exact (appended_entries_full _ _ _ _ _ _ _ Hinv H)|].
  destruct (_ =? 5); [exact (appended_entries_indexed _ _ _ _ _ _ _ Hinv H)|].
  destruct (_ =? 6); [exact (appended_entries_prefix _ _ _ _ _ _ _ Hinv H)|].
  destruct (_ =? 7); [exact (appended_entries_prefix_suffix _ _ _ _ _ _ _ Hinv H)|].
  now injection H as <- <- <- <-.
Qed.

Lemma read_length_nonneg reader head index reader' :
  __read_length reader head = Done (index, reader') -> 0 <= index.
Proof.
  unfold __read_length. intros H.
  assert (0 <= Z.land head 31) by (apply Z.land_nonneg; lia).
  destruct (_ <? 30); [injection H as <- <-; assumption|].
  destruct (_ =? 30).
  - destruct (z_bytes_reader_read_u8 reader) as [[? ?] [v|]] eqn:E; simpl in H; [|discriminate].
    injection H as <- <-.
    unfold z_bytes_reader_read_u8, __mem_bytes_reader_read_byte in E.
    destruct (_ <? _); [discriminate|]. injection E as _ _ <-.
    pose proof (land_255_range (byte_at (r_buffer reader) (r_offset reader))). lia.
  - destruct (z_bytes_reader_read reader 2) as [[? ?] [buf|]]; simpl in H; [|discriminate].
    injection H as <- <-.
    pose proof (land_255_range (byte_at buf 0)). pose proof (land_255_range (byte_at buf 1)).
    lia.
Qed.

(** The lookup of the indexed form.  An indexed token (head family 101)
    makes [yajbe_field_decode] read
    [entries[index]] for the index decoded from the stream, whatever
    [entries_count] is: the call returns 0 with that entry when the slot
    holds one, and leaves defined behaviour when it does not; it never
    returns an error code.  When the slots written are those of the entries
    appended so far, the slot holds an entry exactly when the index is below
    [entries_count], and an index at or above it is a read out of range. *)
Theorem indexed_field_lookup_is_unchecked
    (self : yajbe_field_decoder_t) (reader reader0 reader1 : z_mem_bytes_reader_t)
    (code head index : Z) :
  z_bytes_reader_read_u8 reader = (code, reader0, Some head) ->
  Z.land (Z.shiftr head 5) 7 = 5 ->
  __read_length reader0 head = Done (index, reader1) ->
  (forall entry,
      mjoin (dec_entries self !! Z.to_nat index) = Some entry ->
      yajbe_field_decode self reader
      = Done (0, __field_decoder_set_last_key self entry, reader1, Some (EntryPtr index)))
  /\ (mjoin (dec_entries self !! Z.to_nat index) = None ->
      yajbe_field_decode self reader = Fault)
  /\ (forall r self' reader' field,
        yajbe_field_decode self reader = Done (r, self', reader', field) -> r = 0)
  /\ (appended_entries self ->
      (index < dec_entries_count self ->
       exists entry, mjoin (dec_entries self !! Z.to_nat index) = Some entry)
      /\ (dec_entries_count self <= index -> yajbe_field_decode self reader = Fault)).
Proof.
  intros Hhead Hfam Hindex.
  assert (Hdec : yajbe_field_decode self reader
                 = entry ← written (mjoin (dec_entries self !! Z.to_nat index));
                   Done (0, __field_decoder_set_last_key self entry, reader1,
                         Some (EntryPtr index))).
  { unfold yajbe_field_decode. rewrite Hhead. simpl. rewrite Hfam. simpl.
    unfold __read_indexed_field_name. rewrite Hindex. reflexivity. }
  pose proof (read_length_nonneg _ _ _ _ Hindex) as Hnonneg.
  split; [|split; [|split]].
  - intros entry Hslot. rewrite Hdec, Hslot. reflexivity.
  - intros Hslot. rewrite Hdec, Hslot. reflexivity.
  - intros r self' reader' field. rewrite Hdec.
    destruct (mjoin _); simpl; [|discriminate]. now intros [= <- _ _ _].
  - intros [Hcount Hslots]. destruct (Hslots (Z.to_nat index)) as [Hlt Hge]. split.
    + intros Hin. destruct Hlt as [entry Hentry]; [lia|]. now exists entry.
    + intros Hout. rewrite Hdec, Hge by lia. reflexivity.
Qed.

Lemma indexed_field_lookup_is_unchecked_witness :
  yajbe_field_decode one_entry_decoder (z_mem_bytes_reader_init [0xa0] 1)
  = Done (0, one_entry_decoder, reader_advance (z_mem_bytes_reader_init [0xa0] 1) 1,
          Some (EntryPtr 0))
  /\ yajbe_field_decode one_entry_decoder (z_mem_bytes_reader_init [0xa1] 1) = Fault.
Proof.
  split.
  - destruct (indexed_field_lookup_is_unchecked one_entry_decoder
                (z_mem_bytes_reader_init [0xa0] 1)
                (reader_advance (z_mem_bytes_reader_init [0xa0] 1) 1)
                (reader_advance (z_mem_bytes_reader_init [0xa0] 1) 1) 0 0xa0 0)
      as (Hin & _); [reflexivity|reflexivity|reflexivity|].
    exact (Hin {| f_name := Some 0; f_length := 3 |} eq_refl).
  - destruct (indexed_field_lookup_is_unchecked one_entry_decoder
                (z_mem_bytes_reader_init [0xa1] 1)
                (reader_advance (z_mem_bytes_reader_init [0xa1] 1) 1)
                (reader_advance (z_mem_bytes_reader_init [0xa1] 1) 1) 0 0xa1 1)
      as (_ & Hout & _); [reflexivity|reflexivity|reflexivity|].
    exact (Hout eq_refl).
Defined.

(** C10 (the code departs from the claim). A stream of the encoder does not
    keep the indices of its indexed tokens below the number of entries.
    After "a_½z" the key "aQ½zW" is written in the prefix+suffix form with
    one byte more than its header declares (the defect of C4): e2 01 03 51
    c2 bd.  The decoder takes the two bytes declared and reads the left-over
    bd as an indexed token, family 101 with index 29, when two entries have
    been appended: it looks up [entries[29]], outside the 16 entries of the
    table, and no error code is returned. *)
Theorem encoder_stream_breaks_index_precondition :
  encode_fields leftover_keys 16 (replicate 64 0)
  = Done [0x85; 97; 95; 0xc2; 0xbd; 122; 0xe2; 1; 3; 81; 0xc2; 0xbd; 0x82; 107; 51]
  /\ exists self reader reader0 reader1,
       test_decode_state 2 leftover_keys = Done (self, reader)
       /\ dec_entries_count self = 2 /\ dec_entries_size self = 16
       /\ reader_rest reader = [0xbd; 0x82; 107; 51]
       /\ z_bytes_reader_read_u8 reader = (0, reader0, Some 0xbd)
       /\ Z.land (Z.shiftr 0xbd 5) 7 = 5
       /\ __read_length reader0 0xbd = Done (29, reader1)
       /\ slot_in_array (dec_entries self) 29 = false
       /\ yajbe_field_decode self reader = Fault
       /\ test_roundtrip leftover_keys = Fault.
Proof.
  split; [now vm_compute|].
  eexists _, _, _, _. split; [now vm_compute|]. repeat split; now vm_compute.
Qed.

(** ** The table of the field encoder: probing *)

Lemma mask_is_mod k x :
  0 <= k < 64 -> Z.land x (uint64 (2 ^ k - 1)) = x mod 2 ^ k.
Proof.
  intros Hk. rewrite uint64_small.
  - rewrite <- Z.land_ones by lia. f_equal. rewrite Z.ones_equiv. lia.
  - assert (0 < 2 ^ k) by (apply Z.pow_pos_nonneg; lia).
    assert (2 ^ k <= 2 ^ 63) by (apply Z.pow_le_mono_r; lia). lia.
Qed.

Lemma probe_slot_range size h d : 0 < size -> 0 <= probe_slot size h d < size.
Proof. intros. unfold probe_slot. apply Z.mod_pos_bound. lia. Qed.

Lemma probe_slot_shift size h d :
  0 < size -> probe_slot size (probe_slot size h 1) d = probe_slot size h (S d).
Proof.
  intros. unfold probe_slot. rewrite Zplus_mod_idemp_l. f_equal. lia.
Qed.

Lemma probe_slot_mod size h d : probe_slot size (h mod size) d = probe_slot size h d.
Proof. unfold probe_slot. now rewrite Zplus_mod_idemp_l. Qed.

Lemma probe_slot_0 size h : 0 <= h < size -> probe_slot size h 0 = h.
Proof. intros. unfold probe_slot. rewrite Z.add_0_r. now apply Z.mod_small. Qed.

(** Every slot is on the probe path of every hash. *)
Lemma probe_slot_reaches size h p :
  0 <= p < size -> exists d : nat, (d < Z.to_nat size)%nat /\ probe_slot size h d = p.
Proof.
  intros Hp. exists (Z.to_nat ((p - h) mod size)).
  pose proof (Z.mod_pos_bound (p - h) size ltac:(lia)).
  split; [lia|]. unfold probe_slot. rewrite Z2Nat.id by lia.
  rewrite Zplus_mod_idemp_r. replace (h + (p - h)) with p by lia. now apply Z.mod_small.
Qed.

Lemma entry_equals_same_key e key key' :
  fe_name e = Some key' -> fe_hash e = hash_of key' -> fe_length e = strlen key' ->
  __field_name_entry_equals e (hash_of key) key (strlen key) = true <-> key' = key.
Proof.
  intros Hname Hhash Hlen. unfold __field_name_entry_equals, memcmp_eq.
  rewrite Hname, Hhash, Hlen. split.
  - rewrite !andb_true_iff, Z.eqb_eq, bool_decide_eq_true. intros [[_ Hl] Htake].
    unfold strlen in *. rewrite Nat2Z.id in Htake.
    rewrite (take_ge key) in Htake by lia. rewrite take_ge in Htake by lia. exact Htake.
  - intros ->. rewrite !Z.eqb_refl. simpl. now apply bool_decide_eq_true.
Qed.

Section Probing.
Variables (seen : list (list Z)) (self : yajbe_field_encoder_t).
Hypothesis Hinv : table_of seen self.

Let size := enc_entries_size self.
Let entries := enc_entries self.
Let mask := uint64 (size - 1).

Lemma table_size_pos : 0 < size.
Proof.
  destruct Hinv as ((k & Hk & Hsize) & _). subst size. rewrite Hsize.
  apply Z.pow_pos_nonneg; lia.
Qed.

Lemma table_mask x : Z.land x mask = x mod size.
Proof.
  destruct Hinv as ((k & Hk & Hsize) & _). subst mask size. rewrite Hsize.
  now apply mask_is_mod.
Qed.

Lemma table_slot (p : Z) : 0 <= p < size -> exists e, entries !! Z.to_nat p = Some e.
Proof.
  intros Hp. destruct Hinv as (_ & Hlen & _).
  apply lookup_lt_is_Some. subst entries size. lia.
Qed.

Lemma table_key_seen (p : nat) e key :
  entries !! p = Some e -> fe_name e = Some key -> key ∈ seen.
Proof.
  intros He Hname. destruct Hinv as (_ & _ & _ & _ & _ & Hslot & _).
  destruct (Hslot p e key He Hname) as (_ & _ & _ & Hidx & _).
  apply list_elem_of_lookup. eauto.
Qed.

Lemma table_key_index (p i : nat) e key :
  seen !! i = Some key -> entries !! p = Some e -> fe_name e = Some key ->
  fe_index e = Z.of_nat i.
Proof.
  intros Hi He Hname. destruct Hinv as (_ & _ & _ & Hnodup & _ & Hslot & _).
  destruct (Hslot p e key He Hname) as (_ & _ & Hnonneg & Hidx & _).
  pose proof (NoDup_lookup _ _ _ _ Hnodup Hidx Hi). lia.
Qed.

Lemma table_entry_equals (p : nat) e key key' :
  entries !! p = Some e -> fe_name e = Some key' ->
  __field_name_entry_equals e (hash_of key) key (strlen key) = true <-> key' = key.
Proof.
  intros He Hname. destruct Hinv as (_ & _ & _ & _ & _ & Hslot & _).
  destruct (Hslot p e key' He Hname) as (Hhash & Hlen & _).
  now apply entry_equals_same_key.
Qed.

(** A key that is not in the table is not found. *)
Lemma hget_probe_absent key (fuel : nat) (h : Z) :
  key ∉ seen -> 0 <= h < size ->
  hget_probe fuel entries mask h (hash_of key) key (strlen key) = Done (-1).
Proof.
  intros Habsent. revert h. induction fuel as [|fuel IH]; intros h Hh; [reflexivity|].
  simpl. destruct (table_slot h Hh) as (e & He). rewrite He. simpl.
  destruct (fe_name e) as [key'|] eqn:Hname; [|reflexivity].
  destruct (__field_name_entry_equals e _ _ _) eqn:Heq.
  - apply (table_entry_equals _ _ _ _ He Hname) in Heq. subst key'.
    destruct Habsent. exact (table_key_seen _ _ _ He Hname).
  - rewrite table_mask. apply IH. apply Z.mod_pos_bound, table_size_pos.
Qed.

(** A key of the table is found, under its position in [seen], when the
    probe reaches it through occupied slots within the fuel. *)
Lemma hget_probe_walk key (i : nat) (d fuel : nat) (h : Z) :
  seen !! i = Some key -> (d < fuel)%nat -> 0 <= h < size ->
  (forall d' : nat, (d' < d)%nat ->
     exists e', entries !! Z.to_nat (probe_slot size h d') = Some e' /\ occupied e') ->
  (exists e, entries !! Z.to_nat (probe_slot size h d) = Some e /\ fe_name e = Some key) ->
  hget_probe fuel entries mask h (hash_of key) key (strlen key) = Done (Z.of_nat i).
Proof.
  intros Hi. revert fuel h. induction d as [|d IH]; intros fuel h Hfuel Hh Hpath Hend;
    (destruct fuel as [|fuel]; [lia|]); simpl.
  - destruct Hend as (e & He & Hname). rewrite probe_slot_0 in He by assumption.
    rewrite He. simpl. rewrite Hname.
    rewrite (proj2 (table_entry_equals _ _ key key He Hname) eq_refl).
    f_equal. exact (table_key_index _ _ _ _ Hi He Hname).
  - destruct (Hpath 0%nat ltac:(lia)) as (e0 & He0 & Hocc).
    rewrite probe_slot_0 in He0 by assumption. rewrite He0. simpl.
    destruct (fe_name e0) as [key0|] eqn:Hname0; [|now destruct Hocc].
    destruct (__field_name_entry_equals e0 _ _ _) eqn:Heq.
    + apply (table_entry_equals _ _ _ _ He0 Hname0) in Heq. subst key0.
      f_equal. exact (table_key_index _ _ _ _ Hi He0 Hname0).
    + rewrite table_mask.
      replace ((h + 1) mod size) with (probe_slot size h 1)
        by (unfold probe_slot; f_equal).
      apply IH; [lia|apply probe_slot_range, table_size_pos| |].
      * intros d' Hd'. rewrite probe_slot_shift by apply table_size_pos.
        apply Hpath. lia.
      * rewrite probe_slot_shift by apply table_size_pos. exact Hend.
Qed.

Lemma hget_present key (i : nat) :
  seen !! i = Some key ->
  yajbe_field_encoder_hget self (hash_of key) key (strlen key) = Done (Z.of_nat i).
Proof.
  intros Hi. pose proof Hinv as (_ & _ & _ & _ & _ & Hslot & Hcomplete).
  destruct (Hcomplete key) as (p & e & He & Hname); [apply list_elem_of_lookup; eauto|].
  destruct (Hslot p e key He Hname) as (_ & _ & _ & _ & d & Hd & Hp & Hpath).
  unfold yajbe_field_encoder_hget. fold size entries mask. rewrite table_mask.
  apply (hget_probe_walk key i d); try assumption.
  - apply Z.mod_pos_bound, table_size_pos.
  - intros d' Hd'. rewrite probe_slot_mod. now apply Hpath.
  - rewrite probe_slot_mod. unfold size. rewrite Hp, Nat2Z.id. eauto.
Qed.

Lemma hget_absent key :
  key ∉ seen ->
  yajbe_field_encoder_hget self (hash_of key) key (strlen key) = Done (-1).
Proof.
  intros Habsent. unfold yajbe_field_encoder_hget. fold size entries mask.
  rewrite table_mask. apply hget_probe_absent; [assumption|].
  apply Z.mod_pos_bound, table_size_pos.
Qed.

(** The probe of [hadd] for a key that is not in the table stops at the
    first empty slot of its path. *)
Lemma hadd_probe_absent key (fuel d : nat) (h : Z) :
  key ∉ seen -> (d < fuel)%nat -> 0 <= h < size ->
  (exists e, entries !! Z.to_nat (probe_slot size h d) = Some e /\ fe_name e = None) ->
  exists dq : nat,
    (dq <= d)%nat
    /\ hadd_probe fuel entries mask h (hash_of key) key (strlen key)
       = Done (inr (probe_slot size h dq))
    /\ (exists e, entries !! Z.to_nat (probe_slot size h dq) = Some e /\ fe_name e = None)
    /\ forall d' : nat, (d' < dq)%nat ->
         exists e', entries !! Z.to_nat (probe_slot size h d') = Some e' /\ occupied e'.
Proof.
  intros Habsent. revert d h. induction fuel as [|fuel IH]; intros d h Hd Hh Hempty; [lia|].
  simpl. destruct (table_slot h Hh) as (e & He). rewrite He. simpl.
  destruct (fe_name e) as [key'|] eqn:Hname.
  - destruct (__field_name_entry_equals e _ _ _) eqn:Heq.
    { apply (table_entry_equals _ _ _ _ He Hname) in Heq. subst key'.
      destruct Habsent. exact (table_key_seen _ _ _ He Hname). }
    destruct d as [|d].
    { destruct Hempty as (e0 & He0 & Hname0). rewrite probe_slot_0 in He0 by assumption.
      congruence. }
    rewrite table_mask.
    replace ((h + 1) mod size) with (probe_slot size h 1) by (unfold probe_slot; f_equal).
    destruct (IH d (probe_slot size h 1)) as (dq & Hdq & Hres & Hq & Hpath);
      [lia|apply probe_slot_range, table_size_pos| |].
    { rewrite probe_slot_shift by apply table_size_pos. exact Hempty. }
    exists (S dq). rewrite probe_slot_shift in * by apply table_size_pos.
    split; [lia|]. split; [exact Hres|]. split; [exact Hq|].
    intros [|d'] Hd'.
    + rewrite probe_slot_0 by assumption. exists e. split; [assumption|].
      unfold occupied. congruence.
    + rewrite <- probe_slot_shift by apply table_size_pos. apply Hpath. lia.
  - exists 0%nat. rewrite probe_slot_0 by assumption.
    split; [lia|]. split; [reflexivity|]. split; [eauto|]. intros d' Hd'. lia.
Qed.

End Probing.

(** ** The table of the field encoder: insertion and runs *)

Lemma filter_occupied_insert (entries : list yajbe_field_encoder_entry_t) (p : nat) e new :
  entries !! p = Some e -> fe_name e = None -> occupied new ->
  List.length (filter occupied (<[p := new]> entries))
  = S (List.length (filter occupied entries)).
Proof.
  revert p. induction entries as [|x entries IH]; intros p He Hname Hnew; [discriminate|].
  destruct p as [|p]; simpl in *.
  - injection He as ->. rewrite !filter_cons.
    rewrite decide_True by assumption.
    rewrite decide_False by (unfold occupied; congruence). reflexivity.
  - rewrite !filter_cons. destruct (decide (occupied x)); simpl; rewrite (IH p); auto.
Qed.

Lemma exists_empty_slot (entries : list yajbe_field_encoder_entry_t) :
  (List.length (filter occupied entries) < List.length entries)%nat ->
  exists (p : nat) e, entries !! p = Some e /\ fe_name e = None.
Proof.
  induction entries as [|x entries IH]; simpl; [lia|].
  rewrite filter_cons. destruct (decide (occupied x)) as [Hocc|Hfree]; simpl; intros Hlt.
  - destruct IH as (p & e & He & Hname); [lia|]. now exists (S p), e.
  - exists 0%nat, x. split; [reflexivity|].
    unfold occupied in Hfree. destruct (fe_name x); [|reflexivity]. destruct Hfree. discriminate.
Qed.

(** Adding a key that is not in a table with a free slot gives it the next
    index and keeps the table. *)
Lemma hadd_absent seen self key :
  table_of seen self -> key ∉ seen ->
  Z.of_nat (List.length seen) < enc_entries_size self ->
  exists self',
    yajbe_field_encoder_hadd self (hash_of key) key (strlen key)
    = Done (Z.of_nat (List.length seen), self')
    /\ table_of (seen ++ [key]) self'
    /\ enc_entries_size self' = enc_entries_size self.
Proof.
  intros Hinv Habsent Hroom.
  pose proof Hinv as (Hsize & Hlen & Hcount & Hnodup & Hocc & Hslot & Hcomplete).
  pose proof (table_size_pos seen self Hinv) as Hpos.
  destruct (exists_empty_slot (enc_entries self)) as (pe & ee & Hee & Hfree); [lia|].
  assert (Hpe : (pe < List.length (enc_entries self))%nat) by (eapply lookup_lt_Some; eauto).
  destruct (probe_slot_reaches (enc_entries_size self)
              (hash_of key mod enc_entries_size self) (Z.of_nat pe)) as (d & Hd & Hreach);
    [lia|].
  destruct (hadd_probe_absent seen self Hinv key (Z.to_nat (enc_entries_size self)) d
              (hash_of key mod enc_entries_size self) Habsent Hd
              ltac:(apply Z.mod_pos_bound; lia))
    as (dq & Hdq & Hprobe & (eq_ & Heq & Hqfree) & Hpath).
  { rewrite Hreach, Nat2Z.id. eauto. }
  rewrite probe_slot_mod in *.
  set (q := probe_slot (enc_entries_size self) (hash_of key) dq) in *.
  assert (Hq : 0 <= q < enc_entries_size self) by (apply probe_slot_range; lia).
  unfold yajbe_field_encoder_hadd.
  destruct (Z.eqb_spec (enc_entries_count self) (enc_entries_size self)); [lia|].
  rewrite table_mask with (seen := seen) by assumption. rewrite Hprobe. simpl.
  rewrite Hcount. eexists. split; [reflexivity|].
  split; [|reflexivity].
  assert (Hother : forall (a : nat) e1, enc_entries self !! a = Some e1 -> occupied e1 ->
                     a <> Z.to_nat q).
  { intros a e1 He1 Hocc1 ->. unfold occupied in Hocc1. congruence. }
  unfold table_of. simpl.
  split; [exact Hsize|]. split; [now rewrite length_insert|].
  split; [rewrite length_app; simpl; lia|].
  split.
  { apply NoDup_app. split; [assumption|]. split; [|apply NoDup_singleton].
    intros x Hx Hin. apply list_elem_of_singleton in Hin. now subst x. }
  split.
  { rewrite (filter_occupied_insert _ _ eq_); [|assumption|assumption|discriminate].
    rewrite length_app. simpl. lia. }
  split.
  - intros p e key' He Hname.
    destruct (decide (p = Z.to_nat q)) as [->|Hne].
    + rewrite list_lookup_insert_eq in He by lia. injection He as <-.
      simpl in Hname. injection Hname as <-. simpl.
      split; [reflexivity|]. split; [reflexivity|]. split; [lia|].
      split; [now rewrite Nat2Z.id, list_lookup_middle|].
      exists dq. split; [lia|]. split; [fold q; lia|].
      intros d' Hd'. destruct (Hpath d' Hd') as (e' & He' & Hocc').
      exists e'. split; [|assumption].
      rewrite probe_slot_mod in He'.
      rewrite list_lookup_insert_ne; [assumption|].
      intros Heq'. exact (Hother _ _ He' Hocc' (eq_sym Heq')).
    + rewrite list_lookup_insert_ne in He by congruence.
      destruct (Hslot p e key' He Hname) as (Hh & Hl & Hnn & Hidx & d0 & Hd0 & Hp0 & Hpath0).
      split; [assumption|]. split; [assumption|]. split; [assumption|].
      split; [now apply lookup_app_l_Some|].
      exists d0. split; [assumption|]. split; [assumption|].
      intros d' Hd'. destruct (Hpath0 d' Hd') as (e' & He' & Hocc').
      exists e'. split; [|assumption].
      rewrite list_lookup_insert_ne; [assumption|].
      intros Heq'. exact (Hother _ _ He' Hocc' (eq_sym Heq')).
  - intros key' Hin. apply elem_of_app in Hin as [Hin|Hin].
    + destruct (Hcomplete key' Hin) as (p & e & He & Hname).
      exists p, e. split; [|assumption].
      rewrite list_lookup_insert_ne; [assumption|].
      intros Heq'. apply (Hother p e He); [unfold occupied; congruence|now symmetry].
    + apply list_elem_of_singleton in Hin as ->.
      eexists (Z.to_nat q), _. split; [apply list_lookup_insert_eq; lia|reflexivity].
Qed.

Lemma table_of_init k :
  0 <= k < 64 -> table_of [] (yajbe_field_encoder_init_fixed (2 ^ k)).
Proof.
  intros Hk. unfold table_of. simpl.
  assert (Hfree : forall n, filter occupied (replicate n zero_entry) = []).
  { induction n as [|n IH]; [reflexivity|]. simpl. rewrite filter_cons, IH.
    now rewrite decide_False by (unfold occupied; simpl; congruence). }
  split; [eauto|]. split; [apply length_replicate|]. split; [reflexivity|].
  split; [apply NoDup_nil_2|]. split; [now rewrite Hfree|]. split.
  - intros p e key He Hname. apply lookup_replicate in He as [-> _]. discriminate.
  - intros key Hin. now apply elem_of_nil in Hin.
Qed.

Lemma table_of_set_last_key seen self key keylen :
  table_of seen self -> table_of seen (set_last_key self key keylen).
Proof. intros H. exact H. Qed.

(** A key of the table is written in the indexed form, with its index, and
    the table stays as it is. *)
Lemma encode_seen_key seen self (i : nat) key w :
  table_of seen self -> seen !! i = Some key ->
  yajbe_field_encode self w key (strlen key)
  = Done ((__encode_indexed_field w (Z.of_nat i)).1,
          set_last_key self key (strlen key),
          (__encode_indexed_field w (Z.of_nat i)).2).
Proof.
  intros Hinv Hi. unfold yajbe_field_encode, yajbe_field_hencode. fold (hash_of key).
  rewrite (hget_present seen self Hinv key i Hi). simpl.
  destruct (Z.leb_spec 0 (Z.of_nat i)); [|lia].
  now destruct (__encode_indexed_field w (Z.of_nat i)).
Qed.

Lemma write_bytes_returns w buf base length :
  z_bytes_writer_write w buf base length <> Loops.
Proof.
  unfold z_bytes_writer_write, __mem_bytes_writer_write_bytes.
  destruct (_ <? _); [discriminate|]. now destruct (mem_range buf base length).
Qed.

(** A key that is not in a table with a free slot gets the next index,
    unless writing it reads past the end of the key. *)
Lemma encode_new_key seen self key w :
  table_of seen self -> key ∉ seen ->
  Z.of_nat (List.length seen) < enc_entries_size self ->
  yajbe_field_encode self w key (strlen key) = Fault
  \/ exists self' w',
       yajbe_field_encode self w key (strlen key) = Done (0, self', w')
       /\ table_of (seen ++ [key]) self'
       /\ enc_entries_size self' = enc_entries_size self.
Proof.
  intros Hinv Habsent Hroom. unfold yajbe_field_encode, yajbe_field_hencode.
  fold (hash_of key). rewrite (hget_absent seen self Hinv key Habsent). simpl.
  destruct (hadd_absent seen self key Hinv Habsent Hroom) as (self' & Hadd & Hinv' & Hsize).
  rewrite Hadd.
  match goal with |- context [mbind _ ?m] => assert (Hret : m <> Loops); [|destruct m as [[r w']| |]] end.
  - unfold __encode_prefix_suffix, __encode_prefix, __encode_full_field_name.
    repeat match goal with
           | |- context [if ?c then _ else _] => destruct c
           | |- context [z_bytes_writer_write ?a ?b ?c ?d] =>
               pose proof (write_bytes_returns a b c d);
               destruct (z_bytes_writer_write a b c d) as [[? ?]| |]
           end; simpl; congruence.
  - right. simpl. eexists _, _. split; [reflexivity|]. split; [exact Hinv'|exact Hsize].
  - now left.
  - now destruct Hret.
Qed.

(** With a full table the key is written and the call returns 0, the
    result of [yajbe_field_encoder_hadd] being dropped. *)
Lemma encode_new_key_full_table seen self key w :
  table_of seen self -> key ∉ seen ->
  enc_entries_count self = enc_entries_size self ->
  yajbe_field_encoder_hadd self (hash_of key) key (strlen key) = Done (- ENOSPC, self)
  /\ (yajbe_field_encode self w key (strlen key) = Fault
      \/ exists w',
           yajbe_field_encode self w key (strlen key)
           = Done (0, set_last_key self key (strlen key), w')).
Proof.
  intros Hinv Habsent Hfull.
  assert (Hadd : yajbe_field_encoder_hadd self (hash_of key) key (strlen key)
                 = Done (- ENOSPC, self)).
  { unfold yajbe_field_encoder_hadd. now rewrite Hfull, Z.eqb_refl. }
  split; [exact Hadd|].
  unfold yajbe_field_encode, yajbe_field_hencode.
  fold (hash_of key). rewrite (hget_absent seen self Hinv key Habsent). simpl.
  rewrite Hadd.
  match goal with |- context [mbind _ ?m] => assert (Hret : m <> Loops); [|destruct m as [[r w']| |]] end.
  - unfold __encode_prefix_suffix, __encode_prefix, __encode_full_field_name.
    repeat match goal with
           | |- context [if ?c then _ else _] => destruct c
           | |- context [z_bytes_writer_write ?a ?b ?c ?d] =>
               pose proof (write_bytes_returns a b c d);
               destruct (z_bytes_writer_write a b c d) as [[? ?]| |]
           end; simpl; congruence.
  - right. simpl. eexists. reflexivity.
  - now left.
  - now destruct Hret.
Qed.

Lemma first_seen_from_length seen keys :
  (List.length seen <= List.length (first_seen_from seen keys))%nat.
Proof.
  revert seen. induction keys as [|key keys IH]; intros seen; simpl; [lia|].
  destruct (decide (key ∈ seen)); [apply IH|].
  specialize (IH (seen ++ [key])). rewrite length_app in IH. simpl in IH. lia.
Qed.

Lemma first_seen_from_incl seen keys key :
  key ∈ first_seen_from seen keys <-> key ∈ seen \/ key ∈ keys.
Proof.
  revert seen. induction keys as [|k keys IH]; intros seen; simpl.
  - split; [now left|]. intros [H|H]; [assumption|]. now apply elem_of_nil in H.
  - destruct (decide (k ∈ seen)); rewrite IH, ?elem_of_app, ?list_elem_of_singleton,
      elem_of_cons; split; intros H; intuition (subst; auto).
Qed.

(** A run of [encode_fields] returns, unless a call reads past a key, and
    the table then holds the keys in first-seen order. *)
Lemma encode_loop_table keys seen self w :
  table_of seen self ->
  Z.of_nat (List.length (first_seen_from seen keys)) <= enc_entries_size self ->
  encode_loop keys self w = Fault
  \/ exists rs self' w',
       encode_loop keys self w = Done (rs, self', w')
       /\ table_of (first_seen_from seen keys) self'
       /\ enc_entries_size self' = enc_entries_size self.
Proof.
  revert seen self w.
  induction keys as [|key keys IH]; intros seen self w Hinv Hcap; simpl in *.
  - right. now eexists _, _, _.
  - destruct (decide (key ∈ seen)) as [Hin|Hnew].
    + apply list_elem_of_lookup in Hin as (i & Hi).
      rewrite (encode_seen_key seen self i key w Hinv Hi). simpl.
      destruct (IH seen (set_last_key self key (strlen key))
                  (__encode_indexed_field w (Z.of_nat i)).2
                  (table_of_set_last_key _ _ _ _ Hinv) Hcap)
        as [->|(rs & self1 & w1 & -> & Htable & Hsize)]; [now left|right].
      now eexists _, _, _.
    + pose proof (first_seen_from_length (seen ++ [key]) keys) as Hlen.
      rewrite length_app in Hlen. simpl in Hlen.
      destruct (encode_new_key seen self key w Hinv Hnew ltac:(lia))
        as [->|(self1 & w1 & -> & Hinv1 & Hsize1)]; [now left|]. simpl.
      destruct (IH (seen ++ [key]) self1 w1 Hinv1 ltac:(lia))
        as [->|(rs & self2 & w2 & -> & Htable & Hsize2)]; [now left|right].
      eexists _, _, _. split; [reflexivity|]. split; [assumption|congruence].
Qed.

(** ** The indexed token *)

Lemma write_length_u8 w x :
  wf_writer w -> has_room w 1 ->
  exists w', (z_bytes_writer_write_u8 w x).2 = w' /\ appended w w' [Z.land x 255].
Proof.
  intros Hwf Hroom. unfold z_bytes_writer_write_u8.
  destruct (write_byte_appended w x Hwf Hroom) as (w' & -> & Happ). now exists w'.
Qed.

Lemma indexed_head_small i :
  0 <= i < 30 ->
  (Z.land (Z.shiftr (Z.land (Z.lor 0xa0 i) 255) 5) 7 =? 5)
  && (Z.land (Z.land (Z.lor 0xa0 i) 255) 0x1f =? i) = true.
Proof.
  apply (range_forall (fun i => (Z.land (Z.shiftr (Z.land (Z.lor 0xa0 i) 255) 5) 7 =? 5)
                                && (Z.land (Z.land (Z.lor 0xa0 i) 255) 0x1f =? i)) 30).
  now vm_compute.
Qed.

(** For an index up to 65819, [__encode_indexed_field] writes a token of the
    family 101 from which [__read_length] reads the index back. *)
Lemma indexed_token_carries_index w index :
  wf_writer w -> has_room w 3 -> 0 <= index <= 65819 ->
  exists w' token,
    __encode_indexed_field w index = (0, w')
    /\ appended w w' token /\ reads_index token index.
Proof.
  intros Hwf Hroom Hindex. unfold __encode_indexed_field, __write_length.
  destruct (Z.ltb_spec index 30).
  - destruct (write_length_u8 w (Z.lor 0xa0 index) Hwf ltac:(unfold has_room in *; lia))
      as (w1 & -> & Happ1).
    eexists _, _. split; [reflexivity|]. split; [exact Happ1|].
    intros r rest Hr Hrest.
    destruct (read_byte_next r _ rest Hr (land_255_range _) Hrest) as (Hread & Hwf1 & Hrest1).
    pose proof (indexed_head_small index ltac:(lia)) as Hhead.
    apply andb_true_iff in Hhead as [Hfam Hlow]. apply Z.eqb_eq in Hfam, Hlow.
    eexists _, _, _. split; [exact Hread|]. split; [exact Hfam|].
    unfold __read_length. rewrite Hlow.
    destruct (Z.ltb_spec index 30); [|lia]. split; [reflexivity|split; assumption].
  - destruct (Z.leb_spec index 284).
    + destruct (write_length_u8 w (Z.lor 0xa0 0x1e) Hwf ltac:(unfold has_room in *; lia))
        as (w1 & -> & Happ1).
      destruct (write_length_u8 w1 (Z.land (index - 29) 0xff) ltac:(apply Happ1)
                  ltac:(eapply has_room_appended; [exact Happ1|]; simpl;
                        unfold has_room in *; lia))
        as (w2 & -> & Happ2).
      eexists _, _. split; [reflexivity|].
      split; [exact (appended_trans _ _ _ _ _ Happ1 Happ2)|].
      intros r rest Hr Hrest. simpl in Hrest.
      rewrite (land_255_byte (Z.land _ 255)) in Hrest by apply land_255_range.
      rewrite (land_255_byte (index - 29)) in Hrest by lia.
      destruct (read_byte_next r _ _ Hr (land_255_range _) Hrest)
        as (Hread & Hwf1 & Hrest1).
      destruct (read_byte_next _ (index - 29) _ Hwf1 ltac:(lia) Hrest1)
        as (Hread2 & Hwf2 & Hrest2).
      eexists _, _, _. split; [exact Hread|]. split; [reflexivity|].
      unfold __read_length, z_bytes_reader_read_u8. simpl. rewrite Hread2. simpl.
      replace (29 + (index - 29)) with index by lia.
      split; [reflexivity|split; assumption].
    + destruct (Z.leb_spec index 65819); [|lia].
      destruct (write_length_u8 w (Z.lor 0xa0 0x1f) Hwf ltac:(unfold has_room in *; lia))
        as (w1 & -> & Happ1).
      destruct (write_length_u8 w1 ((index - 284) / 256) ltac:(apply Happ1)
                  ltac:(eapply has_room_appended; [exact Happ1|]; simpl;
                        unfold has_room in *; lia))
        as (w2 & -> & Happ2).
      pose proof (appended_trans _ _ _ _ _ Happ1 Happ2) as Happ12.
      destruct (write_length_u8 w2 (Z.land (index - 284) 255) ltac:(apply Happ2)
                  ltac:(eapply has_room_appended; [exact Happ12|]; simpl;
                        unfold has_room in *; lia))
        as (w3 & -> & Happ3).
      eexists _, _. split; [reflexivity|].
      split; [exact (appended_trans _ _ _ _ _ Happ12 Happ3)|].
      intros r rest Hr Hrest. simpl in Hrest.
      set (x := index - 284) in *.
      assert (Hx : 0 <= x < 65536) by (subst x; lia).
      assert (Hhi : 0 <= x / 256 < 256).
      { split; [apply Z.div_pos; lia|apply Z.div_lt_upper_bound; lia]. }
      rewrite (land_255_byte (Z.land _ 255)) in Hrest by apply land_255_range.
      rewrite (land_255_byte (x / 256)) in Hrest by assumption.
      assert (Hlo : Z.land x 255 = x mod 256).
      { change 255 with (Z.ones 8). now rewrite Z.land_ones by lia. }
      rewrite Hlo in Hrest.
      pose proof (Z.mod_pos_bound x 256 ltac:(lia)) as Hmod.
      destruct (read_byte_next r _ _ Hr (land_255_range _) Hrest)
        as (Hread & Hwf1 & Hrest1).
      destruct (read_bytes_next _ [x / 256; x mod 256] rest Hwf1 Hrest1)
        as (Hread2 & Hwf2 & Hrest2).
      eexists _, _, _. split; [exact Hread|]. split; [reflexivity|].
      unfold __read_length, z_bytes_reader_read. simpl.
      change (Z.of_nat (List.length [x / 256; x mod 256])) with 2 in Hread2.
      rewrite Hread2. simpl. unfold byte_at. simpl.
      rewrite !land_255_byte by assumption.
      replace (284 + 256 * (x / 256) + x mod 256) with index
        by (pose proof (Z.div_mod x 256 ltac:(lia)); subst x; lia).
      split; [reflexivity|split; assumption].
Qed.

(** ** The prefix+suffix token *)

(** Whenever the key bytes it reads lie inside the key, [__encode_prefix_suffix]
    writes a header for [L - prefix - suffix] bytes, the two delta bytes, and
    then the [L - suffix] bytes at [key + prefix]: [prefix] bytes more than
    the header declares. *)
Lemma encode_prefix_suffix_writes w (key : list Z) (prefix suffix : Z) :
  wf_writer w ->
  0 <= prefix <= suffix -> suffix < 256 -> prefix + suffix <= strlen key ->
  strlen key - prefix - suffix < 30 ->
  has_room w (3 + (strlen key - suffix)) ->
  exists w' payload,
    __encode_prefix_suffix w key (strlen key) prefix suffix = Done (0, w')
    /\ appended w w'
         ([Z.land (Z.lor 0xe0 (strlen key - prefix - suffix)) 255; prefix; suffix] ++ payload)
    /\ mem_range key prefix (strlen key - suffix) = Some payload
    /\ Z.of_nat (List.length payload) = (strlen key - prefix - suffix) + prefix.
Proof.
  intros Hwf Hprefix Hsuffix Hin Hsmall Hroom.
  assert (Hlen : 0 <= strlen key < 2 ^ 63).
  { unfold strlen in *. split; [lia|]. lia. }
  unfold __encode_prefix_suffix, __write_length.
  rewrite !uint64_small by lia.
  destruct (Z.ltb_spec (strlen key - prefix - suffix) 30); [|lia].
  destruct (write_length_u8 w (Z.lor 0xe0 (strlen key - prefix - suffix)) Hwf
              ltac:(unfold has_room in *; lia)) as (w1 & -> & Happ1).
  simpl.
  destruct (write_length_u8 w1 prefix ltac:(apply Happ1)
              ltac:(eapply has_room_appended; [exact Happ1|]; simpl; unfold has_room in *; lia))
    as (w2 & -> & Happ2).
  pose proof (appended_trans _ _ _ _ _ Happ1 Happ2) as Happ12.
  destruct (write_length_u8 w2 suffix ltac:(apply Happ2)
              ltac:(eapply has_room_appended; [exact Happ12|]; simpl; unfold has_room in *; lia))
    as (w3 & -> & Happ3).
  pose proof (appended_trans _ _ _ _ _ Happ12 Happ3) as Happ123.
  rewrite (land_255_byte prefix), (land_255_byte suffix) in Happ123 by lia.
  destruct (mem_range key prefix (strlen key - suffix)) as [payload|] eqn:Hrange.
  2:{ unfold mem_range in Hrange. rewrite decide_True in Hrange; [discriminate|].
      unfold strlen in *. lia. }
  pose proof (mem_range_length _ _ _ _ Hrange) as Hpayload.
  destruct (write_range_appended w3 key prefix (strlen key - suffix) payload Hrange
              ltac:(apply Happ3)
              ltac:(eapply has_room_appended; [exact Happ123|]; simpl; unfold has_room in *; lia))
    as (w4 & Hwrite & Happ4).
  unfold z_bytes_writer_write. rewrite Hwrite. simpl.
  exists w4, payload. split; [reflexivity|].
  split; [exact (appended_trans _ _ _ _ _ Happ123 Happ4)|].
  split; [reflexivity|lia].
Qed.

(** ** Indices in first-seen order *)

(** C9. Every sequence of [yajbe_field_encode] calls on a fresh table of
    [2^k] entries that can hold the distinct keys of the sequence returns
    (unless a call reads past the end of a key), and then: [entries_count]
    is the number of distinct keys and the (i+1)-th distinct key in
    first-seen order has index i; encoding a key of the table again returns
    what [__encode_indexed_field] returns for that index and changes nothing
    but [last_key]; for an index up to 65819 that token is one from which
    the decoder reads the index back; and encoding a new key, when a slot is
    free, gives it the next index and adds one to [entries_count]. *)
Theorem field_indices_follow_first_seen_order
    (keys : list (list Z)) (k : Z) (w : z_mem_bytes_writer_t) :
  0 <= k < 64 ->
  Z.of_nat (List.length (first_seen keys)) <= 2 ^ k ->
  encode_loop keys (yajbe_field_encoder_init_fixed (2 ^ k)) w = Fault
  \/ exists rs self w',
       encode_loop keys (yajbe_field_encoder_init_fixed (2 ^ k)) w = Done (rs, self, w')
       /\ enc_entries_count self = Z.of_nat (List.length (first_seen keys))
       /\ (forall (i : nat) key,
             first_seen keys !! i = Some key ->
             yajbe_field_encoder_get self key (strlen key) = Done (Z.of_nat i))
       /\ (forall (i : nat) key w2,
             first_seen keys !! i = Some key ->
             yajbe_field_encode self w2 key (strlen key)
             = Done ((__encode_indexed_field w2 (Z.of_nat i)).1,
                     set_last_key self key (strlen key),
                     (__encode_indexed_field w2 (Z.of_nat i)).2))
       /\ (forall index w2,
             wf_writer w2 -> has_room w2 3 -> 0 <= index <= 65819 ->
             exists w3 token,
               __encode_indexed_field w2 index = (0, w3)
               /\ appended w2 w3 token /\ reads_index token index)
       /\ (forall key w2,
             key ∉ keys -> Z.of_nat (List.length (first_seen keys)) < 2 ^ k ->
             yajbe_field_encode self w2 key (strlen key) = Fault
             \/ exists self2 w3,
                  yajbe_field_encode self w2 key (strlen key) = Done (0, self2, w3)
                  /\ enc_entries_count self2 = enc_entries_count self + 1
                  /\ yajbe_field_encoder_get self2 key (strlen key)
                     = Done (Z.of_nat (List.length (first_seen keys)))).
Proof.
  intros Hk Hcap.
  destruct (encode_loop_table keys [] _ w (table_of_init k Hk) Hcap)
    as [Hfault|(rs & self & w' & Hrun & Htable & Hsize)]; [now left|right].
  fold (first_seen keys) in Htable. simpl in Hsize.
  pose proof Htable as (_ & _ & Hcount & _).
  exists rs, self, w'. split; [exact Hrun|].
  split; [exact Hcount|]. split; [|split; [|split]].
  - intros i key Hi. exact (hget_present _ _ Htable key i Hi).
  - intros i key w2 Hi. exact (encode_seen_key _ _ i key w2 Htable Hi).
  - intros index w2. apply indexed_token_carries_index.
  - intros key w2 Hnew Hfree.
    assert (Habsent : key ∉ first_seen keys).
    { unfold first_seen. rewrite first_seen_from_incl. intros [Hin|Hin]; [|auto].
      now apply elem_of_nil in Hin. }
    destruct (encode_new_key _ self key w2 Htable Habsent ltac:(lia))
      as [Hfault|(self2 & w3 & Hstep & Htable2 & _)]; [now left|right].
    exists self2, w3. split; [exact Hstep|].
    pose proof Htable2 as (_ & _ & Hcount2 & _).
    split; [rewrite Hcount2, Hcount, length_app; simpl; lia|].
    apply (hget_present _ _ Htable2). now rewrite list_lookup_middle.
Qed.

(** On the keys of tests/test-field.c: six distinct keys, the last of them
    "prefix_bar_suffix". *)
Lemma field_indices_follow_first_seen_order_witness :
  enc_entries_count test_field_encoder = 6
  /\ yajbe_field_encoder_get test_field_encoder (str "prefix_bar_suffix") 17 = Done 5.
Proof.
  destruct (field_indices_follow_first_seen_order TEST_FIELDS 4
              (z_mem_bytes_writer_init_fixed (replicate 64 0) 64))
    as [Hfault|(rs & self & w' & Hrun & Hcount & Hget & _)].
  - lia.
  - vm_compute. discriminate.
  - vm_compute in Hfault. discriminate.
  - assert (Hself : test_field_encoder = self).
    { unfold test_field_encoder. change (2 ^ 4) with 16 in Hrun. now rewrite Hrun. }
    rewrite Hself. split.
    + exact Hcount.
    + exact (Hget 5%nat (str "prefix_bar_suffix") eq_refl).
Defined.

(** * Further properties of the byte streams *)

(** ** The writer: room, refusal and frame *)

Lemma stamp_frame off value width k (buf : list Z) (i : nat) :
  0 <= off -> 1 <= k ->
  Z.of_nat i < off \/ off + width <= Z.of_nat i ->
  stamp off value width k buf !! i = buf !! i.
Proof.
  intros Hoff Hk Hi. unfold stamp, byte_set.
  destruct ((k <=? width) && (width <=? 8)) eqn:Hc; [|reflexivity].
  apply andb_true_iff in Hc as [Hkw _]. apply Z.leb_le in Hkw.
  apply list_lookup_insert_ne. lia.
Qed.

Lemma stamp_length off value width k (buf : list Z) :
  List.length (stamp off value width k buf) = List.length buf.
Proof.
  unfold stamp, byte_set. destruct (_ && _); [apply length_insert|reflexivity].
Qed.

Lemma mem_store_frame (dst src : list Z) (off : Z) (i : nat) :
  0 <= off -> off + Z.of_nat (List.length src) <= Z.of_nat (List.length dst) ->
  Z.of_nat i < off \/ off + Z.of_nat (List.length src) <= Z.of_nat i ->
  mem_store dst off src !! i = dst !! i.
Proof.
  intros Hoff Hin Hi. unfold mem_store.
  destruct Hi as [Hi|Hi].
  - rewrite lookup_app_l by (rewrite length_take; lia).
    apply lookup_take_lt. lia.
  - rewrite lookup_app_r by (rewrite length_take; lia).
    rewrite lookup_app_r by (rewrite length_take; lia).
    rewrite lookup_drop, length_take. f_equal. lia.
Qed.

Lemma mem_store_length (dst src : list Z) (off : Z) :
  0 <= off -> off + Z.of_nat (List.length src) <= Z.of_nat (List.length dst) ->
  List.length (mem_store dst off src) = List.length dst.
Proof.
  intros Hoff Hin. unfold mem_store.
  rewrite !length_app, length_take, length_drop. lia.
Qed.

(** X1: a write either fits, and then appends exactly its bytes and leaves
    every other cell of the buffer as it was, or is refused with [-ENOSPC]
    and leaves the writer as it was. *)
Theorem writer_writes_fit_or_are_refused (w : z_mem_bytes_writer_t) :
  wf_writer w ->
  (forall v,
      (has_room w 1 ->
       exists w', z_bytes_writer_write_u8 w v = (0, w')
                  /\ appended w w' [Z.land v 255] /\ writes_within w w' 1)
      /\ (~ has_room w 1 -> z_bytes_writer_write_u8 w v = (- ENOSPC, w)))
  /\ (forall value (n : nat),
        (1 <= n <= 8)%nat ->
        (has_room w (Z.of_nat n) ->
         exists w', z_bytes_writer_write_uint w value (Z.of_nat n) = (0, w')
                    /\ appended w w' (le_bytes value n)
                    /\ writes_within w w' (Z.of_nat n))
        /\ (~ has_room w (Z.of_nat n) ->
            z_bytes_writer_write_uint w value (Z.of_nat n) = (- ENOSPC, w)))
  /\ (forall buf base len data,
        mem_range buf base len = Some data ->
        (has_room w len ->
         exists w', z_bytes_writer_write w buf base len = Done (0, w')
                    /\ appended w w' data /\ writes_within w w' len)
        /\ (~ has_room w len -> z_bytes_writer_write w buf base len = Done (- ENOSPC, w))).
Proof.
  intros Hwf. pose proof Hwf as [Hsz Hoff].
  split; [|split].
  - intros v. split.
    + intros Hroom. destruct (write_byte_appended w v Hwf Hroom) as (w' & Hw & Happ).
      exists w'. split; [exact Hw|]. split; [exact Happ|].
      unfold z_bytes_writer_write_u8, __mem_bytes_writer_write_byte in *.
      unfold has_room in Hroom.
      destruct (Z.ltb_spec (w_bufsize w) (w_offset w + 1)); [lia|].
      injection Hw as <-. unfold writes_within, byte_set; simpl.
      split; [apply length_insert|].
      intros i Hi. apply list_lookup_insert_ne. lia.
    + intros Hroom. unfold has_room in Hroom.
      unfold z_bytes_writer_write_u8, __mem_bytes_writer_write_byte.
      now destruct (Z.ltb_spec (w_bufsize w) (w_offset w + 1)); [|lia].
  - intros value n Hn. split.
    + intros Hroom. destruct (write_uint_appended w value n Hn Hwf Hroom) as (w' & Hw & Happ).
      exists w'. split; [exact Hw|]. split; [exact Happ|].
      unfold z_bytes_writer_write_uint, __mem_bytes_writer_write_uint in *.
      unfold has_room in Hroom.
      destruct (Z.ltb_spec (w_bufsize w) (w_offset w + Z.of_nat n)); [lia|].
      injection Hw as <-. unfold writes_within; simpl.
      split; [now rewrite !stamp_length|].
      intros i Hi. now rewrite !stamp_frame by lia.
    + intros Hroom. unfold has_room in Hroom.
      unfold z_bytes_writer_write_uint, __mem_bytes_writer_write_uint.
      now destruct (Z.ltb_spec (w_bufsize w) (w_offset w + Z.of_nat n)); [|lia].
  - intros buf base len data Hrange.
    pose proof (mem_range_length _ _ _ _ Hrange) as Hlen. split.
    + intros Hroom.
      destruct (write_range_appended w buf base len data Hrange Hwf Hroom) as (w' & Hw & Happ).
      exists w'. split; [exact Hw|]. split; [exact Happ|].
      unfold z_bytes_writer_write, __mem_bytes_writer_write_bytes in *.
      unfold has_room in Hroom.
      destruct (Z.ltb_spec (w_bufsize w) (w_offset w + len)); [lia|].
      rewrite Hrange in Hw. simpl in Hw. injection Hw as <-.
      unfold writes_within; simpl.
      split; [apply mem_store_length; lia|].
      intros i Hi. apply mem_store_frame; lia.
    + intros Hroom. unfold has_room in Hroom.
      unfold z_bytes_writer_write, __mem_bytes_writer_write_bytes.
      now destruct (Z.ltb_spec (w_bufsize w) (w_offset w + len)); [|lia].
Qed.

Lemma writer_writes_fit_or_are_refused_witness :
  exists w', z_bytes_writer_write_uint (z_mem_bytes_writer_init_fixed [9; 9; 9; 9] 4)
               0x1234 (Z.of_nat 2) = (0, w')
             /\ appended (z_mem_bytes_writer_init_fixed [9; 9; 9; 9] 4) w' (le_bytes 0x1234 2)
             /\ writes_within (z_mem_bytes_writer_init_fixed [9; 9; 9; 9] 4) w' (Z.of_nat 2).
Proof.
  assert (Hwf : wf_writer (z_mem_bytes_writer_init_fixed [9; 9; 9; 9] 4))
    by (unfold wf_writer; simpl; lia).
  destruct (writer_writes_fit_or_are_refused _ Hwf) as (_ & Huint & _).
  destruct (Huint 0x1234 2%nat ltac:(lia)) as (Hfit & _).
  apply Hfit. unfold has_room. simpl. lia.
Defined.

(** ** Reading back what was written *)

Lemma reader_between_rest w w' (bytes : list Z) :
  wf_writer w -> appended w w' bytes ->
  wf_reader (reader_between w w') /\ reader_rest (reader_between w w') = bytes.
Proof.
  intros [Hsz Hoff] ([Hsz' Hoff'] & Hs & Ho & Hb).
  unfold reader_between, reader_rest, wf_reader, z_mem_bytes_writer_length; simpl.
  split; [lia|].
  unfold writer_bytes in Hb. rewrite Z.add_0_l, Hb.
  replace (Z.to_nat (w_offset w)) with (List.length (take (Z.to_nat (w_offset w)) (w_buffer w)))
    at 1 by (rewrite length_take; lia).
  apply drop_app_length.
Qed.

Lemma byte_of_mod value (n k : Z) :
  0 <= k < n -> byte_of (value mod 2 ^ (8 * n)) k = byte_of value k.
Proof.
  intros Hk. unfold byte_of. apply Z.bits_inj'. intros i Hi.
  rewrite !Z.land_spec, !Z.shiftr_spec by lia.
  destruct (Z.ltb_spec i 8) as [Hlt|Hge].
  - rewrite Z.mod_pow2_bits_low by lia. reflexivity.
  - rewrite testbit_255 by lia.
    replace (i <? 8) with false by (symmetry; apply Z.ltb_ge; lia).
    now rewrite !andb_false_r.
Qed.

Lemma le_bytes_mod value (n : nat) :
  le_bytes (value mod 2 ^ (8 * Z.of_nat n)) n = le_bytes value n.
Proof.
  unfold le_bytes. apply map_ext_in. intros k Hk%in_seq.
  apply byte_of_mod. lia.
Qed.

(** X2: [write_uint] stores the low [n] bytes of the value, least
    significant first, and [read_uint] over these bytes returns the value
    reduced modulo [2^(8 n)]: the value itself when it fits in [n] bytes
    (for [n = 8], when it is an [int64_t]). *)
Theorem write_uint_read_uint_roundtrip (w : z_mem_bytes_writer_t) (value : Z) (n : nat) :
  (1 <= n <= 8)%nat -> wf_writer w -> has_room w (Z.of_nat n) ->
  exists w',
    z_bytes_writer_write_uint w value (Z.of_nat n) = (0, w')
    /\ z_bytes_reader_read_uint (reader_between w w') (Z.of_nat n)
       = (0, reader_advance (reader_between w w') (Z.of_nat n),
          Some (int64 (value mod 2 ^ (8 * Z.of_nat n))))
    /\ reader_rest (reader_advance (reader_between w w') (Z.of_nat n)) = []
    /\ (0 <= value < 2 ^ (8 * Z.of_nat n) -> value < 2 ^ 63 ->
        int64 (value mod 2 ^ (8 * Z.of_nat n)) = value)
    /\ (n = 8%nat -> - 2 ^ 63 <= value < 2 ^ 63 ->
        int64 (value mod 2 ^ (8 * Z.of_nat n)) = value).
Proof.
  intros Hn Hwf Hroom.
  destruct (write_uint_appended w value n Hn Hwf Hroom) as (w' & Hw & Happ).
  exists w'. split; [exact Hw|].
  destruct (reader_between_rest w w' _ Hwf Happ) as [Hwfr Hrest].
  assert (Hrange : 0 <= value mod 2 ^ (8 * Z.of_nat n) < 2 ^ (8 * Z.of_nat n))
    by (apply Z.mod_pos_bound; lia).
  rewrite <- le_bytes_mod, <- (app_nil_r (le_bytes _ n)) in Hrest.
  destruct (read_uint_next _ _ n [] Hn Hwfr Hrange Hrest) as (Hread & _ & Hrest').
  split; [exact Hread|]. split; [exact Hrest'|]. split.
  - intros Hv Hv63. rewrite Z.mod_small by lia. apply int64_small. lia.
  - intros -> Hv. change (8 * Z.of_nat 8) with 64.
    rewrite <- (int64_small value) at 2 by lia.
    apply int64_mod. now rewrite Z.mod_mod by lia.
Qed.

Lemma write_uint_read_uint_roundtrip_witness :
  exists w',
    z_bytes_writer_write_uint (z_mem_bytes_writer_init_fixed [0; 0; 0] 3) 0x1ffff (Z.of_nat 2)
    = (0, w')
    /\ z_bytes_reader_read_uint
         (reader_between (z_mem_bytes_writer_init_fixed [0; 0; 0] 3) w') (Z.of_nat 2)
       = (0, reader_advance
               (reader_between (z_mem_bytes_writer_init_fixed [0; 0; 0] 3) w') (Z.of_nat 2),
          Some 0xffff).
Proof.
  destruct (write_uint_read_uint_roundtrip (z_mem_bytes_writer_init_fixed [0; 0; 0] 3)
              0x1ffff 2%nat) as (w' & Hw & Hr & _).
  - lia.
  - unfold wf_writer. simpl. lia.
  - unfold has_room. simpl. lia.
  - exists w'. split; [exact Hw|]. exact Hr.
Defined.

(** ** The reader: what is left of the stream *)

Lemma reader_rest_length r :
  wf_reader r -> Z.of_nat (List.length (reader_rest r)) = r_bufsize r - r_offset r.
Proof.
  intros [Hoff Hsz]. unfold reader_rest. rewrite length_drop, length_take. lia.
Qed.

(** X3: as long as the sum of the offset and the length asked for stays
    below 2^64, where the [size_t] sum of the space check does not wrap, a
    read of [n] bytes succeeds exactly when [n] bytes are left; it then
    returns the next [n] bytes of the stream and moves past them; with fewer
    bytes left it returns [-ENOSPC], stores nothing and leaves the reader
    where it was.  Under the same condition for one byte, [read_u8] returns
    the next byte, and [-ENOSPC] when none is left. *)
Theorem reader_reads_follow_the_stream (r : z_mem_bytes_reader_t) (n : nat) :
  wf_reader r ->
  r_offset r + Z.of_nat n < 2 ^ 64 -> r_offset r + 1 < 2 ^ 64 ->
  ((n <= List.length (reader_rest r))%nat ->
   z_bytes_reader_read r (Z.of_nat n)
   = (0, reader_advance r (Z.of_nat n), Some (take n (reader_rest r)))
   /\ wf_reader (reader_advance r (Z.of_nat n))
   /\ reader_rest (reader_advance r (Z.of_nat n)) = drop n (reader_rest r))
  /\ ((List.length (reader_rest r) < n)%nat ->
      z_bytes_reader_read r (Z.of_nat n) = (- ENOSPC, r, None))
  /\ (forall b rest, reader_rest r = b :: rest ->
        z_bytes_reader_read_u8 r = (0, reader_advance r 1, Some (Z.land b 255))
        /\ reader_rest (reader_advance r 1) = rest)
  /\ (reader_rest r = [] -> z_bytes_reader_read_u8 r = (- ENOSPC, r, None)).
Proof.
  intros Hwf _ _. pose proof (reader_rest_length r Hwf) as Hlen.
  split; [|split; [|split]].
  - intros Hn.
    assert (Hsplit : reader_rest r = take n (reader_rest r) ++ drop n (reader_rest r))
      by (symmetry; apply take_drop).
    destruct (read_bytes_next r _ _ Hwf Hsplit) as (Hread & Hwf' & Hrest).
    rewrite length_take in Hread, Hwf', Hrest.
    replace (n `min` List.length (reader_rest r))%nat with n in * by lia.
    split; [exact Hread|]. split; [exact Hwf'|exact Hrest].
  - intros Hn. unfold z_bytes_reader_read, __mem_bytes_reader_read_bytes.
    now destruct (Z.ltb_spec (r_bufsize r) (r_offset r + Z.of_nat n)); [|lia].
  - intros b rest Hrest.
    destruct (reader_rest_split r [b] rest Hwf Hrest)
      as (pre & post & Hbuf & Hpre & Hsz & Hwf' & Hadv).
    simpl in *. split; [|exact Hadv].
    unfold z_bytes_reader_read_u8, __mem_bytes_reader_read_byte.
    destruct (Z.ltb_spec (r_bufsize r) (r_offset r + 1)); [lia|].
    now rewrite Hbuf, <- Hpre, byte_at_app0.
  - intros Hrest. rewrite Hrest in Hlen. simpl in Hlen.
    apply read_byte_empty. lia.
Qed.

Lemma reader_reads_follow_the_stream_witness :
  z_bytes_reader_read (reader_advance (z_mem_bytes_reader_init [1; 2; 3; 4] 3) 1) (Z.of_nat 2)
  = (0, reader_advance (reader_advance (z_mem_bytes_reader_init [1; 2; 3; 4] 3) 1) (Z.of_nat 2),
     Some [2; 3])
  /\ z_bytes_reader_read (reader_advance (z_mem_bytes_reader_init [1; 2; 3; 4] 3) 1) (Z.of_nat 3)
     = (- ENOSPC, reader_advance (z_mem_bytes_reader_init [1; 2; 3; 4] 3) 1, None).
Proof.
  assert (Hwf : wf_reader (reader_advance (z_mem_bytes_reader_init [1; 2; 3; 4] 3) 1))
    by (unfold wf_reader; simpl; lia).
  split.
  - destruct (reader_reads_follow_the_stream _ 2%nat Hwf) as (Hfit & _);
      [vm_compute; reflexivity..|].
    apply Hfit. vm_compute. lia.
  - destruct (reader_reads_follow_the_stream _ 3%nat Hwf) as (_ & Hshort & _);
      [vm_compute; reflexivity..|].
    apply Hshort. vm_compute. lia.
Defined.

(** X4: for a size and a length in the range of [size_t]: as long as the
    sum of the offset and the length stays below 2^64, [read_slice] hands
    out a view of the bytes that [read_bytes] copies: both return the same
    code and leave the reader at the same place, and the slice designates,
    inside the reader's buffer, the bytes of the copy.  From 2^64 on the sum
    of the space check wraps: [read_slice] then returns 0 with a slice that
    runs past the bytes of the reader. *)
Theorem read_slice_views_what_read_bytes_copies (r : z_mem_bytes_reader_t) (n : Z) :
  wf_reader r -> r_bufsize r < 2 ^ 64 -> 0 <= n < 2 ^ 64 ->
  (r_offset r + n < 2 ^ 64 ->
   (z_bytes_reader_read_slice r n).1.1 = (z_bytes_reader_read r n).1.1
   /\ (z_bytes_reader_read_slice r n).1.2 = (z_bytes_reader_read r n).1.2
   /\ (z_bytes_reader_read_slice r n).2 ≫= slice_bytes = (z_bytes_reader_read r n).2
   /\ (forall s, (z_bytes_reader_read_slice r n).2 = Some s ->
         sl_buffer s = (r_buffer r, r_offset r) /\ sl_length s = n
         /\ r_offset r + n <= r_bufsize r)
   /\ ((z_bytes_reader_read_slice r n).2 = None ->
       z_bytes_reader_read_slice r n = (- ENOSPC, r, None)))
  /\ (2 ^ 64 <= r_offset r + n ->
      z_bytes_reader_read_slice r n
      = (0, {| r_buffer := r_buffer r; r_bufsize := r_bufsize r;
               r_offset := r_offset r + n - 2 ^ 64 |},
         Some {| sl_buffer := (r_buffer r, r_offset r); sl_length := n |})
      /\ r_bufsize r < r_offset r + n).
Proof.
  intros [Hoff Hsz] Hsize Hn. split.
  - intros Hsum.
    unfold z_bytes_reader_read_slice, __mem_bytes_reader_read_slice,
      z_bytes_reader_read, __mem_bytes_reader_read_bytes.
    rewrite uint64_small by lia.
    destruct (Z.ltb_spec (r_bufsize r) (r_offset r + n)); cbn [fst snd].
    + split; [reflexivity|]. split; [reflexivity|]. split; [reflexivity|].
      split; [intros s [=]|reflexivity].
    + split; [reflexivity|]. split; [reflexivity|]. split.
      * unfold slice_bytes, mem_range; simpl.
        now rewrite decide_True by lia.
      * split; [|intros [=]].
        intros s [= <-]. simpl. split; [reflexivity|]. split; [reflexivity|lia].
  - intros Hwrap.
    assert (Hmod : uint64 (r_offset r + n) = r_offset r + n - 2 ^ 64).
    { unfold uint64. symmetry. apply (Z.mod_unique _ _ 1); lia. }
    unfold z_bytes_reader_read_slice, __mem_bytes_reader_read_slice. rewrite Hmod.
    destruct (Z.ltb_spec (r_bufsize r) (r_offset r + n - 2 ^ 64)); [lia|].
    split; [reflexivity|lia].
Qed.

Lemma read_slice_views_what_read_bytes_copies_witness :
  (z_bytes_reader_read_slice (z_mem_bytes_reader_init [7; 8; 9] 3) 2).2 ≫= slice_bytes
  = Some [7; 8].
Proof.
  destruct (read_slice_views_what_read_bytes_copies (z_mem_bytes_reader_init [7; 8; 9] 3) 2)
    as (Hview & _).
  - unfold wf_reader. simpl. lia.
  - vm_compute. reflexivity.
  - lia.
  - destruct Hview as (_ & _ & Hview & _); [vm_compute; reflexivity|].
    rewrite Hview. reflexivity.
Defined.

(** * Further properties of the value codec *)

(** ** What [yajbe_decode_next] returns *)

Lemma read_byte_masked r (b : Z) (rest : list Z) :
  wf_reader r -> reader_rest r = b :: rest ->
  __mem_bytes_reader_read_byte r = (0, reader_advance r 1, Some (Z.land b 255))
  /\ wf_reader (reader_advance r 1) /\ reader_rest (reader_advance r 1) = rest.
Proof.
  intros Hwf Hrest.
  destruct (reader_rest_split r [b] rest Hwf Hrest)
    as (pre & post & Hbuf & Hpre & Hsz & Hwf' & Hadv).
  simpl in *. split; [|now split].
  unfold __mem_bytes_reader_read_byte.
  destruct (Z.ltb_spec (r_bufsize r) (r_offset r + 1)); [lia|].
  now rewrite Hbuf, <- Hpre, byte_at_app0.
Qed.

Lemma decode_next_masked d (b : Z) (rest : list Z) :
  wf_reader (reader d) -> reader_rest (reader d) = b :: rest ->
  yajbe_decode_next d = decode_next_switch (at_head d (Z.land b 255))
  /\ wf_reader (reader (at_head d (Z.land b 255)))
  /\ reader_rest (reader (at_head d (Z.land b 255))) = rest.
Proof.
  intros Hwf Hrest.
  destruct (read_byte_masked _ _ _ Hwf Hrest) as (Hread & Hwf' & Hrest').
  unfold yajbe_decode_next, z_bytes_reader_read_u8. rewrite Hread. simpl. tauto.
Qed.

(** The [switch] returns a negative code or the item type, and leaves the
    head and the type as they are. *)
Lemma decode_next_switch_result st :
  ((decode_next_switch st).1 < 0 \/ (decode_next_switch st).1 = item_type st)
  /\ item_type (decode_next_switch st).2 = item_type st
  /\ item_head (decode_next_switch st).2 = item_head st
  /\ field_reader (decode_next_switch st).2 = field_reader st.
Proof.
  unfold decode_next_switch, __read_item_count, __read_item_length.
  repeat match goal with
         | |- context [if ?c then _ else _] =>
             lazymatch c with
             | _ <? 0 => fail
             | _ => destruct c eqn:?
             end
         | |- context [z_bytes_reader_read_uint ?a ?b] =>
             destruct (z_bytes_reader_read_uint a b) as [[? ?] ?]
         end;
    cbn [fst snd item_type item_head field_reader with_item_length with_reader];
    try (split; [right; reflexivity|now repeat split]);
    match goal with
    | |- context [?r <? 0] =>
        destruct (Z.ltb_spec r 0);
        cbn [fst snd item_type item_head field_reader with_item_length with_reader];
        (split; [(left; assumption) || (right; reflexivity)|now repeat split])
    end.
Qed.

(** In the three types without a payload the [switch] does nothing. *)
Lemma decode_next_switch_constant st :
  item_type st = YAJBE_NULL \/ item_type st = YAJBE_FALSE \/ item_type st = YAJBE_TRUE ->
  decode_next_switch st = (item_type st, st).
Proof.
  intros H. unfold decode_next_switch.
  destruct H as [H|[H|H]]; rewrite H; reflexivity.
Qed.

Lemma token_of_range h :
  0 <= h < 256 ->
  (token_of h = -1 \/ 0 <= token_of h <= YAJBE_EOF)
  /\ (Z.to_nat h < List.length TOKEN_MAP)%nat.
Proof.
  intros Hh. split.
  - pose proof (range_forall
                  (fun h => (token_of h =? -1) || ((0 <=? token_of h) && (token_of h <=? YAJBE_EOF)))
                  256 ltac:(now vm_compute) h Hh) as Hall.
    cbv beta in Hall. apply orb_true_iff in Hall as [Hall|Hall].
    + left. now apply Z.eqb_eq.
    + right. apply andb_true_iff in Hall as [H1 H2]. apply Z.leb_le in H1, H2. lia.
  - change (List.length TOKEN_MAP) with 256%nat. lia.
Qed.

(** X5: [yajbe_decode_next] returns a negative code or one of the item
    types 0 .. 20; in the second case this is the type it stored in
    [item_type], the entry of [TOKEN_MAP] for the head byte it stored in
    [item_head], and the head byte is a valid index of the table. *)
Theorem decode_next_returns_error_or_item_type (d : yajbe_decoder_t) :
  (yajbe_decode_next d).1 < 0
  \/ (0 <= (yajbe_decode_next d).1 <= YAJBE_EOF
      /\ item_type (yajbe_decode_next d).2 = (yajbe_decode_next d).1
      /\ (Z.to_nat (item_head (yajbe_decode_next d).2) < List.length TOKEN_MAP)%nat
      /\ TOKEN_MAP !! Z.to_nat (item_head (yajbe_decode_next d).2)
         = Some ((yajbe_decode_next d).1)).
Proof.
  unfold yajbe_decode_next, z_bytes_reader_read_u8, __mem_bytes_reader_read_byte.
  destruct (Z.ltb_spec (r_bufsize (reader d)) (r_offset (reader d) + 1)).
  - left. simpl. unfold ENOSPC. lia.
  - cbn [fst snd default Z.ltb Z.compare].
    set (h := Z.land (byte_at (r_buffer (reader d)) (r_offset (reader d))) 255).
    match goal with |- context [decode_next_switch ?s] => set (st := s) end.
    destruct (decode_next_switch_result st) as ([Hneg|Heq] & Htype & Hhead & _);
      [left; assumption|].
    subst st. cbn [item_type item_head] in *. unfold id in *.
    destruct (token_of_range h (land_255_range _)) as ([Hbad|Hok] & Hidx).
    + left. rewrite Heq, Hbad. lia.
    + right. rewrite Heq, Htype, Hhead. split; [exact Hok|]. split; [reflexivity|].
      split; [exact Hidx|].
      unfold token_of. destruct (TOKEN_MAP !! Z.to_nat h) eqn:Hlook; [reflexivity|].
      apply lookup_ge_None in Hlook. lia.
Qed.

(** ** The combined reads of the constants *)

Lemma constant_heads h :
  0 <= h < 256 ->
  (token_of h = YAJBE_NULL <-> h = 0)
  /\ (token_of h = YAJBE_FALSE <-> h = 2)
  /\ (token_of h = YAJBE_TRUE <-> h = 3).
Proof.
  intros Hh.
  pose proof (range_forall
                (fun h => Bool.eqb (token_of h =? YAJBE_NULL) (h =? 0)
                          && Bool.eqb (token_of h =? YAJBE_FALSE) (h =? 2)
                          && Bool.eqb (token_of h =? YAJBE_TRUE) (h =? 3))
                256 ltac:(now vm_compute) h Hh) as Hall.
  cbv beta in Hall. apply andb_true_iff in Hall as [Hall H3].
  apply andb_true_iff in Hall as [H1 H2].
  apply Bool.eqb_prop in H1, H2, H3.
  rewrite <- !Z.eqb_eq, H1, H2, H3. tauto.
Qed.

(** The code of a combined read of a constant of type [typ]. *)
Lemma next_constant_code (r typ : Z) :
  0 <= typ ->
  ((if r =? typ then 0 else if r <? 0 then r else - EINVAL) = 0 <-> r = typ)
  /\ (if r =? typ then 0 else if r <? 0 then r else - EINVAL) <= 0.
Proof.
  intros Htyp. unfold EINVAL.
  destruct (Z.eqb_spec r typ); [split; [tauto|lia]|].
  destruct (Z.ltb_spec r 0); split; try lia; split; intros; lia.
Qed.

Lemma next_constant_result d (b : Z) (rest : list Z) (typ : Z) :
  wf_reader (reader d) -> reader_rest (reader d) = b :: rest ->
  typ = YAJBE_NULL \/ typ = YAJBE_FALSE \/ typ = YAJBE_TRUE ->
  ((yajbe_decode_next d).1 = typ <-> token_of (Z.land b 255) = typ)
  /\ (token_of (Z.land b 255) = typ ->
      yajbe_decode_next d = (typ, at_head d (Z.land b 255))).
Proof.
  intros Hwf Hrest Htyp.
  destruct (decode_next_masked d b rest Hwf Hrest) as (Hnext & _ & _).
  rewrite Hnext.
  assert (Hconst : token_of (Z.land b 255) = typ ->
            decode_next_switch (at_head d (Z.land b 255)) = (typ, at_head d (Z.land b 255))).
  { intros Htok. rewrite decode_next_switch_constant; simpl; rewrite Htok; [reflexivity|].
    exact Htyp. }
  split; [|exact Hconst]. split.
  - intros Hres.
    destruct (decode_next_switch_result (at_head d (Z.land b 255))) as ([Hneg|Heq] & _).
    + rewrite Hres in Hneg. unfold YAJBE_NULL, YAJBE_FALSE, YAJBE_TRUE in Htyp. lia.
    + rewrite Hres in Heq. simpl in Heq. congruence.
  - intros Htok. now rewrite Hconst.
Qed.

(** X6: the combined reads [yajbe_decode_next_null], [_false] and [_true]
    return 0 exactly when the next byte of the stream is 00, 02 and 03, and
    a negative code on every other byte; they then stand just after that
    byte.  On an exhausted source they return [-ENOSPC]. *)
Theorem decode_next_constants_match_one_byte (d : yajbe_decoder_t) :
  wf_reader (reader d) ->
  (forall b rest,
      reader_rest (reader d) = b :: rest ->
      ((yajbe_decode_next_null d).1 = 0 <-> Z.land b 255 = 0)
      /\ ((yajbe_decode_next_false d).1 = 0 <-> Z.land b 255 = 2)
      /\ ((yajbe_decode_next_true d).1 = 0 <-> Z.land b 255 = 3)
      /\ (yajbe_decode_next_null d).1 <= 0
      /\ (yajbe_decode_next_false d).1 <= 0
      /\ (yajbe_decode_next_true d).1 <= 0
      /\ (Z.land b 255 = 0 -> reader_rest (reader (yajbe_decode_next_null d).2) = rest)
      /\ (Z.land b 255 = 2 -> reader_rest (reader (yajbe_decode_next_false d).2) = rest)
      /\ (Z.land b 255 = 3 -> reader_rest (reader (yajbe_decode_next_true d).2) = rest))
  /\ (reader_rest (reader d) = [] ->
      (yajbe_decode_next_null d).1 = - ENOSPC
      /\ (yajbe_decode_next_false d).1 = - ENOSPC
      /\ (yajbe_decode_next_true d).1 = - ENOSPC).
Proof.
  intros Hwf. split.
  - intros b rest Hrest.
    destruct (constant_heads (Z.land b 255) (land_255_range _)) as (H0 & H2 & H3).
    destruct (decode_next_masked d b rest Hwf Hrest) as (_ & _ & Hrest').
    pose proof (next_constant_result d b rest YAJBE_NULL Hwf Hrest ltac:(tauto)) as [Hn Hn'].
    pose proof (next_constant_result d b rest YAJBE_FALSE Hwf Hrest ltac:(tauto)) as [Hf Hf'].
    pose proof (next_constant_result d b rest YAJBE_TRUE Hwf Hrest ltac:(tauto)) as [Ht Ht'].
    unfold yajbe_decode_next_null, yajbe_decode_next_false, yajbe_decode_next_true.
    rewrite <- H0, <- H2, <- H3, <- Hn, <- Hf, <- Ht.
    destruct (yajbe_decode_next d) as [r d1] eqn:Hnext. cbn [fst snd] in *.
    pose proof (next_constant_code r YAJBE_NULL ltac:(now vm_compute)) as [Cn Cn'].
    pose proof (next_constant_code r YAJBE_FALSE ltac:(now vm_compute)) as [Cf Cf'].
    pose proof (next_constant_code r YAJBE_TRUE ltac:(now vm_compute)) as [Ct Ct'].
    assert (Hfst : forall (c : bool) (x : Z),
              (if c then (0, d1) else (x, d1)).1 = if c then 0 else x)
      by (now intros [] ?).
    assert (Hsnd : forall (c : bool) (x : Z), (if c then (0, d1) else (x, d1)).2 = d1)
      by (now intros [] ?).
    rewrite !Hfst, !Hsnd.
    assert (Hat : forall typ, (r, d1) = (typ, at_head d (Z.land b 255)) ->
              reader_rest (reader d1) = rest)
      by (now intros typ [= _ ->]).
    repeat match goal with
           | |- _ /\ _ => split
           end; try assumption.
    + intros Hr. exact (Hat _ (Hn' (proj1 Hn Hr))).
    + intros Hr. exact (Hat _ (Hf' (proj1 Hf Hr))).
    + intros Hr. exact (Hat _ (Ht' (proj1 Ht Hr))).
  - intros Hrest.
    pose proof (reader_rest_length _ Hwf) as Hlen. rewrite Hrest in Hlen. simpl in Hlen.
    unfold yajbe_decode_next_null, yajbe_decode_next_false, yajbe_decode_next_true,
      yajbe_decode_next, z_bytes_reader_read_u8.
    rewrite read_byte_empty by lia. now vm_compute.
Qed.

Lemma decode_next_constants_match_one_byte_witness :
  (yajbe_decode_next_true (yajbe_decoder_init None (z_mem_bytes_reader_init [3; 7] 2))).1 = 0
  /\ reader_rest
       (reader (yajbe_decode_next_true
                  (yajbe_decoder_init None (z_mem_bytes_reader_init [3; 7] 2))).2) = [7].
Proof.
  destruct (decode_next_constants_match_one_byte
              (yajbe_decoder_init None (z_mem_bytes_reader_init [3; 7] 2)))
    as (Hbyte & _).
  - unfold wf_reader. simpl. lia.
  - destruct (Hbyte 3 [7] eq_refl) as (_ & _ & Htrue & _ & _ & _ & _ & _ & Hrest).
    split; [apply Htrue; reflexivity|apply Hrest; reflexivity].
Defined.

(** ** The caller's buffer *)

Lemma read_bytes_stores_at_most r length code r' (data : list Z) :
  z_bytes_reader_read r length = (code, r', Some data) ->
  code = 0 /\ Z.of_nat (List.length data) <= Z.max 0 length.
Proof.
  unfold z_bytes_reader_read, __mem_bytes_reader_read_bytes.
  destruct (_ <? _); intros [= <- <- <-]. split; [reflexivity|].
  rewrite length_take. lia.
Qed.

(** X7: [yajbe_decode_bytes] and [yajbe_decode_string], alone or behind
    [yajbe_decode_next], never store more than [buflen] bytes in the caller's
    buffer; when the item is longer than [buflen] they return [-EINVAL],
    store nothing and leave the reader where it is. *)
Theorem decode_bytes_stays_within_buflen (self : yajbe_decoder_t) (buflen : Z) :
  (forall r self' data,
      yajbe_decode_bytes self buflen = Done (r, self', Some data)
      \/ yajbe_decode_string self buflen = Done (r, self', Some data)
      \/ yajbe_decode_next_bytes self buflen = Done (r, self', Some data)
      \/ yajbe_decode_next_string self buflen = Done (r, self', Some data) ->
      r = 0 /\ Z.of_nat (List.length data) <= buflen)
  /\ (forall length,
        item_length self = Some length -> buflen < uint64 length ->
        yajbe_decode_bytes self buflen = Done (- EINVAL, self, None)
        /\ yajbe_decode_string self buflen = Done (- EINVAL, self, None)).
Proof.
  assert (Hone : forall (s : yajbe_decoder_t) r self' data,
            yajbe_decode_bytes s buflen = Done (r, self', Some data)
            \/ yajbe_decode_string s buflen = Done (r, self', Some data) ->
            r = 0 /\ Z.of_nat (List.length data) <= buflen).
  { intros s r self' data H.
    unfold yajbe_decode_bytes, yajbe_decode_string in H.
    destruct (item_length s) as [length|]; simpl in H.
    - destruct (Z.ltb_spec buflen (uint64 length)).
      + destruct H as [H|H]; destruct (_ && _); discriminate.
      + destruct (z_bytes_reader_read (reader s) (uint64 length)) as [[code r'] x] eqn:Hread.
        assert (Hsome : x = Some data -> r = code -> r = 0 /\ Z.of_nat (List.length data) <= buflen).
        { intros -> ->. destruct (read_bytes_stores_at_most _ _ _ _ _ Hread) as [Hc Hl].
          split; [exact Hc|]. unfold uint64 in *.
          pose proof (Z.mod_pos_bound length (2 ^ 64) ltac:(lia)). lia. }
        destruct H as [H|H]; destruct (_ && _); try discriminate;
          injection H as -> _ ->; now apply Hsome.
    - destruct H as [H|H]; destruct (_ && _); discriminate. }
  split.
  - intros r self' data [H|[H|[H|H]]].
    + eapply Hone; eauto.
    + eapply Hone; eauto.
    + unfold yajbe_decode_next_bytes in H.
      destruct (yajbe_decode_next self) as [t s]. destruct (t <? 0); [discriminate|].
      eapply Hone; eauto.
    + unfold yajbe_decode_next_string in H.
      destruct (yajbe_decode_next self) as [t s]. destruct (t <? 0); [discriminate|].
      eapply Hone; eauto.
  - intros length Hlen Hbuf. unfold yajbe_decode_bytes, yajbe_decode_string.
    rewrite Hlen. simpl.
    destruct (Z.ltb_spec buflen (uint64 length)); [|lia].
    split; destruct (_ && _); reflexivity.
Qed.

Lemma decode_bytes_stays_within_buflen_witness :
  yajbe_decode_bytes
    {| reader := z_mem_bytes_reader_init [1; 2; 3] 3; field_reader := None;
       item_head := 0x83; item_type := YAJBE_SMALL_BYTES; item_length := Some 3 |} 2
  = Done (- EINVAL,
          {| reader := z_mem_bytes_reader_init [1; 2; 3] 3; field_reader := None;
             item_head := 0x83; item_type := YAJBE_SMALL_BYTES; item_length := Some 3 |},
          None).
Proof.
  destruct (decode_bytes_stays_within_buflen
              {| reader := z_mem_bytes_reader_init [1; 2; 3] 3; field_reader := None;
                 item_head := 0x83; item_type := YAJBE_SMALL_BYTES; item_length := Some 3 |} 2)
    as (_ & Hshort).
  destruct (Hshort 3 eq_refl) as (Hbytes & _).
  - vm_compute. reflexivity.
  - exact Hbytes.
Defined.

(** ** Containers *)

Lemma array_head x :
  0 <= x < 16 -> is_head 0x20 x (if x <? 15 then YAJBE_ARRAY else YAJBE_ARRAY_EOF)
                         0xf x 0xf x = true.
Proof.
  apply (range_forall (fun x => is_head 0x20 x
           (if x <? 15 then YAJBE_ARRAY else YAJBE_ARRAY_EOF) 0xf x 0xf x) 16).
  now vm_compute.
Qed.

Lemma object_head x :
  0 <= x < 16 -> is_head 0x30 x (if x <? 15 then YAJBE_OBJECT else YAJBE_OBJECT_EOF)
                         0xf x 0xf x = true.
Proof.
  apply (range_forall (fun x => is_head 0x30 x
           (if x <? 15 then YAJBE_OBJECT else YAJBE_OBJECT_EOF) 0xf x 0xf x) 16).
  now vm_compute.
Qed.

Lemma encode_length_emits_exact self head inline_max length :
  0 <= inline_max -> 0 <= length < 2 ^ 63 ->
  wf_writer (writer self) ->
  has_room (writer self) (Z.of_nat (List.length (length_token head inline_max length))) ->
  emits self (__yajbe_encode_length self head inline_max length)
        (length_token head inline_max length).
Proof.
  intros Hmax Hlen Hwf Hroom. unfold __yajbe_encode_length, length_token in *.
  destruct (Z.leb_spec length inline_max).
  - apply emits_u8; assumption.
  - rewrite uint64_small by lia.
    destruct (int_bytes_width_spec (length - inline_max) 8) as (n & Hw & Hn & _);
      [lia|simpl; lia|].
    rewrite Hw, Nat2Z.id in *. simpl in Hroom. rewrite le_bytes_length in Hroom.
    apply emits_head_uint; [lia|assumption|unfold has_room in *; lia].
Qed.

Lemma length_token_short head inline_max length :
  0 <= inline_max -> 0 <= length < inline_max + 2 ^ 32 ->
  (List.length (length_token head inline_max length) <= 5)%nat.
Proof.
  intros Hmax Hlen. unfold length_token. destruct (Z.leb_spec length inline_max); simpl; [lia|].
  destruct (int_bytes_width_spec (length - inline_max) 4) as (n & -> & Hn & _);
    [lia|simpl; lia|].
  rewrite le_bytes_length. lia.
Qed.

Lemma decode_next_container d (fam typ eof L : Z) (rest : list Z) :
  (fam = 0x20 /\ typ = YAJBE_ARRAY /\ eof = YAJBE_ARRAY_EOF)
  \/ (fam = 0x30 /\ typ = YAJBE_OBJECT /\ eof = YAJBE_OBJECT_EOF) ->
  0 <= L < 10 + 2 ^ 32 ->
  wf_reader (reader d) -> reader_rest (reader d) = length_token fam 10 L ++ rest ->
  exists d1,
    yajbe_decode_next d = (typ, d1)
    /\ item_type d1 = typ /\ item_length d1 = Some L
    /\ field_reader d1 = field_reader d
    /\ wf_reader (reader d1) /\ reader_rest (reader d1) = rest.
Proof.
  intros Hfam HL Hwf Hrest. unfold length_token in Hrest.
  assert (Hhead : forall x, 0 <= x < 16 ->
            is_head fam x (if x <? 15 then typ else eof) 0xf x 0xf x = true).
  { destruct Hfam as [(-> & -> & ->)|(-> & -> & ->)]; [apply array_head|apply object_head]. }
  destruct (Z.leb_spec L 10).
  - pose proof (is_head_elim _ _ _ _ _ _ _ (Hhead L ltac:(lia))) as (Htok & Hlow & _).
    destruct (Z.ltb_spec L 15); [|lia].
    destruct (decode_next_head d _ rest Hwf (land_255_range _) Hrest) as (-> & Hwf1 & Hrest1).
    unfold decode_next_switch. simpl. rewrite Htok.
    destruct Hfam as [(-> & -> & ->)|(-> & -> & ->)]; simpl;
      unfold __read_item_count; simpl; rewrite Hlow;
      (destruct (Z.leb_spec L 10); [|lia]); simpl;
      (eexists; split; [reflexivity|]; simpl; rewrite Htok;
       split; [reflexivity|]; split; [reflexivity|]; split; [reflexivity|];
       split; assumption).
  - destruct (int_bytes_width_spec (L - 10) 4) as (n & Hw & Hn & Hlt); [lia|simpl; lia|].
    rewrite Hw, Nat2Z.id in Hrest.
    pose proof (is_head_elim _ _ _ _ _ _ _ (Hhead (10 + Z.of_nat n) ltac:(lia)))
      as (Htok & Hlow & _).
    destruct (Z.ltb_spec (10 + Z.of_nat n) 15); [|lia].
    destruct (decode_next_head d _ _ Hwf (land_255_range _) Hrest) as (-> & Hwf1 & Hrest1).
    destruct (read_uint_next _ (L - 10) n rest ltac:(lia) Hwf1 ltac:(lia) Hrest1)
      as (Hread & Hwf2 & Hrest2).
    assert (Hlen : int64 (10 + int64 (L - 10)) = L).
    { rewrite (int64_small (L - 10)) by lia. rewrite int64_small by lia. lia. }
    unfold decode_next_switch. simpl. rewrite Htok.
    destruct Hfam as [(-> & -> & ->)|(-> & -> & ->)]; simpl;
      unfold __read_item_count, z_bytes_reader_read_uint; simpl; rewrite Hlow;
      (destruct (Z.leb_spec (10 + Z.of_nat n) 10); [lia|]);
      replace (10 + Z.of_nat n - 10) with (Z.of_nat n) by lia;
      simpl in Hread; rewrite Hread; simpl; rewrite Hlen;
      (eexists; split; [reflexivity|]; simpl; rewrite Htok;
       split; [reflexivity|]; split; [reflexivity|]; split; [reflexivity|];
       split; assumption).
Qed.

(** X8: the header of an array or an object of a fixed length below
    10 + 2^32 takes at most five bytes, and [yajbe_decode_next] over it
    returns [YAJBE_ARRAY] or [YAJBE_OBJECT] with the length in
    [item_length], standing just after the header. *)
Theorem container_header_roundtrip (self : yajbe_encoder_t) (length : Z) :
  0 <= length < 10 + 2 ^ 32 ->
  wf_writer (writer self) -> has_room (writer self) 5 ->
  exists array_header object_header,
    emits self (yajbe_encode_array_fixed_length self length) array_header
    /\ emits self (yajbe_encode_object_fixed_length self length) object_header
    /\ (List.length array_header <= 5)%nat /\ (List.length object_header <= 5)%nat
    /\ forall d rest,
         wf_reader (reader d) ->
         (reader_rest (reader d) = array_header ++ rest ->
          exists d1, yajbe_decode_next d = (YAJBE_ARRAY, d1)
                     /\ item_type d1 = YAJBE_ARRAY /\ item_length d1 = Some length
                     /\ reader_rest (reader d1) = rest)
         /\ (reader_rest (reader d) = object_header ++ rest ->
             exists d1, yajbe_decode_next d = (YAJBE_OBJECT, d1)
                        /\ item_type d1 = YAJBE_OBJECT /\ item_length d1 = Some length
                        /\ reader_rest (reader d1) = rest).
Proof.
  intros Hlen Hwf Hroom.
  pose proof (length_token_short 0x20 10 length ltac:(lia) ltac:(lia)) as Ha.
  pose proof (length_token_short 0x30 10 length ltac:(lia) ltac:(lia)) as Ho.
  exists (length_token 0x20 10 length), (length_token 0x30 10 length).
  split; [|split; [|split; [exact Ha|split; [exact Ho|]]]].
  - apply encode_length_emits_exact; [lia|lia|assumption|unfold has_room in *; lia].
  - apply encode_length_emits_exact; [lia|lia|assumption|unfold has_room in *; lia].
  - intros d rest Hwfr. split; intros Hrest.
    + destruct (decode_next_container d 0x20 YAJBE_ARRAY YAJBE_ARRAY_EOF length rest
                  ltac:(left; tauto) Hlen Hwfr Hrest) as (d1 & H1 & H2 & H3 & _ & _ & H6).
      exists d1. tauto.
    + destruct (decode_next_container d 0x30 YAJBE_OBJECT YAJBE_OBJECT_EOF length rest
                  ltac:(right; tauto) Hlen Hwfr Hrest) as (d1 & H1 & H2 & H3 & _ & _ & H6).
      exists d1. tauto.
Qed.

Lemma container_header_roundtrip_witness :
  exists array_header,
    emits (fresh_encoder (replicate 8 0))
          (yajbe_encode_array_fixed_length (fresh_encoder (replicate 8 0)) 300) array_header
    /\ exists d1,
         yajbe_decode_next
           (yajbe_decoder_init None
              (z_mem_bytes_reader_init (array_header ++ [0]) 4)) = (YAJBE_ARRAY, d1)
         /\ item_length d1 = Some 300.
Proof.
  destruct (container_header_roundtrip (fresh_encoder (replicate 8 0)) 300)
    as (array_header & object_header & Ha & _ & Hla & _ & Hdec).
  - lia.
  - unfold wf_writer. simpl. lia.
  - unfold has_room. simpl. lia.
  - exists array_header. split; [exact Ha|].
    assert (Hbytes : array_header = [0x2c; 0x22; 0x01]).
    { destruct Ha as (_ & _ & _ & _ & _ & Hb). vm_compute in Hb. congruence. }
    subst array_header.
    destruct (Hdec (yajbe_decoder_init None (z_mem_bytes_reader_init ([0x2c; 0x22; 0x01] ++ [0]) 4))
                [0]) as (Harr & _).
    + unfold wf_reader. simpl. lia.
    + destruct (Harr eq_refl) as (d1 & H1 & _ & H3 & _). exists d1. tauto.
Defined.

(** X9: a fixed length from 10 + 2^32 on does not fit the header: the
    continuation then takes five bytes, and the head byte of the array is 2f,
    the byte that [yajbe_encode_array_start] writes; [yajbe_decode_next]
    reads it as [YAJBE_ARRAY_EOF] and leaves the five length bytes in the
    stream.  The same holds for objects with 3f and [YAJBE_OBJECT_EOF]. *)
Theorem long_container_header_reads_as_start_marker (self : yajbe_encoder_t) (length : Z) :
  10 + 2 ^ 32 <= length < 10 + 2 ^ 40 ->
  wf_writer (writer self) -> has_room (writer self) 6 ->
  emits self (yajbe_encode_array_fixed_length self length) (0x2f :: le_bytes (length - 10) 5)
  /\ emits self (yajbe_encode_array_start self) [0x2f]
  /\ emits self (yajbe_encode_object_fixed_length self length) (0x3f :: le_bytes (length - 10) 5)
  /\ emits self (yajbe_encode_object_start self) [0x3f]
  /\ forall d rest,
       wf_reader (reader d) ->
       (reader_rest (reader d) = 0x2f :: rest ->
        (yajbe_decode_next d).1 = YAJBE_ARRAY_EOF
        /\ reader_rest (reader (yajbe_decode_next d).2) = rest)
       /\ (reader_rest (reader d) = 0x3f :: rest ->
           (yajbe_decode_next d).1 = YAJBE_OBJECT_EOF
           /\ reader_rest (reader (yajbe_decode_next d).2) = rest).
Proof.
  intros Hlen Hwf Hroom.
  assert (Hwidth : __int_bytes_width (length - 10) = 5).
  { destruct (int_bytes_width_spec (length - 10) 5) as (n & Hw & Hn & Hlt); [lia|simpl; lia|].
    assert (n = 5%nat); [|subst n; exact Hw].
    destruct n as [|[|[|[|[|n]]]]]; simpl in Hlt; lia. }
  assert (Hhead : forall fam, emits self (__yajbe_encode_length self fam 10 length)
                     (Z.land (Z.lor fam 15) 255 :: le_bytes (length - 10) 5)).
  { intros fam.
    pose proof (encode_length_emits_exact self fam 10 length ltac:(lia) ltac:(lia) Hwf) as H.
    unfold length_token in H. destruct (Z.leb_spec length 10); [lia|].
    rewrite Hwidth in H. apply H. simpl. unfold has_room in *. lia. }
  split; [exact (Hhead 0x20)|]. split; [apply (emits_u8 self 0x2f Hwf); unfold has_room in *; lia|].
  split; [exact (Hhead 0x30)|]. split; [apply (emits_u8 self 0x3f Hwf); unfold has_room in *; lia|].
  intros d rest Hwfr. split; intros Hrest.
  - destruct (decode_next_head d 0x2f rest Hwfr ltac:(lia) Hrest) as (-> & _ & Hrest').
    split; [reflexivity|exact Hrest'].
  - destruct (decode_next_head d 0x3f rest Hwfr ltac:(lia) Hrest) as (-> & _ & Hrest').
    split; [reflexivity|exact Hrest'].
Qed.

Lemma long_container_header_reads_as_start_marker_witness :
  emits (fresh_encoder (replicate 8 0))
        (yajbe_encode_array_fixed_length (fresh_encoder (replicate 8 0)) (10 + 2 ^ 32))
        [0x2f; 0; 0; 0; 0; 1].
Proof.
  destruct (long_container_header_reads_as_start_marker (fresh_encoder (replicate 8 0))
              (10 + 2 ^ 32)) as (Ha & _).
  - lia.
  - unfold wf_writer. simpl. lia.
  - unfold has_room. simpl. lia.
  - exact Ha.
Defined.

(** ** Values one after the other *)

Lemma encode_fixed_emits self head (bits : Z) (n : nat) :
  wf_writer (writer self) -> has_room (writer self) (1 + Z.of_nat n) ->
  exists self1,
    (let '(r, self1) := with_writer self (z_bytes_writer_write_u8 (writer self) head) in
     if r <? 0 then Done (r, self1)
     else with_writer self1
            <$> z_bytes_writer_write (writer self1) (le_bytes bits n) 0 (Z.of_nat n))
    = Done (0, self1)
    /\ emits self (0, self1) (Z.land head 255 :: le_bytes bits n).
Proof.
  intros Hwf Hroom.
  pose proof (emits_u8 self head Hwf) as H1.
  destruct (with_writer _ _) as [r self1].
  destruct H1 as (Hr & Hfw & Happ); [unfold has_room in *; lia|].
  cbn [fst snd] in *. subst r. simpl.
  destruct (write_bytes_appended (writer self1) (le_bytes bits n)) as (w' & Hw & Happ2);
    [apply Happ| |].
  { eapply has_room_appended; [exact Happ|]. rewrite le_bytes_length. simpl.
    unfold has_room in *. lia. }
  unfold z_bytes_writer_write. rewrite le_bytes_length in Hw. rewrite Hw. simpl.
  eexists. split; [reflexivity|].
  split; [reflexivity|]. split; [assumption|].
  exact (appended_trans _ _ _ [_] _ Happ Happ2).
Qed.

Lemma int_token_length v :
  - 2 ^ 63 < v < 2 ^ 63 -> (List.length (int_token v) <= 9)%nat.
Proof.
  intros Hv. unfold int_token.
  destruct (Z.ltb_spec 0 v).
  - destruct (Z.leb_spec v 24); simpl; [lia|].
    destruct (int_bytes_width_spec (v - 25) 8) as (n & -> & Hn & _); [lia|simpl; lia|].
    rewrite le_bytes_length. lia.
  - destruct (Z.leb_spec (- v) 23); simpl; [lia|].
    destruct (int_bytes_width_spec (- v - 24) 8) as (n & -> & Hn & _); [lia|simpl; lia|].
    rewrite le_bytes_length. lia.
Qed.

Ltac in_types := apply list_elem_of_In; simpl; tauto.

(** One value: the encoder appends a token, and over that token the combined
    read of the same kind returns the value and stands after the token. *)
Lemma value_step (self : yajbe_encoder_t) (v : primitive) :
  encodable v -> wf_writer (writer self) -> has_room (writer self) (token_room v) ->
  exists self1 token,
    encode_primitive self v = Done (0, self1)
    /\ emits self (0, self1) token
    /\ Z.of_nat (List.length token) <= token_room v
    /\ forall d rest value0 buflen,
         wf_reader (reader d) -> reader_rest (reader d) = token ++ rest ->
         payload_length v <= buflen ->
         exists t d0 d1,
           yajbe_decode_next d = (t, d0) /\ 0 <= t /\ item_type d0 ∈ kind_types v
           /\ decode_next_value v d value0 buflen = Done (0, d1, Some v)
           /\ wf_reader (reader d1) /\ reader_rest (reader d1) = rest.
Proof.
  intros Henc Hwf Hroom. unfold token_room in Hroom.
  destruct v as [|b|v|bits|bits|data|data]; simpl in Henc, Hroom |- *.
  - pose proof (emits_u8 self 0 Hwf ltac:(unfold has_room in *; lia)) as Hemits.
    unfold yajbe_encode_null. destruct (with_writer _ _) as [r self1].
    pose proof Hemits as (Hr & _). cbn [fst snd] in Hr. subst r.
    exists self1, [Z.land 0 255]. split; [reflexivity|]. split; [exact Hemits|].
    split; [unfold token_room; simpl; lia|].
    intros d rest value0 buflen Hwfr Hrest _.
    destruct (decode_next_head d 0 rest Hwfr ltac:(lia) Hrest) as (Hnext & Hwf1 & Hrest1).
    exists YAJBE_NULL, (at_head d 0), (at_head d 0).
    unfold yajbe_decode_next_null. rewrite Hnext.
    split; [reflexivity|]. split; [now vm_compute|]. split; [in_types|].
    split; [reflexivity|]. split; assumption.
  - pose proof (emits_u8 self (if negb ((if b then 1 else 0) =? 0) then 3 else 2) Hwf
                  ltac:(unfold has_room in *; lia)) as Hemits.
    unfold yajbe_encode_bool. destruct (with_writer _ _) as [r self1].
    pose proof Hemits as (Hr & _). cbn [fst snd] in Hr. subst r.
    eexists self1, _. split; [reflexivity|]. split; [exact Hemits|].
    split; [unfold token_room; simpl; lia|].
    intros d rest value0 buflen Hwfr Hrest _.
    destruct b; simpl in Hrest.
    + destruct (decode_next_head d 3 rest Hwfr ltac:(lia) Hrest) as (Hnext & Hwf1 & Hrest1).
      exists YAJBE_TRUE, (at_head d 3), (at_head d 3).
      unfold yajbe_decode_next_bool. rewrite Hnext.
      split; [reflexivity|]. split; [now vm_compute|]. split; [in_types|].
      split; [reflexivity|]. split; assumption.
    + destruct (decode_next_head d 2 rest Hwfr ltac:(lia) Hrest) as (Hnext & Hwf1 & Hrest1).
      exists YAJBE_FALSE, (at_head d 2), (at_head d 2).
      unfold yajbe_decode_next_bool. rewrite Hnext.
      split; [reflexivity|]. split; [now vm_compute|]. split; [in_types|].
      split; [reflexivity|]. split; assumption.
  - pose proof (encode_int_emits self v Henc Hwf ltac:(unfold has_room in *; lia)) as Hemits.
    destruct (yajbe_encode_int self v) as [r self1].
    pose proof Hemits as (Hr & _). cbn [fst snd] in Hr. subst r.
    exists self1, (int_token v). split; [reflexivity|]. split; [exact Hemits|].
    split; [pose proof (int_token_length v Henc); unfold token_room; simpl; lia|].
    intros d rest value0 buflen Hwfr Hrest _.
    destruct (decode_int_token d v rest Henc Hwfr Hrest) as (t & d0 & Hnext & Ht & Hread).
    destruct (Hread value0) as (d1 & Hint & Hwf1 & Hrest1).
    exists t, d0, d1. split; [exact Hnext|]. split; [exact Ht|]. split.
    + unfold yajbe_decode_int in Hint.
      destruct (Z.eqb_spec (item_type d0) YAJBE_INT_SMALL) as [->|]; [in_types|].
      destruct (Z.eqb_spec (item_type d0) YAJBE_INT_POSITIVE) as [->|]; [in_types|].
      destruct (Z.eqb_spec (item_type d0) YAJBE_INT_NEGATIVE) as [->|]; [in_types|].
      discriminate.
    + unfold yajbe_decode_next_int. rewrite Hnext.
      destruct (Z.ltb_spec t 0); [lia|]. rewrite Hint. simpl.
      split; [reflexivity|]. split; assumption.
  - destruct (encode_fixed_emits self 5 bits 4 Hwf ltac:(unfold has_room in *; lia))
      as (self1 & Hencode & Hemits).
    exists self1, (Z.land 5 255 :: le_bytes bits 4). split; [exact Hencode|].
    split; [exact Hemits|].
    split; [unfold token_room; simpl; rewrite ?le_bytes_length; lia|].
    intros d rest value0 buflen Hwfr Hrest _.
    destruct (decode_next_head d 5 _ Hwfr ltac:(lia) Hrest) as (Hnext & Hwf1 & Hrest1).
    destruct (read_uint_next _ bits 4 rest ltac:(lia) Hwf1 ltac:(simpl; lia) Hrest1)
      as (Hread & Hwf2 & Hrest2).
    exists YAJBE_FLOAT_32, (with_item_length (at_head d 5) (Some 4)).
    eexists. unfold yajbe_decode_next_float. rewrite Hnext.
    split; [reflexivity|]. split; [now vm_compute|]. split; [in_types|].
    unfold decode_next_switch. simpl.
    unfold yajbe_decode_float, z_bytes_reader_read_uint. simpl.
    simpl in Hread. change (Z.of_nat 4) with 4 in *. rewrite Hread. simpl.
    rewrite int64_small by lia. unfold uint32. rewrite Z.mod_small by lia.
    split; [reflexivity|]. split; assumption.
  - destruct (encode_fixed_emits self 6 bits 8 Hwf ltac:(unfold has_room in *; lia))
      as (self1 & Hencode & Hemits).
    exists self1, (Z.land 6 255 :: le_bytes bits 8). split; [exact Hencode|].
    split; [exact Hemits|].
    split; [unfold token_room; simpl; rewrite ?le_bytes_length; lia|].
    intros d rest value0 buflen Hwfr Hrest _.
    destruct (decode_next_head d 6 _ Hwfr ltac:(lia) Hrest) as (Hnext & Hwf1 & Hrest1).
    destruct (read_uint_next _ bits 8 rest ltac:(lia) Hwf1 ltac:(simpl; lia) Hrest1)
      as (Hread & Hwf2 & Hrest2).
    exists YAJBE_FLOAT_64, (with_item_length (at_head d 6) (Some 8)).
    eexists. unfold yajbe_decode_next_double. rewrite Hnext.
    split; [reflexivity|]. split; [now vm_compute|]. split; [in_types|].
    unfold decode_next_switch. simpl.
    unfold yajbe_decode_double, z_bytes_reader_read_uint. simpl.
    simpl in Hread. change (Z.of_nat 8) with 8 in *. rewrite Hread. simpl.
    rewrite uint64_int64 by lia.
    split; [reflexivity|]. split; assumption.
  - destruct (emits_length_payload self 0x80 data ltac:(lia) Hwf Hroom)
      as ([r self1] & Hencode & Hemits).
    pose proof Hemits as (Hr & _). cbn [fst snd] in Hr. subst r.
    unfold yajbe_encode_bytes. eexists self1, _. split; [exact Hencode|].
    split; [exact Hemits|].
    split.
    { pose proof (length_token_length 0x80 59 (Z.of_nat (List.length data))
                    ltac:(lia) ltac:(lia)).
      unfold token_room. simpl. rewrite length_app. lia. }
    intros d rest value0 buflen Hwfr Hrest Hbuf. rewrite <- app_assoc in Hrest.
    destruct (decode_next_length_token d 0x80 YAJBE_SMALL_BYTES YAJBE_BYTES
                (Z.of_nat (List.length data)) (data ++ rest)
                ltac:(left; tauto) ltac:(lia) Hwfr Hrest)
      as (t & d0 & Hnext & Ht & Htype & Hilen & Hwf1 & Hrest1).
    destruct (read_bytes_next _ data rest Hwf1 Hrest1) as (Hread & Hwf2 & Hrest2).
    exists t, d0. eexists. split; [exact Hnext|]. split; [exact Ht|].
    split; [destruct Htype as [-> | ->]; in_types|].
    unfold yajbe_decode_next_bytes. rewrite Hnext.
    destruct (Z.ltb_spec t 0); [lia|].
    unfold yajbe_decode_bytes. rewrite Hilen.
    destruct Htype as [Htype | Htype]; rewrite Htype; simpl;
      rewrite uint64_small by lia;
      (destruct (Z.ltb_spec buflen (Z.of_nat (List.length data))); [lia|]);
      unfold z_bytes_reader_read; rewrite Hread; simpl;
      (split; [reflexivity|]; split; assumption).
  - destruct (emits_length_payload self 0xc0 data ltac:(lia) Hwf Hroom)
      as ([r self1] & Hencode & Hemits).
    pose proof Hemits as (Hr & _). cbn [fst snd] in Hr. subst r.
    unfold yajbe_encode_string. eexists self1, _. split; [exact Hencode|].
    split; [exact Hemits|].
    split.
    { pose proof (length_token_length 0xc0 59 (Z.of_nat (List.length data))
                    ltac:(lia) ltac:(lia)).
      unfold token_room. simpl. rewrite length_app. lia. }
    intros d rest value0 buflen Hwfr Hrest Hbuf. rewrite <- app_assoc in Hrest.
    destruct (decode_next_length_token d 0xc0 YAJBE_SMALL_STRING YAJBE_STRING
                (Z.of_nat (List.length data)) (data ++ rest)
                ltac:(right; tauto) ltac:(lia) Hwfr Hrest)
      as (t & d0 & Hnext & Ht & Htype & Hilen & Hwf1 & Hrest1).
    destruct (read_bytes_next _ data rest Hwf1 Hrest1) as (Hread & Hwf2 & Hrest2).
    exists t, d0. eexists. split; [exact Hnext|]. split; [exact Ht|].
    split; [destruct Htype as [-> | ->]; in_types|].
    unfold yajbe_decode_next_string. rewrite Hnext.
    destruct (Z.ltb_spec t 0); [lia|].
    unfold yajbe_decode_string. rewrite Hilen.
    destruct Htype as [Htype | Htype]; rewrite Htype; simpl;
      rewrite uint64_small by lia;
      (destruct (Z.ltb_spec buflen (Z.of_nat (List.length data))); [lia|]);
      unfold z_bytes_reader_read; rewrite Hread; simpl;
      (split; [reflexivity|]; split; assumption).
Qed.







Lemma decode_next_type d t d0 :
  yajbe_decode_next d = (t, d0) -> 0 <= t -> item_type d0 = t.
Proof.
  unfold yajbe_decode_next.
  destruct (z_bytes_reader_read_u8 (reader d)) as [[r rd] head] eqn:Hread.
  unfold z_bytes_reader_read_u8, __mem_bytes_reader_read_byte in Hread.
  destruct (_ <? _) in Hread; injection Hread as <- <- <-; simpl.
  - intros [= <- <-]. unfold ENOSPC. lia.
  - match goal with |- context [decode_next_switch ?s] => set (st := s) end.
    destruct (decode_next_switch_result st) as ([Hneg|Heq] & Htype & _).
    + intros Hst. rewrite Hst in Hneg. simpl in Hneg. lia.
    + intros Hst. rewrite Hst in Heq, Htype. simpl in *. congruence.
Qed.

(** X11: a combined read of another kind than the value in the stream is
    refused: after encoding a value, the call [yajbe_decode_next_<kind>] of
    any other kind returns [-EINVAL] and stores nothing. *)
Theorem typed_read_rejects_other_kinds (v like : primitive) (buffer : list Z) (buflen : Z) :
  encodable v ->
  token_room v <= Z.of_nat (List.length buffer) ->
  same_kind like v = false ->
  exists e1 d1,
    encode_primitive (fresh_encoder buffer) v = Done (0, e1)
    /\ decode_next_value like (decoder_over e1) None buflen = Done (- EINVAL, d1, None).
Proof.
  intros Henc Hroom Hkind.
  destruct (value_step (fresh_encoder buffer) v Henc (fresh_encoder_wf buffer))
    as (e1 & token & Hencode & Hemits & _ & Hdecode).
  { unfold has_room. simpl. lia. }
  destruct (decoder_over_rest _ _ _ Hemits) as (_ & Hwf & Hrest). cbn [snd] in *.
  rewrite <- (app_nil_r token) in Hrest.
  destruct (Hdecode _ [] None (payload_length v) Hwf Hrest ltac:(lia))
    as (t & d0 & _ & Hnext & Ht & Hin & _).
  pose proof (decode_next_type _ _ _ Hnext Ht) as Htype.
  exists e1, d0. split; [exact Hencode|].
  apply list_elem_of_In in Hin.
  destruct (Z.ltb_spec t 0) as [|_]; [lia|].
  destruct like, v; try discriminate Hkind; simpl in Hin;
    unfold decode_next_value, yajbe_decode_next_null, yajbe_decode_next_bool,
      yajbe_decode_next_int, yajbe_decode_next_float, yajbe_decode_next_double,
      yajbe_decode_next_bytes, yajbe_decode_next_string;
    rewrite Hnext;
    unfold yajbe_decode_bool, yajbe_decode_int, yajbe_decode_float, yajbe_decode_double,
      yajbe_decode_bytes, yajbe_decode_string;
    repeat (destruct Hin as [Hin|Hin]; [|]); try contradiction;
    rewrite <- Htype, <- Hin; reflexivity.
Qed.

Lemma typed_read_rejects_other_kinds_witness :
  exists e1 d1,
    encode_primitive (fresh_encoder (replicate 16 0)) (PString (str "foo")) = Done (0, e1)
    /\ decode_next_value (PInt 0) (decoder_over e1) None 0 = Done (- EINVAL, d1, None).
Proof.
  apply (typed_read_rejects_other_kinds (PString (str "foo")) (PInt 0) (replicate 16 0) 0).
  - simpl. lia.
  - vm_compute. discriminate.
  - reflexivity.
Defined.

(** * Further properties of the field codec *)

(** ** The common prefix *)

Lemma byte_at_lookup (l : list Z) (i : Z) :
  0 <= i < Z.of_nat (List.length l) -> l !! Z.to_nat i = Some (byte_at l i).
Proof.
  intros Hi. unfold byte_at.
  destruct (l !! Z.to_nat i) eqn:Hl; [reflexivity|].
  apply lookup_ge_None in Hl. lia.
Qed.

Lemma prefix_loop_spec (last_key key : list Z) (len : Z) (n : nat) (i : Z) :
  0 <= i -> i + Z.of_nat n = len ->
  len <= Z.of_nat (List.length last_key) -> len <= Z.of_nat (List.length key) ->
  take (Z.to_nat i) last_key = take (Z.to_nat i) key ->
  let p := __prefix_loop last_key key len n i in
  i <= p <= len
  /\ take (Z.to_nat p) last_key = take (Z.to_nat p) key
  /\ (p < len -> byte_at last_key p <> byte_at key p).
Proof.
  revert i. induction n as [|n IH]; intros i Hi Hlen Hl Hk Htake; simpl.
  - replace len with i in * by lia. split; [lia|]. split; [exact Htake|lia].
  - destruct (Z.eqb_spec (byte_at last_key i) (byte_at key i)) as [Heq|Hne]; simpl.
    + destruct (IH (i + 1)) as (Hp & Hp' & Hp''); try lia.
      { replace (Z.to_nat (i + 1)) with (S (Z.to_nat i)) by lia.
        rewrite (take_S_r last_key _ (byte_at last_key i)) by (apply byte_at_lookup; lia).
        rewrite (take_S_r key _ (byte_at key i)) by (apply byte_at_lookup; lia).
        now rewrite Htake, Heq. }
      split; [lia|]. split; assumption.
    + split; [lia|]. split; [exact Htake|]. intros _. exact Hne.
Qed.

(** X12: [__prefix] returns the length of the longest common prefix of the
    last key and the key: the two agree on that many bytes, and differ at the
    next one unless one of them ends there. *)
Theorem prefix_is_longest_common_prefix
    (self : yajbe_field_encoder_t) (last key : list Z) (keylen : Z) :
  last_key self = Some last ->
  0 <= last_keylen self <= strlen last -> 0 <= keylen <= strlen key ->
  let p := __prefix self key keylen in
  0 <= p <= last_keylen self /\ p <= keylen
  /\ take (Z.to_nat p) last = take (Z.to_nat p) key
  /\ (p < last_keylen self -> p < keylen ->
      last !! Z.to_nat p <> key !! Z.to_nat p).
Proof.
  intros Hlast Hl Hk. unfold __prefix. rewrite Hlast. simpl.
  set (len := Z_MIN (last_keylen self) keylen).
  assert (Hlen : 0 <= len /\ len <= last_keylen self /\ len <= keylen
                 /\ (len = last_keylen self \/ len = keylen)).
  { subst len. unfold Z_MIN. destruct (Z.ltb_spec (last_keylen self) keylen); lia. }
  unfold strlen in *.
  destruct (prefix_loop_spec last key len (Z.to_nat len) 0) as (Hp & Htake & Hdiff);
    try lia; [reflexivity|].
  split; [lia|]. split; [lia|]. split; [exact Htake|].
  intros H1 H2.
  rewrite !byte_at_lookup by lia. intros [= Heq]. apply Hdiff; [lia|exact Heq].
Qed.

Lemma prefix_is_longest_common_prefix_witness :
  let self := set_last_key (yajbe_field_encoder_init_fixed 16) (str "test_foo") 8 in
  let p := __prefix self (str "test_bar") 8 in
  0 <= p <= last_keylen self /\ p <= 8
  /\ take (Z.to_nat p) (str "test_foo") = take (Z.to_nat p) (str "test_bar")
  /\ (p < last_keylen self -> p < 8 ->
      str "test_foo" !! Z.to_nat p <> str "test_bar" !! Z.to_nat p).
Proof.
  apply (prefix_is_longest_common_prefix
           (set_last_key (yajbe_field_encoder_init_fixed 16) (str "test_foo") 8)
           (str "test_foo") (str "test_bar") 8).
  - reflexivity.
  - vm_compute. split; discriminate.
  - vm_compute. split; discriminate.
Defined.

(** ** The length header of the field tokens *)

Lemma field_head_low head i :
  field_head head -> 0 <= i < 32 ->
  Z.land (Z.lor head i) 255 = Z.lor head i
  /\ 0 <= Z.lor head i < 256
  /\ Z.land (Z.shiftr (Z.lor head i) 5) 7 = Z.shiftr head 5
  /\ Z.land (Z.lor head i) 0x1f = i.
Proof.
  intros Hhead Hi.
  set (check := fun h i =>
                  (Z.land (Z.lor h i) 255 =? Z.lor h i)
                  && (0 <=? Z.lor h i) && (Z.lor h i <? 256)
                  && (Z.land (Z.shiftr (Z.lor h i) 5) 7 =? Z.shiftr h 5)
                  && (Z.land (Z.lor h i) 0x1f =? i)).
  assert (Hall : check head i = true).
  { destruct Hhead as [-> | [-> | [-> | ->]]];
      apply (range_forall (check _) 32); (exact Hi || now vm_compute). }
  subst check. cbv beta in Hall.
  rewrite !andb_true_iff, !Z.eqb_eq, Z.leb_le, Z.ltb_lt in Hall. tauto.
Qed.

Lemma length_header_length head length :
  (List.length (length_header head length) <= 3)%nat.
Proof.
  unfold length_header. destruct (_ <? _); [simpl; lia|]. destruct (_ <=? _); simpl; lia.
Qed.

(** [__write_length] appends the length header. *)
Lemma write_length_appended w head length :
  field_head head -> 0 <= length <= 65819 ->
  wf_writer w -> has_room w (Z.of_nat (List.length (length_header head length))) ->
  exists w', __write_length w head length = (0, w')
             /\ appended w w' (length_header head length).
Proof.
  intros Hhead Hlen Hwf Hroom. unfold __write_length, length_header in *.
  destruct (Z.ltb_spec length 30).
  - destruct (field_head_low head length Hhead ltac:(lia)) as (Hmask & _).
    destruct (write_length_u8 w (Z.lor head length) Hwf ltac:(unfold has_room in *; simpl in *; lia))
      as (w1 & -> & Happ1).
    rewrite Hmask in Happ1. eexists. split; [reflexivity|exact Happ1].
  - destruct (Z.leb_spec length 284).
    + destruct (field_head_low head 0x1e Hhead ltac:(lia)) as (Hmask & _).
      destruct (write_length_u8 w (Z.lor head 0x1e) Hwf
                  ltac:(unfold has_room in *; simpl in *; lia)) as (w1 & -> & Happ1).
      destruct (write_length_u8 w1 (Z.land (length - 29) 0xff) ltac:(apply Happ1)
                  ltac:(eapply has_room_appended; [exact Happ1|]; simpl in *;
                        unfold has_room in *; lia))
        as (w2 & -> & Happ2).
      rewrite Hmask in Happ1.
      rewrite (land_255_byte (Z.land _ 255)) in Happ2 by apply land_255_range.
      rewrite (land_255_byte (length - 29)) in Happ2 by lia.
      eexists. split; [reflexivity|exact (appended_trans _ _ _ _ _ Happ1 Happ2)].
    + destruct (Z.leb_spec length 65819); [|lia].
      destruct (field_head_low head 0x1f Hhead ltac:(lia)) as (Hmask & _).
      set (x := length - 284) in *.
      assert (Hx : 0 <= x < 65536) by (subst x; lia).
      assert (Hhi : 0 <= x / 256 < 256).
      { split; [apply Z.div_pos; lia|apply Z.div_lt_upper_bound; lia]. }
      assert (Hlo : Z.land x 255 = x mod 256).
      { change 255 with (Z.ones 8). now rewrite Z.land_ones by lia. }
      pose proof (Z.mod_pos_bound x 256 ltac:(lia)) as Hmod.
      destruct (write_length_u8 w (Z.lor head 0x1f) Hwf
                  ltac:(unfold has_room in *; simpl in *; lia)) as (w1 & -> & Happ1).
      destruct (write_length_u8 w1 (x / 256) ltac:(apply Happ1)
                  ltac:(eapply has_room_appended; [exact Happ1|]; simpl in *;
                        unfold has_room in *; lia))
        as (w2 & -> & Happ2).
      pose proof (appended_trans _ _ _ _ _ Happ1 Happ2) as Happ12.
      destruct (write_length_u8 w2 (Z.land x 255) ltac:(apply Happ2)
                  ltac:(eapply has_room_appended; [exact Happ12|]; simpl in *;
                        unfold has_room in *; lia))
        as (w3 & -> & Happ3).
      pose proof (appended_trans _ _ _ _ _ Happ12 Happ3) as Happ123.
      rewrite Hmask, (land_255_byte (x / 256)), Hlo, (land_255_byte (x mod 256)) in Happ123
        by lia.
      eexists. split; [reflexivity|exact Happ123].
Qed.

(** [__read_length] reads the length header back. *)
Lemma read_length_header head length :
  field_head head -> 0 <= length <= 65819 ->
  reads_length (length_header head length) (Z.shiftr head 5) length.
Proof.
  intros Hhead Hlen r rest Hr Hrest. unfold length_header in Hrest.
  destruct (Z.ltb_spec length 30).
  - destruct (field_head_low head length Hhead ltac:(lia)) as (_ & Hbyte & Hfam & Hlow).
    destruct (read_byte_next r _ rest Hr Hbyte Hrest) as (Hread & Hwf1 & Hrest1).
    eexists _, _, _. split; [exact Hread|]. split; [exact Hfam|].
    unfold __read_length. rewrite Hlow.
    destruct (Z.ltb_spec length 30); [|lia]. split; [reflexivity|split; assumption].
  - destruct (Z.leb_spec length 284).
    + destruct (field_head_low head 0x1e Hhead ltac:(lia)) as (_ & Hbyte & Hfam & Hlow).
      simpl in Hrest.
      destruct (read_byte_next r _ _ Hr Hbyte Hrest) as (Hread & Hwf1 & Hrest1).
      destruct (read_byte_next _ (length - 29) _ Hwf1 ltac:(lia) Hrest1)
        as (Hread2 & Hwf2 & Hrest2).
      eexists _, _, _. split; [exact Hread|]. split; [exact Hfam|].
      unfold __read_length, z_bytes_reader_read_u8. rewrite Hlow. simpl. rewrite Hread2. simpl.
      replace (29 + (length - 29)) with length by lia.
      split; [reflexivity|split; assumption].
    + destruct (field_head_low head 0x1f Hhead ltac:(lia)) as (_ & Hbyte & Hfam & Hlow).
      simpl in Hrest.
      set (x := length - 284) in *.
      assert (Hx : 0 <= x < 65536) by (subst x; lia).
      assert (Hhi : 0 <= x / 256 < 256).
      { split; [apply Z.div_pos; lia|apply Z.div_lt_upper_bound; lia]. }
      pose proof (Z.mod_pos_bound x 256 ltac:(lia)) as Hmod.
      destruct (read_byte_next r _ _ Hr Hbyte Hrest) as (Hread & Hwf1 & Hrest1).
      destruct (read_bytes_next _ [x / 256; x mod 256] rest Hwf1 Hrest1)
        as (Hread2 & Hwf2 & Hrest2).
      eexists _, _, _. split; [exact Hread|]. split; [exact Hfam|].
      unfold __read_length, z_bytes_reader_read. rewrite Hlow. simpl.
      change (Z.of_nat (List.length [x / 256; x mod 256])) with 2 in Hread2.
      rewrite Hread2. simpl. unfold byte_at. simpl.
      rewrite !land_255_byte by assumption.
      replace (284 + 256 * (x / 256) + x mod 256) with length
        by (pose proof (Z.div_mod x 256 ltac:(lia)); subst x; lia).
      split; [reflexivity|split; assumption].
Qed.

(** X13: for each of the four token families and every length up to 65819,
    [__write_length] returns 0 and writes a header of one, two or three
    bytes (lengths below 30, up to 284, up to 65819) from which the field
    decoder reads the family and the length back.  A greater length is
    refused with -1 and nothing is written. *)
Theorem length_header_roundtrip (w : z_mem_bytes_writer_t) (head length : Z) :
  field_head head -> wf_writer w -> has_room w 3 ->
  (0 <= length <= 65819 ->
   exists w' header,
     __write_length w head length = (0, w')
     /\ appended w w' header
     /\ List.length header
        = (if length <? 30 then 1%nat else if length <=? 284 then 2%nat else 3%nat)
     /\ reads_length header (Z.shiftr head 5) length)
  /\ (65819 < length -> __write_length w head length = (-1, w)).
Proof.
  intros Hhead Hwf Hroom. split.
  - intros Hlen.
    pose proof (length_header_length head length) as Hl.
    destruct (write_length_appended w head length Hhead Hlen Hwf) as (w' & Hw & Happ).
    { unfold has_room in *. lia. }
    exists w', (length_header head length). split; [exact Hw|]. split; [exact Happ|].
    split; [|now apply read_length_header].
    unfold length_header. destruct (_ <? _); [reflexivity|]. now destruct (_ <=? _).
  - intros Hlen. unfold __write_length.
    destruct (Z.ltb_spec length 30); [lia|].
    destruct (Z.leb_spec length 284); [lia|].
    destruct (Z.leb_spec length 65819); [lia|]. reflexivity.
Qed.

Lemma length_header_roundtrip_witness :
  exists w' header,
    __write_length (z_mem_bytes_writer_init_fixed (replicate 4 0) 4) 0xc0 300 = (0, w')
    /\ appended (z_mem_bytes_writer_init_fixed (replicate 4 0) 4) w' header
    /\ List.length header = 3%nat
    /\ reads_length header 6 300.
Proof.
  destruct (length_header_roundtrip (z_mem_bytes_writer_init_fixed (replicate 4 0) 4) 0xc0 300)
    as (Hfit & _).
  - unfold field_head. tauto.
  - unfold wf_writer. simpl. lia.
  - unfold has_room. simpl. lia.
  - apply Hfit. lia.
Defined.

(** ** The table of the field encoder: adding a key that is there *)

Section ProbingPresent.
Variables (seen : list (list Z)) (self : yajbe_field_encoder_t).
Hypothesis Hinv : table_of seen self.

Let size := enc_entries_size self.
Let entries := enc_entries self.
Let mask := uint64 (size - 1).

Lemma hadd_probe_walk key (i : nat) (d fuel : nat) (h : Z) :
  seen !! i = Some key -> (d < fuel)%nat -> 0 <= h < size ->
  (forall d' : nat, (d' < d)%nat ->
     exists e', entries !! Z.to_nat (probe_slot size h d') = Some e' /\ occupied e') ->
  (exists e, entries !! Z.to_nat (probe_slot size h d) = Some e /\ fe_name e = Some key) ->
  hadd_probe fuel entries mask h (hash_of key) key (strlen key) = Done (inl (Z.of_nat i)).
Proof.
  intros Hi. revert fuel h. induction d as [|d IH]; intros fuel h Hfuel Hh Hpath Hend;
    (destruct fuel as [|fuel]; [lia|]); simpl.
  - destruct Hend as (e & He & Hname). rewrite probe_slot_0 in He by assumption.
    rewrite He. simpl. rewrite Hname.
    rewrite (proj2 (table_entry_equals seen self Hinv _ _ key key He Hname) eq_refl).
    do 2 f_equal. exact (table_key_index seen self Hinv _ _ _ _ Hi He Hname).
  - destruct (Hpath 0%nat ltac:(lia)) as (e0 & He0 & Hocc).
    rewrite probe_slot_0 in He0 by assumption. rewrite He0. simpl.
    destruct (fe_name e0) as [key0|] eqn:Hname0; [|now destruct Hocc].
    destruct (__field_name_entry_equals e0 _ _ _) eqn:Heq.
    + apply (table_entry_equals seen self Hinv _ _ _ _ He0 Hname0) in Heq. subst key0.
      do 2 f_equal. exact (table_key_index seen self Hinv _ _ _ _ Hi He0 Hname0).
    + unfold mask, size. rewrite (table_mask seen self Hinv). fold size.
      replace ((h + 1) mod size) with (probe_slot size h 1)
        by (unfold probe_slot; f_equal).
      pose proof (table_size_pos seen self Hinv) as Hpos. fold size in Hpos.
      apply IH; [lia|now apply probe_slot_range| |].
      * intros d' Hd'. rewrite probe_slot_shift by assumption. apply Hpath. lia.
      * rewrite probe_slot_shift by assumption. exact Hend.
Qed.

(** Adding a key of the table again returns its index and leaves the table
    as it is, as long as the table is not full. *)
Lemma hadd_present key (i : nat) :
  seen !! i = Some key -> enc_entries_count self <> enc_entries_size self ->
  yajbe_field_encoder_hadd self (hash_of key) key (strlen key) = Done (Z.of_nat i, self).
Proof.
  intros Hi Hcount. pose proof Hinv as (_ & _ & _ & _ & _ & Hslot & Hcomplete).
  destruct (Hcomplete key) as (p & e & He & Hname); [apply list_elem_of_lookup; eauto|].
  destruct (Hslot p e key He Hname) as (_ & _ & _ & _ & d & Hd & Hp & Hpath).
  pose proof (table_size_pos seen self Hinv) as Hpos.
  unfold yajbe_field_encoder_hadd.
  destruct (Z.eqb_spec (enc_entries_count self) (enc_entries_size self)); [contradiction|].
  rewrite (table_mask seen self Hinv).
  rewrite (hadd_probe_walk key i d); try assumption; [reflexivity| | |].
  - apply Z.mod_pos_bound. exact Hpos.
  - intros d' Hd'. unfold size. rewrite probe_slot_mod. now apply Hpath.
  - unfold size. rewrite probe_slot_mod, Hp, Nat2Z.id. eauto.
Qed.

End ProbingPresent.

(** ** The table as a map from keys to first-seen indices *)

Lemma index_of_absent key seen : key ∉ seen -> index_of key seen = -1.
Proof.
  induction seen as [|k seen IH]; intros Habsent; simpl; [reflexivity|].
  apply not_elem_of_cons in Habsent as [Hne Hrest].
  destruct (decide (k = key)); [congruence|]. now rewrite IH.
Qed.

Lemma index_of_range key seen :
  key ∈ seen -> 0 <= index_of key seen < Z.of_nat (List.length seen).
Proof.
  induction seen as [|k seen IH]; intros Hin; [now apply elem_of_nil in Hin|].
  simpl. destruct (decide (k = key)); [lia|].
  apply elem_of_cons in Hin as [->|Hin]; [congruence|].
  specialize (IH Hin). destruct (Z.ltb_spec (index_of key seen) 0); lia.
Qed.

Lemma index_of_lookup key seen (i : nat) :
  NoDup seen -> seen !! i = Some key -> index_of key seen = Z.of_nat i.
Proof.
  intros Hnodup. revert i. induction Hnodup as [|k seen Hk Hnodup IH]; intros i Hi.
  - now rewrite lookup_nil in Hi.
  - simpl. destruct i as [|i]; simpl in Hi.
    + injection Hi as ->. now rewrite decide_True.
    + destruct (decide (k = key)) as [->|Hne].
      { destruct Hk. apply list_elem_of_lookup. eauto. }
      rewrite (IH i Hi). destruct (Z.ltb_spec (Z.of_nat i) 0); lia.
Qed.

Lemma index_of_app key seen more :
  key ∈ seen -> index_of key (seen ++ more) = index_of key seen.
Proof.
  induction seen as [|k seen IH]; intros Hin; [now apply elem_of_nil in Hin|].
  simpl. destruct (decide (k = key)); [reflexivity|].
  apply elem_of_cons in Hin as [->|Hin]; [congruence|]. now rewrite IH.
Qed.

Lemma index_of_new key seen :
  key ∉ seen -> index_of key (seen ++ [key]) = Z.of_nat (List.length seen).
Proof.
  induction seen as [|k seen IH]; intros Habsent; simpl.
  - now rewrite decide_True.
  - apply not_elem_of_cons in Habsent as [Hne Hrest].
    destruct (decide (k = key)); [congruence|]. rewrite (IH Hrest).
    destruct (Z.ltb_spec (Z.of_nat (List.length seen)) 0); lia.
Qed.

Lemma first_seen_from_extends seen keys :
  exists more, first_seen_from seen keys = seen ++ more.
Proof.
  revert seen. induction keys as [|key keys IH]; intros seen; simpl.
  - exists []. now rewrite app_nil_r.
  - destruct (decide (key ∈ seen)); [apply IH|].
    destruct (IH (seen ++ [key])) as (more & ->). exists (key :: more).
    now rewrite <- app_assoc.
Qed.

Lemma table_of_nodup seen self : table_of seen self -> NoDup seen.
Proof. now intros (_ & _ & _ & H & _). Qed.

Lemma table_of_count seen self :
  table_of seen self -> enc_entries_count self = Z.of_nat (List.length seen).
Proof. now intros (_ & _ & H & _). Qed.

Lemma add_loop_table keys :
  forall seen self,
    table_of seen self ->
    Z.of_nat (List.length (first_seen_from seen keys)) < enc_entries_size self ->
    exists self',
      add_loop keys self
      = Done (map (fun key => index_of key (first_seen_from seen keys)) keys, self')
      /\ table_of (first_seen_from seen keys) self'
      /\ enc_entries_size self' = enc_entries_size self.
Proof.
  induction keys as [|key keys IH]; intros seen self Hinv Hsize; simpl in *.
  - exists self. tauto.
  - pose proof (first_seen_from_length seen keys) as Hlen.
    unfold yajbe_field_encoder_add. fold (hash_of key).
    destruct (decide (key ∈ seen)) as [Hin|Hnew].
    + destruct (proj1 (list_elem_of_lookup _ _) Hin) as (i & Hi).
      rewrite (hadd_present seen self Hinv key i Hi)
        by (rewrite (table_of_count _ _ Hinv); lia).
      simpl.
      destruct (IH seen self Hinv Hsize) as (self' & -> & Htable & Hsz).
      exists self'. split; [|tauto]. simpl. do 3 f_equal.
      destruct (first_seen_from_extends seen keys) as (more & ->).
      rewrite index_of_app by assumption.
      symmetry. apply index_of_lookup; [exact (table_of_nodup _ _ Hinv)|exact Hi].
    + pose proof (first_seen_from_length (seen ++ [key]) keys) as Hlen'.
      rewrite length_app in Hlen'. simpl in Hlen'.
      destruct (hadd_absent seen self key Hinv Hnew ltac:(lia)) as (self1 & -> & Hinv1 & Hsz1).
      simpl.
      destruct (IH (seen ++ [key]) self1 Hinv1 ltac:(lia)) as (self' & -> & Htable & Hsz).
      exists self'. split; [|split; [assumption|congruence]]. simpl. do 3 f_equal.
      destruct (first_seen_from_extends (seen ++ [key]) keys) as (more & ->).
      rewrite index_of_app by (apply elem_of_app; right; now left).
      symmetry. now apply index_of_new.
Qed.

(** X14: the table maps every key to its position in the order of first
    appearance.  With a capacity [2^k] greater than the number of distinct
    keys, [yajbe_field_encoder_add] returns for each key of a sequence the
    index of its first appearance (a repeated key gets the index it got
    before, and the count does not grow), and afterwards
    [yajbe_field_encoder_get] returns that index for every key of the
    sequence and -1 for every other key. *)
Theorem table_maps_keys_to_first_seen_indices (keys : list (list Z)) (k : Z) :
  0 <= k < 64 ->
  Z.of_nat (List.length (first_seen keys)) < 2 ^ k ->
  exists self,
    add_loop keys (yajbe_field_encoder_init_fixed (2 ^ k))
    = Done (map (fun key => index_of key (first_seen keys)) keys, self)
    /\ enc_entries_count self = Z.of_nat (List.length (first_seen keys))
    /\ (forall key, yajbe_field_encoder_get self key (strlen key)
                    = Done (index_of key (first_seen keys)))
    /\ (forall key, key ∈ keys ->
          0 <= index_of key (first_seen keys) < Z.of_nat (List.length (first_seen keys)))
    /\ (forall key, key ∉ keys -> index_of key (first_seen keys) = -1).
Proof.
  intros Hk Hsize.
  destruct (add_loop_table keys [] (yajbe_field_encoder_init_fixed (2 ^ k))
              (table_of_init k Hk) Hsize) as (self & Hadd & Htable & _).
  fold (first_seen keys) in *.
  exists self. split; [exact Hadd|]. split; [exact (table_of_count _ _ Htable)|].
  assert (Hmem : forall key, key ∈ first_seen keys <-> key ∈ keys).
  { intros key. unfold first_seen. rewrite first_seen_from_incl.
    split; [intros [H|H]; [now apply elem_of_nil in H|exact H]|now right]. }
  split; [|split].
  - intros key. unfold yajbe_field_encoder_get. fold (hash_of key).
    destruct (decide (key ∈ first_seen keys)) as [Hin|Hout].
    + destruct (proj1 (list_elem_of_lookup _ _) Hin) as (i & Hi).
      rewrite (hget_present _ _ Htable key i Hi).
      now rewrite (index_of_lookup _ _ _ (table_of_nodup _ _ Htable) Hi).
    + rewrite (hget_absent _ _ Htable key Hout). now rewrite index_of_absent.
  - intros key Hin. apply index_of_range. now apply Hmem.
  - intros key Hout. apply index_of_absent. now rewrite Hmem.
Qed.

Lemma table_maps_keys_to_first_seen_indices_witness :
  exists self,
    add_loop (map str ["foo"; "bar"; "foo"; "baz"; "bar"]%string)
             (yajbe_field_encoder_init_fixed (2 ^ 2))
    = Done ([0; 1; 0; 2; 1], self)
    /\ yajbe_field_encoder_get self (str "baz") 3 = Done 2
    /\ yajbe_field_encoder_get self (str "qux") 3 = Done (-1).
Proof.
  destruct (table_maps_keys_to_first_seen_indices
              (map str ["foo"; "bar"; "foo"; "baz"; "bar"]%string) 2)
    as (self & Hadd & _ & Hget & _).
  - lia.
  - vm_compute. reflexivity.
  - exists self. split; [exact Hadd|].
    split; [exact (Hget (str "baz"))|exact (Hget (str "qux"))].
Defined.

Lemma add_loop_distinct keys :
  forall seen self,
    table_of seen self -> NoDup (seen ++ keys) ->
    Z.of_nat (List.length (seen ++ keys)) <= enc_entries_size self ->
    exists self',
      add_loop keys self
      = Done (map Z.of_nat (seq (List.length seen) (List.length keys)), self')
      /\ table_of (seen ++ keys) self'
      /\ enc_entries_size self' = enc_entries_size self.
Proof.
  induction keys as [|key keys IH]; intros seen self Hinv Hnodup Hsize; simpl in *.
  - exists self. rewrite app_nil_r. tauto.
  - unfold yajbe_field_encoder_add. fold (hash_of key).
    assert (Hnew : key ∉ seen).
    { apply NoDup_app in Hnodup as (_ & Hdisj & _). intros Hin.
      apply (Hdisj key Hin). now left. }
    rewrite length_app in Hsize. simpl in Hsize.
    destruct (hadd_absent seen self key Hinv Hnew ltac:(lia)) as (self1 & -> & Hinv1 & Hsz1).
    simpl.
    destruct (IH (seen ++ [key]) self1 Hinv1) as (self' & -> & Htable & Hsz).
    { now rewrite <- app_assoc. }
    { rewrite <- app_assoc, length_app. simpl. lia. }
    exists self'. rewrite <- app_assoc in Htable. split; [|split; [exact Htable|congruence]].
    simpl. rewrite length_app. simpl.
    replace (List.length seen + 1)%nat with (S (List.length seen)) by lia. reflexivity.
Qed.

(** X15: a full table refuses every add, also of a key that it holds.
    After [2^k] distinct keys have been added to a table of capacity [2^k]
    (each add returns the next index), [yajbe_field_encoder_get] still finds
    every key under its index, but [yajbe_field_encoder_add] returns
    [-ENOSPC] for every key, in the table or not, and leaves the table as it
    is; [yajbe_field_encoder_get] of a key that is not in the table returns
    -1 after looking at every slot. *)
Theorem full_table_refuses_every_add (keys : list (list Z)) (k : Z) :
  0 <= k < 64 -> NoDup keys -> Z.of_nat (List.length keys) = 2 ^ k ->
  exists self,
    add_loop keys (yajbe_field_encoder_init_fixed (2 ^ k))
    = Done (map Z.of_nat (seq 0 (List.length keys)), self)
    /\ enc_entries_count self = enc_entries_size self
    /\ (forall (i : nat) key, keys !! i = Some key ->
          yajbe_field_encoder_get self key (strlen key) = Done (Z.of_nat i))
    /\ (forall key, key ∉ keys -> yajbe_field_encoder_get self key (strlen key) = Done (-1))
    /\ (forall key, yajbe_field_encoder_add self key (strlen key) = Done (- ENOSPC, self)).
Proof.
  intros Hk Hnodup Hlen.
  destruct (add_loop_distinct keys [] (yajbe_field_encoder_init_fixed (2 ^ k))
              (table_of_init k Hk) Hnodup) as (self & Hadd & Htable & Hsz).
  { simpl. lia. }
  simpl in *. exists self. split; [exact Hadd|].
  assert (Hfull : enc_entries_count self = enc_entries_size self).
  { rewrite (table_of_count _ _ Htable), Hsz. exact Hlen. }
  split; [exact Hfull|]. split; [|split].
  - intros i key Hi. unfold yajbe_field_encoder_get. fold (hash_of key).
    exact (hget_present _ _ Htable key i Hi).
  - intros key Hout. unfold yajbe_field_encoder_get. fold (hash_of key).
    exact (hget_absent _ _ Htable key Hout).
  - intros key. unfold yajbe_field_encoder_add, yajbe_field_encoder_hadd.
    now rewrite Hfull, Z.eqb_refl.
Qed.

Lemma full_table_refuses_every_add_witness :
  exists self,
    add_loop (map str ["a"; "b"]%string) (yajbe_field_encoder_init_fixed (2 ^ 1))
    = Done ([0; 1], self)
    /\ yajbe_field_encoder_get self (str "b") 1 = Done 1
    /\ yajbe_field_encoder_add self (str "b") 1 = Done (- ENOSPC, self).
Proof.
  destruct (full_table_refuses_every_add (map str ["a"; "b"]%string) 1)
    as (self & Hadd & _ & Hget & _ & Hfull).
  - lia.
  - exact (bool_decide_unpack (NoDup (map str ["a"; "b"]%string)) I).
  - reflexivity.
  - exists self. split; [exact Hadd|].
    split; [exact (Hget 1%nat (str "b") eq_refl)|exact (Hfull (str "b"))].
Defined.

(** ** Ranges of bytes *)

Lemma mem_range_spec (obj : list Z) (o n : Z) (x : list Z) :
  mem_range obj o n = Some x
  <-> 0 <= o /\ 0 <= n /\ o + n <= Z.of_nat (List.length obj)
      /\ List.length x = Z.to_nat n
      /\ forall i : nat, (i < Z.to_nat n)%nat -> x !! i = obj !! (Z.to_nat o + i)%nat.
Proof.
  unfold mem_range. destruct (decide _) as [(Ho & Hn & Hin)|Hout].
  - split.
    + intros [= <-]. repeat split; try lia.
      * rewrite length_take, length_drop. lia.
      * intros i Hi. rewrite lookup_take_lt by lia. apply lookup_drop.
    + intros (_ & _ & _ & Hlen & Hlook). f_equal. apply list_eq. intros i.
      destruct (Nat.lt_ge_cases i (Z.to_nat n)) as [Hi|Hi].
      * rewrite lookup_take_lt by lia. rewrite lookup_drop. symmetry. now apply Hlook.
      * rewrite lookup_take_ge by lia. symmetry. apply lookup_ge_None. lia.
  - split; [discriminate|]. intros (Ho & Hn & Hin & _). tauto.
Qed.

Lemma mem_store_lookup_in (dst src : list Z) (off : Z) (j : nat) :
  0 <= off -> off + Z.of_nat (List.length src) <= Z.of_nat (List.length dst) ->
  (j < List.length src)%nat ->
  mem_store dst off src !! (Z.to_nat off + j)%nat = src !! j.
Proof.
  intros Hoff Hin Hj. unfold mem_store.
  rewrite lookup_app_r by (rewrite length_take; lia).
  rewrite length_take. replace (Z.to_nat off `min` List.length dst)%nat with (Z.to_nat off) by lia.
  replace (Z.to_nat off + j - Z.to_nat off)%nat with j by lia.
  now apply lookup_app_l.
Qed.

(** What was stored is read back. *)
Lemma mem_range_store_same (dst src : list Z) (off : Z) :
  0 <= off -> off + Z.of_nat (List.length src) <= Z.of_nat (List.length dst) ->
  mem_range (mem_store dst off src) off (Z.of_nat (List.length src)) = Some src.
Proof.
  intros Hoff Hin. apply mem_range_spec.
  rewrite mem_store_length by assumption. repeat split; try lia.
  intros i Hi. symmetry. apply mem_store_lookup_in; lia.
Qed.

(** A store leaves the ranges before it as they were. *)
Lemma mem_range_store_before (dst src : list Z) (off o n : Z) (x : list Z) :
  0 <= off -> off + Z.of_nat (List.length src) <= Z.of_nat (List.length dst) ->
  o + n <= off ->
  mem_range dst o n = Some x -> mem_range (mem_store dst off src) o n = Some x.
Proof.
  intros Hoff Hin Hbefore Hx. apply mem_range_spec in Hx as (Ho & Hn & Hobj & Hlen & Hlook).
  apply mem_range_spec. rewrite mem_store_length by assumption.
  repeat split; try lia.
  intros i Hi. rewrite (Hlook i Hi). symmetry. apply mem_store_frame; lia.
Qed.

Lemma mem_range_agree (obj obj' : list Z) (o n limit : Z) (x : list Z) :
  List.length obj' = List.length obj -> o + n <= limit ->
  (forall i : nat, Z.of_nat i < limit -> obj' !! i = obj !! i) ->
  mem_range obj o n = Some x -> mem_range obj' o n = Some x.
Proof.
  intros Hlen Hlimit Hagree Hx.
  apply mem_range_spec in Hx as (Ho & Hn & Hobj & Hxlen & Hlook).
  apply mem_range_spec. rewrite Hlen. repeat split; try lia.
  intros i Hi. rewrite (Hlook i Hi). symmetry. apply Hagree. lia.
Qed.

Lemma mem_range_take (obj : list Z) (o n m : Z) (x : list Z) :
  0 <= m <= n -> mem_range obj o n = Some x ->
  mem_range obj o m = Some (take (Z.to_nat m) x).
Proof.
  intros Hm Hx. apply mem_range_spec in Hx as (Ho & Hn & Hobj & Hlen & Hlook).
  apply mem_range_spec. repeat split; try lia.
  - rewrite length_take. lia.
  - intros i Hi. rewrite lookup_take_lt by lia. apply Hlook. lia.
Qed.

Lemma mem_range_drop (obj : list Z) (m : Z) :
  0 <= m <= Z.of_nat (List.length obj) ->
  mem_range obj m (Z.of_nat (List.length obj) - m) = Some (drop (Z.to_nat m) obj).
Proof.
  intros Hm. apply mem_range_spec. repeat split; try lia.
  - rewrite length_drop. lia.
  - intros i Hi. apply lookup_drop.
Qed.

(** Two adjacent ranges make one. *)
Lemma mem_range_join (obj : list Z) (o a b : Z) (x y : list Z) :
  mem_range obj o a = Some x -> mem_range obj (o + a) b = Some y ->
  mem_range obj o (a + b) = Some (x ++ y).
Proof.
  intros Hx Hy.
  apply mem_range_spec in Hx as (Ho & Ha & Hobj & Hxlen & Hxlook).
  apply mem_range_spec in Hy as (_ & Hb & Hobj' & Hylen & Hylook).
  apply mem_range_spec. repeat split; try lia.
  - rewrite length_app. lia.
  - intros i Hi. destruct (Nat.lt_ge_cases i (Z.to_nat a)) as [Hia|Hia].
    + rewrite lookup_app_l by lia. now apply Hxlook.
    + rewrite lookup_app_r by lia. rewrite Hxlen, Hylook by lia. f_equal. lia.
Qed.

(** ** The token of a key in the first three forms *)

Lemma key_prefix_spec last key :
  0 <= key_prefix last key <= 255
  /\ key_prefix last key <= strlen last /\ key_prefix last key <= strlen key
  /\ take (Z.to_nat (key_prefix last key)) last = take (Z.to_nat (key_prefix last key)) key.
Proof.
  unfold key_prefix, __prefix, after_key. simpl.
  set (len := Z_MIN (strlen last) (strlen key)).
  assert (Hlen : 0 <= len /\ len <= strlen last /\ len <= strlen key).
  { subst len. unfold Z_MIN, strlen.
    destruct (Z.ltb_spec (Z.of_nat (List.length last)) (Z.of_nat (List.length key))); lia. }
  unfold strlen in Hlen.
  destruct (prefix_loop_spec last key len (Z.to_nat len) 0) as (Hp & Htake & _);
    try lia; [reflexivity|].
  set (q := __prefix_loop last key len (Z.to_nat len) 0) in *.
  unfold Z_MIN, strlen. destruct (Z.ltb_spec 255 q).
  - repeat split; try lia.
    apply (f_equal (take (Z.to_nat 255))) in Htake.
    rewrite !take_take in Htake.
    now replace (Z.to_nat 255 `min` Z.to_nat q)%nat with (Z.to_nat 255) in Htake by lia.
  - repeat split; try lia. exact Htake.
Qed.

Lemma prefix_of_state self last key keylen :
  last_key self = Some last -> last_keylen self = strlen last ->
  __prefix self key keylen = __prefix (after_key last) key keylen.
Proof. intros H1 H2. unfold __prefix, after_key. simpl. now rewrite H1, H2. Qed.

Lemma suffix_of_state self last key prefix keylen :
  last_key self = Some last -> last_keylen self = strlen last ->
  __suffix self key prefix keylen = __suffix (after_key last) key prefix keylen.
Proof. intros H1 H2. unfold __suffix, after_key. simpl. now rewrite H1, H2. Qed.

Lemma appended_room w w' (bytes : list Z) n :
  appended w w' bytes -> has_room w (Z.of_nat (List.length bytes) + n) ->
  wf_writer w' /\ has_room w' n.
Proof.
  intros Happ Hroom. split; [apply Happ|]. exact (has_room_appended _ _ _ _ Happ Hroom).
Qed.

(** The full form: the header of the length and the bytes of the key. *)
Lemma encode_full_field_name_appended w key :
  strlen key <= 65819 -> wf_writer w -> has_room w (strlen key + 3) ->
  exists w', __encode_full_field_name w key (strlen key) = Done (0, w')
             /\ appended w w' (length_header 0x80 (strlen key) ++ key).
Proof.
  intros Hlen Hwf Hroom. unfold __encode_full_field_name.
  pose proof (length_header_length 0x80 (strlen key)) as Hl.
  destruct (write_length_appended w 0x80 (strlen key)) as (w1 & Hw1 & Happ1);
    [unfold field_head; tauto|unfold strlen in *; lia|assumption
    |unfold has_room, strlen in *; lia|].
  rewrite Hw1. cbn [snd].
  destruct (appended_room _ _ _ (strlen key) Happ1) as [Hwf1 Hroom1];
    [unfold has_room, strlen in *; lia|].
  destruct (write_bytes_appended w1 key Hwf1 Hroom1) as (w2 & Hw2 & Happ2).
  unfold z_bytes_writer_write, strlen. rewrite Hw2. simpl.
  eexists. split; [reflexivity|exact (appended_trans _ _ _ _ _ Happ1 Happ2)].
Qed.

(** The prefix form: the header of the length of the rest, the length of the
    prefix, and the rest of the key. *)
Lemma encode_prefix_appended w key prefix :
  strlen key <= 65819 -> 0 <= prefix <= 255 -> prefix <= strlen key ->
  wf_writer w -> has_room w (strlen key + 4) ->
  exists w', __encode_prefix w key (strlen key) prefix = Done (0, w')
             /\ appended w w' (length_header 0xc0 (strlen key - prefix)
                               ++ prefix :: drop (Z.to_nat prefix) key).
Proof.
  intros Hlen Hprefix Hle Hwf Hroom. unfold __encode_prefix.
  rewrite uint64_small by (unfold strlen in *; lia).
  pose proof (length_header_length 0xc0 (strlen key - prefix)) as Hl.
  destruct (write_length_appended w 0xc0 (strlen key - prefix)) as (w1 & Hw1 & Happ1);
    [unfold field_head; tauto|lia|assumption|unfold has_room, strlen in *; lia|].
  rewrite Hw1. cbn [snd].
  destruct (appended_room _ _ _ (1 + (strlen key - prefix)) Happ1) as [Hwf1 Hroom1];
    [unfold has_room, strlen in *; lia|].
  destruct (write_length_u8 w1 prefix Hwf1 ltac:(unfold has_room in *; lia))
    as (w2 & -> & Happ2).
  rewrite land_255_byte in Happ2 by lia.
  destruct (appended_room _ _ _ (strlen key - prefix) Happ2) as [Hwf2 Hroom2];
    [simpl; unfold has_room in *; lia|].
  pose proof (mem_range_drop key prefix ltac:(unfold strlen in *; lia)) as Hrange.
  destruct (write_range_appended w2 key prefix (strlen key - prefix) _ Hrange Hwf2 Hroom2)
    as (w3 & Hw3 & Happ3).
  unfold z_bytes_writer_write. rewrite Hw3. simpl.
  eexists. split; [reflexivity|].
  pose proof (appended_trans _ _ _ _ _ Happ1 (appended_trans _ _ _ _ _ Happ2 Happ3)) as H.
  exact H.
Qed.

Lemma field_token_length last seen key :
  Z.of_nat (List.length (field_token last seen key)) <= strlen key + 4.
Proof.
  unfold field_token.
  pose proof (length_header_length 0xa0 (index_of key seen)).
  pose proof (length_header_length 0x80 (strlen key)).
  pose proof (length_header_length 0xc0 (strlen key - key_prefix (default [] last) key)).
  destruct (decide _); [unfold strlen; lia|].
  destruct (takes_prefix_form last key).
  - rewrite length_app. simpl. rewrite length_drop. unfold strlen in *. lia.
  - rewrite length_app. unfold strlen in *. lia.
Qed.

(** One key through [yajbe_field_encode]: the token it appends and the state
    it leaves. *)
Lemma encode_key_token last seen self w key :
  table_of seen self ->
  last_key self = last -> last_keylen self = from_option strlen 0 last ->
  wf_writer w -> has_room w (strlen key + 4) ->
  strlen key <= 65819 -> Z.of_nat (List.length seen) <= 65820 ->
  (key ∉ seen -> Z.of_nat (List.length seen) < enc_entries_size self) ->
  (key ∉ seen -> takes_suffix_form last key = false) ->
  exists self' w',
    yajbe_field_encode self w key (strlen key) = Done (0, self', w')
    /\ table_of (if decide (key ∈ seen) then seen else seen ++ [key]) self'
    /\ last_key self' = Some key /\ last_keylen self' = strlen key
    /\ enc_entries_size self' = enc_entries_size self
    /\ appended w w' (field_token last seen key).
Proof.
  intros Hinv Hlast Hlastlen Hwf Hroom Hlen Hseen Hcap Havoid.
  unfold field_token. destruct (decide (key ∈ seen)) as [Hin|Hnew].
  - destruct (proj1 (list_elem_of_lookup _ _) Hin) as (i & Hi).
    rewrite (encode_seen_key seen self i key w Hinv Hi).
    pose proof (lookup_lt_Some _ _ _ Hi) as Hlt.
    rewrite (index_of_lookup _ _ _ (table_of_nodup _ _ Hinv) Hi).
    unfold __encode_indexed_field.
    pose proof (length_header_length 0xa0 (Z.of_nat i)) as Hl.
    destruct (write_length_appended w 0xa0 (Z.of_nat i)) as (w1 & Hw1 & Happ1);
      [unfold field_head; tauto|lia|assumption|unfold has_room, strlen in *; lia|].
    rewrite Hw1. cbn [fst snd].
    eexists _, _. split; [reflexivity|].
    split; [now apply table_of_set_last_key|]. simpl. tauto.
  - specialize (Hcap Hnew). specialize (Havoid Hnew).
    unfold yajbe_field_encode, yajbe_field_hencode. fold (hash_of key).
    rewrite (hget_absent seen self Hinv key Hnew). simpl.
    destruct (hadd_absent seen self key Hinv Hnew Hcap) as (self1 & Hadd & Hinv1 & Hsz1).
    assert (Hdone : forall w' token,
              appended w w' token ->
              exists self' w'',
                ('(_, self0) ← yajbe_field_encoder_hadd self (hash_of key) key (strlen key);
                 Done (0, set_last_key self0 key (strlen key), w'))
                = Done (0, self', w'')
                /\ table_of (seen ++ [key]) self'
                /\ last_key self' = Some key /\ last_keylen self' = strlen key
                /\ enc_entries_size self' = enc_entries_size self
                /\ appended w w'' token).
    { intros w' token Happ. rewrite Hadd. simpl.
      eexists _, _. split; [reflexivity|].
      split; [now apply table_of_set_last_key|]. simpl. tauto. }
    destruct last as [lk|]; simpl in Hlastlen, Havoid |- *.
    + rewrite Hlast, Hlastlen. rewrite bool_decide_true by discriminate. simpl.
      rewrite (prefix_of_state self lk key _ Hlast Hlastlen).
      fold (key_prefix lk key).
      rewrite (suffix_of_state self lk key _ _ Hlast Hlastlen).
      fold (key_suffix lk key).
      destruct (key_prefix_spec lk key) as (Hp & Hpl & Hpk & _).
      destruct (Z.ltb_spec 4 (strlen lk)); simpl in Havoid |- *.
      * rewrite Havoid. simpl.
        destruct (Z.ltb_spec 2 (key_prefix lk key)).
        -- destruct (encode_prefix_appended w key (key_prefix lk key) Hlen Hp Hpk Hwf Hroom)
             as (w' & -> & Happ).
           simpl. now apply Hdone.
        -- destruct (encode_full_field_name_appended w key Hlen Hwf
                       ltac:(unfold has_room in *; lia)) as (w' & -> & Happ).
           simpl. now apply Hdone.
      * destruct (encode_full_field_name_appended w key Hlen Hwf
                    ltac:(unfold has_room in *; lia)) as (w' & -> & Happ).
        simpl. now apply Hdone.
    + rewrite Hlast. rewrite bool_decide_false by (intros H; now apply H). simpl.
      destruct (encode_full_field_name_appended w key Hlen Hwf
                  ltac:(unfold has_room in *; lia)) as (w' & -> & Happ).
      simpl. now apply Hdone.
Qed.

(** ** The field decoder on the tokens of the first three forms *)

Lemma entry_holds_frame self self' field key :
  entry_holds self field key ->
  List.length (dec_buffer self') = List.length (dec_buffer self) ->
  dec_buf_off self <= dec_buf_off self' ->
  (forall i : nat, Z.of_nat i < dec_buf_off self -> dec_buffer self' !! i = dec_buffer self !! i) ->
  entry_holds self' field key.
Proof.
  intros (o & Hname & Hlen & Ho & Hoff & Hrange) Hbuf Hgrow Hagree.
  exists o. repeat split; try assumption; try lia.
  exact (mem_range_agree _ _ _ _ _ _ Hbuf Hoff Hagree Hrange).
Qed.

Lemma entry_holds_bytes self field key :
  entry_holds self field key ->
  (name ← f_name field; mem_range (dec_buffer self) name (f_length field)) = Some key.
Proof. intros (o & -> & -> & _ & _ & Hrange). exact Hrange. Qed.

(** The state after a new name has been stored at the end of the used part
    of the arena. *)
Lemma decoder_holds_new seen last d d' key :
  decoder_holds seen last d ->
  Z.of_nat (List.length seen) < dec_entries_size d ->
  dec_buf_off d + strlen key <= dec_buf_size d ->
  dec_entries d'
  = <[Z.to_nat (dec_entries_count d) :=
        Some {| f_name := Some (dec_buf_off d); f_length := strlen key |}]> (dec_entries d) ->
  dec_entries_size d' = dec_entries_size d ->
  dec_entries_count d' = dec_entries_count d + 1 ->
  dec_buf_size d' = dec_buf_size d ->
  dec_buf_off d' = dec_buf_off d + strlen key ->
  last_field d' = {| f_name := Some (dec_buf_off d); f_length := strlen key |} ->
  List.length (dec_buffer d') = List.length (dec_buffer d) ->
  (forall i : nat, Z.of_nat i < dec_buf_off d -> dec_buffer d' !! i = dec_buffer d !! i) ->
  mem_range (dec_buffer d') (dec_buf_off d) (strlen key) = Some key ->
  decoder_holds (seen ++ [key]) (Some key) d'
  /\ field_bytes d' (Some (EntryPtr (dec_entries_count d))) = Some key.
Proof.
  intros (Hcount & Hsize & Hbsize & Hoff & Hentries & Hlast) Hcap Hroom
         He Hs Hc Hbs Hbo Hl Hlen Hagree Hrange.
  assert (Hnew : entry_holds d' {| f_name := Some (dec_buf_off d); f_length := strlen key |} key).
  { exists (dec_buf_off d). simpl. repeat split; try lia; try assumption. }
  assert (Hslot : (Z.to_nat (dec_entries_count d) < List.length (dec_entries d))%nat) by lia.
  split.
  - split; [rewrite Hc, Hcount, length_app; simpl; lia|].
    split; [rewrite Hs, He, length_insert; exact Hsize|].
    split; [rewrite Hbs, Hlen; exact Hbsize|].
    split; [unfold strlen in *; lia|].
    split; [|simpl; rewrite Hl; exact Hnew].
    intros i k Hi. rewrite He.
    destruct (Nat.lt_ge_cases i (List.length seen)) as [Hlt|Hge].
    + rewrite lookup_app_l in Hi by assumption.
      destruct (Hentries i k Hi) as (field & Hfield & Hholds).
      exists field. rewrite list_lookup_insert_ne by lia. split; [exact Hfield|].
      apply (entry_holds_frame d d' field k Hholds Hlen); [unfold strlen in *; lia|exact Hagree].
    + rewrite lookup_app_r in Hi by assumption.
      destruct (i - List.length seen)%nat as [|j] eqn:Hj; simpl in Hi; [|now destruct j].
      injection Hi as <-. replace i with (Z.to_nat (dec_entries_count d)) by lia.
      eexists. split; [now apply list_lookup_insert_eq|exact Hnew].
  - unfold field_bytes. rewrite He, list_lookup_insert_eq by exact Hslot. simpl.
    exact Hrange.
Qed.

Lemma decode_indexed_token seen last d r key (i : nat) rest :
  decoder_holds seen last d -> seen !! i = Some key -> Z.of_nat i <= 65819 ->
  wf_reader r -> reader_rest r = length_header 0xa0 (Z.of_nat i) ++ rest ->
  exists d' r',
    yajbe_field_decode d r = Done (0, d', r', Some (EntryPtr (Z.of_nat i)))
    /\ field_bytes d' (Some (EntryPtr (Z.of_nat i))) = Some key
    /\ decoder_holds seen (Some key) d'
    /\ wf_reader r' /\ reader_rest r' = rest
    /\ dec_entries_size d' = dec_entries_size d /\ dec_buf_size d' = dec_buf_size d
    /\ dec_buf_off d' = dec_buf_off d.
Proof.
  intros Hholds Hi Hmax Hwf Hrest.
  pose proof Hholds as (Hcount & Hsize & Hbsize & Hoff & Hentries & Hlast).
  destruct (Hentries i key Hi) as (field & Hfield & Hkey).
  destruct (read_length_header 0xa0 (Z.of_nat i) ltac:(unfold field_head; tauto) ltac:(lia)
              r rest Hwf Hrest) as (r0 & r1 & head & Hread & Hfam & Hlen & Hwf1 & Hrest1).
  change (Z.shiftr 160 5) with 5 in Hfam.
  unfold yajbe_field_decode. rewrite Hread. simpl. rewrite Hfam. simpl.
  unfold __read_indexed_field_name. rewrite Hlen. simpl.
  rewrite Nat2Z.id, Hfield. simpl.
  eexists _, _. split; [reflexivity|].
  split.
  { unfold field_bytes, __field_decoder_set_last_key. simpl. rewrite ?Nat2Z.id, Hfield. simpl.
    exact (entry_holds_bytes _ _ _ Hkey). }
  split; [|simpl; tauto].
  unfold __field_decoder_set_last_key.
  split; [exact Hcount|]. split; [exact Hsize|]. split; [exact Hbsize|].
  split; [exact Hoff|]. split.
  - intros j k Hj. destruct (Hentries j k Hj) as (f & Hf & Hk). exists f. split; [exact Hf|].
    destruct Hk as (o & ?). exists o. simpl. assumption.
  - simpl. destruct Hkey as (o & H1 & H2 & H3). exists o. simpl. tauto.
Qed.

Lemma next_entry_new seen last d length :
  decoder_holds seen last d ->
  Z.of_nat (List.length seen) < dec_entries_size d ->
  dec_buf_off d + length <= dec_buf_size d ->
  __field_next_entry d length
  = Done (EntryPtr (dec_entries_count d),
          {| dec_entries := <[Z.to_nat (dec_entries_count d) :=
                                Some {| f_name := Some (dec_buf_off d); f_length := length |}]>
                              (dec_entries d);
             dec_entries_size := dec_entries_size d;
             dec_entries_count := dec_entries_count d + 1;
             dec_buffer := dec_buffer d;
             dec_buf_size := dec_buf_size d;
             dec_buf_off := dec_buf_off d + length;
             last_field := last_field d |}).
Proof.
  intros (Hcount & Hsize & _) Hcap Hroom. unfold __field_next_entry, slot_in_array.
  destruct (Z.ltb_spec (dec_buf_size d) (dec_buf_off d + length)); [lia|].
  destruct (Z.leb_spec 0 (dec_entries_count d)); [|lia].
  destruct (Z.ltb_spec (dec_entries_count d) (Z.of_nat (List.length (dec_entries d)))); [|lia].
  reflexivity.
Qed.

Lemma decode_full_token seen last d r key rest :
  decoder_holds seen last d -> strlen key <= 65819 ->
  Z.of_nat (List.length seen) < dec_entries_size d ->
  dec_buf_off d + strlen key <= dec_buf_size d ->
  wf_reader r -> reader_rest r = (length_header 0x80 (strlen key) ++ key) ++ rest ->
  exists d' r',
    yajbe_field_decode d r = Done (0, d', r', Some (EntryPtr (dec_entries_count d)))
    /\ field_bytes d' (Some (EntryPtr (dec_entries_count d))) = Some key
    /\ decoder_holds (seen ++ [key]) (Some key) d'
    /\ wf_reader r' /\ reader_rest r' = rest
    /\ dec_entries_size d' = dec_entries_size d /\ dec_buf_size d' = dec_buf_size d
    /\ dec_buf_off d' = dec_buf_off d + strlen key.
Proof.
  intros Hholds Hmax Hcap Hroom Hwf Hrest.
  pose proof Hholds as (Hcount & Hsize & Hbsize & Hoff & Hentries & Hlast).
  rewrite <- app_assoc in Hrest.
  destruct (read_length_header 0x80 (strlen key) ltac:(unfold field_head; tauto)
              ltac:(unfold strlen in *; lia) r _ Hwf Hrest)
    as (r0 & r1 & head & Hread & Hfam & Hlen & Hwf1 & Hrest1).
  change (Z.shiftr 128 5) with 4 in Hfam.
  destruct (read_bytes_next r1 key rest Hwf1 Hrest1) as (Hdata & Hwf2 & Hrest2).
  fold (strlen key) in Hdata, Hwf2, Hrest2.
  unfold yajbe_field_decode. rewrite Hread. simpl. rewrite Hfam. simpl.
  unfold __read_full_field_name.
  destruct (Z.eqb_spec (dec_entries_count d) (dec_entries_size d)); [lia|].
  rewrite Hlen. simpl.
  rewrite (next_entry_new seen last d (strlen key) Hholds Hcap Hroom). simpl.
  rewrite list_lookup_insert_eq by lia. simpl.
  unfold read_into_arena, z_bytes_reader_read. rewrite Hdata. simpl.
  eexists _, _. split; [reflexivity|].
  assert (Hin : dec_buf_off d + Z.of_nat (List.length key)
                <= Z.of_nat (List.length (dec_buffer d))) by (unfold strlen in *; lia).
  destruct (decoder_holds_new seen last d
              (__field_decoder_set_last_key
                 (set_arena
                    {| dec_entries := <[Z.to_nat (dec_entries_count d) :=
                                          Some {| f_name := Some (dec_buf_off d);
                                                  f_length := strlen key |}]>
                                        (dec_entries d);
                       dec_entries_size := dec_entries_size d;
                       dec_entries_count := dec_entries_count d + 1;
                       dec_buffer := dec_buffer d;
                       dec_buf_size := dec_buf_size d;
                       dec_buf_off := dec_buf_off d + strlen key;
                       last_field := last_field d |}
                    (mem_store (dec_buffer d) (dec_buf_off d) key))
                 {| f_name := Some (dec_buf_off d); f_length := strlen key |})
              key Hholds Hcap Hroom) as (Hnew & Hbytes);
    try reflexivity.
  - simpl. apply mem_store_length; lia.
  - intros i Hi. simpl. apply mem_store_frame; lia.
  - simpl. apply mem_range_store_same; lia.
  - split; [exact Hbytes|]. split; [exact Hnew|]. simpl. tauto.
Qed.

Lemma decode_prefix_token seen lk d r key prefix rest :
  decoder_holds seen (Some lk) d -> strlen key <= 65819 ->
  0 <= prefix <= 255 -> prefix <= strlen lk -> prefix <= strlen key ->
  take (Z.to_nat prefix) lk = take (Z.to_nat prefix) key ->
  Z.of_nat (List.length seen) < dec_entries_size d ->
  dec_buf_off d + strlen key <= dec_buf_size d ->
  wf_reader r ->
  reader_rest r
  = (length_header 0xc0 (strlen key - prefix) ++ prefix :: drop (Z.to_nat prefix) key) ++ rest ->
  exists d' r',
    yajbe_field_decode d r = Done (0, d', r', Some (EntryPtr (dec_entries_count d)))
    /\ field_bytes d' (Some (EntryPtr (dec_entries_count d))) = Some key
    /\ decoder_holds (seen ++ [key]) (Some key) d'
    /\ wf_reader r' /\ reader_rest r' = rest
    /\ dec_entries_size d' = dec_entries_size d /\ dec_buf_size d' = dec_buf_size d
    /\ dec_buf_off d' = dec_buf_off d + strlen key.
Proof.
  intros Hholds Hmax Hp Hpl Hpk Htake Hcap Hroom Hwf Hrest.
  pose proof Hholds as (Hcount & Hsize & Hbsize & Hoff & Hentries & Hlast).
  simpl in Hlast. destruct Hlast as (o & Hlname & Hllen & Ho & Hoo & Hlrange).
  rewrite <- app_assoc in Hrest.
  destruct (read_length_header 0xc0 (strlen key - prefix) ltac:(unfold field_head; tauto)
              ltac:(lia) r _ Hwf Hrest)
    as (r0 & r1 & head & Hread & Hfam & Hlen & Hwf1 & Hrest1).
  change (Z.shiftr 192 5) with 6 in Hfam.
  simpl in Hrest1.
  destruct (read_byte_next r1 prefix _ Hwf1 ltac:(lia) Hrest1) as (Hbyte & Hwf2 & Hrest2).
  destruct (read_bytes_next _ (drop (Z.to_nat prefix) key) rest Hwf2 Hrest2)
    as (Hdata & Hwf3 & Hrest3).
  assert (Hdrop : Z.of_nat (List.length (drop (Z.to_nat prefix) key)) = strlen key - prefix)
    by (rewrite length_drop; unfold strlen in *; lia).
  rewrite Hdrop in Hdata, Hwf3, Hrest3.
  unfold yajbe_field_decode. rewrite Hread. simpl. rewrite Hfam. simpl.
  unfold __read_prefix.
  destruct (Z.eqb_spec (dec_entries_count d) (dec_entries_size d)); [lia|].
  rewrite Hlen. simpl. unfold z_bytes_reader_read_u8. rewrite Hbyte. simpl.
  replace (prefix + (strlen key - prefix)) with (strlen key) by lia.
  rewrite (next_entry_new seen (Some lk) d (strlen key) Hholds Hcap Hroom). simpl.
  rewrite list_lookup_insert_eq by lia. simpl.
  unfold arena_memcpy. simpl. rewrite Hlname. simpl.
  rewrite (mem_range_take (dec_buffer d) o (strlen lk) prefix lk ltac:(lia) Hlrange). simpl.
  destruct (Z.leb_spec (o + prefix) (dec_buf_off d)) as [_|]; [|lia]. simpl.
  unfold read_into_arena, z_bytes_reader_read. rewrite Hdata. simpl.
  eexists _, _. split; [reflexivity|].
  set (B1 := mem_store (dec_buffer d) (dec_buf_off d) (take (Z.to_nat prefix) lk)).
  set (B2 := mem_store B1 (dec_buf_off d + prefix) (drop (Z.to_nat prefix) key)).
  assert (Hl1 : Z.of_nat (List.length (take (Z.to_nat prefix) lk)) = prefix)
    by (rewrite length_take; unfold strlen in *; lia).
  assert (HB1 : List.length B1 = List.length (dec_buffer d))
    by (apply mem_store_length; unfold strlen in *; lia).
  assert (HB2 : List.length B2 = List.length (dec_buffer d)).
  { subst B2. rewrite mem_store_length; [exact HB1|lia|]. rewrite HB1, Hdrop. lia. }
  destruct (decoder_holds_new seen (Some lk) d
              (__field_decoder_set_last_key
                 (set_arena
                    (set_arena
                       {| dec_entries := <[Z.to_nat (dec_entries_count d) :=
                                             Some {| f_name := Some (dec_buf_off d);
                                                     f_length := strlen key |}]>
                                           (dec_entries d);
                          dec_entries_size := dec_entries_size d;
                          dec_entries_count := dec_entries_count d + 1;
                          dec_buffer := dec_buffer d;
                          dec_buf_size := dec_buf_size d;
                          dec_buf_off := dec_buf_off d + strlen key;
                          last_field := last_field d |}
                       B1)
                    B2)
                 {| f_name := Some (dec_buf_off d); f_length := strlen key |})
              key Hholds Hcap Hroom) as (Hnew & Hbytes);
    try reflexivity.
  - simpl. exact HB2.
  - intros i Hi. simpl. subst B2 B1.
    rewrite mem_store_frame by (rewrite ?HB1, ?Hdrop; lia).
    apply mem_store_frame; lia.
  - simpl. rewrite <- (take_drop (Z.to_nat prefix) key) at 2. rewrite <- Htake.
    replace (strlen key) with (prefix + (strlen key - prefix)) by lia.
    apply mem_range_join.
    + subst B2. apply mem_range_store_before with (n := prefix);
        [lia|rewrite HB1, Hdrop; lia|lia|].
      pose proof (mem_range_store_same (dec_buffer d) (take (Z.to_nat prefix) lk)
                    (dec_buf_off d) ltac:(lia) ltac:(lia)) as Hs1.
      rewrite Hl1 in Hs1. exact Hs1.
    + pose proof (mem_range_store_same B1 (drop (Z.to_nat prefix) key)
                    (dec_buf_off d + prefix) ltac:(lia) ltac:(rewrite HB1, Hdrop; lia)) as Hs2.
      rewrite Hdrop in Hs2. exact Hs2.
  - split; [exact Hbytes|]. split; [exact Hnew|]. simpl. tauto.
Qed.

Lemma index_of_hit key seen :
  key ∈ seen -> exists i : nat, index_of key seen = Z.of_nat i /\ seen !! i = Some key.
Proof.
  induction seen as [|k seen IH]; intros Hin; [now apply elem_of_nil in Hin|].
  simpl. destruct (decide (k = key)) as [->|Hne]; [now exists 0%nat|].
  apply elem_of_cons in Hin as [->|Hin]; [congruence|].
  destruct (IH Hin) as (i & -> & Hi). exists (S i).
  destruct (Z.ltb_spec (Z.of_nat i) 0); [lia|]. split; [lia|exact Hi].
Qed.

Lemma takes_prefix_form_elim last key :
  takes_prefix_form last key = true ->
  exists lk, last = Some lk /\ 2 < key_prefix lk key.
Proof.
  destruct last as [lk|]; [|discriminate]. simpl.
  intros H. apply andb_true_iff in H as [_ H]. apply Z.ltb_lt in H. now exists lk.
Qed.

(** One token of the first three forms through [yajbe_field_decode]. *)
Lemma decode_key_token last seen d r key rest :
  decoder_holds seen last d -> wf_reader r ->
  reader_rest r = field_token last seen key ++ rest ->
  strlen key <= 65819 -> Z.of_nat (List.length seen) <= 65820 ->
  (key ∉ seen -> Z.of_nat (List.length seen) < dec_entries_size d
                 /\ dec_buf_off d + strlen key <= dec_buf_size d) ->
  exists d' r' field,
    yajbe_field_decode d r = Done (0, d', r', Some field)
    /\ field_bytes d' (Some field) = Some key
    /\ decoder_holds (if decide (key ∈ seen) then seen else seen ++ [key]) (Some key) d'
    /\ wf_reader r' /\ reader_rest r' = rest
    /\ dec_entries_size d' = dec_entries_size d /\ dec_buf_size d' = dec_buf_size d
    /\ dec_buf_off d' <= dec_buf_off d + strlen key.
Proof.
  intros Hholds Hwf Hrest Hmax Hseen Hcap. unfold field_token in Hrest.
  destruct (decide (key ∈ seen)) as [Hin|Hnew].
  - destruct (index_of_hit key seen Hin) as (i & Hidx & Hi). rewrite Hidx in Hrest.
    pose proof (lookup_lt_Some _ _ _ Hi) as Hlt.
    destruct (decode_indexed_token seen last d r key i rest Hholds Hi ltac:(lia) Hwf Hrest)
      as (d' & r' & H1 & H2 & H3 & H4 & H5 & H6 & H7 & H8).
    exists d', r', (EntryPtr (Z.of_nat i)).
    split; [exact H1|]. split; [exact H2|]. split; [exact H3|]. split; [exact H4|].
    split; [exact H5|]. split; [exact H6|]. split; [exact H7|]. unfold strlen. lia.
  - destruct (Hcap Hnew) as [Hsize Hroom].
    destruct (takes_prefix_form last key) eqn:Hform.
    + destruct (takes_prefix_form_elim last key Hform) as (lk & -> & Hprefix).
      simpl in Hrest.
      destruct (key_prefix_spec lk key) as (Hp & Hpl & Hpk & Htake).
      destruct (decode_prefix_token seen lk d r key (key_prefix lk key) rest
                  Hholds Hmax Hp Hpl Hpk Htake Hsize Hroom Hwf Hrest)
        as (d' & r' & H1 & H2 & H3 & H4 & H5 & H6 & H7 & H8).
      exists d', r', (EntryPtr (dec_entries_count d)).
      split; [exact H1|]. split; [exact H2|]. split; [exact H3|]. split; [exact H4|].
      split; [exact H5|]. split; [exact H6|]. split; [exact H7|]. lia.
    + destruct (decode_full_token seen last d r key rest Hholds Hmax Hsize Hroom Hwf Hrest)
        as (d' & r' & H1 & H2 & H3 & H4 & H5 & H6 & H7 & H8).
      exists d', r', (EntryPtr (dec_entries_count d)).
      split; [exact H1|]. split; [exact H2|]. split; [exact H3|]. split; [exact H4|].
      split; [exact H5|]. split; [exact H6|]. split; [exact H7|]. lia.
Qed.

(** ** Sequences of keys in the first three forms *)

Lemma keys_room_nonneg keys : 0 <= keys_room keys.
Proof. induction keys as [|key keys IH]; simpl; unfold strlen; lia. Qed.

Lemma names_room_nonneg keys : 0 <= names_room keys.
Proof. induction keys as [|key keys IH]; simpl; unfold strlen; lia. Qed.

Lemma appended_nothing w : wf_writer w -> appended w w [].
Proof.
  intros Hwf. split; [exact Hwf|]. split; [reflexivity|]. simpl. split; [lia|].
  now rewrite app_nil_r.
Qed.

Lemma encode_run keys :
  forall last seen self w,
    table_of seen self ->
    last_key self = last -> last_keylen self = from_option strlen 0 last ->
    wf_writer w -> has_room w (keys_room keys) ->
    Forall (fun key => strlen key <= 65819) keys ->
    Z.of_nat (List.length (first_seen_from seen keys)) <= 65820 ->
    Z.of_nat (List.length (first_seen_from seen keys)) <= enc_entries_size self ->
    avoids_suffix_form last seen keys = true ->
    exists self' w',
      encode_loop keys self w = Done (map (fun _ => 0) keys, self', w')
      /\ appended w w' (field_stream last seen keys).
Proof.
  induction keys as [|key keys IH];
    intros last seen self w Hinv Hlast Hlastlen Hwf Hroom Hlens Hmax Hcap Havoid.
  - exists self, w. split; [reflexivity|]. now apply appended_nothing.
  - apply Forall_cons in Hlens as [Hlen Hlens]. simpl in Hroom, Hmax, Hcap, Havoid |- *.
    pose proof (keys_room_nonneg keys) as Hnn.
    pose proof (field_token_length last seen key) as Htok.
    assert (Hmax' : Z.of_nat (List.length seen) <= 65820).
    { pose proof (first_seen_from_length seen keys).
      pose proof (first_seen_from_length (seen ++ [key]) keys) as H'.
      rewrite length_app in H'. simpl in H'. destruct (decide (key ∈ seen)); lia. }
    destruct (encode_key_token last seen self w key Hinv Hlast Hlastlen Hwf
                ltac:(unfold has_room in *; lia) Hlen Hmax')
      as (self1 & w1 & -> & Hinv1 & Hlast1 & Hlastlen1 & Hsz1 & Happ1).
    { intros Hnew. rewrite decide_False in Hcap by assumption.
      pose proof (first_seen_from_length (seen ++ [key]) keys) as H'.
      rewrite length_app in H'. simpl in H'. lia. }
    { intros Hnew. rewrite decide_False in Havoid by assumption.
      apply andb_true_iff in Havoid as [Havoid _]. now apply negb_true_iff. }
    simpl.
    destruct (appended_room _ _ _ (keys_room keys) Happ1) as [Hwf1 Hroom1];
      [unfold has_room in *; lia|].
    destruct (IH (Some key) (if decide (key ∈ seen) then seen else seen ++ [key]) self1 w1)
      as (self2 & w2 & -> & Happ2); try assumption.
    + destruct (decide (key ∈ seen)); assumption.
    + rewrite Hsz1. destruct (decide (key ∈ seen)); assumption.
    + destruct (decide (key ∈ seen)); [assumption|].
      now apply andb_true_iff in Havoid as [_ Havoid].
    + simpl. exists self2, w2. split; [reflexivity|].
      exact (appended_trans _ _ _ _ _ Happ1 Happ2).
Qed.

Lemma decode_run keys :
  forall last seen d r rest,
    decoder_holds seen last d -> wf_reader r ->
    reader_rest r = field_stream last seen keys ++ rest ->
    Forall (fun key => strlen key <= 65819) keys ->
    Z.of_nat (List.length (first_seen_from seen keys)) <= 65820 ->
    Z.of_nat (List.length (first_seen_from seen keys)) <= dec_entries_size d ->
    dec_buf_off d + names_room keys <= dec_buf_size d ->
    decode_loop (List.length keys) d r = Done (map Some keys).
Proof.
  induction keys as [|key keys IH];
    intros last seen d r rest Hholds Hwf Hrest Hlens Hmax Hcap Hroom; [reflexivity|].
  apply Forall_cons in Hlens as [Hlen Hlens]. simpl in Hrest, Hmax, Hcap, Hroom |- *.
  pose proof (names_room_nonneg keys) as Hnn.
  assert (Hseen : Z.of_nat (List.length seen) <= 65820
                  /\ (key ∉ seen -> Z.of_nat (List.length seen) < dec_entries_size d)).
  { pose proof (first_seen_from_length seen keys).
    pose proof (first_seen_from_length (seen ++ [key]) keys) as H'.
    rewrite length_app in H'. simpl in H'.
    destruct (decide (key ∈ seen)); split; try lia; intros; try contradiction; lia. }
  rewrite <- app_assoc in Hrest.
  destruct (decode_key_token last seen d r key _ Hholds Hwf Hrest Hlen (proj1 Hseen))
    as (d1 & r1 & field & -> & Hbytes & Hholds1 & Hwf1 & Hrest1 & Hsz1 & Hbsz1 & Hoff1).
  { intros Hnew. split; [now apply Hseen|unfold strlen in *; lia]. }
  cbn [mbind outcome_bind]. rewrite Hbytes.
  rewrite (IH (Some key) _ d1 r1 rest Hholds1 Hwf1 Hrest1 Hlens); [reflexivity| | |].
  - destruct (decide (key ∈ seen)); assumption.
  - rewrite Hsz1. destruct (decide (key ∈ seen)); assumption.
  - rewrite Hbsz1. lia.
Qed.

Lemma decoder_holds_init entries_size buffer :
  0 <= entries_size ->
  decoder_holds [] None
    (yajbe_field_decoder_init_fixed entries_size buffer (Z.of_nat (List.length buffer))).
Proof.
  intros Hsize. unfold decoder_holds. simpl.
  split; [reflexivity|]. split; [rewrite length_replicate; lia|].
  split; [reflexivity|]. split; [lia|]. split; [|exact I].
  intros i key Hi. now rewrite lookup_nil in Hi.
Qed.

(** X16: a sequence of keys that the encoder writes in the full, the indexed
    and the prefix form goes through the field codec unchanged.  The
    conditions: at most 65820 distinct keys (the indices that
    [__write_length] accepts), each key of at most 65819 bytes; no key takes
    the prefix+suffix form, that is, a key that is not in the table yet
    shares with the key before it, when that one has more than four bytes,
    a suffix of at most two bytes as [__suffix] counts it; an encoder table
    of [2^k] slots, [k < 64], and a decoder table that hold the distinct
    keys; a stream buffer with room for every key and four bytes more for
    each; an arena with room for the bytes of all the keys.  Then the set-up
    of tests/test-field.c returns every key from [decode_fields] that went
    into [encode_fields], in the same order, and every call of
    [yajbe_field_encode] returns 0. *)
Theorem field_names_roundtrip
    (keys : list (list Z)) (k entries_size : Z) (buffer buf_fields : list Z) :
  0 <= k < 64 ->
  Z.of_nat (List.length (first_seen keys)) <= 2 ^ k ->
  Z.of_nat (List.length (first_seen keys)) <= entries_size ->
  Z.of_nat (List.length (first_seen keys)) <= 65820 ->
  Forall (fun key => strlen key <= 65819) keys ->
  avoids_suffix_form None [] keys = true ->
  keys_room keys <= Z.of_nat (List.length buffer) ->
  names_room keys <= Z.of_nat (List.length buf_fields) ->
  exists stream self w,
    encode_loop keys (yajbe_field_encoder_init_fixed (2 ^ k))
                (z_mem_bytes_writer_init_fixed buffer (Z.of_nat (List.length buffer)))
    = Done (map (fun _ => 0) keys, self, w)
    /\ encode_fields keys (2 ^ k) buffer = Done stream
    /\ decode_fields (List.length keys) entries_size buf_fields stream
       = Done (map Some keys).
Proof.
  intros Hk Hcap Hdec Hmax Hlens Havoid Hroom Hnames.
  destruct (encode_run keys None [] (yajbe_field_encoder_init_fixed (2 ^ k))
              (z_mem_bytes_writer_init_fixed buffer (Z.of_nat (List.length buffer)))
              (table_of_init k Hk) eq_refl eq_refl)
    as (self & w & Hencode & Happ).
  { unfold wf_writer. simpl. lia. }
  { unfold has_room. simpl. lia. }
  { exact Hlens. }
  { exact Hmax. }
  { exact Hcap. }
  { exact Havoid. }
  exists (writer_bytes w), self, w. split; [exact Hencode|].
  unfold encode_fields. rewrite Hencode. simpl. split; [reflexivity|].
  destruct Happ as (Hwfw & _ & _ & Hbytes). simpl in Hbytes.
  unfold decode_fields.
  assert (Hsize : 0 <= entries_size) by lia.
  apply (decode_run keys None [] _ _ []).
  - now apply decoder_holds_init.
  - unfold wf_reader. simpl. lia.
  - unfold reader_rest. simpl. rewrite Nat2Z.id, firstn_all, app_nil_r. exact Hbytes.
  - exact Hlens.
  - exact Hmax.
  - exact Hdec.
  - simpl. lia.
Qed.

Lemma field_names_roundtrip_witness :
  exists stream self w,
    encode_loop (map str ["foo"; "bar"; "test_foo"; "test_bar"; "foo"; "bar"]%string)
                (yajbe_field_encoder_init_fixed (2 ^ 4))
                (z_mem_bytes_writer_init_fixed (replicate 64 0)
                   (Z.of_nat (List.length (replicate 64 0))))
    = Done ([0; 0; 0; 0; 0; 0], self, w)
    /\ encode_fields (map str ["foo"; "bar"; "test_foo"; "test_bar"; "foo"; "bar"]%string)
                     (2 ^ 4) (replicate 64 0) = Done stream
    /\ decode_fields 6 16 (replicate 256 0) stream
       = Done (map Some (map str ["foo"; "bar"; "test_foo"; "test_bar"; "foo"; "bar"]%string)).
Proof.
  apply (field_names_roundtrip
           (map str ["foo"; "bar"; "test_foo"; "test_bar"; "foo"; "bar"]%string)
           4 16 (replicate 64 0) (replicate 256 0)).
  - lia.
  - vm_compute. discriminate.
  - vm_compute. discriminate.
  - vm_compute. discriminate.
  - repeat constructor; vm_compute; discriminate.
  - vm_compute. reflexivity.
  - vm_compute. discriminate.
  - vm_compute. discriminate.
Defined.

(** ** The arena of the field decoder under any input *)

Lemma arena_edit_refl a lo hi : arena_edit a a lo hi.
Proof. unfold arena_edit. tauto. Qed.

Lemma arena_edit_trans a b c lo hi :
  arena_edit a b lo hi -> arena_edit b c lo hi -> arena_edit a c lo hi.
Proof.
  intros (E1 & E2 & E3 & E4 & E5 & E7 & E8) (F1 & F2 & F3 & F4 & F5 & F7 & F8).
  unfold arena_edit. repeat split; try congruence.
  intros i Hi. rewrite F8, E8 by assumption. reflexivity.
Qed.

Lemma arena_edit_weaken a b lo hi lo' hi' :
  arena_edit a b lo hi -> lo' <= lo -> hi <= hi' -> arena_edit a b lo' hi'.
Proof.
  intros (E1 & E2 & E3 & E4 & E5 & E7 & E8) Hlo Hhi.
  unfold arena_edit. repeat split; try assumption.
  intros i Hi. apply E8. lia.
Qed.

Lemma arena_memcpy_edit self dst src n self' :
  arena_memcpy self dst src n = Done self' ->
  0 <= dst -> dst + n <= Z.of_nat (List.length (dec_buffer self)) ->
  arena_edit self self' dst (dst + n) /\ 0 <= n.
Proof.
  unfold arena_memcpy. intros H Hdst Hin.
  destruct src as [src|]; simpl in H; [|discriminate].
  destruct (mem_range _ _ _) as [data|] eqn:Hrange; simpl in H; [|discriminate].
  destruct (_ || _); [|discriminate]. injection H as <-.
  pose proof (mem_range_length _ _ _ _ Hrange) as Hlen.
  unfold arena_edit, set_arena. simpl.
  repeat split; try lia.
  - apply mem_store_length; lia.
  - intros i Hi. apply mem_store_frame; lia.
Qed.

Lemma read_into_arena_edit self reader at_ length :
  0 <= at_ -> 0 <= length -> at_ + length <= Z.of_nat (List.length (dec_buffer self)) ->
  arena_edit self (read_into_arena self reader at_ length).1 at_ (at_ + length).
Proof.
  intros Hat Hlen Hin. unfold read_into_arena.
  destruct (z_bytes_reader_read reader length) as [[code reader'] [data|]] eqn:Hread;
    [|apply arena_edit_refl].
  destruct (read_bytes_stores_at_most _ _ _ _ _ Hread) as [_ Hdata].
  unfold arena_edit, set_arena. simpl.
  repeat split; try lia.
  - apply mem_store_length; lia.
  - intros i Hi. apply mem_store_frame; lia.
Qed.

(** A new entry whose bytes are written afterwards. *)
Lemma decoder_wf_new_entry self self1 self' length p :
  decoder_wf self -> 0 <= length ->
  __field_next_entry self length = Done (EntryPtr p, self1) ->
  arena_edit self1 self' (dec_buf_off self) (dec_buf_off self + length) ->
  forall entry,
    decoder_wf (__field_decoder_set_last_key self' entry)
    /\ dec_entries_count (__field_decoder_set_last_key self' entry) = dec_entries_count self + 1
    /\ dec_buf_off self <= dec_buf_off (__field_decoder_set_last_key self' entry)
    /\ (forall i : nat, Z.of_nat i < dec_buf_off self ->
          dec_buffer (__field_decoder_set_last_key self' entry) !! i = dec_buffer self !! i)
    /\ (forall (i : nat) field,
          dec_entries self !! i = Some (Some field) ->
          dec_entries (__field_decoder_set_last_key self' entry) !! i = Some (Some field))
    /\ (forall (i : nat) field,
          dec_entries_count self <= Z.of_nat i ->
          dec_entries (__field_decoder_set_last_key self' entry) !! i = Some (Some field) ->
          Z.of_nat i = dec_entries_count self
          /\ f_name field = Some (dec_buf_off self)
          /\ dec_buf_off (__field_decoder_set_last_key self' entry)
             = dec_buf_off self + f_length field).
Proof.
  intros (Happ & Hbsize & Hoff & Hnames) Hlen Hnext
         (E1 & E2 & E3 & E4 & E5 & E7 & E8) entry.
  pose proof (appended_entries_next _ _ _ _ Happ Hnext) as Happ1.
  unfold __field_next_entry in Hnext.
  destruct (Z.ltb_spec (dec_buf_size self) (dec_buf_off self + length)); [discriminate|].
  destruct (slot_in_array _ _) eqn:Hslot; [|discriminate].
  injection Hnext as <- <-. simpl in *.
  unfold slot_in_array in Hslot. apply andb_true_iff in Hslot as [H0 H1].
  apply Z.leb_le in H0. apply Z.ltb_lt in H1.
  assert (Hold : forall (i : nat) field,
            dec_entries self !! i = Some (Some field) ->
            i <> Z.to_nat (dec_entries_count self)).
  { intros i field Hi ->. destruct Happ as [_ Hslots].
    destruct (Hslots (Z.to_nat (dec_entries_count self))) as [_ Hnone].
    rewrite Hi in Hnone. specialize (Hnone ltac:(lia)). discriminate. }
  split; [|split; [lia|split; [lia|split; [|split]]]].
  - split; [eapply appended_entries_same; [|exact Happ1]; simpl; now split|].
    simpl. split; [lia|]. split; [lia|].
    intros i field Hi. rewrite E1 in Hi.
    destruct (decide (i = Z.to_nat (dec_entries_count self))) as [->|Hne].
    + rewrite list_lookup_insert_eq in Hi by lia. injection Hi as <-.
      exists (dec_buf_off self). simpl. repeat split; lia.
    + rewrite list_lookup_insert_ne in Hi by congruence.
      destruct (Hnames i field Hi) as (o & Ho & ?). exists o. rewrite E5. simpl.
      repeat split; try tauto; lia.
  - intros i Hi. simpl. apply E8. lia.
  - intros i field Hi. simpl. rewrite E1.
    rewrite list_lookup_insert_ne; [exact Hi|]. intros <-. now apply (Hold _ _ Hi).
  - intros i field Hge Hi. simpl in Hi |- *. rewrite E1 in Hi.
    destruct (decide (i = Z.to_nat (dec_entries_count self))) as [->|Hne].
    + rewrite list_lookup_insert_eq in Hi by lia. injection Hi as <-.
      simpl. rewrite E5. split; [lia|]. split; reflexivity.
    + rewrite list_lookup_insert_ne in Hi by congruence.
      destruct Happ as [_ Hslots]. destruct (Hslots i) as [_ Hnone].
      rewrite Hi in Hnone. specialize (Hnone Hge). discriminate.
Qed.

(** The same for a call that leaves the entries and the arena alone. *)
Lemma decoder_wf_same self self' :
  decoder_wf self -> arena_edit self self' 0 0 ->
  decoder_wf self'
  /\ dec_entries_count self' = dec_entries_count self
  /\ dec_buf_off self <= dec_buf_off self'
  /\ (forall i : nat, Z.of_nat i < dec_buf_off self -> dec_buffer self' !! i = dec_buffer self !! i)
  /\ (forall (i : nat) field,
        dec_entries self !! i = Some (Some field) ->
        dec_entries self' !! i = Some (Some field))
  /\ (forall (i : nat) field,
        dec_entries_count self <= Z.of_nat i ->
        dec_entries self' !! i <> Some (Some field)).
Proof.
  intros (Happ & Hbsize & Hoff & Hnames) (E1 & E2 & E3 & E4 & E5 & E7 & E8).
  split; [|split; [exact E3|split; [lia|split; [|split]]]].
  - split; [eapply appended_entries_same; [|exact Happ]; now split|].
    rewrite E4, E5, E7, E1. repeat split; try lia. exact Hnames.
  - intros i Hi. apply E8. lia.
  - intros i field Hi. now rewrite E1.
  - intros i field Hge Hi. rewrite E1 in Hi.
    destruct Happ as [_ Hslots]. destruct (Hslots i) as [_ Hnone].
    rewrite Hi in Hnone. specialize (Hnone Hge). discriminate.
Qed.

Lemma next_entry_inv self length p self1 :
  __field_next_entry self length = Done (p, self1) ->
  (p = NullField /\ self1 = self)
  \/ (p = EntryPtr (dec_entries_count self)
      /\ dec_buf_off self + length <= dec_buf_size self
      /\ mjoin (dec_entries self1 !! Z.to_nat (dec_entries_count self))
         = Some {| f_name := Some (dec_buf_off self); f_length := length |}
      /\ dec_buffer self1 = dec_buffer self).
Proof.
  unfold __field_next_entry. intros H.
  destruct (Z.ltb_spec (dec_buf_size self) (dec_buf_off self + length)).
  { injection H as <- <-. now left. }
  destruct (slot_in_array _ _) eqn:Hslot; [|discriminate].
  injection H as <- <-. right. simpl.
  unfold slot_in_array in Hslot. apply andb_true_iff in Hslot as [Hlo Hhi].
  apply Z.leb_le in Hlo. apply Z.ltb_lt in Hhi.
  rewrite list_lookup_insert_eq by lia. tauto.
Qed.

Lemma extends_same self self' :
  decoder_wf self -> arena_edit self self' 0 0 -> extends_decoder self self'.
Proof.
  intros Hwf Hedit.
  destruct (decoder_wf_same self self' Hwf Hedit) as (H1 & H2 & H3 & H4 & H5 & H6).
  unfold extends_decoder. split; [exact H1|]. split; [lia|]. split; [exact H3|].
  split; [exact H4|]. split; [exact H5|].
  intros i field Hge Hi. now destruct (H6 i field Hge).
Qed.

Lemma extends_refl self : decoder_wf self -> extends_decoder self self.
Proof. intros Hwf. apply extends_same; [exact Hwf|apply arena_edit_refl]. Qed.

Lemma extends_new_entry self self1 self' length p entry :
  decoder_wf self -> 0 <= length ->
  __field_next_entry self length = Done (EntryPtr p, self1) ->
  arena_edit self1 self' (dec_buf_off self) (dec_buf_off self + length) ->
  extends_decoder self (__field_decoder_set_last_key self' entry).
Proof.
  intros Hwf Hlen Hnext Hedit.
  destruct (decoder_wf_new_entry self self1 self' length p Hwf Hlen Hnext Hedit entry)
    as (H1 & H2 & H3 & H4 & H5 & H6).
  unfold extends_decoder. split; [exact H1|]. split; [lia|]. split; [exact H3|].
  split; [exact H4|]. split; [exact H5|exact H6].
Qed.

Lemma extends_set_last_key self entry :
  decoder_wf self -> extends_decoder self (__field_decoder_set_last_key self entry).
Proof.
  intros Hwf. apply extends_same; [exact Hwf|]. unfold arena_edit. simpl. tauto.
Qed.

Lemma full_extends self reader head r self' reader' f :
  decoder_wf self ->
  __read_full_field_name self reader head = Done (r, self', reader', f) ->
  extends_decoder self self'.
Proof.
  intros Hwf H. pose proof Hwf as (_ & Hbsize & Hoff & _).
  unfold __read_full_field_name in H.
  destruct (_ =? _); [injection H as <- <- <- <-; now apply extends_refl|].
  destruct (__read_length reader head) as [[len reader1]| |] eqn:Hlen; simpl in H;
    try discriminate.
  apply read_length_nonneg in Hlen.
  destruct (__field_next_entry self len) as [[field self1]| |] eqn:Hnext; simpl in H;
    try discriminate.
  destruct (next_entry_inv _ _ _ _ Hnext) as [[-> ->]|(-> & Hroom & Hentry & Hbuf)].
  { injection H as <- <- <- <-. now apply extends_refl. }
  rewrite Hentry in H. simpl in H.
  pose proof (read_into_arena_edit self1 reader1 (dec_buf_off self) len
                ltac:(lia) Hlen ltac:(rewrite Hbuf; lia)) as Hedit.
  destruct (read_into_arena self1 reader1 (dec_buf_off self) len) as [self2 reader2].
  injection H as <- <- <- <-.
  exact (extends_new_entry self self1 self2 len _ _ Hwf Hlen Hnext Hedit).
Qed.

Lemma indexed_extends self reader head r self' reader' f :
  decoder_wf self ->
  __read_indexed_field_name self reader head = Done (r, self', reader', f) ->
  extends_decoder self self'.
Proof.
  intros Hwf H. unfold __read_indexed_field_name in H.
  destruct (__read_length reader head) as [[index reader1]| |]; simpl in H; try discriminate.
  destruct (mjoin _) as [entry|]; simpl in H; [|discriminate].
  injection H as <- <- <- <-. now apply extends_set_last_key.
Qed.

Lemma read_u8_range reader code reader' v :
  z_bytes_reader_read_u8 reader = (code, reader', Some v) -> 0 <= v < 256.
Proof.
  unfold z_bytes_reader_read_u8, __mem_bytes_reader_read_byte.
  destruct (_ <? _); intros [= <- <- <-]. apply land_255_range.
Qed.

Lemma prefix_extends self reader head r self' reader' f :
  decoder_wf self ->
  __read_prefix self reader head = Done (r, self', reader', f) ->
  extends_decoder self self'.
Proof.
  intros Hwf H. pose proof Hwf as (_ & Hbsize & Hoff & _).
  unfold __read_prefix in H.
  destruct (_ =? _); [injection H as <- <- <- <-; now apply extends_refl|].
  destruct (__read_length reader head) as [[len reader1]| |] eqn:Hlen; simpl in H;
    try discriminate.
  apply read_length_nonneg in Hlen.
  destruct (z_bytes_reader_read_u8 reader1) as [[code reader2] [prefix|]] eqn:Hprefix;
    simpl in H; [|discriminate].
  apply read_u8_range in Hprefix.
  destruct (__field_next_entry self (prefix + len)) as [[field self1]| |] eqn:Hnext;
    simpl in H; try discriminate.
  destruct (next_entry_inv _ _ _ _ Hnext) as [[-> ->]|(-> & Hroom & Hentry & Hbuf)].
  { injection H as <- <- <- <-. now apply extends_refl. }
  rewrite Hentry in H. simpl in H.
  destruct (arena_memcpy self1 (dec_buf_off self) _ prefix) as [self2| |] eqn:Hcpy;
    simpl in H; try discriminate.
  destruct (arena_memcpy_edit _ _ _ _ _ Hcpy ltac:(lia) ltac:(rewrite Hbuf; lia))
    as [Hedit1 _].
  pose proof Hedit1 as (_ & _ & _ & _ & _ & Hlen1 & _).
  pose proof (read_into_arena_edit self2 reader2 (dec_buf_off self + prefix) len
                ltac:(lia) Hlen ltac:(rewrite Hlen1, Hbuf; lia)) as Hedit2.
  destruct (read_into_arena self2 reader2 (dec_buf_off self + prefix) len)
    as [self3 reader3].
  injection H as <- <- <- <-.
  apply (extends_new_entry self self1 self3 (prefix + len) _ _ Hwf ltac:(lia) Hnext).
  apply (arena_edit_trans _ self2).
  - apply (arena_edit_weaken _ _ _ _ _ _ Hedit1); lia.
  - apply (arena_edit_weaken _ _ _ _ _ _ Hedit2); lia.
Qed.

Lemma prefix_suffix_extends self reader head r self' reader' f :
  decoder_wf self ->
  __read_prefix_suffix self reader head = Done (r, self', reader', f) ->
  extends_decoder self self'.
Proof.
  intros Hwf H. pose proof Hwf as (_ & Hbsize & Hoff & _).
  unfold __read_prefix_suffix in H.
  destruct (_ =? _); [injection H as <- <- <- <-; now apply extends_refl|].
  destruct (__read_length reader head) as [[len reader1]| |] eqn:Hlen; simpl in H;
    try discriminate.
  apply read_length_nonneg in Hlen.
  destruct (z_bytes_reader_read reader1 2) as [[code reader2] [delta|]]; simpl in H;
    [|discriminate].
  set (d0 := byte_at delta 0) in *. set (d1 := byte_at delta 1) in *.
  destruct (__field_next_entry self (d0 + d1 + len)) as [[field self1]| |] eqn:Hnext;
    simpl in H; try discriminate.
  destruct (next_entry_inv _ _ _ _ Hnext) as [[-> ->]|(-> & Hroom & Hentry & Hbuf)].
  { injection H as <- <- <- <-. now apply extends_refl. }
  rewrite Hentry in H. simpl in H.
  destruct (arena_memcpy self1 (dec_buf_off self) _ d0) as [self2| |] eqn:Hcpy;
    simpl in H; try discriminate.
  destruct (read_into_arena self2 reader2 (dec_buf_off self + d0) len)
    as [self3 reader3] eqn:Hread.
  destruct (arena_memcpy self3 (dec_buf_off self + d0 + len) _ d1) as [self4| |] eqn:Hcpy2;
    simpl in H; try discriminate.
  injection H as <- <- <- <-.
  (* both copies returned: the two deltas are not negative *)
  assert (Hd0 : 0 <= d0).
  { unfold arena_memcpy in Hcpy. destruct (f_name (last_field self1)); simpl in Hcpy;
      [|discriminate].
    destruct (mem_range _ _ d0) eqn:Hr; simpl in Hcpy; [|discriminate].
    pose proof (mem_range_length _ _ _ _ Hr). lia. }
  assert (Hd1 : 0 <= d1).
  { unfold arena_memcpy in Hcpy2.
    destruct (_ <$> f_name (last_field self3)); simpl in Hcpy2; [|discriminate].
    destruct (mem_range _ _ d1) eqn:Hr; simpl in Hcpy2; [|discriminate].
    pose proof (mem_range_length _ _ _ _ Hr). lia. }
  destruct (arena_memcpy_edit _ _ _ _ _ Hcpy ltac:(lia) ltac:(rewrite Hbuf; lia))
    as [Hedit1 _].
  pose proof Hedit1 as (_ & _ & _ & _ & _ & Hlen1 & _).
  pose proof (read_into_arena_edit self2 reader2 (dec_buf_off self + d0) len
                ltac:(lia) Hlen ltac:(rewrite Hlen1, Hbuf; lia)) as Hedit2.
  rewrite Hread in Hedit2. cbn [fst] in Hedit2.
  pose proof Hedit2 as (_ & _ & _ & _ & _ & Hlen2 & _).
  destruct (arena_memcpy_edit _ _ _ _ _ Hcpy2 ltac:(lia)
              ltac:(rewrite Hlen2, Hlen1, Hbuf; lia)) as [Hedit3 _].
  apply (extends_new_entry self self1 self4 (d0 + d1 + len) _ _ Hwf ltac:(lia) Hnext).
  apply (arena_edit_trans _ self2); [apply (arena_edit_weaken _ _ _ _ _ _ Hedit1); lia|].
  apply (arena_edit_trans _ self3); [apply (arena_edit_weaken _ _ _ _ _ _ Hedit2); lia|].
  apply (arena_edit_weaken _ _ _ _ _ _ Hedit3); lia.
Qed.

Lemma decoder_wf_init entries_size buffer :
  decoder_wf (yajbe_field_decoder_init_fixed entries_size buffer
                (Z.of_nat (List.length buffer))).
Proof.
  split; [apply appended_entries_init|]. simpl. split; [reflexivity|]. split; [lia|].
  intros i field Hi. apply lookup_replicate in Hi as [[=] _].
Qed.

(** X17: whatever the input, a call of [yajbe_field_decode] that returns
    keeps the names that the decoder handed out before: the entries and the
    used part of the arena are unchanged, and at most one entry is added.
    An added entry is the next one of the array, and its name starts where
    the used part of the arena ended and ends where it ends now, inside the
    arena.  So every field pointer returned earlier still designates the
    same bytes.  The invariant [decoder_wf] that this rests on holds in the
    initial state and after every such call. *)
Theorem decoded_names_stay_valid
    (self : yajbe_field_decoder_t) (reader : z_mem_bytes_reader_t)
    (r : Z) (self' : yajbe_field_decoder_t) (reader' : z_mem_bytes_reader_t)
    (field : option field_ptr) :
  decoder_wf self ->
  yajbe_field_decode self reader = Done (r, self', reader', field) ->
  extends_decoder self self'
  /\ (forall ptr name, field_bytes self ptr = Some name -> field_bytes self' ptr = Some name)
  /\ (forall (i : nat) entry,
        dec_entries_count self <= Z.of_nat i ->
        dec_entries self' !! i = Some (Some entry) ->
        Z.of_nat i = dec_entries_count self
        /\ dec_entries_count self' = dec_entries_count self + 1
        /\ exists o, f_name entry = Some o /\ dec_buf_off self <= o
                     /\ o + f_length entry = dec_buf_off self'
                     /\ dec_buf_off self' <= dec_buf_size self')
  /\ (forall entries_size buffer,
        decoder_wf (yajbe_field_decoder_init_fixed entries_size buffer
                      (Z.of_nat (List.length buffer)))).
Proof.
  intros Hwf H.
  assert (Hext : extends_decoder self self').
  { unfold yajbe_field_decode in H.
    destruct (z_bytes_reader_read_u8 reader) as [[? reader1] [head|]]; simpl in H;
      [|discriminate].
    destruct (_ =? 4); [exact (full_extends _ _ _ _ _ _ _ Hwf H)|].
    destruct (_ =? 5); [exact (indexed_extends _ _ _ _ _ _ _ Hwf H)|].
    destruct (_ =? 6); [exact (prefix_extends _ _ _ _ _ _ _ Hwf H)|].
    destruct (_ =? 7); [exact (prefix_suffix_extends _ _ _ _ _ _ _ Hwf H)|].
    injection H as <- <- <- <-. now apply extends_refl. }
  split; [exact Hext|]. split; [|split; [|intros; apply decoder_wf_init]].
  2: { intros i entry Hge Hi.
       destruct Hext as (((Hcount' & Hslots') & _ & Hoff' & _) & Hcount & _ & _ & _ & Hnew).
       destruct (Hnew i entry Hge Hi) as (Hidx & Hname & Hoff).
       split; [exact Hidx|]. split.
       - destruct (Hslots' i) as [_ Hnone]. rewrite Hi in Hnone.
         destruct (Z.le_gt_cases (dec_entries_count self') (Z.of_nat i)) as [Hle|Hgt];
           [specialize (Hnone Hle); discriminate|lia].
       - exists (dec_buf_off self). split; [exact Hname|]. lia. }
  intros ptr name Hname.
  destruct Hext as ((_ & Hbsize' & Hoff' & _) & _ & Hgrow & Hagree & Hentries & _).
  destruct Hwf as (_ & Hbsize & Hoff & Hnames).
  unfold field_bytes in *.
  destruct ptr as [[|i]|]; try discriminate.
  destruct (dec_entries self !! Z.to_nat i) as [[entry|]|] eqn:Hentry; try discriminate.
  rewrite (Hentries _ _ Hentry). simpl in *.
  destruct (Hnames _ _ Hentry) as (o & Ho & Ho0 & Hl0 & Hin). rewrite Ho in *. simpl in *.
  apply mem_range_spec in Hname as (_ & _ & Hobj & Hlen & Hlook).
  apply mem_range_spec. repeat split; try lia.
  intros j Hj. rewrite (Hlook j Hj). symmetry. apply Hagree. lia.
Qed.

Lemma decoded_names_stay_valid_witness :
  exists self' reader' field,
    yajbe_field_decode (yajbe_field_decoder_init_fixed 2 (replicate 8 0) 8)
                       (z_mem_bytes_reader_init (0x83 :: str "foo") 4)
    = Done (0, self', reader', field)
    /\ extends_decoder (yajbe_field_decoder_init_fixed 2 (replicate 8 0) 8) self'
    /\ field_bytes self' field = Some (str "foo").
Proof.
  destruct (yajbe_field_decode (yajbe_field_decoder_init_fixed 2 (replicate 8 0) 8)
              (z_mem_bytes_reader_init (0x83 :: str "foo") 4))
    as [[[[r self'] reader'] field]| |] eqn:Hdec;
    [|vm_compute in Hdec; discriminate..].
  destruct (decoded_names_stay_valid _ _ _ _ _ _ (decoder_wf_init 2 (replicate 8 0)) Hdec)
    as (Hext & _).
  exists self', reader', field.
  vm_compute in Hdec. injection Hdec as <- <- <- <-.
  split; [reflexivity|]. split; [exact Hext|reflexivity].
Defined.

(** ** Objects in the streaming form *)

Lemma decode_next_field_reader d : field_reader (yajbe_decode_next d).2 = field_reader d.
Proof.
  unfold yajbe_decode_next.
  destruct (z_bytes_reader_read_u8 (reader d)) as [[r rd] head].
  destruct (r <? 0); [reflexivity|].
  now rewrite (proj2 (proj2 (proj2 (decode_next_switch_result _)))).
Qed.

Lemma decode_next_value_field_reader like d value0 buflen r d1 x :
  decode_next_value like d value0 buflen = Done (r, d1, x) ->
  field_reader d1 = field_reader d.
Proof.
  pose proof (decode_next_field_reader d) as Hnext.
  unfold decode_next_value, yajbe_decode_next_null, yajbe_decode_next_bool,
    yajbe_decode_next_int, yajbe_decode_next_float, yajbe_decode_next_double,
    yajbe_decode_next_bytes, yajbe_decode_next_string, yajbe_decode_bool,
    yajbe_decode_int, yajbe_decode_float, yajbe_decode_double, yajbe_decode_bytes,
    yajbe_decode_string, __decode_int_positive, __decode_int_negative, __decode_small_int.
  destruct (yajbe_decode_next d) as [r0 d0]. cbn [snd] in Hnext.
  intros H. destruct like; repeat case_match; simplify_eq; simpl in *;
    repeat case_match; simplify_eq; simpl; try congruence.
  all: destruct (item_length d0) as [len|]; simpl in H; [|discriminate].
  all: match type of H with
       | context [z_bytes_reader_read_uint ?a ?b] =>
           destruct (z_bytes_reader_read_uint a b) as [[r1 rd] v1]
       | context [z_bytes_reader_read ?a ?b] =>
           destruct (z_bytes_reader_read a b) as [[r1 rd] v1]
       | _ => idtac
       end; simpl in H; repeat case_match; simplify_eq; simpl; try congruence.
  all: repeat first [ progress cbn [mbind outcome_bind] in H
                    | case_match | progress simplify_eq ]; simpl; congruence.
Qed.

Lemma members_room_nonneg members : 0 <= members_room members.
Proof.
  induction members as [|[key v] members IH]; simpl; [lia|].
  unfold strlen, token_room, payload_length. destruct v; lia.
Qed.

Lemma members_steps (members : list (list Z * primitive)) :
  forall last seen fw self,
    field_writer self = Some fw ->
    table_of seen fw ->
    last_key fw = last -> last_keylen fw = from_option strlen 0 last ->
    wf_writer (writer self) -> has_room (writer self) (members_room members) ->
    Forall (fun m => strlen m.1 <= 65819 /\ encodable m.2) members ->
    Z.of_nat (List.length (first_seen_from seen (map fst members))) <= 65820 ->
    Z.of_nat (List.length (first_seen_from seen (map fst members))) <= enc_entries_size fw ->
    avoids_suffix_form last seen (map fst members) = true ->
    exists self1 stream,
      encode_members self members = Done (flat_map (fun _ => [0; 0]) members, self1)
      /\ appended (writer self) (writer self1) stream
      /\ Z.of_nat (List.length stream) <= members_room members
      /\ forall d fr rest value0 buflen,
           field_reader d = Some fr -> decoder_holds seen last fr ->
           wf_reader (reader d) -> reader_rest (reader d) = stream ++ rest ->
           Z.of_nat (List.length (first_seen_from seen (map fst members)))
           <= dec_entries_size fr ->
           dec_buf_off fr + names_room (map fst members) <= dec_buf_size fr ->
           Forall (fun m => payload_length m.2 <= buflen) members ->
           exists d1,
             decode_members (map snd members) d value0 buflen
             = Done (map (fun m => (Some m.1, Some m.2)) members, d1)
             /\ wf_reader (reader d1) /\ reader_rest (reader d1) = rest.
Proof.
  induction members as [|[key v] members IH];
    intros last seen fw self Hfw Hinv Hlast Hlastlen Hwf Hroom Hall Hmax Hcap Havoid.
  - exists self, []. split; [reflexivity|]. split; [now apply appended_nothing|].
    split; [simpl; lia|].
    intros d fr rest value0 buflen _ _ Hwfr Hrest _ _ _. exists d. simpl in *. tauto.
  - apply Forall_cons in Hall as [[Hlen Hv] Hall].
    cbn [map fst snd members_room fold_right first_seen_from avoids_suffix_form]
      in Hroom, Hmax, Hcap, Havoid.
    fold (members_room members) in Hroom.
    pose proof (members_room_nonneg members) as Hnn.
    pose proof (field_token_length last seen key) as Htok.
    assert (Hv0 : 0 <= token_room v) by (unfold token_room, payload_length; destruct v; lia).
    assert (Hmax' : Z.of_nat (List.length seen) <= 65820).
    { pose proof (first_seen_from_length seen (map fst members)).
      pose proof (first_seen_from_length (seen ++ [key]) (map fst members)) as H'.
      rewrite length_app in H'. simpl in H'. destruct (decide (key ∈ seen)); lia. }
    destruct (encode_key_token last seen fw (writer self) key Hinv Hlast Hlastlen Hwf
                ltac:(unfold has_room in *; lia) Hlen Hmax')
      as (fw1 & w1 & Hfield & Hinv1 & Hlast1 & Hlastlen1 & Hsz1 & Happ1).
    { intros Hnew. rewrite decide_False in Hcap by assumption.
      pose proof (first_seen_from_length (seen ++ [key]) (map fst members)) as H'.
      rewrite length_app in H'. simpl in H'. lia. }
    { intros Hnew. rewrite decide_False in Havoid by assumption.
      apply andb_true_iff in Havoid as [Havoid _]. now apply negb_true_iff. }
    destruct (appended_room _ _ _ (token_room v + members_room members) Happ1)
      as [Hwf1 Hroom1]; [unfold has_room in *; lia|].
    set (self1 := {| writer := w1; field_writer := Some fw1 |}).
    destruct (value_step self1 v Hv Hwf1 ltac:(unfold has_room in *; simpl; lia))
      as (self2 & token & Hencode & Hemits & Htoken & Hdecode).
    pose proof Hemits as (_ & Hfw2 & Happ2). cbn [snd] in Hfw2, Happ2.
    destruct (appended_room _ _ _ (members_room members) Happ2) as [Hwf2 Hroom2];
      [unfold has_room in *; simpl in *; lia|].
    destruct (IH (Some key) (if decide (key ∈ seen) then seen else seen ++ [key]) fw1 self2)
      as (self3 & stream & Hencodes & Happ3 & Hstream & Hdecodes).
    { exact Hfw2. }
    { exact Hinv1. }
    { exact Hlast1. }
    { exact Hlastlen1. }
    { exact Hwf2. }
    { exact Hroom2. }
    { exact Hall. }
    { destruct (decide (key ∈ seen)); assumption. }
    { rewrite Hsz1. destruct (decide (key ∈ seen)); assumption. }
    { destruct (decide (key ∈ seen)); [assumption|].
      now apply andb_true_iff in Havoid as [_ Havoid]. }
    exists self3, (field_token last seen key ++ token ++ stream). split.
    { cbn [encode_members]. unfold yajbe_encode_object_field. rewrite Hfw.
      cbn [written mbind outcome_bind]. rewrite Hfield. cbn [mbind outcome_bind].
      fold self1. rewrite Hencode. cbn [mbind outcome_bind]. rewrite Hencodes.
      reflexivity. }
    split.
    { exact (appended_trans _ _ _ _ _ Happ1 (appended_trans _ _ _ _ _ Happ2 Happ3)). }
    split.
    { cbn [members_room fold_right fst snd]. fold (members_room members).
      rewrite !length_app. lia. }
    intros d fr rest value0 buflen Hfr Hholds Hwfr Hrest Hdcap Hdroom Hbuf.
    apply Forall_cons in Hbuf as [Hb Hbs].
    cbn [map fst snd names_room fold_right first_seen_from] in Hdcap, Hdroom.
    fold (names_room (map fst members)) in Hdroom.
    pose proof (names_room_nonneg (map fst members)) as Hnn'.
    rewrite <- app_assoc in Hrest.
    destruct (decode_key_token last seen fr (reader d) key _ Hholds Hwfr Hrest Hlen Hmax')
      as (fr1 & r1 & field & Hdfield & Hbytes & Hholds1 & Hwfr1 & Hrest1
          & Hdsz1 & Hbsz1 & Hoff1).
    { intros Hnew. rewrite decide_False in Hdcap by assumption.
      pose proof (first_seen_from_length (seen ++ [key]) (map fst members)) as H'.
      rewrite length_app in H'. simpl in H'. unfold strlen in *. lia. }
    set (d1 := {| reader := r1; field_reader := Some fr1;
                  item_head := item_head d; item_type := item_type d;
                  item_length := item_length d |}).
    rewrite <- app_assoc in Hrest1.
    destruct (Hdecode d1 (stream ++ rest) value0 buflen Hwfr1 Hrest1 Hb)
      as (t & d0 & d2 & _ & _ & _ & Hvalue & Hwfr2 & Hrest2).
    pose proof (decode_next_value_field_reader _ _ _ _ _ _ _ Hvalue) as Hfr2.
    destruct (Hdecodes d2 fr1 rest value0 buflen Hfr2 Hholds1 Hwfr2 Hrest2)
      as (d3 & Hvalues & Hwfr3 & Hrest3).
    { rewrite Hdsz1. destruct (decide (key ∈ seen)); assumption. }
    { rewrite Hbsz1. lia. }
    { exact Hbs. }
    exists d3. split; [|split; assumption].
    cbn [map snd decode_members]. unfold yajbe_decode_object_field. rewrite Hfr.
    cbn [written mbind outcome_bind]. rewrite Hdfield. cbn [mbind outcome_bind].
    fold d1. rewrite Hvalue. cbn [mbind outcome_bind]. rewrite Hvalues.
    cbn [mbind outcome_bind]. unfold decoded_name. cbn [field_reader d1 mbind option_bind].
    rewrite Hbytes. reflexivity.
Qed.

(** X18: an object written in the streaming form reads back member by
    member.  The conditions, with the set-up of examples/demo-yajbe.c: at
    most 65820 distinct keys, each key of at most 65819 bytes; no key takes
    the prefix+suffix form (a key that is not in the table yet shares with
    the key before it, when that one has more than four bytes, a suffix of
    at most two bytes as [__suffix] counts it); the values are of the
    encodable domain, and the payload of every string or byte string fits
    the caller's buffer of [buflen] bytes; an encoder table of [2^k] slots,
    [k < 64], and a decoder table that hold the distinct keys; a stream
    buffer with room for the two markers and, for each member, its key, its
    payload and thirteen bytes more; an arena with room for the bytes of all
    the keys.  Then the start marker, every [yajbe_encode_object_field],
    every value and the end marker are written with code 0; reading the
    bytes written,
    [yajbe_decode_next] returns YAJBE_OBJECT_EOF, then every pair of
    [yajbe_decode_object_field] and the combined read of the value's kind
    returns the member's name and value in order, and a last
    [yajbe_decode_next] returns YAJBE_EOF for the end marker at the end of
    the stream. *)
Theorem object_roundtrip
    (members : list (list Z * primitive)) (k entries_size : Z)
    (buffer buf_fields : list Z) (value0 : option Z) (buflen : Z) :
  0 <= k < 64 ->
  Z.of_nat (List.length (first_seen (map fst members))) <= 2 ^ k ->
  Z.of_nat (List.length (first_seen (map fst members))) <= entries_size ->
  Z.of_nat (List.length (first_seen (map fst members))) <= 65820 ->
  Forall (fun m => strlen m.1 <= 65819 /\ encodable m.2) members ->
  Forall (fun m => payload_length m.2 <= buflen) members ->
  avoids_suffix_form None [] (map fst members) = true ->
  members_room members + 2 <= Z.of_nat (List.length buffer) ->
  names_room (map fst members) <= Z.of_nat (List.length buf_fields) ->
  exists e1 d1,
    encode_object (demo_encoder (2 ^ k) buffer) members
    = Done (0 :: flat_map (fun _ => [0; 0]) members ++ [0], e1)
    /\ decode_object (map snd members) (demo_decoder entries_size buf_fields e1)
         value0 buflen
       = Done (YAJBE_OBJECT_EOF, map (fun m => (Some m.1, Some m.2)) members,
               YAJBE_EOF, d1)
    /\ reader_rest (reader d1) = [].
Proof.
  intros Hk Hcap Hdcap Hmax Hall Hbuf Havoid Hroom Hnames.
  pose proof (members_room_nonneg members) as Hnn.
  set (e0 := demo_encoder (2 ^ k) buffer).
  assert (Hwf0 : wf_writer (writer e0)) by (unfold wf_writer; simpl; lia).
  pose proof (emits_u8 e0 0x3f Hwf0 ltac:(unfold has_room; simpl; lia)) as Hstart.
  unfold encode_object, yajbe_encode_object_start.
  destruct (with_writer e0 _) as [r ea]. destruct Hstart as (Hr & Hfa & Happa).
  cbn [fst snd] in Hr, Hfa, Happa. subst r. cbn [Z.ltb Z.compare].
  destruct (appended_room _ _ _ (members_room members + 1) Happa) as [Hwfa Hrooma];
    [unfold has_room; simpl; lia|].
  destruct (members_steps members None [] (yajbe_field_encoder_init_fixed (2 ^ k)) ea
              Hfa (table_of_init k Hk) eq_refl eq_refl Hwfa
              ltac:(unfold has_room in *; lia) Hall Hmax Hcap Havoid)
    as (eb & stream & Hencode & Happb & Hstream & Hdecode).
  rewrite Hencode. cbn [mbind outcome_bind].
  destruct (appended_room _ _ _ 1 Happb) as [Hwfb Hroomb];
    [unfold has_room in *; lia|].
  pose proof (emits_u8 eb 1 Hwfb Hroomb) as Hend.
  unfold yajbe_encode_object_end.
  destruct (with_writer eb _) as [r ec]. destruct Hend as (Hr & _ & Happc).
  cbn [fst snd] in Hr, Happc. subst r.
  pose proof (appended_trans _ _ _ _ _ Happa (appended_trans _ _ _ _ _ Happb Happc))
    as (Hwfc & _ & Hoffc & Hbytes).
  simpl in Hbytes.
  set (d0 := demo_decoder entries_size buf_fields ec).
  assert (Hwfd : wf_reader (reader d0)).
  { destruct Hwfc as (Hc1 & Hc2).
    unfold wf_reader, d0, demo_decoder. simpl. unfold z_mem_bytes_writer_length. lia. }
  assert (Hrest : reader_rest (reader d0) = 0x3f :: stream ++ [1]).
  { unfold reader_rest, d0, demo_decoder. simpl. unfold z_mem_bytes_writer_length.
    unfold writer_bytes in Hbytes. rewrite Hbytes. reflexivity. }
  assert (Hobject : exists d1,
             decode_object (map snd members) d0 value0 buflen
             = Done (YAJBE_OBJECT_EOF, map (fun m => (Some m.1, Some m.2)) members,
                     YAJBE_EOF, d1)
             /\ reader_rest (reader d1) = []);
    [|destruct Hobject as (d1 & Hobject & Hrestd); exists ec, d1;
      split; [reflexivity|]; split; assumption].
  destruct (decode_next_head d0 0x3f _ Hwfd ltac:(lia) Hrest) as (Hnext & Hwfd1 & Hrest1).
  unfold decode_object. rewrite Hnext.
  set (da := with_item_length (at_head d0 63) (Some (int64 (Z.shiftl 1 63)))).
  change (decode_next_switch (at_head d0 63)) with (YAJBE_OBJECT_EOF, da).
  destruct (Hdecode da _ [1] value0 buflen eq_refl
              (decoder_holds_init entries_size buf_fields ltac:(lia)) Hwfd1 Hrest1)
    as (d1 & Hmembers & Hwfm & Hrestm).
  { exact Hdcap. }
  { simpl. lia. }
  { exact Hbuf. }
  rewrite Hmembers. cbn [mbind outcome_bind].
  destruct (decode_next_head d1 1 [] Hwfm ltac:(lia) Hrestm) as (Hnext1 & _ & Hrest2).
  rewrite Hnext1.
  change (decode_next_switch (at_head d1 1)) with (YAJBE_EOF, at_head d1 1).
  exists (at_head d1 1). split; [reflexivity|exact Hrest2].
Qed.

Lemma object_roundtrip_witness :
  exists e1 d1,
    encode_object (demo_encoder (2 ^ 4) (replicate 256 0)) demo_members
    = Done (0 :: flat_map (fun _ => [0; 0]) demo_members ++ [0], e1)
    /\ decode_object (map snd demo_members) (demo_decoder 16 (replicate 256 0) e1) None 64
       = Done (YAJBE_OBJECT_EOF, map (fun m => (Some m.1, Some m.2)) demo_members,
               YAJBE_EOF, d1)
    /\ reader_rest (reader d1) = [].
Proof.
  apply (object_roundtrip demo_members 4 16 (replicate 256 0) (replicate 256 0) None 64).
  - lia.
  - vm_compute. discriminate.
  - vm_compute. discriminate.
  - vm_compute. discriminate.
  - repeat constructor; vm_compute; try discriminate; lia.
  - repeat constructor; vm_compute; discriminate.
  - vm_compute. reflexivity.
  - vm_compute. discriminate.
  - vm_compute. discriminate.
Defined.

(** ** Writes that fail inside the field encoder *)

(** A new key when there is no last key, or one of at most four bytes: the
    full form runs, its code is dropped and the key is added to the table. *)
Lemma encode_new_key_full_form seen self w key :
  table_of seen self -> key ∉ seen ->
  Z.of_nat (List.length seen) < enc_entries_size self ->
  last_keylen self <= 4 ->
  exists self',
    table_of (seen ++ [key]) self'
    /\ last_key self' = Some key
    /\ forall r w', __encode_full_field_name w key (strlen key) = Done (r, w') ->
                    yajbe_field_encode self w key (strlen key) = Done (0, self', w').
Proof.
  intros Hinv Hnew Hcap Hlast.
  destruct (hadd_absent seen self key Hinv Hnew Hcap) as (self1 & Hadd & Hinv1 & _).
  exists (set_last_key self1 key (strlen key)).
  split; [now apply table_of_set_last_key|]. split; [reflexivity|].
  intros r w' Hfull. unfold yajbe_field_encode, yajbe_field_hencode.
  fold (hash_of key). rewrite (hget_absent seen self Hinv key Hnew). simpl.
  destruct (Z.ltb_spec 4 (last_keylen self)); [lia|]. rewrite andb_false_r.
  rewrite Hfull. simpl. rewrite Hadd. reflexivity.
Qed.

(** X19: a key of more than 65819 bytes is written without its header and
    reported as written.  [__write_length] refuses the length and writes
    nothing, [__encode_full_field_name] drops that result and copies the key:
    for a new key in a table with a free slot, after no key or a key of at
    most four bytes, and a writer with room for the key,
    [yajbe_field_encode] returns 0, the key is added to the table, and the
    stream has grown by the bytes of the key alone. *)
Theorem long_key_is_written_without_header seen self w key :
  table_of seen self -> key ∉ seen ->
  Z.of_nat (List.length seen) < enc_entries_size self ->
  last_keylen self <= 4 ->
  wf_writer w -> has_room w (strlen key) ->
  65819 < strlen key ->
  exists self' w',
    yajbe_field_encode self w key (strlen key) = Done (0, self', w')
    /\ table_of (seen ++ [key]) self'
    /\ appended w w' key.
Proof.
  intros Hinv Hnew Hcap Hlast Hwf Hroom Hlong.
  destruct (encode_new_key_full_form seen self w key Hinv Hnew Hcap Hlast)
    as (self' & Hinv' & _ & Hrun).
  destruct (write_bytes_appended w key Hwf Hroom) as (w' & Hw & Happ).
  exists self', w'. split; [|split; assumption].
  apply (Hrun 0). unfold __encode_full_field_name, __write_length.
  destruct (Z.ltb_spec (strlen key) 30); [lia|].
  destruct (Z.leb_spec (strlen key) 284); [lia|].
  destruct (Z.leb_spec (strlen key) 65819); [lia|].
  cbn [snd]. unfold z_bytes_writer_write, strlen. rewrite Hw. reflexivity.
Qed.

Lemma long_key_is_written_without_header_witness :
  exists self' w',
    yajbe_field_encode (yajbe_field_encoder_init_fixed (2 ^ 4))
      (z_mem_bytes_writer_init_fixed (replicate (Z.to_nat 65820) 0) 65820)
      (replicate (Z.to_nat 65820) 97) (strlen (replicate (Z.to_nat 65820) 97))
    = Done (0, self', w')
    /\ table_of ([] ++ [replicate (Z.to_nat 65820) 97]) self'
    /\ appended (z_mem_bytes_writer_init_fixed (replicate (Z.to_nat 65820) 0) 65820) w'
                (replicate (Z.to_nat 65820) 97).
Proof.
  apply (long_key_is_written_without_header [] (yajbe_field_encoder_init_fixed (2 ^ 4))).
  - apply table_of_init. lia.
  - apply not_elem_of_nil.
  - vm_compute. reflexivity.
  - vm_compute. discriminate.
  - unfold wf_writer. vm_compute. split; [reflexivity|]. split; discriminate.
  - vm_compute. discriminate.
  - vm_compute. reflexivity.
Defined.

(** X20: a key that does not fit is reported as written, and its header
    stays in the stream.  For a new key of at most 65819 bytes in a table
    with a free slot, after no key or a key of at most four bytes, and a
    writer with room for the header but not for the header and the key:
    [yajbe_field_encode] returns 0, the key is added to the table, and the
    stream has grown by the header alone. *)
Theorem key_without_room_leaves_its_header seen self w key :
  table_of seen self -> key ∉ seen ->
  Z.of_nat (List.length seen) < enc_entries_size self ->
  last_keylen self <= 4 ->
  wf_writer w -> strlen key <= 65819 ->
  has_room w (Z.of_nat (List.length (length_header 0x80 (strlen key)))) ->
  ~ has_room w (Z.of_nat (List.length (length_header 0x80 (strlen key))) + strlen key) ->
  exists self' w',
    yajbe_field_encode self w key (strlen key) = Done (0, self', w')
    /\ table_of (seen ++ [key]) self'
    /\ appended w w' (length_header 0x80 (strlen key)).
Proof.
  intros Hinv Hnew Hcap Hlast Hwf Hlen Hroom Hnoroom.
  destruct (encode_new_key_full_form seen self w key Hinv Hnew Hcap Hlast)
    as (self' & Hinv' & _ & Hrun).
  destruct (write_length_appended w 0x80 (strlen key)) as (w1 & Hw1 & Happ1);
    [unfold field_head; tauto|unfold strlen in *; lia|assumption|assumption|].
  exists self', w1. split; [|split; assumption].
  apply (Hrun 0). unfold __encode_full_field_name. rewrite Hw1. cbn [snd].
  unfold z_bytes_writer_write, __mem_bytes_writer_write_bytes.
  destruct Happ1 as (_ & Hsz & Hoff & _). unfold has_room in Hnoroom.
  destruct (Z.ltb_spec (w_bufsize w1) (w_offset w1 + strlen key)); [reflexivity|lia].
Qed.

Lemma key_without_room_leaves_its_header_witness :
  exists self' w',
    yajbe_field_encode (yajbe_field_encoder_init_fixed (2 ^ 4))
      (z_mem_bytes_writer_init_fixed [0; 0] 2) (str "foo") (strlen (str "foo"))
    = Done (0, self', w')
    /\ table_of ([] ++ [str "foo"]) self'
    /\ appended (z_mem_bytes_writer_init_fixed [0; 0] 2) w'
                (length_header 0x80 (strlen (str "foo"))).
Proof.
  apply (key_without_room_leaves_its_header [] (yajbe_field_encoder_init_fixed (2 ^ 4))).
  - apply table_of_init. lia.
  - apply not_elem_of_nil.
  - vm_compute. reflexivity.
  - vm_compute. discriminate.
  - unfold wf_writer. vm_compute. split; [reflexivity|]. split; discriminate.
  - vm_compute. discriminate.
  - vm_compute. discriminate.
  - vm_compute. intros H. now apply H.
Defined.
